(** * Black Box (blackbox.c): coordinate mapper, ray tracer, consistency
      checker, move state machine, parameters and pointer input.

    The C code is embedded shallowly.  [int] fields are integers of [Z]
    (the counters stay far below the bounds of an [int], so their arithmetic
    is that of [Z]); the two [unsigned int] arrays of a [game_state] are
    lists of [Z] holding values below [2^32]; every array access carries its
    bounds check, so a read or write outside the allocated block, and a
    failed [assert], end the run in [Fault].  The only unbounded loop, the
    [while (1)] of [fire_laser], runs on a step budget and ends in
    [OutOfFuel] when the budget is used up.

    Around that core the file embeds the parameters with their presets,
    their text form and their dialogue, the validation and the generation
    of a description, and the pointer input with the pixel geometry it
    relies on.  [hex2bin], [obfuscate_bitmap] and [random_upto] live in
    other files: a description enters as the bitmap they decode, and the
    generator takes [random_upto] as a variable that stays below its limit.

    [execute_move] is given a second time over a heap of blocks, with the
    states behind pointers as in the C code, to show that it writes to its
    copy only; that form is shown to do what the form on values does.

    The file has three parts: the code, the notions the statements are
    written in, and the properties.  Three slips of the code show on boards
    that are not square: the [GRID] macro strides by [h+2] where the rows
    are [w+2] long, [grid2range] bounds x by the height, and [isball] bounds
    x by the height and y by the width.  The properties are therefore given
    twice where they touch the grid: as what the code does on a board that
    is not square, and as what it guarantees on square boards. *)

From Stdlib Require Import ZArith Lia List String Ascii Bool.
From stdpp Require Import base option list gmap.

Local Open Scope Z_scope.

(** ** Outcomes of a run *)

Inductive outcome (A : Type) : Type :=
| Done (a : A)
| Fault
| OutOfFuel.

Arguments Done {A} a.
Arguments Fault {A}.
Arguments OutOfFuel {A}.

#[global] Instance outcome_ret : MRet outcome := fun _ a => Done a.
#[global] Instance outcome_bind : MBind outcome := fun _ _ f m =>
  match m with
  | Done a => f a
  | Fault => Fault
  | OutOfFuel => OutOfFuel
  end.

(** [assert(e)] where [e] yields a value through an out-parameter. *)
Definition assert_some {A} (o : option A) : outcome A :=
  match o with
  | Some a => Done a
  | None => Fault
  end.

(** [assert(c)] for a plain condition. *)
Definition assert_true (c : bool) : outcome unit :=
  if c then Done tt else Fault.

(** ** Machine integers *)

Definition UINT_MOD : Z := 4294967296.
Definition INT_MAX : Z := 2147483647.

(** Conversion of an [int] to [unsigned int]. *)
Definition to_unsigned (z : Z) : Z := z mod UINT_MOD.

(** Conversion of an [unsigned int] to [int] (two's complement). *)
Definition to_int (u : Z) : Z := if u <=? INT_MAX then u else u - UINT_MOD.

(** [~m] on an [int] constant, seen as the [unsigned int] operand of [&=]. *)
Definition unot (m : Z) : Z := to_unsigned (Z.lnot m).

Definition BALL_CORRECT : Z := 1.
Definition BALL_GUESS : Z := 2.
Definition BALL_LOCK : Z := 4.

Definition LASER_FLAGMASK : Z := 63488.
Definition LASER_OMITTED : Z := 2048.
Definition LASER_REFLECT : Z := 4096.
Definition LASER_HIT : Z := 8192.
Definition LASER_WRONG : Z := 16384.
Definition LASER_FLASHED : Z := 32768.
Definition LASER_EMPTY : Z := to_unsigned (Z.lnot 0).

(** ** Arrays with checked accesses *)

Definition read (a : list Z) (i : Z) : outcome Z :=
  if i <? 0 then Fault
  else match a !! Z.to_nat i with
       | Some v => Done v
       | None => Fault
       end.

Definition write (a : list Z) (i v : Z) : outcome (list Z) :=
  if (i <? 0) || (Z.of_nat (length a) <=? i) then Fault
  else Done (<[Z.to_nat i := v]> a).

(** ** The game state *)

Record game_state : Type := mk_state {
  w : Z; h : Z; minballs : Z; maxballs : Z; nballs : Z; nlasers : Z;
  grid : list Z;
  exits : list Z;
  done : Z;
  laserno : Z;
  nguesses : Z; reveal : Z; nright : Z; nwrong : Z; nmissed : Z
}.

Definition with_grid (s : game_state) (g : list Z) : game_state :=
  mk_state (w s) (h s) (minballs s) (maxballs s) (nballs s) (nlasers s)
           g (exits s) (done s) (laserno s)
           (nguesses s) (reveal s) (nright s) (nwrong s) (nmissed s).

Definition with_exits (s : game_state) (e : list Z) : game_state :=
  mk_state (w s) (h s) (minballs s) (maxballs s) (nballs s) (nlasers s)
           (grid s) e (done s) (laserno s)
           (nguesses s) (reveal s) (nright s) (nwrong s) (nmissed s).

Definition with_laserno (s : game_state) (n : Z) : game_state :=
  mk_state (w s) (h s) (minballs s) (maxballs s) (nballs s) (nlasers s)
           (grid s) (exits s) (done s) n
           (nguesses s) (reveal s) (nright s) (nwrong s) (nmissed s).

Definition with_nguesses (s : game_state) (n : Z) : game_state :=
  mk_state (w s) (h s) (minballs s) (maxballs s) (nballs s) (nlasers s)
           (grid s) (exits s) (done s) (laserno s)
           n (reveal s) (nright s) (nwrong s) (nmissed s).

Definition with_reveal (s : game_state) (r : Z) : game_state :=
  mk_state (w s) (h s) (minballs s) (maxballs s) (nballs s) (nlasers s)
           (grid s) (exits s) (done s) (laserno s)
           (nguesses s) r (nright s) (nwrong s) (nmissed s).

Definition with_counts (s : game_state) (r wr m : Z) : game_state :=
  mk_state (w s) (h s) (minballs s) (maxballs s) (nballs s) (nlasers s)
           (grid s) (exits s) (done s) (laserno s)
           (nguesses s) (reveal s) r wr m.

(** [#define GRID(s,x,y) ((s)->grid[(y)*((s)->h+2) + (x)])] *)
Definition GRID_index (s : game_state) (x y : Z) : Z := y * (h s + 2) + x.

Definition GRID (s : game_state) (x y : Z) : outcome Z :=
  read (grid s) (GRID_index s x y).

Definition GRID_set (s : game_state) (x y v : Z) : outcome game_state :=
  g ← write (grid s) (GRID_index s x y) v; mret (with_grid s g).

Definition exits_get (s : game_state) (i : Z) : outcome Z := read (exits s) i.

Definition exits_set (s : game_state) (i v : Z) : outcome game_state :=
  e ← write (exits s) i v; mret (with_exits s e).

(** ** Coordinate mapper *)

Definition DIR_UP : Z := 0.
Definition DIR_RIGHT : Z := 1.
Definition DIR_DOWN : Z := 2.
Definition DIR_LEFT : Z := 3.

Definition offsets (off : Z) : Z * Z :=
  if off =? 0 then (0, -1)
  else if off =? 1 then (1, 0)
  else if off =? 2 then (0, 1)
  else (-1, 0).

(** The [OFFSET] macro: [o] is first brought into [0..3]. *)
Definition OFFSET (gx gy o : Z) : Z * Z :=
  let off := o mod 4 in
  (gx + fst (offsets off), gy + snd (offsets off)).

Definition range2grid (s : game_state) (rangeno : Z) : option (Z * Z * Z) :=
  if rangeno <? 0 then None
  else if rangeno <? w s then Some (rangeno + 1, 0, DIR_DOWN)
  else let rangeno := rangeno - w s in
  if rangeno <? h s then Some (w s + 1, rangeno + 1, DIR_LEFT)
  else let rangeno := rangeno - h s in
  if rangeno <? w s then Some (w s - rangeno, h s + 1, DIR_UP)
  else let rangeno := rangeno - w s in
  if rangeno <? h s then Some (0, h s - rangeno, DIR_RIGHT)
  else None.

Definition grid2range (s : game_state) (x y : Z) : option Z :=
  let x1 := w s + 1 in
  let y1 := h s + 1 in
  if (0 <? x) && (x <? x1) && (0 <? y) && (y <? y1) then None
  else if (x <? 0) || (y1 <? x) || (y <? 0) || (y1 <? y) then None
  else if ((x =? 0) || (x =? x1)) && ((y =? 0) || (y =? y1)) then None
  else if y =? 0 then Some (x - 1)
  else if x =? x1 then Some (y - 1 + w s)
  else if y =? y1 then Some ((w s - x) + w s + h s)
  else Some ((h s - y) + w s + w s + h s).

(** ** Ray tracer *)

Inductive look : Type := LOOK_LEFT | LOOK_FORWARD | LOOK_RIGHT.

Definition isball (s : game_state) (gx gy direction : Z) (lookwhere : look)
  : outcome bool :=
  let '(gx, gy) := OFFSET gx gy direction in
  let '(gx, gy) :=
    match lookwhere with
    | LOOK_LEFT => OFFSET gx gy (direction - 1)
    | LOOK_RIGHT => OFFSET gx gy (direction + 1)
    | LOOK_FORWARD => (gx, gy)
    end in
  if (gx <? 1) || (gy <? 1) || (h s <? gx) || (w s <? gy) then Done false
  else v ← GRID s gx gy;
       mret (negb (Z.land v BALL_CORRECT =? 0)).

(** The part of [fire_laser] that runs once the ray is back on the range:
    a fresh laser number is taken, and either the origin is marked as a
    reflection or both ends are stamped and paired. *)
Definition laser_exit (s : game_state) (xstart ystart lno x y : Z)
  : outcome game_state :=
  let newno := laserno s in
  let s := with_laserno s (laserno s + 1) in
  if (xstart =? x) && (ystart =? y) then
    s ← GRID_set s x y LASER_REFLECT;
    exits_set s lno LASER_REFLECT
  else
    s ← GRID_set s xstart ystart (to_unsigned newno);
    s ← GRID_set s x y (to_unsigned newno);
    exitno ← assert_some (grid2range s x y);
    s ← exits_set s lno (to_unsigned exitno);
    exits_set s exitno (to_unsigned lno).

(** The [while (1)] loop of [fire_laser]; one unit of fuel per iteration. *)
Fixpoint laser_loop (fuel : nat) (s : game_state)
         (xstart ystart lno x y direction : Z) : outcome game_state :=
  match fuel with
  | O => OutOfFuel
  | S fuel =>
    match grid2range s x y with
    | Some _ => laser_exit s xstart ystart lno x y
    | None =>
      v ← GRID s x y;
      _ ← assert_true (Z.land v BALL_CORRECT =? 0);
      f ← isball s x y direction LOOK_FORWARD;
      if f : bool then
        s ← GRID_set s xstart ystart LASER_HIT;
        exits_set s lno LASER_HIT
      else
        l ← isball s x y direction LOOK_LEFT;
        if l : bool then
          laser_loop fuel s xstart ystart lno x y ((direction + 1) mod 4)
        else
          r ← isball s x y direction LOOK_RIGHT;
          if r : bool then
            laser_loop fuel s xstart ystart lno x y ((direction + 3) mod 4)
          else
            let '(x, y) := OFFSET x y direction in
            laser_loop fuel s xstart ystart lno x y direction
    end
  end.

Definition fire_laser (fuel : nat) (s : game_state) (x y direction : Z)
  : outcome game_state :=
  lno ← assert_some (grid2range s x y);
  f ← isball s x y direction LOOK_FORWARD;
  if f : bool then
    s ← GRID_set s x y LASER_HIT;
    exits_set s lno LASER_HIT
  else
    l ← isball s x y direction LOOK_LEFT;
    r ← (if l : bool then mret true else isball s x y direction LOOK_RIGHT);
    if r : bool then
      s ← GRID_set s x y LASER_REFLECT;
      exits_set s lno LASER_REFLECT
    else
      let '(x', y') := OFFSET x y direction in
      laser_loop fuel s x y lno x' y' direction.

(** ** Bounded loops *)

(** [for (i = lo; ...; i++) body], run for [n] iterations. *)
Fixpoint for_loop {St : Type} (n : nat) (i : Z)
         (body : Z -> St -> outcome St) (s : St) : outcome St :=
  match n with
  | O => Done s
  | S n => s' ← body i s; for_loop n (i + 1) body s'
  end.

(** [for (i = lo; i < hi; i++) body]. *)
Definition for_range {St : Type} (lo hi : Z)
           (body : Z -> St -> outcome St) (s : St) : outcome St :=
  for_loop (Z.to_nat (hi - lo)) lo body s.

(** The compound assignments [GRID(s,x,y) op= ...] and [exits[i] op= ...]. *)
Definition GRID_update (s : game_state) (x y : Z) (f : Z -> Z)
  : outcome game_state :=
  v ← GRID s x y; GRID_set s x y (f v).

Definition exits_update (s : game_state) (i : Z) (f : Z -> Z)
  : outcome game_state :=
  v ← exits_get s i; exits_set s i (f v).

Definition flag_set (v flag : Z) : bool := negb (Z.land v flag =? 0).

(** ** Creation *)

(** [new_game] after [hex2bin] and [obfuscate_bitmap], which live outside
    this file: [bmp] is the decoded description, width, height, then one
    (x, y) byte pair per ball. *)
Definition new_game (minb maxb : Z) (bmp : list Z) : outcome game_state :=
  let nb := (Z.of_nat (length bmp) - 2) / 2 in
  w0 ← read bmp 0;
  h0 ← read bmp 1;
  let nl := 2 * (w0 + h0) in
  let s := mk_state w0 h0 minb maxb nb nl
             (replicate (Z.to_nat ((w0 + 2) * (h0 + 2))) 0)
             (replicate (Z.to_nat nl) LASER_EMPTY)
             0 1 0 0 0 0 0 in
  for_range 0 nb (fun i s =>
    bx ← read bmp ((i + 1) * 2 + 0);
    by_ ← read bmp ((i + 1) * 2 + 1);
    GRID_set s (bx + 1) (by_ + 1) BALL_CORRECT) s.

(** ** Consistency checker *)

Definition clear_lasers (solution : game_state) : outcome game_state :=
  for_range 0 (nlasers solution) (fun i sol =>
    '(x, y, _) ← assert_some (range2grid sol i);
    sol ← GRID_set sol x y 0;
    exits_set sol i LASER_EMPTY) solution.

(** Both nested loops over the arena, [x] outermost. *)
Definition for_arena {St : Type} (wd ht : Z)
           (body : Z -> Z -> St -> outcome St) (s : St) : outcome St :=
  for_range 1 (wd + 1) (fun x s =>
    for_range 1 (ht + 1) (fun y s => body x y s) s) s.

Definition guess_to_correct (x y : Z) (g : game_state) : outcome game_state :=
  g ← GRID_update g x y (fun v => Z.land v (unot BALL_CORRECT));
  v ← GRID g x y;
  if flag_set v BALL_GUESS
  then GRID_update g x y (fun v => Z.lor v BALL_CORRECT)
  else mret g.

Definition fire_both (fuel : nat) (i : Z) (p : game_state * game_state)
  : outcome (game_state * game_state) :=
  let '(solution, guesses) := p in
  '(x, y, dir) ← assert_some (range2grid solution i);
  e ← exits_get solution i;
  solution ← (if e =? LASER_EMPTY then fire_laser fuel solution x y dir
              else mret solution);
  e ← exits_get guesses i;
  guesses ← (if e =? LASER_EMPTY then fire_laser fuel guesses x y dir
             else mret guesses);
  mret (solution, guesses).

Definition add_omitted (state : game_state) (i x y es : Z)
  : outcome game_state :=
  state ← exits_set state i es;
  e ← exits_get state i;
  state ← (if (e =? LASER_REFLECT) || (e =? LASER_HIT)
           then GRID_set state x y e
           else
             let newno := laserno state in
             let state := with_laserno state (laserno state + 1) in
             '(ex, ey, _) ← assert_some (range2grid state (to_int e));
             state ← GRID_set state x y (to_unsigned newno);
             GRID_set state ex ey (to_unsigned newno));
  exits_update state i (fun v => Z.lor v LASER_OMITTED).

Definition compare_exit (solution guesses : game_state) (i : Z)
           (p : game_state * Z) : outcome (game_state * Z) :=
  let '(state, ret) := p in
  '(x, y, _) ← assert_some (range2grid solution i);
  es ← exits_get solution i;
  eg ← exits_get guesses i;
  if es =? eg then mret (state, ret)
  else
    e ← exits_get state i;
    state ← (if e =? LASER_EMPTY
             then add_omitted state i x y es
             else exits_update state i (fun v => Z.lor v LASER_WRONG));
    mret (state, 0).

Definition fix_correct (x y : Z) (state : game_state) : outcome game_state :=
  v ← GRID state x y;
  if flag_set v BALL_GUESS
  then GRID_update state x y (fun v => Z.lor v BALL_CORRECT)
  else GRID_update state x y (fun v => Z.land v (unot BALL_CORRECT)).

Definition count_cell (x y : Z) (state : game_state) : outcome game_state :=
  v ← GRID state x y;
  let bs := Z.land v (Z.lor BALL_GUESS BALL_CORRECT) in
  if bs =? Z.lor BALL_GUESS BALL_CORRECT
  then mret (with_counts state (nright state + 1) (nwrong state) (nmissed state))
  else if bs =? BALL_GUESS
  then mret (with_counts state (nright state) (nwrong state + 1) (nmissed state))
  else if bs =? BALL_CORRECT
  then mret (with_counts state (nright state) (nwrong state) (nmissed state + 1))
  else mret state.

Definition count_balls (state : game_state) : outcome game_state :=
  for_arena (w state) (h state) count_cell (with_counts state 0 0 0).

(** [dup_game] copies every field and both arrays; on values it is the
    identity, the separation of the copy from the original is the matter of
    the store further down. *)
Definition dup_game (state : game_state) : game_state := state.

Definition check_guesses (fuel : nat) (state : game_state)
  : outcome (Z * game_state) :=
  let solution := dup_game state in
  solution ← clear_lasers solution;
  let guesses := dup_game solution in
  guesses ← for_arena (w state) (h state) guess_to_correct guesses;
  '(solution, guesses) ←
     for_range 0 (nlasers solution) (fire_both fuel) (solution, guesses);
  '(state, ret) ←
     for_range 0 (nlasers solution) (compare_exit solution guesses) (state, 1);
  state ← (if ret =? 0 then mret state
           else for_arena (w state) (h state) fix_correct state);
  state ← count_balls state;
  mret (ret, state).

(** ** Move text *)

Definition INT_MIN : Z := -2147483648.

(** [isspace] and [isdigit] in the C locale. *)
Definition isspace (c : ascii) : bool :=
  let n := Z.of_nat (nat_of_ascii c) in
  (n =? 32) || ((9 <=? n) && (n <=? 13)).

Definition isdigit (c : ascii) : bool :=
  let n := Z.of_nat (nat_of_ascii c) in
  (48 <=? n) && (n <=? 57).

Definition digit_value (c : ascii) : Z := Z.of_nat (nat_of_ascii c) - 48.

Fixpoint skip_space (l : list ascii) : list ascii :=
  match l with
  | c :: l' => if isspace c then skip_space l' else l
  | [] => []
  end.

Fixpoint scan_digits (acc : Z) (l : list ascii) : Z * list ascii :=
  match l with
  | c :: l' => if isdigit c then scan_digits (acc * 10 + digit_value c) l'
               else (acc, l)
  | [] => (acc, [])
  end.

(** One [%d] directive of [sscanf]: white space is skipped, then an optional
    sign and at least one digit are taken.  [Done None] is a matching
    failure; a number that does not fit an [int] is undefined in C and is a
    [Fault] here. *)
Definition scan_int (l : list ascii) : outcome (option (Z * list ascii)) :=
  let l := skip_space l in
  let '(neg, l) :=
    match l with
    | "-"%char :: l' => (true, l')
    | "+"%char :: l' => (false, l')
    | _ => (false, l)
    end in
  match l with
  | c :: _ =>
    if isdigit c then
      let '(v, rest) := scan_digits 0 l in
      let v := if neg : bool then - v else v in
      if (v <? INT_MIN) || (INT_MAX <? v) then Fault
      else Done (Some (v, rest))
    else Done None
  | [] => Done None
  end.

(** [sscanf(p, "%d", &a)] with [a] holding [a0] before the call. *)
Definition sscanf_d (p : list ascii) (a0 : Z) : outcome Z :=
  r ← scan_int p;
  match r with
  | Some (a, _) => mret a
  | None => mret a0
  end.

(** [sscanf(p, "%d,%d", &a, &b)] with [a], [b] holding [a0], [b0] before. *)
Definition sscanf_d_d (p : list ascii) (a0 b0 : Z) : outcome (Z * Z) :=
  r ← scan_int p;
  match r with
  | None => mret (a0, b0)
  | Some (a, rest) =>
    match rest with
    | ","%char :: rest' =>
      r' ← scan_int rest';
      match r' with
      | Some (b, _) => mret (a, b)
      | None => mret (a, b0)
      end
    | _ => mret (a, b0)
    end
  end.

(** ** Move state machine *)

Definition COUNTLOCK (ret : game_state) (gx gy lcount : Z) : outcome Z :=
  v ← GRID ret gx gy;
  mret (if flag_set v BALL_LOCK then lcount + 1 else lcount).

Definition SETLOCKIF (c lcount gx gy : Z) (ret : game_state)
  : outcome game_state :=
  if c <? lcount
  then GRID_update ret gx gy (fun v => Z.land v (unot BALL_LOCK))
  else GRID_update ret gx gy (fun v => Z.lor v BALL_LOCK).

Definition toggle_ball (ret : game_state) (gx gy : Z) : outcome game_state :=
  v ← GRID ret gx gy;
  if flag_set v BALL_GUESS then
    let ret := with_nguesses ret (nguesses ret - 1) in
    GRID_update ret gx gy (fun v => Z.land v (unot BALL_GUESS))
  else
    let ret := with_nguesses ret (nguesses ret + 1) in
    GRID_update ret gx gy (fun v => Z.lor v BALL_GUESS).

(** The [case 'L'] block; [p] is the text from [move + 1] on. *)
Definition lock_move (ret : game_state) (p : list ascii)
  : outcome (option game_state) :=
  match p with
  | [] => mret None
  | "B"%char :: p2 =>
    '(gx, gy) ← sscanf_d_d p2 (-1) (-1);
    if (gx <? 1) || (gy <? 1) || (w ret <? gx) || (h ret <? gy) then mret None
    else ret ← GRID_update ret gx gy (fun v => Z.lxor v BALL_LOCK);
         mret (Some ret)
  | "C"%char :: p2 =>
    gx ← sscanf_d p2 (-1);
    if (gx <? 1) || (w ret <? gx) then mret None
    else
      lcount ← for_range 1 (h ret + 1) (fun gy lc => COUNTLOCK ret gx gy lc) 0;
      ret ← for_range 1 (h ret + 1)
              (fun gy r => SETLOCKIF (Z.quot (h r) 2) lcount gx gy r) ret;
      mret (Some ret)
  | "R"%char :: p2 =>
    gy ← sscanf_d p2 (-1);
    if (gy <? 1) || (h ret <? gy) then mret None
    else
      lcount ← for_range 1 (w ret + 1) (fun gx lc => COUNTLOCK ret gx gy lc) 0;
      ret ← for_range 1 (w ret + 1)
              (fun gx r => SETLOCKIF (Z.quot (w r) 2) lcount gx gy r) ret;
      mret (Some ret)
  | _ => mret None
  end.

(** [execute_move] on the duplicate [ret] of [from].  [Done None] is the
    [badmove] exit, where the duplicate is freed and NULL returned. *)
Definition apply_move (fuel : nat) (from ret : game_state) (move : string)
  : outcome (option game_state) :=
  if String.eqb move "S" then mret (Some (with_reveal ret 1))
  else if negb (reveal from =? 0) then mret None
  else
    match list_ascii_of_string move with
    | [] => mret None
    | "T"%char :: p =>
      '(gx, gy) ← sscanf_d_d p (-1) (-1);
      if (gx <? 1) || (gy <? 1) || (w ret <? gx) || (h ret <? gy)
      then mret None
      else ret ← toggle_ball ret gx gy; mret (Some ret)
    | "F"%char :: p =>
      rangeno ← sscanf_d p (-1);
      e ← exits_get ret rangeno;
      if negb (e =? LASER_EMPTY) then mret None
      else
        match range2grid ret rangeno with
        | None => mret None
        | Some (gx, gy, direction) =>
          ret ← fire_laser fuel ret gx gy direction; mret (Some ret)
        end
    | "R"%char :: _ =>
      if (nguesses ret <? minballs ret) || (maxballs ret <? nguesses ret)
      then mret None
      else '(_, ret) ← check_guesses fuel ret;
           mret (Some (with_reveal ret 1))
    | "L"%char :: p => lock_move ret p
    | _ => mret None
    end.

(** ** The store of game states

    A [game_state] lives in a block of its own together with its two arrays,
    which no other state shares: [new_game] and [dup_game] are the only
    allocation sites and both allocate fresh arrays. *)

Abbreviation store := (gmap positive game_state).

Definition alloc (m : store) (s : game_state) : store * positive :=
  let p := fresh (dom m) in (<[p := s]> m, p).

Definition free_game (m : store) (p : positive) : store := delete p m.

Definition dup_game_at (m : store) (state : positive)
  : option (store * positive) :=
  s ← m !! state; Some (alloc m (dup_game s)).

(** [execute_move(from, move)]: the result is the store after the call and
    the returned pointer, [None] for NULL. *)
Definition execute_move (fuel : nat) (m : store) (from : positive)
           (move : string) : store * outcome (option positive) :=
  match m !! from with
  | None => (m, Fault)
  | Some s =>
    let '(m1, ret) := alloc m (dup_game s) in
    match apply_move fuel s (dup_game s) move with
    | Done (Some s') => (<[ret := s']> m1, Done (Some ret))
    | Done None => (free_game m1 ret, Done None)
    | Fault => (m1, Fault)
    | OutOfFuel => (m1, OutOfFuel)
    end
  end.

(** ** Views used by the statements *)

(** A bounded loop seen as a run of its body over the list of its indices. *)
Fixpoint run_list {A St : Type} (body : A -> St -> outcome St)
         (l : list A) (s : St) : outcome St :=
  match l with
  | [] => Done s
  | a :: l' => s' ← body a s; run_list body l' s'
  end.

(** The arena cells in the order in which the nested loops visit them. *)
Definition cells (wd ht : Z) : list (Z * Z) :=
  x ← seqZ 1 wd; y ← seqZ 1 ht; [(x, y)].

Definition arena_cells (s : game_state) : list (Z * Z) := cells (w s) (h s).

(** The word stored for a cell; 0 where the cell has no storage. *)
Definition cell_value (s : game_state) (c : Z * Z) : Z :=
  match GRID s c.1 c.2 with
  | Done v => v
  | _ => 0
  end.

Definition guessed (s : game_state) (c : Z * Z) : bool :=
  flag_set (cell_value s c) BALL_GUESS.

Definition true_ball (s : game_state) (c : Z * Z) : bool :=
  flag_set (cell_value s c) BALL_CORRECT.

Definition locked (s : game_state) (c : Z * Z) : bool :=
  flag_set (cell_value s c) BALL_LOCK.

Definition count_cells (p : Z * Z -> bool) (l : list (Z * Z)) : Z :=
  Z.of_nat (length (List.filter p l)).

(** The blocks have the sizes they are allocated with. *)
Definition wf_state (s : game_state) : Prop :=
  0 <= w s /\ 0 <= h s /\
  Z.of_nat (length (grid s)) = (w s + 2) * (h s + 2) /\
  nlasers s = 2 * (w s + h s) /\
  Z.of_nat (length (exits s)) = nlasers s.

(** ** Boards used as concrete inputs *)

Definition blank : game_state := mk_state 0 0 0 0 0 0 [] [] 0 0 0 0 0 0 0.

Definition the_state (o : outcome game_state) : game_state :=
  match o with
  | Done s => s
  | _ => blank
  end.

Definition the_move (o : outcome (option game_state)) : game_state :=
  match o with
  | Done (Some s) => s
  | _ => blank
  end.

(** 3 wide, 2 high, one ball in arena cell (2,1), and the same board after
    the player has marked exactly that cell. *)
Definition wide_board : game_state :=
  Eval vm_compute in the_state (new_game 1 1 [3; 2; 1; 0]).

Definition wide_board_guessed : game_state :=
  Eval vm_compute in the_move (apply_move 0 wide_board wide_board "T2,1").

(** 3 wide, 4 high, one ball in arena cell (1,4), and the same board after
    laser 3 was fired. *)
Definition tall_board : game_state :=
  Eval vm_compute in the_state (new_game 1 1 [3; 4; 0; 3]).

Definition tall_board_fired : game_state :=
  Eval vm_compute in the_move (apply_move 5 tall_board tall_board "F3").

(** 3 wide, 4 high, balls in arena cells (1,4) and (1,3). *)
Definition tall_board_balls : game_state :=
  Eval vm_compute in the_state (new_game 2 2 [3; 4; 0; 3; 0; 2]).

(** 5 by 5, balls in arena cells (1,1) and (2,2). *)
Definition square_board : game_state :=
  Eval vm_compute in the_state (new_game 2 2 [5; 5; 0; 0; 1; 1]).

(** The same with the guesses (1,1) and (3,3) marked. *)
Definition square_board_guessed : game_state :=
  Eval vm_compute in
    the_move (apply_move 0 square_board square_board "T1,1"
              ≫= fun r => apply_move 0 (the_move (Done r)) (the_move (Done r)) "T3,3").

(** The same with the guesses (1,1) and (2,2) marked. *)
Definition square_board_solved : game_state :=
  Eval vm_compute in
    the_move (apply_move 0 square_board square_board "T1,1"
              ≫= fun r => apply_move 0 (the_move (Done r)) (the_move (Done r)) "T2,2").

(** [square_board] with arena cell (1,1) locked. *)
Definition square_board_locked : game_state :=
  Eval vm_compute in the_move (apply_move 0 square_board square_board "LB1,1").

(** [square_board_guessed] after the Reveal move. *)
Definition square_board_revealed : game_state :=
  Eval vm_compute in
    the_move (apply_move 30 square_board_guessed square_board_guessed "R").

(** ** The move vocabulary *)

Inductive command : Type :=
| ToggleBall (x y : Z)
| ToggleLock (x y : Z)
| ToggleColumnLock (x : Z)
| ToggleRowLock (y : Z)
| Fire (i : Z)
| Reveal.

(** [reads_as move c]: [execute_move] dispatches on the text [move] as the
    command [c], with the operands that its [sscanf] calls deliver. *)
Definition reads_as (move : string) (c : command) : Prop :=
  match c with
  | ToggleBall x y =>
    exists p, list_ascii_of_string move = "T"%char :: p /\
              sscanf_d_d p (-1) (-1) = Done (x, y)
  | ToggleLock x y =>
    exists p, list_ascii_of_string move = "L"%char :: "B"%char :: p /\
              sscanf_d_d p (-1) (-1) = Done (x, y)
  | ToggleColumnLock x =>
    exists p, list_ascii_of_string move = "L"%char :: "C"%char :: p /\
              sscanf_d p (-1) = Done x
  | ToggleRowLock y =>
    exists p, list_ascii_of_string move = "L"%char :: "R"%char :: p /\
              sscanf_d p (-1) = Done y
  | Fire i =>
    exists p, list_ascii_of_string move = "F"%char :: p /\
              sscanf_d p (-1) = Done i
  | Reveal =>
    exists p, list_ascii_of_string move = "R"%char :: p
  end.

(** ** Kinds of arena cells at the reveal *)

Definition both (s : game_state) (c : Z * Z) : bool :=
  guessed s c && true_ball s c.

Definition only_guessed (s : game_state) (c : Z * Z) : bool :=
  guessed s c && negb (true_ball s c).

Definition only_true (s : game_state) (c : Z * Z) : bool :=
  true_ball s c && negb (guessed s c).

(** A cell whose true-ball flag agrees with its guess flag. *)
Definition settled (s : game_state) (c : Z * Z) : Prop :=
  true_ball s c = guessed s c.

(** ** The ray on its own *)

Definition in_arena (s : game_state) (c : Z * Z) : bool :=
  (1 <=? c.1) && (c.1 <=? w s) && (1 <=? c.2) && (c.2 <=? h s).

(** A true ball in an arena cell. *)
Definition ball_at (s : game_state) (c : Z * Z) : bool :=
  in_arena s c && true_ball s c.

(** One step from [c] in direction [d]. *)
Definition shift (c : Z * Z) (d : Z) : Z * Z := OFFSET c.1 c.2 d.

(** The cell that [isball] looks at. *)
Definition probe (c : Z * Z) (d : Z) (lk : look) : Z * Z :=
  match lk with
  | LOOK_LEFT => shift (shift c d) (d - 1)
  | LOOK_FORWARD => shift c d
  | LOOK_RIGHT => shift (shift c d) (d + 1)
  end.

(** What becomes of a ray inside the loop of [fire_laser]. *)
Inductive fate : Type :=
| Absorbed
| Leaves (x y : Z).

(** The loop of [fire_laser] without its writes. *)
Fixpoint laser_path (fuel : nat) (s : game_state) (x y direction : Z)
  : outcome fate :=
  match fuel with
  | O => OutOfFuel
  | S fuel =>
    match grid2range s x y with
    | Some _ => Done (Leaves x y)
    | None =>
      v ← GRID s x y;
      _ ← assert_true (Z.land v BALL_CORRECT =? 0);
      f ← isball s x y direction LOOK_FORWARD;
      if f : bool then Done Absorbed
      else
        l ← isball s x y direction LOOK_LEFT;
        if l : bool then laser_path fuel s x y ((direction + 1) mod 4)
        else
          r ← isball s x y direction LOOK_RIGHT;
          if r : bool then laser_path fuel s x y ((direction + 3) mod 4)
          else
            let '(x, y) := OFFSET x y direction in
            laser_path fuel s x y direction
    end
  end.

(** The writes that end [fire_laser] once the fate of the ray is known. *)
Definition laser_mark (s : game_state) (xstart ystart lno : Z) (f : fate)
  : outcome game_state :=
  match f with
  | Absorbed =>
    s ← GRID_set s xstart ystart LASER_HIT;
    exits_set s lno LASER_HIT
  | Leaves x y => laser_exit s xstart ystart lno x y
  end.

Definition valid_dims (s : game_state) : Prop :=
  2 <= w s <= 255 /\ 2 <= h s <= 255.

(** A well-formed state on a square board. *)
Definition square (s : game_state) : Prop :=
  wf_state s /\ valid_dims s /\ w s = h s.

(** A ray inside the arena: its cell and its heading. *)
Definition ray : Type := (Z * Z) * Z.

(** A ray that has just stepped into its cell: the cell itself, the cell
    behind it, the cells at its two sides and the two cells diagonally behind
    hold no ball. *)
Definition arrived (s : game_state) (a : ray) : Prop :=
  let '(p, d) := a in
  0 <= d < 4 /\
  in_arena s p = true /\
  ball_at s p = false /\
  ball_at s (shift p (d + 2)) = false /\
  ball_at s (shift p (d + 3)) = false /\
  ball_at s (shift p (d + 1)) = false /\
  ball_at s (shift (shift p (d + 2)) (d + 3)) = false /\
  ball_at s (shift (shift p (d + 2)) (d + 1)) = false.

(** From one arrival to the next: what the loop of [fire_laser] does, in at
    most three rounds, until the ray is absorbed or steps to a new cell. *)
Definition hop (s : game_state) (a : ray) : option ray :=
  let '(p, d) := a in
  if ball_at s (probe p d LOOK_FORWARD) then None
  else if ball_at s (probe p d LOOK_LEFT) then
    if ball_at s (probe p d LOOK_RIGHT)
    then Some (shift p (d + 2), (d + 2) mod 4)
    else Some (shift p (d + 1), (d + 1) mod 4)
  else if ball_at s (probe p d LOOK_RIGHT)
  then Some (shift p (d + 3), (d + 3) mod 4)
  else Some (shift p d, d).

(** The cell at offset (a, b) from (x, y). *)
Definition cell (x y a b : Z) : Z * Z := (x + a, y + b).

(** The quarter turns between the heading before a hop and the heading after
    it, read off the two cells diagonally behind the cell the ray left. *)
Definition turn (bx by_ : bool) : Z :=
  if bx then (if by_ then 2 else 3) else (if by_ then 1 else 0).

(** The ray a hop came from. *)
Definition unhop (s : game_state) (b : ray) : ray :=
  let '(p', d') := b in
  let p := shift p' (d' + 2) in
  (p, (d' + turn (ball_at s (shift (shift p (d' + 2)) (d' + 3)))
                 (ball_at s (shift (shift p (d' + 2)) (d' + 1)))) mod 4).

(** The first arena cell of a ray: the cell behind it is on the range. *)
Definition entered (s : game_state) (a : ray) : Prop :=
  arrived s a /\ in_arena s (shift a.1 (a.2 + 2)) = false.

(** The rays of a run, latest first, back to the entry. *)
Inductive trail (s : game_state) : list ray -> Prop :=
| trail_entry (a : ray) : entered s a -> trail s [a]
| trail_hop (a b : ray) (l : list ray) :
    trail s (a :: l) -> arrived s b -> hop s a = Some b ->
    trail s (b :: a :: l).

Definition all_rays (s : game_state) : list ray :=
  c ← arena_cells s; d ← seqZ 0 4; [(c, d)].

Definition enough_fuel (s : game_state) : nat :=
  (3 * length (all_rays s) + 1)%nat.

(** The dimensions and the sizes of the two blocks are those of [s]. *)
Definition same_shape (s s' : game_state) : Prop :=
  w s' = w s /\ h s' = h s /\ nlasers s' = nlasers s /\
  length (grid s') = length (grid s) /\
  length (exits s') = length (exits s).

(** The two writes that mark the origin of a ray with [v] (Hit or
    Reflected). *)
Definition mark_origin (s : game_state) (x y lno v : Z) : outcome game_state :=
  s ← GRID_set s x y v; exits_set s lno v.

(** Every word of the grid is an [unsigned int]. *)
Definition words_ok (s : game_state) : Prop :=
  Forall (fun v => 0 <= v < UINT_MOD) (grid s).

(** ** The exit table during the check *)

(** The values a fired slot of the exit table holds. *)
Definition exit_ok (s : game_state) (v : Z) : Prop :=
  v = LASER_HIT \/ v = LASER_REFLECT \/ 0 <= v < nlasers s.

(** Slot [i] of the exit table holds a fired value. *)
Definition fired (s0 s : game_state) (i : Z) : Prop :=
  exists v, exits s !! Z.to_nat i = Some v /\ exit_ok s0 v.

(** Every slot of the exit table is empty or holds a fired value. *)
Definition exits_ok (s0 s : game_state) : Prop :=
  forall k v, exits s !! k = Some v -> v = LASER_EMPTY \/ exit_ok s0 v.

(** The cells of the arena hold in [s'] what they hold in [s]. *)
Definition same_arena (s s' : game_state) : Prop :=
  forall c, in_arena s c = true -> cell_value s' c = cell_value s c.

(** ** Game parameters *)

Module params.
Record game_params : Type := mk_params {
  w : Z; h : Z; minballs : Z; maxballs : Z
}.
End params.

Abbreviation game_params := params.game_params.

Definition default_params : game_params := params.mk_params 8 8 5 5.

Definition blackbox_presets : list game_params :=
  [ params.mk_params 5 5 3 3;
    params.mk_params 8 8 5 5;
    params.mk_params 8 8 3 6;
    params.mk_params 10 10 5 5;
    params.mk_params 10 10 4 10 ].

(** [dup_params] is a structure copy. *)
Definition dup_params (p : game_params) : game_params := p.

(** *** Numbers as text *)

Definition digit_char (d : Z) : ascii := ascii_of_nat (Z.to_nat (48 + d)).

(** The decimal digits of [n], most significant first, in front of [tail];
    [fuel] bounds their number. *)
Fixpoint print_digits (fuel : nat) (n : Z) (tail : list ascii) : list ascii :=
  match fuel with
  | O => tail
  | S fuel =>
    let tail := digit_char (n mod 10) :: tail in
    if n <? 10 then tail else print_digits fuel (n / 10) tail
  end.

(** The [%d] directive of [sprintf] for an [int]: a minus sign for a negative
    number, then its digits, at most ten of them. *)
Definition print_int (n : Z) : list ascii :=
  if n <? 0 then "-"%char :: print_digits 10 (- n) []
  else print_digits 10 n [].

(** [atoi]: the number [strtol] reads in base 10, 0 where there is none. *)
Definition atoi (p : list ascii) : outcome Z :=
  r ← scan_int p;
  match r with
  | Some (v, _) => mret v
  | None => mret 0
  end.

(** The loop that moves [p] past the digits it points at. *)
Fixpoint skip_digits (p : list ascii) : list ascii :=
  match p with
  | c :: p' => if isdigit c then skip_digits p' else p
  | [] => []
  end.

(** *** Presets *)

Definition game_fetch_preset (i : Z) : option (string * game_params) :=
  if (i <? 0) || (Z.of_nat (length blackbox_presets) <=? i) then None
  else
    match blackbox_presets !! Z.to_nat i with
    | None => None
    | Some ret =>
      let str :=
        if params.minballs ret =? params.maxballs ret
        then print_int (params.w ret) ++ "x"%char :: print_int (params.h ret)
             ++ list_ascii_of_string ", " ++ print_int (params.minballs ret)
             ++ list_ascii_of_string " balls"
        else print_int (params.w ret) ++ "x"%char :: print_int (params.h ret)
             ++ list_ascii_of_string ", " ++ print_int (params.minballs ret)
             ++ "-"%char :: print_int (params.maxballs ret)
             ++ list_ascii_of_string " balls" in
      Some (string_of_list_ascii str, ret)
    end.

(** *** Parameters as text *)

(** The loop of [decode_params] over the characters of the text; every
    round takes at least one character, one unit of fuel per round. *)
Fixpoint decode_loop (fuel : nat) (p : list ascii) (prm : game_params)
  : outcome game_params :=
  match p with
  | [] => Done prm
  | c :: p =>
    match fuel with
    | O => OutOfFuel
    | S fuel =>
      if Ascii.eqb c "w" then
        v ← atoi p;
        decode_loop fuel (skip_digits p)
          (params.mk_params v (params.h prm) (params.minballs prm) (params.maxballs prm))
      else if Ascii.eqb c "h" then
        v ← atoi p;
        decode_loop fuel (skip_digits p)
          (params.mk_params (params.w prm) v (params.minballs prm) (params.maxballs prm))
      else if Ascii.eqb c "m" then
        v ← atoi p;
        decode_loop fuel (skip_digits p)
          (params.mk_params (params.w prm) (params.h prm) v (params.maxballs prm))
      else if Ascii.eqb c "M" then
        v ← atoi p;
        decode_loop fuel (skip_digits p)
          (params.mk_params (params.w prm) (params.h prm) (params.minballs prm) v)
      else decode_loop fuel p prm
    end
  end.

Definition decode_params (string : string) : outcome game_params :=
  decode_loop (String.length string) (list_ascii_of_string string) default_params.

Definition encode_params (p : game_params) (full : bool) : string :=
  string_of_list_ascii
    ("w"%char :: print_int (params.w p) ++
     "h"%char :: print_int (params.h p) ++
     "m"%char :: print_int (params.minballs p) ++
     "M"%char :: print_int (params.maxballs p)).

(** *** The configuration dialogue *)

Inductive config_type : Type := C_STRING | C_END.

Module config.
Record config_item : Type := mk_item {
  name : option string;
  type : config_type;
  sval : option (list ascii);
  ival : Z
}.
End config.

Abbreviation config_item := config.config_item.

Definition game_configure (p : game_params) : list config_item :=
  [ config.mk_item (Some "Width"%string) C_STRING
      (Some (print_int (params.w p))) 0;
    config.mk_item (Some "Height"%string) C_STRING
      (Some (print_int (params.h p))) 0;
    config.mk_item (Some "No. of balls"%string) C_STRING
      (Some (if params.minballs p =? params.maxballs p
             then print_int (params.minballs p)
             else print_int (params.minballs p) ++
                  "-"%char :: print_int (params.maxballs p))) 0;
    config.mk_item None C_END None 0 ].

(** [sscanf(p, "%d-%d", &a, &b)]: the number of fields assigned (-1, the
    value of EOF, where the text ends before the first of them) and the two
    variables, which hold [a0], [b0] before the call. *)
Definition sscanf_d_minus_d (p : list ascii) (a0 b0 : Z)
  : outcome (Z * Z * Z) :=
  r ← scan_int p;
  match r with
  | None => mret (match skip_space p with [] => -1 | _ => 0 end, a0, b0)
  | Some (a, rest) =>
    match rest with
    | "-"%char :: rest' =>
      r' ← scan_int rest';
      match r' with
      | Some (b, _) => mret (2, a, b)
      | None => mret (1, a, b0)
      end
    | _ => mret (1, a, b0)
    end
  end.

(** The string of a dialogue field; [atoi] and [sscanf] on a null pointer or
    past the array are undefined. *)
Definition cfg_sval (cfg : list config_item) (i : nat) : outcome (list ascii) :=
  match cfg !! i with
  | Some item => assert_some (config.sval item)
  | None => Fault
  end.

(** [custom_params]; the two ball counts are not initialised before the
    [sscanf], [garbage] stands for what they hold. *)
Definition custom_params (garbage : Z * Z) (cfg : list config_item)
  : outcome game_params :=
  s0 ← cfg_sval cfg 0; w0 ← atoi s0;
  s1 ← cfg_sval cfg 1; h0 ← atoi s1;
  s2 ← cfg_sval cfg 2;
  '(n, mn, mx) ← sscanf_d_minus_d s2 garbage.1 garbage.2;
  if n <? 2 then
    v ← atoi s2; mret (params.mk_params w0 h0 v v)
  else mret (params.mk_params w0 h0 mn mx).

Definition validate_params (p : game_params) (full : bool) : option string :=
  if (params.w p <? 2) || (params.h p <? 2)
  then Some "Grid must be at least 2 wide and 2 high"%string
  else if (255 <? params.w p) || (255 <? params.h p)
  then Some "Grid must be < 255 in each direction"%string
  else if params.maxballs p <? params.minballs p
  then Some "Min. balls must be <= max. balls"%string
  else if params.w p * params.h p <=? params.minballs p
  then Some "Too many balls for grid"%string
  else None.

(** ** Game descriptions *)

(** [validate_desc] on a description of [dlen] characters; [bmp] is what
    [hex2bin] and [obfuscate_bitmap], which live outside this file, make of
    it: one byte per two characters. *)
Definition validate_desc (p : game_params) (dlen : Z) (bmp : list Z)
  : outcome (option string) :=
  let nballs := Z.quot (Z.quot dlen 2 - 2) 2 in
  if (dlen <? 4) || negb (Z.rem dlen 4 =? 0) ||
     (nballs <? params.minballs p) || (params.maxballs p <? nballs)
  then mret (Some "Game description is wrong length"%string)
  else
    b0 ← read bmp 0;
    b1 ← read bmp 1;
    if negb (b0 =? params.w p) || negb (b1 =? params.h p)
    then mret (Some "Game description is corrupted"%string)
    else
      ok ← for_range 0 nballs (fun i ok =>
        if ok : bool then
          x ← read bmp ((i + 1) * 2 + 0);
          y ← read bmp ((i + 1) * 2 + 1);
          mret (negb ((x <? 0) || (y <? 0) ||
                      (params.w p <? x) || (params.h p <? y)))
        else mret false) true;
      mret (if ok : bool then None
            else Some "Game description is corrupted"%string).

(** Conversion to [unsigned char]. *)
Definition to_uchar (z : Z) : Z := z mod 256.

Section Generator.

(** [random_upto] lives outside this file: it takes the generator state and
    a limit, and returns a number below the limit. *)
Variable random_state : Type.
Variable random_upto : random_state -> Z -> Z * random_state.

(** The [newball:] retry loop of [new_game_desc], one unit of fuel per
    attempt: a cell is drawn until one is found that [grid] has free. *)
Fixpoint newball (fuel : nat) (p : game_params) (rs : random_state)
         (grid : list Z) : outcome (Z * Z * list Z * random_state) :=
  match fuel with
  | O => OutOfFuel
  | S fuel =>
    let '(x, rs) := random_upto rs (params.w p) in
    let '(y, rs) := random_upto rs (params.h p) in
    v ← read grid (y * params.h p + x);
    if negb (v =? 0) then newball fuel p rs grid
    else
      grid ← write grid (y * params.h p + x) 1;
      mret (x, y, grid, rs)
  end.

(** [new_game_desc] up to the bitmap it hands to [obfuscate_bitmap] and
    [bin2hex]. *)
Definition new_game_desc (fuel : nat) (p : game_params) (rs : random_state)
  : outcome (list Z * random_state) :=
  let '(nballs, rs) :=
    if params.minballs p <? params.maxballs p
    then let '(r, rs) := random_upto rs (params.maxballs p - params.minballs p) in
         (params.minballs p + r, rs)
    else (params.minballs p, rs) in
  let grid := replicate (Z.to_nat (params.w p * params.h p)) 0 in
  let bmp := replicate (Z.to_nat (nballs * 2 + 2)) 0 in
  bmp ← write bmp 0 (to_uchar (params.w p));
  bmp ← write bmp 1 (to_uchar (params.h p));
  '(_, bmp, rs) ← for_range 0 nballs (fun i st =>
    let '(grid, bmp, rs) := st in
    '(x, y, grid, rs) ← newball fuel p rs grid;
    bmp ← write bmp ((i + 1) * 2 + 0) (to_uchar x);
    bmp ← write bmp ((i + 1) * 2 + 1) (to_uchar y);
    mret (grid, bmp, rs)) (grid, bmp, rs);
  mret (bmp, rs).

End Generator.

Definition solve_game : string := "S".

(** ** Pointer input *)

Record game_ui : Type := mk_ui { flash_laserno : Z }.

Definition new_ui : game_ui := mk_ui (to_int LASER_EMPTY).

Module drawstate.
Record game_drawstate : Type := mk_drawstate {
  tilesize : Z; crad : Z; rrad : Z; w : Z; h : Z;
  grid : list Z;
  started : Z; canreveal : Z; reveal : Z;
  flash_laserno : Z
}.
End drawstate.

Abbreviation game_drawstate := drawstate.game_drawstate.

(** The result of an [int] operation: signed overflow is undefined in C and
    a [Fault] here. *)
Definition int_result (z : Z) : outcome Z :=
  if (z <? INT_MIN) || (INT_MAX <? z) then Fault else Done z.

(** [#define TODRAW(x) ((TILE_SIZE * (x)) + (TILE_SIZE / 2))] *)
Definition TODRAW (ds : game_drawstate) (x : Z) : outcome Z :=
  p ← int_result (drawstate.tilesize ds * x);
  int_result (p + Z.quot (drawstate.tilesize ds) 2).

(** [#define FROMDRAW(x) (((x) - (TILE_SIZE / 2)) / TILE_SIZE)]; the division
    of C rounds towards 0 and is undefined for a tile size of 0. *)
Definition FROMDRAW (ds : game_drawstate) (x : Z) : outcome Z :=
  if drawstate.tilesize ds =? 0 then Fault
  else Done (Z.quot (x - Z.quot (drawstate.tilesize ds) 2) (drawstate.tilesize ds)).

Definition game_compute_size (p : game_params) (tilesize : Z)
  : outcome (Z * Z) :=
  a ← int_result (params.w p + 3);
  x ← int_result (a * tilesize);
  b ← int_result (params.h p + 3);
  y ← int_result (b * tilesize);
  mret (x, y).

Definition game_set_size (ds : game_drawstate) (p : game_params) (tilesize : Z)
  : outcome game_drawstate :=
  c ← int_result (tilesize - 1);
  r ← int_result (3 * tilesize);
  mret (drawstate.mk_drawstate tilesize (Z.quot c 2) (Z.quot r 8)
          (drawstate.w ds) (drawstate.h ds) (drawstate.grid ds)
          (drawstate.started ds) (drawstate.canreveal ds) (drawstate.reveal ds)
          (drawstate.flash_laserno ds)).

Inductive button : Type :=
| LEFT_BUTTON | RIGHT_BUTTON | LEFT_RELEASE | OTHER_BUTTON.

Inductive action : Type :=
| NONE | TOGGLE_BALL | TOGGLE_LOCK | FIRE | REVEAL
| TOGGLE_COLUMN_LOCK | TOGGLE_ROW_LOCK.

Definition is_left (b : button) : bool :=
  match b with LEFT_BUTTON => true | _ => false end.

(** [interpret_move]: the text of the move, the empty string where the code
    returns it, [None] for NULL, together with the [game_ui] after the
    call. *)
Definition interpret_move (state : game_state) (ui : game_ui)
           (ds : game_drawstate) (x y : Z) (b : button)
  : outcome (option string * game_ui) :=
  match b with
  | LEFT_RELEASE => mret (Some EmptyString, mk_ui (to_int LASER_EMPTY))
  | OTHER_BUTTON => mret (None, ui)
  | _ =>
    gx ← FROMDRAW ds x;
    gy ← FROMDRAW ds y;
    let act := if (gx =? 0) && (gy =? 0) && is_left b then REVEAL else NONE in
    act ← (if (1 <=? gx) && (gx <=? w state) && (1 <=? gy) && (gy <=? h state)
           then if is_left b
                then v ← GRID state gx gy;
                     mret (if flag_set v BALL_LOCK then act else TOGGLE_BALL)
                else mret TOGGLE_LOCK
           else mret act);
    let '(act, rangeno) :=
      match grid2range state gx gy with
      | Some r =>
        (if is_left b then FIRE
         else if (gy =? 0) || (h state <? gy) then TOGGLE_COLUMN_LOCK
         else TOGGLE_ROW_LOCK, r)
      | None => (act, -1)
      end in
    let finish (buf : list ascii) :=
      if negb (reveal state =? 0) then (None, ui)
      else (Some (string_of_list_ascii buf), ui) in
    match act with
    | TOGGLE_BALL =>
      mret (finish ("T"%char :: print_int gx ++ ","%char :: print_int gy))
    | TOGGLE_LOCK =>
      mret (finish ("L"%char :: "B"%char :: print_int gx ++ ","%char :: print_int gy))
    | TOGGLE_COLUMN_LOCK =>
      mret (finish ("L"%char :: "C"%char :: print_int gx))
    | TOGGLE_ROW_LOCK =>
      mret (finish ("L"%char :: "R"%char :: print_int gy))
    | FIRE =>
      e ← exits_get state rangeno;
      if negb (reveal state =? 0) && (e =? LASER_EMPTY) then mret (None, ui)
      else
        let ui := mk_ui rangeno in
        if negb (e =? LASER_EMPTY) then mret (Some EmptyString, ui)
        else if negb (reveal state =? 0) then mret (Some EmptyString, ui)
        else mret (Some (string_of_list_ascii ("F"%char :: print_int rangeno)), ui)
    | REVEAL =>
      if drawstate.canreveal ds =? 0 then mret (None, ui)
      else mret (finish ["R"%char])
    | NONE => mret (None, ui)
    end
  end.

(** The text [rest] does not go on with a digit. *)
Definition stops (rest : list ascii) : Prop :=
  match rest with
  | c :: _ => isdigit c = false
  | [] => True
  end.

(** The number a run of digits stands for, read from the left. *)
Definition digits_value (ds : list ascii) (acc : Z) : Z :=
  fold_left (fun a c => a * 10 + digit_value c) ds acc.

(** The characters on which [decode_params] acts. *)
Definition key_letter (c : ascii) : bool :=
  Ascii.eqb c "w" || Ascii.eqb c "h" || Ascii.eqb c "m" || Ascii.eqb c "M".

Definition int_range (n : Z) : Prop := INT_MIN <= n <= INT_MAX.

Definition params_in_range (p : game_params) : Prop :=
  int_range (params.w p) /\ int_range (params.h p) /\
  int_range (params.minballs p) /\ int_range (params.maxballs p).

(** Ball [i] of a decoded description: the two bytes at [(i+1)*2]. *)
Definition desc_ball (bmp : list Z) (i : Z) : option (Z * Z) :=
  x ← bmp !! Z.to_nat ((i + 1) * 2 + 0);
  y ← bmp !! Z.to_nat ((i + 1) * 2 + 1);
  Some (x, y).

(** A board on which no move was made yet: no laser fired, no cell of the
    arena guessed or locked. *)
Definition untouched (s : game_state) : Prop :=
  laserno s = 1 /\ nguesses s = 0 /\ reveal s = 0 /\
  (forall k v, exits s !! k = Some v -> v = LASER_EMPTY) /\
  forall c, in_arena s c = true -> guessed s c = false /\ locked s c = false.

(** A generator to run [new_game_desc] with: it counts up and hands out the
    count modulo the limit. *)
Definition counting_upto (n : nat) (limit : Z) : Z * nat :=
  (Z.of_nat n mod limit, S n).

(** The arena cells of column [x] and of row [y], in the order of the loops
    of the lock moves. *)
Definition column_cells (s : game_state) (x : Z) : list (Z * Z) :=
  (fun y => (x, y)) <$> seqZ 1 (h s).

Definition row_cells (s : game_state) (y : Z) : list (Z * Z) :=
  (fun x => (x, y)) <$> seqZ 1 (w s).

(** A command that [execute_move] has a cell, a line or an unfired laser
    for. *)
Definition applicable (s : game_state) (c : command) : Prop :=
  match c with
  | ToggleBall x y => in_arena s (x, y) = true /\ locked s (x, y) = false
  | ToggleLock x y => in_arena s (x, y) = true
  | ToggleColumnLock x => 1 <= x <= w s
  | ToggleRowLock y => 1 <= y <= h s
  | Fire i => 0 <= i < nlasers s /\ exits_get s i = Done LASER_EMPTY
  | Reveal => True
  end.

(** The command is the one for the tile under the pixel (x, y). *)
Definition aims_at (s : game_state) (ds : game_drawstate) (x y : Z)
           (b : button) (c : command) : Prop :=
  exists gx gy,
    FROMDRAW ds x = Done gx /\ FROMDRAW ds y = Done gy /\
    match c with
    | ToggleBall cx cy => b = LEFT_BUTTON /\ cx = gx /\ cy = gy
    | ToggleLock cx cy => b = RIGHT_BUTTON /\ cx = gx /\ cy = gy
    | ToggleColumnLock cx =>
      b = RIGHT_BUTTON /\ cx = gx /\ (gy = 0 \/ gy = h s + 1)
    | ToggleRowLock cy =>
      b = RIGHT_BUTTON /\ cy = gy /\ (gx = 0 \/ gx = w s + 1)
    | Fire i => b = LEFT_BUTTON /\ grid2range s gx gy = Some i
    | Reveal =>
      b = LEFT_BUTTON /\ gx = 0 /\ gy = 0 /\ drawstate.canreveal ds <> 0
    end.

(** What one shot of laser [i] leaves behind: the arena, the guesses and the
    phase are as before, slot [i] holds Hit, Reflected or the index of the
    exit, in which case the slot of the exit holds [i] and a laser number
    was taken, and no other slot has changed. *)
Definition shot (s s' : game_state) (i : Z) : Prop :=
  same_shape s s' /\ same_arena s s' /\
  nguesses s' = nguesses s /\ reveal s' = reveal s /\
  minballs s' = minballs s /\ maxballs s' = maxballs s /\
  laserno s <= laserno s' <= laserno s + 1 /\
  exists v,
    exits s' !! Z.to_nat i = Some v /\ exit_ok s v /\
    (0 <= v < nlasers s ->
     v <> i /\ exits s' !! Z.to_nat v = Some i /\ laserno s' = laserno s + 1) /\
    forall k, k <> Z.to_nat i -> (0 <= v < nlasers s -> k <> Z.to_nat v) ->
              exits s' !! k = exits s !! k.

(** The operands of a command lie on the board, and the command is one that
    [execute_move] does not turn down in the guessing phase. *)
Definition accepted_command (s : game_state) (c : command) : Prop :=
  match c with
  | ToggleBall x y => in_arena s (x, y) = true
  | ToggleLock x y => in_arena s (x, y) = true
  | ToggleColumnLock x => 1 <= x <= w s
  | ToggleRowLock y => 1 <= y <= h s
  | Fire i => 0 <= i < nlasers s /\ exits_get s i = Done LASER_EMPTY
  | Reveal => minballs s <= nguesses s <= maxballs s
  end.

(** The states a game passes through: from [s0], by moves that
    [execute_move] accepts, with whatever fuel they ran. *)
Inductive reachable (s0 : game_state) : game_state -> Prop :=
| reach_start : reachable s0 s0
| reach_move (fuel : nat) (s s' : game_state) (move : string) :
    reachable s0 s ->
    apply_move fuel s (dup_game s) move = Done (Some s') ->
    reachable s0 s'.

(** The invariant of a game on a square board. *)
Definition game_invariant (s0 s : game_state) : Prop :=
  square s /\ same_shape s0 s /\
  minballs s = minballs s0 /\ maxballs s = maxballs s0 /\
  nguesses s = count_cells (guessed s) (arena_cells s) /\
  (reveal s = 0 ->
   exits_ok s s /\
   forall c, in_arena s c = true -> true_ball s c = true_ball s0 c).

(** The fields that only the moves of the player write. *)
Definition scalars (s t : game_state) : Prop :=
  nguesses t = nguesses s /\ minballs t = minballs s /\
  maxballs t = maxballs s /\ reveal t = reveal s.

(** A slot of the exit table that the check has marked: it is not empty and
    carries [LASER_WRONG] or [LASER_OMITTED]. *)
Definition marked (v : Z) : bool :=
  negb (v =? LASER_EMPTY) &&
  (flag_set v LASER_WRONG || flag_set v LASER_OMITTED).

(** What the comparison of the exits keeps true of the state it marks and of
    its verdict, [s] being the state the check started from. *)
Definition marking (s : game_state) (p : game_state * Z) : Prop :=
  length (exits p.1) = length (exits s) /\
  (forall k v, exits p.1 !! k = Some v -> v = LASER_EMPTY \/ 0 <= v < 32768) /\
  (forall k v, exits p.1 !! k = Some v ->
               exits s !! k = Some v \/ marked v = true) /\
  ((p.2 = 1 /\ p.1 = s) \/
   (p.2 = 0 /\ exists i v, 0 <= i < nlasers s /\
                           exits p.1 !! Z.to_nat i = Some v /\
                           marked v = true)).

(** ** The code over the heap

    Above, a [game_state] is a value and [dup_game] is the identity.  Here
    the same functions are given as the C code has them: a state is a
    pointer to a [struct game_state] whose [grid] and [exits] fields are
    pointers to two more blocks, every read and every write goes through
    the pointer the code names, [dup_game] allocates three blocks and copies
    into them, and [free_game] releases three blocks. *)

Module block.
Record game_struct : Type := mk_struct {
  w : Z; h : Z; minballs : Z; maxballs : Z; nballs : Z; nlasers : Z;
  grid : positive;
  exits : positive;
  done : Z;
  laserno : Z;
  nguesses : Z; reveal : Z; nright : Z; nwrong : Z; nmissed : Z
}.

Definition with_laserno (st : game_struct) (n : Z) : game_struct :=
  mk_struct (w st) (h st) (minballs st) (maxballs st) (nballs st) (nlasers st)
            (grid st) (exits st) (done st) n
            (nguesses st) (reveal st) (nright st) (nwrong st) (nmissed st).

Definition with_nguesses (st : game_struct) (n : Z) : game_struct :=
  mk_struct (w st) (h st) (minballs st) (maxballs st) (nballs st) (nlasers st)
            (grid st) (exits st) (done st) (laserno st)
            n (reveal st) (nright st) (nwrong st) (nmissed st).

Definition with_reveal (st : game_struct) (r : Z) : game_struct :=
  mk_struct (w st) (h st) (minballs st) (maxballs st) (nballs st) (nlasers st)
            (grid st) (exits st) (done st) (laserno st)
            (nguesses st) r (nright st) (nwrong st) (nmissed st).

Definition with_counts (st : game_struct) (r wr m : Z) : game_struct :=
  mk_struct (w st) (h st) (minballs st) (maxballs st) (nballs st) (nlasers st)
            (grid st) (exits st) (done st) (laserno st)
            (nguesses st) (reveal st) r wr m.
End block.

Abbreviation game_struct := block.game_struct.

(** The heap: the blocks that hold a [struct game_state] and the blocks that
    hold [unsigned int] words, each under its address. *)
Record memory : Type := mk_memory {
  structs : gmap positive game_struct;
  arrays : gmap positive (list Z)
}.

(** [memcpy(dst, src, n * sizeof(unsigned int))] into a block of [n] words
    just allocated: the words copied, a fault where [src] is shorter. *)
Definition memcpy (src : list Z) (n : Z) : outcome (list Z) :=
  if (n <? 0) || (Z.of_nat (length src) <? n) then Fault
  else Done (take (Z.to_nat n) src).

Module Heap.

(** [*state] and [*state = st]; a pointer to no block is a fault. *)
Definition load (state : positive) (m : memory) : outcome game_struct :=
  assert_some (structs m !! state).

Definition store (state : positive) (st : game_struct) (m : memory)
  : outcome memory :=
  _ ← load state m;
  mret (mk_memory (<[state := st]> (structs m)) (arrays m)).

Definition words (a : positive) (m : memory) : outcome (list Z) :=
  assert_some (arrays m !! a).

(** [#define GRID(s,x,y) ((s)->grid[(y)*((s)->h+2) + (x)])], read and
    written. *)
Definition GRID (s : positive) (x y : Z) (m : memory) : outcome Z :=
  st ← load s m;
  g ← words (block.grid st) m;
  read g (y * (block.h st + 2) + x).

Definition GRID_set (s : positive) (x y v : Z) (m : memory) : outcome memory :=
  st ← load s m;
  g ← words (block.grid st) m;
  g ← write g (y * (block.h st + 2) + x) v;
  mret (mk_memory (structs m) (<[block.grid st := g]> (arrays m))).

(** [s->exits[i]], read and written. *)
Definition exits_get (s : positive) (i : Z) (m : memory) : outcome Z :=
  st ← load s m;
  e ← words (block.exits st) m;
  read e i.

Definition exits_set (s : positive) (i v : Z) (m : memory) : outcome memory :=
  st ← load s m;
  e ← words (block.exits st) m;
  e ← write e i v;
  mret (mk_memory (structs m) (<[block.exits st := e]> (arrays m))).

Definition GRID_update (s : positive) (x y : Z) (f : Z -> Z) (m : memory)
  : outcome memory :=
  v ← GRID s x y m; GRID_set s x y (f v) m.

Definition exits_update (s : positive) (i : Z) (f : Z -> Z) (m : memory)
  : outcome memory :=
  v ← exits_get s i m; exits_set s i (f v) m.

(** [state->laserno++]: the value before, and the memory after. *)
Definition laserno_incr (state : positive) (m : memory)
  : outcome (Z * memory) :=
  st ← load state m;
  m ← store state (block.with_laserno st (block.laserno st + 1)) m;
  mret (block.laserno st, m).

(** *** Allocation *)

Definition dup_game (state : positive) (m : memory)
  : outcome (positive * memory) :=
  st ← load state m;
  let ret := fresh (dom (structs m)) in
  let grid := fresh (dom (arrays m)) in
  src ← words (block.grid st) m;
  g ← memcpy src ((block.w st + 2) * (block.h st + 2));
  let arrays1 := <[grid := g]> (arrays m) in
  let exits := fresh (dom arrays1) in
  src ← words (block.exits st) m;
  e ← memcpy src (block.nlasers st);
  let arrays2 := <[exits := e]> arrays1 in
  mret (ret,
        mk_memory
          (<[ret := block.mk_struct
                      (block.w st) (block.h st)
                      (block.minballs st) (block.maxballs st)
                      (block.nballs st) (block.nlasers st)
                      grid exits
                      (block.done st) (block.laserno st)
                      (block.nguesses st) (block.reveal st)
                      (block.nright st) (block.nwrong st) (block.nmissed st)]>
             (structs m))
          arrays2).

Definition free_game (state : positive) (m : memory) : outcome memory :=
  st ← load state m;
  _ ← words (block.exits st) m;
  let arrays1 := delete (block.exits st) (arrays m) in
  _ ← assert_some (arrays1 !! block.grid st);
  let arrays2 := delete (block.grid st) arrays1 in
  mret (mk_memory (delete state (structs m)) arrays2).

(** *** Coordinate mapper *)

Definition range2grid (state : positive) (rangeno : Z) (m : memory)
  : outcome (option (Z * Z * Z)) :=
  st ← load state m;
  let w := block.w st in
  let h := block.h st in
  mret (if rangeno <? 0 then None
        else if rangeno <? w then Some (rangeno + 1, 0, DIR_DOWN)
        else let rangeno := rangeno - w in
        if rangeno <? h then Some (w + 1, rangeno + 1, DIR_LEFT)
        else let rangeno := rangeno - h in
        if rangeno <? w then Some (w - rangeno, h + 1, DIR_UP)
        else let rangeno := rangeno - w in
        if rangeno <? h then Some (0, h - rangeno, DIR_RIGHT)
        else None).

Definition grid2range (state : positive) (x y : Z) (m : memory)
  : outcome (option Z) :=
  st ← load state m;
  let w := block.w st in
  let h := block.h st in
  let x1 := w + 1 in
  let y1 := h + 1 in
  mret (if (0 <? x) && (x <? x1) && (0 <? y) && (y <? y1) then None
        else if (x <? 0) || (y1 <? x) || (y <? 0) || (y1 <? y) then None
        else if ((x =? 0) || (x =? x1)) && ((y =? 0) || (y =? y1)) then None
        else if y =? 0 then Some (x - 1)
        else if x =? x1 then Some (y - 1 + w)
        else if y =? y1 then Some ((w - x) + w + h)
        else Some ((h - y) + w + w + h)).

(** *** Ray tracer *)

Definition isball (state : positive) (gx gy direction : Z) (lookwhere : look)
           (m : memory) : outcome bool :=
  let '(gx, gy) := OFFSET gx gy direction in
  let '(gx, gy) :=
    match lookwhere with
    | LOOK_LEFT => OFFSET gx gy (direction - 1)
    | LOOK_RIGHT => OFFSET gx gy (direction + 1)
    | LOOK_FORWARD => (gx, gy)
    end in
  st ← load state m;
  if (gx <? 1) || (gy <? 1) || (block.h st <? gx) || (block.w st <? gy)
  then Done false
  else v ← GRID state gx gy m;
       mret (negb (Z.land v BALL_CORRECT =? 0)).

Definition laser_exit (state : positive) (xstart ystart lno x y : Z)
           (m : memory) : outcome memory :=
  '(newno, m) ← laserno_incr state m;
  if (xstart =? x) && (ystart =? y) then
    m ← GRID_set state x y LASER_REFLECT m;
    exits_set state lno LASER_REFLECT m
  else
    m ← GRID_set state xstart ystart (to_unsigned newno) m;
    m ← GRID_set state x y (to_unsigned newno) m;
    r ← grid2range state x y m;
    exitno ← assert_some r;
    m ← exits_set state lno (to_unsigned exitno) m;
    exits_set state exitno (to_unsigned lno) m.

Fixpoint laser_loop (fuel : nat) (state : positive)
         (xstart ystart lno x y direction : Z) (m : memory)
  : outcome memory :=
  match fuel with
  | O => OutOfFuel
  | S fuel =>
    r ← grid2range state x y m;
    match r with
    | Some _ => laser_exit state xstart ystart lno x y m
    | None =>
      v ← GRID state x y m;
      _ ← assert_true (Z.land v BALL_CORRECT =? 0);
      f ← isball state x y direction LOOK_FORWARD m;
      if f : bool then
        m ← GRID_set state xstart ystart LASER_HIT m;
        exits_set state lno LASER_HIT m
      else
        l ← isball state x y direction LOOK_LEFT m;
        if l : bool then
          laser_loop fuel state xstart ystart lno x y ((direction + 1) mod 4) m
        else
          r ← isball state x y direction LOOK_RIGHT m;
          if r : bool then
            laser_loop fuel state xstart ystart lno x y
                       ((direction + 3) mod 4) m
          else
            let '(x, y) := OFFSET x y direction in
            laser_loop fuel state xstart ystart lno x y direction m
    end
  end.

Definition fire_laser (fuel : nat) (state : positive) (x y direction : Z)
           (m : memory) : outcome memory :=
  r ← grid2range state x y m;
  lno ← assert_some r;
  f ← isball state x y direction LOOK_FORWARD m;
  if f : bool then
    m ← GRID_set state x y LASER_HIT m;
    exits_set state lno LASER_HIT m
  else
    l ← isball state x y direction LOOK_LEFT m;
    r ← (if l : bool then mret true
         else isball state x y direction LOOK_RIGHT m);
    if r : bool then
      m ← GRID_set state x y LASER_REFLECT m;
      exits_set state lno LASER_REFLECT m
    else
      let '(x', y') := OFFSET x y direction in
      laser_loop fuel state x y lno x' y' direction m.

(** *** Consistency checker *)

Definition clear_lasers (solution : positive) (m : memory) : outcome memory :=
  st ← load solution m;
  for_range 0 (block.nlasers st) (fun i m =>
    r ← range2grid solution i m;
    '(x, y, _) ← assert_some r;
    m ← GRID_set solution x y 0 m;
    exits_set solution i LASER_EMPTY m) m.

Definition guess_to_correct (guesses : positive) (x y : Z) (m : memory)
  : outcome memory :=
  m ← GRID_update guesses x y (fun v => Z.land v (unot BALL_CORRECT)) m;
  v ← GRID guesses x y m;
  if flag_set v BALL_GUESS
  then GRID_update guesses x y (fun v => Z.lor v BALL_CORRECT) m
  else mret m.

Definition fire_both (fuel : nat) (solution guesses : positive) (i : Z)
           (m : memory) : outcome memory :=
  r ← range2grid solution i m;
  '(x, y, dir) ← assert_some r;
  e ← exits_get solution i m;
  m ← (if e =? LASER_EMPTY then fire_laser fuel solution x y dir m
       else mret m);
  e ← exits_get guesses i m;
  if e =? LASER_EMPTY then fire_laser fuel guesses x y dir m
  else mret m.

Definition add_omitted (state : positive) (i x y es : Z) (m : memory)
  : outcome memory :=
  m ← exits_set state i es m;
  e ← exits_get state i m;
  m ← (if (e =? LASER_REFLECT) || (e =? LASER_HIT)
       then GRID_set state x y e m
       else
         '(newno, m) ← laserno_incr state m;
         r ← range2grid state (to_int e) m;
         '(ex, ey, _) ← assert_some r;
         m ← GRID_set state x y (to_unsigned newno) m;
         GRID_set state ex ey (to_unsigned newno) m);
  exits_update state i (fun v => Z.lor v LASER_OMITTED) m.

(** One round of the comparing loop; [ret] is the verdict so far. *)
Definition compare_exit (state solution guesses : positive) (i : Z)
           (p : memory * Z) : outcome (memory * Z) :=
  let '(m, ret) := p in
  r ← range2grid solution i m;
  '(x, y, _) ← assert_some r;
  es ← exits_get solution i m;
  eg ← exits_get guesses i m;
  if es =? eg then mret (m, ret)
  else
    e ← exits_get state i m;
    m ← (if e =? LASER_EMPTY
         then add_omitted state i x y es m
         else exits_update state i (fun v => Z.lor v LASER_WRONG) m);
    mret (m, 0).

Definition fix_correct (state : positive) (x y : Z) (m : memory)
  : outcome memory :=
  v ← GRID state x y m;
  if flag_set v BALL_GUESS
  then GRID_update state x y (fun v => Z.lor v BALL_CORRECT) m
  else GRID_update state x y (fun v => Z.land v (unot BALL_CORRECT)) m.

Definition count_cell (state : positive) (x y : Z) (m : memory)
  : outcome memory :=
  v ← GRID state x y m;
  let bs := Z.land v (Z.lor BALL_GUESS BALL_CORRECT) in
  st ← load state m;
  if bs =? Z.lor BALL_GUESS BALL_CORRECT
  then store state (block.with_counts st (block.nright st + 1)
                      (block.nwrong st) (block.nmissed st)) m
  else if bs =? BALL_GUESS
  then store state (block.with_counts st (block.nright st)
                      (block.nwrong st + 1) (block.nmissed st)) m
  else if bs =? BALL_CORRECT
  then store state (block.with_counts st (block.nright st)
                      (block.nwrong st) (block.nmissed st + 1)) m
  else mret m.

Definition count_balls (state : positive) (m : memory) : outcome memory :=
  st ← load state m;
  m ← store state (block.with_counts st 0 0 0) m;
  for_arena (block.w st) (block.h st) (count_cell state) m.

Definition check_guesses (fuel : nat) (state : positive) (m : memory)
  : outcome (Z * memory) :=
  '(solution, m) ← dup_game state m;
  m ← clear_lasers solution m;
  '(guesses, m) ← dup_game solution m;
  st ← load state m;
  m ← for_arena (block.w st) (block.h st) (guess_to_correct guesses) m;
  sol ← load solution m;
  m ← for_range 0 (block.nlasers sol) (fire_both fuel solution guesses) m;
  sol ← load solution m;
  '(m, ret) ← for_range 0 (block.nlasers sol)
                (compare_exit state solution guesses) (m, 1);
  st ← load state m;
  m ← (if ret =? 0 then mret m
       else for_arena (block.w st) (block.h st) (fix_correct state) m);
  m ← count_balls state m;
  m ← free_game solution m;
  m ← free_game guesses m;
  mret (ret, m).

(** *** Move state machine *)

Definition COUNTLOCK (ret : positive) (gx gy lcount : Z) (m : memory)
  : outcome Z :=
  v ← GRID ret gx gy m;
  mret (if flag_set v BALL_LOCK then lcount + 1 else lcount).

Definition SETLOCKIF (c lcount : Z) (ret : positive) (gx gy : Z) (m : memory)
  : outcome memory :=
  if c <? lcount
  then GRID_update ret gx gy (fun v => Z.land v (unot BALL_LOCK)) m
  else GRID_update ret gx gy (fun v => Z.lor v BALL_LOCK) m.

(** The [badmove] exit. *)
Definition badmove (ret : positive) (m : memory)
  : outcome (option positive * memory) :=
  m ← free_game ret m; mret (None, m).

Definition toggle_ball (ret : positive) (gx gy : Z) (m : memory)
  : outcome memory :=
  v ← GRID ret gx gy m;
  st ← load ret m;
  if flag_set v BALL_GUESS then
    m ← store ret (block.with_nguesses st (block.nguesses st - 1)) m;
    GRID_update ret gx gy (fun v => Z.land v (unot BALL_GUESS)) m
  else
    m ← store ret (block.with_nguesses st (block.nguesses st + 1)) m;
    GRID_update ret gx gy (fun v => Z.lor v BALL_GUESS) m.

(** The [case 'L'] block; [p] is the text from [move + 1] on. *)
Definition lock_move (ret : positive) (p : list ascii) (m : memory)
  : outcome (option positive * memory) :=
  match p with
  | [] => badmove ret m
  | "B"%char :: p2 =>
    '(gx, gy) ← sscanf_d_d p2 (-1) (-1);
    st ← load ret m;
    if (gx <? 1) || (gy <? 1) || (block.w st <? gx) || (block.h st <? gy)
    then badmove ret m
    else m ← GRID_update ret gx gy (fun v => Z.lxor v BALL_LOCK) m;
         mret (Some ret, m)
  | "C"%char :: p2 =>
    gx ← sscanf_d p2 (-1);
    st ← load ret m;
    if (gx <? 1) || (block.w st <? gx) then badmove ret m
    else
      lcount ← for_range 1 (block.h st + 1)
                 (fun gy lc => COUNTLOCK ret gx gy lc m) 0;
      m ← for_range 1 (block.h st + 1)
            (fun gy m =>
               st ← load ret m;
               SETLOCKIF (Z.quot (block.h st) 2) lcount ret gx gy m) m;
      mret (Some ret, m)
  | "R"%char :: p2 =>
    gy ← sscanf_d p2 (-1);
    st ← load ret m;
    if (gy <? 1) || (block.h st <? gy) then badmove ret m
    else
      lcount ← for_range 1 (block.w st + 1)
                 (fun gx lc => COUNTLOCK ret gx gy lc m) 0;
      m ← for_range 1 (block.w st + 1)
            (fun gx m =>
               st ← load ret m;
               SETLOCKIF (Z.quot (block.w st) 2) lcount ret gx gy m) m;
      mret (Some ret, m)
  | _ => badmove ret m
  end.

(** [execute_move(from, move)]: the pointer returned, [None] for NULL, and
    the memory after the call. *)
Definition execute_move (fuel : nat) (from : positive) (move : string)
           (m : memory) : outcome (option positive * memory) :=
  '(ret, m) ← dup_game from m;
  if String.eqb move "S" then
    st ← load ret m;
    m ← store ret (block.with_reveal st 1) m;
    mret (Some ret, m)
  else
    fr ← load from m;
    if negb (block.reveal fr =? 0) then badmove ret m
    else
      match list_ascii_of_string move with
      | [] => badmove ret m
      | "T"%char :: p =>
        '(gx, gy) ← sscanf_d_d p (-1) (-1);
        st ← load ret m;
        if (gx <? 1) || (gy <? 1) || (block.w st <? gx) || (block.h st <? gy)
        then badmove ret m
        else m ← toggle_ball ret gx gy m; mret (Some ret, m)
      | "F"%char :: p =>
        rangeno ← sscanf_d p (-1);
        e ← exits_get ret rangeno m;
        if negb (e =? LASER_EMPTY) then badmove ret m
        else
          r ← range2grid ret rangeno m;
          match r with
          | None => badmove ret m
          | Some (gx, gy, direction) =>
            m ← fire_laser fuel ret gx gy direction m; mret (Some ret, m)
          end
      | "R"%char :: _ =>
        st ← load ret m;
        if (block.nguesses st <? block.minballs st)
           || (block.maxballs st <? block.nguesses st)
        then badmove ret m
        else '(_, m) ← check_guesses fuel ret m;
             st ← load ret m;
             m ← store ret (block.with_reveal st 1) m;
             mret (Some ret, m)
      | "L"%char :: p => lock_move ret p m
      | _ => badmove ret m
      end.

End Heap.

(** *** Reading a state off the heap *)

(** The struct of a state whose arrays lie at [gp] and [ep]. *)
Definition struct_of (s : game_state) (gp ep : positive) : game_struct :=
  block.mk_struct (w s) (h s) (minballs s) (maxballs s) (nballs s) (nlasers s)
                  gp ep (done s) (laserno s)
                  (nguesses s) (reveal s) (nright s) (nwrong s) (nmissed s).

(** The state [s] lies at [p], its arrays at [gp] and [ep]. *)
Definition lies_at (p gp ep : positive) (m : memory) (s : game_state) : Prop :=
  structs m !! p = Some (struct_of s gp ep) /\
  arrays m !! gp = Some (grid s) /\
  arrays m !! ep = Some (exits s) /\
  gp <> ep.

(** The memory with the three blocks of [p] holding [s]. *)
Definition inject (p gp ep : positive) (s : game_state) (m : memory) : memory :=
  mk_memory (<[p := struct_of s gp ep]> (structs m))
            (<[ep := exits s]> (<[gp := grid s]> (arrays m))).

(** The memory without the three blocks of [p]. *)
Definition erase (p gp ep : positive) (m : memory) : memory :=
  mk_memory (delete p (structs m)) (delete gp (delete ep (arrays m))).

(** The two arrays have the sizes [new_game] and [dup_game] allocate. *)
Definition sized (s : game_state) : Prop :=
  Z.of_nat (length (grid s)) = (w s + 2) * (h s + 2) /\
  Z.of_nat (length (exits s)) = nlasers s.

(** The blocks of two states are apart. *)
Definition apart (p gp ep q gq eq : positive) : Prop :=
  p <> q /\ gp <> gq /\ gp <> eq /\ ep <> gq /\ ep <> eq.

(** Every block of [m] is found unchanged in [m']. *)
Definition kept (m m' : memory) : Prop :=
  structs m ⊆ structs m' /\ arrays m ⊆ arrays m'.

(** What a procedure that works on the state at [p] leaves: the memory with
    the blocks of [p] holding the state the value-level function returns. *)
Definition commit (p gp ep : positive) (m : memory) (o : outcome game_state)
  : outcome memory :=
  s' ← o; mret (inject p gp ep s' m).

(** What [execute_move] answers, [m] being the memory before the call and
    [r], [rg], [re] the three blocks [dup_game] allocates: the pointer to the
    copy that holds the state the value-level function returns, or NULL with
    the copy released. *)
Definition answer (r rg re : positive) (m : memory)
           (o : outcome (option game_state))
  : outcome (option positive * memory) :=
  match o with
  | Done (Some s') => Done (Some r, inject r rg re s' m)
  | Done None => Done (None, m)
  | Fault => Fault
  | OutOfFuel => OutOfFuel
  end.

(** A heap that holds [square_board] and nothing else: the struct in block 1
    of the structs, the grid and the exits in blocks 1 and 2 of the arrays. *)
Definition square_board_memory : memory :=
  mk_memory {[1%positive := struct_of square_board 1 2]}
            (<[2%positive := exits square_board]>
               {[1%positive := grid square_board]}).

(** * Properties *)

(** ** Outcomes and checked arrays *)

Lemma bind_Done {A B} (m : outcome A) (f : A -> outcome B) (b : B) :
  m ≫= f = Done b -> exists a, m = Done a /\ f a = Done b.
Proof. destruct m as [a| |]; simpl; intros E; try discriminate; eauto. Qed.

Lemma read_Done (a : list Z) (i v : Z) :
  read a i = Done v <-> 0 <= i /\ a !! Z.to_nat i = Some v.
Proof.
  unfold read. destruct (Z.ltb_spec i 0).
  - split; [discriminate | lia].
  - destruct (a !! Z.to_nat i) eqn:E; split; intros H1;
      try discriminate; try (destruct H1; congruence).
    injection H1 as ->. auto.
Qed.

Lemma write_Done (a : list Z) (i v : Z) (a' : list Z) :
  write a i v = Done a' <->
  0 <= i < Z.of_nat (length a) /\ a' = <[Z.to_nat i := v]> a.
Proof.
  unfold write.
  destruct (Z.ltb_spec i 0); destruct (Z.leb_spec (Z.of_nat (length a)) i);
    simpl; split; intros H1; try discriminate; try lia.
  - injection H1 as <-. split; [lia | reflexivity].
  - destruct H1 as [_ ->]. reflexivity.
Qed.

Ltac bool_cases :=
  repeat match goal with
  | H : context [ ?a <? ?b ] |- _ => destruct (Z.ltb_spec a b)
  | H : context [ ?a =? ?b ] |- _ => destruct (Z.eqb_spec a b)
  | |- context [ ?a <? ?b ] => destruct (Z.ltb_spec a b)
  | |- context [ ?a =? ?b ] => destruct (Z.eqb_spec a b)
  end.

(** Comparisons whose value follows from the hypotheses by arithmetic. *)
Ltac settle_tests :=
  repeat match goal with
  | |- context [ ?a <? ?b ] =>
    first [ rewrite (proj2 (Z.ltb_lt a b)) by lia
          | rewrite (proj2 (Z.ltb_ge a b)) by lia ]
  | |- context [ ?a <=? ?b ] =>
    first [ rewrite (proj2 (Z.leb_le a b)) by lia
          | rewrite (proj2 (Z.leb_gt a b)) by lia ]
  | |- context [ ?a =? ?b ] =>
    first [ rewrite (proj2 (Z.eqb_eq a b)) by lia
          | rewrite (proj2 (Z.eqb_neq a b)) by lia ]
  end.

Ltac by_evaluation :=
  intros; repeat match goal with |- _ /\ _ => split; intros end;
  first [ vm_compute; reflexivity | vm_compute; discriminate ].

(** ** Coordinate mapper *)

(** Where the board is not wider than high, the two mappers agree: every
    valid perimeter index comes back from its cell. *)
Lemma range2grid_grid2range (s : game_state) (i x y d : Z) :
  0 <= w s <= h s ->
  range2grid s i = Some (x, y, d) -> grid2range s x y = Some i.
Proof.
  unfold range2grid, grid2range. intros Hw H.
  repeat match type of H with
  | context [ ?a <? ?b ] => destruct (Z.ltb_spec a b)
  end; inversion H; subst; clear H.
  all: settle_tests; simpl; f_equal; lia.
Qed.

Lemma range2grid_valid (s : game_state) (i : Z) :
  0 <= i < 2 * (w s + h s) -> 0 <= w s -> 0 <= h s ->
  exists x y d, range2grid s i = Some (x, y, d).
Proof.
  intros Hi Hw Hh. unfold range2grid.
  bool_cases; try lia; eauto.
Qed.

(** C2 (the code falls short of the claim).  On a board 3 wide and 2 high,
    which creation accepts, perimeter index 3 is valid and [range2grid] maps
    it to the right-hand cell (4,1); [grid2range] does not map that cell back
    to 3 but rejects it, because it compares x with the height bound. *)
Theorem C2_roundtrip_lost_on_wide_board :
  new_game 1 1 [3; 2; 1; 0] = Done wide_board /\
  0 <= 3 < 2 * (w wide_board + h wide_board) /\
  range2grid wide_board 3 = Some (4, 1, DIR_LEFT) /\
  grid2range wide_board 4 1 = None.
Proof. by_evaluation. Qed.

(** ** Ray tracer on boards that are not square *)

(** On a square board a probe outside the arena sees no ball, whatever the
    perimeter cells hold. *)
Lemma isball_outside_square (s : game_state) (gx gy d : Z) (lk : look) :
  w s = h s ->
  (let '(px, py) :=
     let '(ax, ay) := OFFSET gx gy d in
     match lk with
     | LOOK_LEFT => OFFSET ax ay (d - 1)
     | LOOK_RIGHT => OFFSET ax ay (d + 1)
     | LOOK_FORWARD => (ax, ay)
     end in
   ~ (1 <= px <= w s /\ 1 <= py <= h s)) ->
  isball s gx gy d lk = Done false.
Proof.
  intros Hsq. unfold isball.
  destruct (OFFSET gx gy d) as [ax ay].
  destruct (match lk with
            | LOOK_LEFT => OFFSET ax ay (d - 1)
            | LOOK_FORWARD => (ax, ay)
            | LOOK_RIGHT => OFFSET ax ay (d + 1)
            end) as [px py].
  intros Hout.
  destruct (Z.ltb_spec px 1), (Z.ltb_spec py 1), (Z.ltb_spec (h s) px),
    (Z.ltb_spec (w s) py); simpl; try reflexivity.
  exfalso. apply Hout. lia.
Qed.

(** C3 (the code falls short of the claim).  On the board 3 wide and 4 high
    with one ball in (1,4), laser 3 is fired; it runs along row 1 and leaves
    laser number 1 in the perimeter cells (4,1) and (0,1).  A ray at (3,1)
    heading right then probes (4,1), which lies outside the arena columns
    1..3, and [isball] reports a ball there: its bounds test compares x with
    the height and y with the width, and the low bit of the laser number is
    the true-ball flag. *)
Theorem C3_isball_reads_perimeter_marker :
  new_game 1 1 [3; 4; 0; 3] = Done tall_board /\
  apply_move 5 tall_board tall_board "F3" = Done (Some tall_board_fired) /\
  OFFSET 3 1 DIR_RIGHT = (4, 1) /\
  w tall_board_fired = 3 /\
  GRID tall_board_fired 4 1 = Done 1 /\
  isball tall_board_fired 3 1 DIR_RIGHT LOOK_FORWARD = Done true.
Proof. by_evaluation. Qed.

(** C4 (the code falls short of the claim).  On the board 3 wide and 4 high
    with balls in (1,4) and (1,3), laser 10 enters at (0,4) heading right;
    its first arena cell (1,4) holds a ball, yet the origin slot is marked
    Reflected, not Hit: [isball] misses the ball in row 4 because it compares
    the row with the width 3, and then finds the diagonal ball in (1,3). *)
Theorem C4_forward_ball_missed_on_tall_board :
  new_game 2 2 [3; 4; 0; 3; 0; 2] = Done tall_board_balls /\
  range2grid tall_board_balls 10 = Some (0, 4, DIR_RIGHT) /\
  OFFSET 0 4 DIR_RIGHT = (1, 4) /\
  true_ball tall_board_balls (1, 4) = true /\
  forall fuel,
    fire_laser fuel tall_board_balls 0 4 DIR_RIGHT ≫= (fun s => exits_get s 10)
    = Done LASER_REFLECT.
Proof. by_evaluation. Qed.

(** C5 (the code falls short of the claim).  On the board 3 wide and 4 high
    with one ball in (1,4), laser 2 runs straight down column 3 and is back
    on the perimeter in cell (3,5), perimeter index 7.  Stamping that cell
    addresses word 33 of a grid of 30 words, so no run of [fire_laser]
    completes: the ends are neither stamped nor paired. *)
Theorem C5_exit_stamp_outside_grid :
  new_game 1 1 [3; 4; 0; 3] = Done tall_board /\
  range2grid tall_board 2 = Some (3, 0, DIR_DOWN) /\
  grid2range tall_board 3 5 = Some 7 /\
  GRID_index tall_board 3 5 = 33 /\
  length (grid tall_board) = 30%nat /\
  fire_laser 5 tall_board 3 0 DIR_DOWN = Fault /\
  forall fuel r, fire_laser fuel tall_board 3 0 DIR_DOWN <> Done r.
Proof.
  do 6 (split; [vm_compute; reflexivity|]).
  intros fuel r.
  do 5 (destruct fuel as [|fuel]; [vm_compute; discriminate|]).
  vm_compute. discriminate.
Qed.

(** C1 (the code falls short of the claim).  On the board 3 wide and 2 high
    the player marks exactly the cell of the one ball.  The guessed cells
    are the true cells, yet [check_guesses] does not return: firing laser 3
    from the right-hand cell (4,1) fails the assertion on [grid2range]. *)
Theorem C1_check_aborts_on_wide_board :
  new_game 1 1 [3; 2; 1; 0] = Done wide_board /\
  apply_move 0 wide_board wide_board "T2,1" = Done (Some wide_board_guessed) /\
  forallb (fun c => eqb (guessed wide_board_guessed c)
                        (true_ball wide_board_guessed c))
          (arena_cells wide_board_guessed) = true /\
  forall fuel, check_guesses fuel wide_board_guessed = Fault.
Proof. by_evaluation. Qed.

(** ** Move state machine *)

(** C9 (the code falls short of the claim).  On the 5 by 5 board the exit
    table has 20 slots.  The Fire moves for index 20 and for index -1, and
    the text "F" whose index is not readable and stays -1, are not rejected:
    [execute_move] reads the exit table at the index before [range2grid]
    validates it, outside the table. *)
Theorem C9_fire_reads_exit_table_before_validation :
  length (exits square_board) = 20%nat /\
  range2grid square_board 20 = None /\
  range2grid square_board (-1) = None /\
  reads_as "F20" (Fire 20) /\
  reads_as "F-1" (Fire (-1)) /\
  reads_as "F" (Fire (-1)) /\
  forall fuel,
    exits_get square_board 20 = Fault /\
    apply_move fuel square_board square_board "F20" = Fault /\
    apply_move fuel square_board square_board "F-1" = Fault /\
    apply_move fuel square_board square_board "F" = Fault /\
    (execute_move fuel {[1%positive := square_board]} 1 "F20").2 = Fault.
Proof.
  do 3 (split; [by_evaluation|]).
  split; [exists ["2"; "0"]%char; by_evaluation|].
  split; [exists ["-"; "1"]%char; by_evaluation|].
  split; [exists []; by_evaluation|].
  by_evaluation.
Qed.

Lemma reads_as_not_solve (move : string) (c : command) :
  reads_as move c -> String.eqb move "S" = false.
Proof.
  intros H.
  assert (exists a p, list_ascii_of_string move = a :: p /\ a <> "S"%char)
    as (a & p & Hm & Ha).
  { destruct c; destruct H as [p H];
      try match type of H with _ /\ _ => destruct H as [H _] end;
      eexists _, _; (split; [exact H | discriminate]). }
  destruct move as [|b rest]; [discriminate|].
  simpl in Hm. injection Hm as -> _.
  simpl. destruct (Ascii.eqb_spec a "S"%char); [contradiction | reflexivity].
Qed.

(** Once [reveal] is set, everything but the solve move is a bad move. *)
Lemma apply_move_revealed (fuel : nat) (from ret : game_state) (move : string) :
  reveal from <> 0 -> String.eqb move "S" = false ->
  apply_move fuel from ret move = Done None.
Proof.
  intros Hr Hs. unfold apply_move. rewrite Hs.
  destruct (Z.eqb_spec (reveal from) 0); [contradiction | reflexivity].
Qed.

Lemma alloc_fresh (m : store) (s : game_state) :
  m !! (alloc m s).2 = None.
Proof. simpl. apply not_elem_of_dom, is_fresh. Qed.

(** C7.  In a state whose [reveal] is set, every command of the move
    vocabulary is rejected: [execute_move] returns NULL and the store, with
    the state in it, is what it was before the call. *)
Theorem C7_no_move_after_reveal (fuel : nat) (m : store) (from : positive)
        (s : game_state) (move : string) (c : command) :
  m !! from = Some s ->
  reveal s <> 0 ->
  reads_as move c ->
  execute_move fuel m from move = (m, Done None).
Proof.
  intros Hfrom Hrev Hc. unfold execute_move. rewrite Hfrom.
  pose proof (alloc_fresh m (dup_game s)) as Hfresh.
  destruct (alloc m (dup_game s)) as [m1 ret] eqn:Ha.
  rewrite (apply_move_revealed fuel s (dup_game s) move Hrev
             (reads_as_not_solve move c Hc)).
  unfold alloc in Ha. injection Ha as <- <-.
  unfold free_game. simpl in Hfresh. rewrite (delete_insert_id _ _ _ Hfresh).
  reflexivity.
Qed.

Lemma C7_no_move_after_reveal_witness :
  ({[1%positive := square_board_revealed]} : store) !! 1%positive
    = Some square_board_revealed /\
  reveal square_board_revealed <> 0 /\
  reads_as "F3" (Fire 3) /\
  execute_move 30 {[1%positive := square_board_revealed]} 1 "F3"
    = ({[1%positive := square_board_revealed]}, Done None).
Proof.
  assert (H1 : ({[1%positive := square_board_revealed]} : store) !! 1%positive
               = Some square_board_revealed) by apply lookup_singleton_eq.
  assert (H2 : reveal square_board_revealed <> 0) by (vm_compute; discriminate).
  assert (H3 : reads_as "F3" (Fire 3))
    by (exists ["3"%char]; split; vm_compute; reflexivity).
  split; [exact H1|]. split; [exact H2|]. split; [exact H3|].
  exact (C7_no_move_after_reveal 30 _ 1%positive square_board_revealed "F3"
           (Fire 3) H1 H2 H3).
Defined.

(** ** Flags as bits *)

Lemma land_pow2 (v k : Z) :
  0 <= k -> Z.land v (2 ^ k) = if Z.testbit v k then 2 ^ k else 0.
Proof.
  intros Hk. apply Z.bits_inj'. intros n Hn.
  rewrite Z.land_spec, Z.pow2_bits_eqb by exact Hk.
  destruct (Z.eqb_spec k n) as [->|Hne].
  - destruct (Z.testbit v n) eqn:E; simpl.
    + rewrite Z.pow2_bits_eqb by exact Hn. rewrite Z.eqb_refl. reflexivity.
    + rewrite Z.bits_0. reflexivity.
  - rewrite andb_false_r. destruct (Z.testbit v k).
    + rewrite Z.pow2_bits_eqb by exact Hk.
      destruct (Z.eqb_spec k n); [contradiction | reflexivity].
    + rewrite Z.bits_0. reflexivity.
Qed.

Lemma flag_set_bit (v k : Z) : 0 <= k -> flag_set v (2 ^ k) = Z.testbit v k.
Proof.
  intros Hk. unfold flag_set. rewrite land_pow2 by exact Hk.
  destruct (Z.testbit v k).
  - assert (0 < 2 ^ k) by (apply Z.pow_pos_nonneg; lia).
    destruct (Z.eqb_spec (2 ^ k) 0); [lia | reflexivity].
  - reflexivity.
Qed.

Lemma flag_correct v : flag_set v BALL_CORRECT = Z.testbit v 0.
Proof. exact (flag_set_bit v 0 ltac:(lia)). Qed.
Lemma flag_guess v : flag_set v BALL_GUESS = Z.testbit v 1.
Proof. exact (flag_set_bit v 1 ltac:(lia)). Qed.
Lemma flag_lock v : flag_set v BALL_LOCK = Z.testbit v 2.
Proof. exact (flag_set_bit v 2 ltac:(lia)). Qed.

Ltac flag_bits :=
  rewrite ?flag_correct, ?flag_guess, ?flag_lock;
  rewrite ?Z.land_spec, ?Z.lor_spec, ?Z.lxor_spec;
  change (Z.testbit (unot BALL_CORRECT) 0) with false;
  change (Z.testbit (unot BALL_CORRECT) 1) with true;
  change (Z.testbit (unot BALL_CORRECT) 2) with true;
  change (Z.testbit (unot BALL_GUESS) 0) with true;
  change (Z.testbit (unot BALL_GUESS) 1) with false;
  change (Z.testbit (unot BALL_GUESS) 2) with true;
  change (Z.testbit (unot BALL_LOCK) 0) with true;
  change (Z.testbit (unot BALL_LOCK) 1) with true;
  change (Z.testbit (unot BALL_LOCK) 2) with false;
  change (Z.testbit BALL_CORRECT 0) with true;
  change (Z.testbit BALL_CORRECT 1) with false;
  change (Z.testbit BALL_CORRECT 2) with false;
  change (Z.testbit BALL_GUESS 0) with false;
  change (Z.testbit BALL_GUESS 1) with true;
  change (Z.testbit BALL_GUESS 2) with false;
  change (Z.testbit BALL_LOCK 0) with false;
  change (Z.testbit BALL_LOCK 1) with false;
  change (Z.testbit BALL_LOCK 2) with true;
  rewrite ?andb_true_r, ?andb_false_r, ?orb_true_r, ?orb_false_r,
    ?xorb_false_r, ?xorb_true_r.

(** The three tests of the counting loop, in terms of the two flags. *)
Lemma count_bits v :
  let bs := Z.land v (Z.lor BALL_GUESS BALL_CORRECT) in
  (bs =? Z.lor BALL_GUESS BALL_CORRECT) = flag_set v BALL_GUESS && flag_set v BALL_CORRECT /\
  (bs =? BALL_GUESS) = flag_set v BALL_GUESS && negb (flag_set v BALL_CORRECT) /\
  (bs =? BALL_CORRECT) = flag_set v BALL_CORRECT && negb (flag_set v BALL_GUESS).
Proof.
  intros bs.
  assert (Hbs : bs = (if Z.testbit v 1 then 2 else 0) + (if Z.testbit v 0 then 1 else 0)).
  { subst bs. change (Z.lor BALL_GUESS BALL_CORRECT) with (Z.lor (2^1) (2^0)).
    rewrite Z.land_lor_distr_r, !land_pow2 by lia.
    destruct (Z.testbit v 1), (Z.testbit v 0); reflexivity. }
  rewrite Hbs. flag_bits.
  destruct (Z.testbit v 1), (Z.testbit v 0); repeat split; reflexivity.
Qed.

(** ** Loops as runs over lists *)

Lemma run_list_app {A St} (body : A -> St -> outcome St) (l1 l2 : list A) (s : St) :
  run_list body (l1 ++ l2) s = run_list body l1 s ≫= run_list body l2.
Proof.
  revert s. induction l1 as [|a l1 IH]; intros s; simpl; [reflexivity|].
  destruct (body a s); simpl; auto.
Qed.

Lemma for_loop_run_list {St} (body : Z -> St -> outcome St) (n : nat) (i : Z) (s : St) :
  for_loop n i body s = run_list body (seqZ i (Z.of_nat n)) s.
Proof.
  revert i s. induction n as [|n IH]; intros i s; [reflexivity|].
  rewrite seqZ_cons by lia. simpl for_loop. simpl run_list.
  destruct (body i s); simpl; try reflexivity.
  rewrite IH. do 2 f_equal; lia.
Qed.

Lemma for_range_run_list {St} (body : Z -> St -> outcome St) (lo len : Z) (s : St) :
  for_range lo (lo + len) body s = run_list body (seqZ lo len) s.
Proof.
  unfold for_range. rewrite for_loop_run_list.
  replace (lo + len - lo) with len by lia.
  destruct (Z.le_gt_cases 0 len).
  - rewrite Z2Nat.id by assumption. reflexivity.
  - rewrite (seqZ_nil lo len) by lia.
    replace (Z.to_nat len) with 0%nat by lia. reflexivity.
Qed.

Lemma run_list_bind {A B St} (f : A -> list B) (body : B -> St -> outcome St)
      (l : list A) (s : St) :
  run_list (fun a t => run_list body (f a) t) l s = run_list body (l ≫= f) s.
Proof.
  revert s. induction l as [|a l IH]; intros s; [reflexivity|].
  simpl. rewrite run_list_app.
  destruct (run_list body (f a) s); simpl; auto.
Qed.

Lemma run_list_ext {A St} (f g : A -> St -> outcome St) (l : list A) (s : St) :
  (forall a t, f a t = g a t) -> run_list f l s = run_list g l s.
Proof.
  intros E. revert s. induction l as [|a l IH]; intros s; [reflexivity|].
  simpl. rewrite E. destruct (g a s); simpl; auto.
Qed.

Lemma for_arena_run_list {St} (body : Z -> Z -> St -> outcome St) (wd ht : Z) (s : St) :
  for_arena wd ht body s = run_list (fun c t => body c.1 c.2 t) (cells wd ht) s.
Proof.
  unfold for_arena, cells.
  replace (wd + 1) with (1 + wd) by lia. rewrite for_range_run_list.
  rewrite <- run_list_bind.
  apply run_list_ext. intros x t.
  replace (ht + 1) with (1 + ht) by lia. rewrite for_range_run_list.
  rewrite <- (run_list_bind (fun y => [(x, y)])).
  apply run_list_ext. intros y u. simpl.
  destruct (body x y u); reflexivity.
Qed.

(** An invariant kept by every step holds at the end of the run. *)
Lemma run_list_inv {A St} (body : A -> St -> outcome St) (P : St -> Prop)
      (l : list A) (s s' : St) :
  run_list body l s = Done s' ->
  P s ->
  (forall a t t', a ∈ l -> P t -> body a t = Done t' -> P t') ->
  P s'.
Proof.
  revert s. induction l as [|a l IH]; intros s E Hs Hstep; simpl in E.
  - injection E as <-. exact Hs.
  - apply bind_Done in E as (t & Ea & E).
    apply (IH t E).
    + apply (Hstep a s t); [left | assumption | assumption].
    + intros b u u' Hb. apply Hstep. right. exact Hb.
Qed.

(** ** Grid accesses *)

Lemma GRID_Done (s : game_state) (x y v : Z) :
  GRID s x y = Done v ->
  0 <= GRID_index s x y < Z.of_nat (length (grid s)) /\ cell_value s (x, y) = v.
Proof.
  intros E. unfold cell_value. simpl. rewrite E. split; [|reflexivity].
  unfold GRID in E. apply read_Done in E as [H0 E].
  apply lookup_lt_Some in E. lia.
Qed.

Lemma GRID_in_bounds (s : game_state) (x y : Z) :
  0 <= GRID_index s x y < Z.of_nat (length (grid s)) ->
  GRID s x y = Done (cell_value s (x, y)).
Proof.
  intros Hb. unfold cell_value, GRID, read. simpl.
  destruct (Z.ltb_spec (GRID_index s x y) 0); [lia|].
  destruct (grid s !! Z.to_nat (GRID_index s x y)) eqn:E; [reflexivity|].
  apply lookup_ge_None in E. lia.
Qed.

Lemma GRID_set_Done (s : game_state) (x y v : Z) (s' : game_state) :
  GRID_set s x y v = Done s' <->
  0 <= GRID_index s x y < Z.of_nat (length (grid s)) /\
  s' = with_grid s (<[Z.to_nat (GRID_index s x y) := v]> (grid s)).
Proof.
  unfold GRID_set. split.
  - intros E. apply bind_Done in E as (g & Eg & E).
    apply write_Done in Eg as [Hb ->]. injection E as <-. auto.
  - intros [Hb ->].
    assert (write (grid s) (GRID_index s x y) v
            = Done (<[Z.to_nat (GRID_index s x y) := v]> (grid s))) as ->
      by (apply write_Done; auto).
    reflexivity.
Qed.

Lemma GRID_update_Done (s : game_state) (x y : Z) (f : Z -> Z) (s' : game_state) :
  GRID_update s x y f = Done s' ->
  0 <= GRID_index s x y < Z.of_nat (length (grid s)) /\
  s' = with_grid s (<[Z.to_nat (GRID_index s x y) := f (cell_value s (x, y))]> (grid s)).
Proof.
  unfold GRID_update. intros E. apply bind_Done in E as (v & Ev & E).
  apply GRID_Done in Ev as [_ <-]. apply GRID_set_Done in E. exact E.
Qed.

Lemma GRID_update_in_bounds (s : game_state) (x y : Z) (f : Z -> Z) :
  0 <= GRID_index s x y < Z.of_nat (length (grid s)) ->
  GRID_update s x y f
  = Done (with_grid s (<[Z.to_nat (GRID_index s x y) := f (cell_value s (x, y))]> (grid s))).
Proof.
  intros Hb. unfold GRID_update. rewrite (GRID_in_bounds s x y Hb). simpl.
  apply GRID_set_Done. auto.
Qed.

(** The word of a cell after one word of the grid was overwritten. *)
Lemma cell_value_insert (s : game_state) (k u : Z) (c : Z * Z) :
  0 <= k < Z.of_nat (length (grid s)) ->
  cell_value (with_grid s (<[Z.to_nat k := u]> (grid s))) c
  = if GRID_index s c.1 c.2 =? k then u else cell_value s c.
Proof.
  intros Hk. unfold cell_value, GRID, GRID_index, read. simpl.
  set (j := c.2 * (h s + 2) + c.1).
  destruct (Z.eqb_spec j k) as [->|Hne].
  - destruct (Z.ltb_spec k 0); [lia|].
    rewrite list_lookup_insert_eq by lia. reflexivity.
  - destruct (Z.ltb_spec j 0); [reflexivity|].
    rewrite list_lookup_insert_ne by lia. reflexivity.
Qed.

(** ** Toggling a guess *)

Lemma toggle_ball_spec (s : game_state) (x y : Z) :
  0 <= GRID_index s x y < Z.of_nat (length (grid s)) ->
  exists s',
    toggle_ball s x y = Done s' /\
    guessed s' (x, y) = negb (guessed s (x, y)) /\
    locked s' (x, y) = locked s (x, y) /\
    true_ball s' (x, y) = true_ball s (x, y) /\
    nguesses s' = (if guessed s (x, y) then nguesses s - 1 else nguesses s + 1) /\
    reveal s' = reveal s /\
    forall c, GRID_index s c.1 c.2 <> GRID_index s x y ->
              cell_value s' c = cell_value s c.
Proof.
  intros Hb. unfold toggle_ball. rewrite (GRID_in_bounds s x y Hb). simpl.
  unfold guessed at 2 3.
  destruct (flag_set (cell_value s (x, y)) BALL_GUESS) eqn:Eg.
  - rewrite GRID_update_in_bounds by exact Hb. eexists. split; [reflexivity|].
    unfold guessed, locked, true_ball.
    change (cell_value (with_nguesses s (nguesses s - 1)) (x, y))
      with (cell_value s (x, y)).
    change (grid (with_nguesses s (nguesses s - 1))) with (grid s).
    change (GRID_index (with_nguesses s (nguesses s - 1)) x y) with (GRID_index s x y).
    pose proof (cell_value_insert (with_nguesses s (nguesses s - 1))) as Hins.
    change (grid (with_nguesses s (nguesses s - 1))) with (grid s) in Hins.
    rewrite !Hins by exact Hb. simpl.
    change (GRID_index (with_nguesses s (nguesses s - 1)) x y) with (GRID_index s x y).
    rewrite Z.eqb_refl.
    repeat split; try (flag_bits; rewrite ?flag_guess in Eg; rewrite ?Eg; reflexivity).
    intros c Hc. rewrite Hins by exact Hb.
    change (GRID_index (with_nguesses s (nguesses s - 1)) c.1 c.2)
      with (GRID_index s c.1 c.2).
    destruct (Z.eqb_spec (GRID_index s c.1 c.2) (GRID_index s x y)); [contradiction|].
    reflexivity.
  - rewrite GRID_update_in_bounds by exact Hb. eexists. split; [reflexivity|].
    unfold guessed, locked, true_ball.
    change (cell_value (with_nguesses s (nguesses s + 1)) (x, y))
      with (cell_value s (x, y)).
    change (grid (with_nguesses s (nguesses s + 1))) with (grid s).
    change (GRID_index (with_nguesses s (nguesses s + 1)) x y) with (GRID_index s x y).
    pose proof (cell_value_insert (with_nguesses s (nguesses s + 1))) as Hins.
    change (grid (with_nguesses s (nguesses s + 1))) with (grid s) in Hins.
    rewrite !Hins by exact Hb. simpl.
    change (GRID_index (with_nguesses s (nguesses s + 1)) x y) with (GRID_index s x y).
    rewrite Z.eqb_refl.
    repeat split; try (flag_bits; rewrite ?flag_guess in Eg; rewrite ?Eg; reflexivity).
    intros c Hc. rewrite Hins by exact Hb.
    change (GRID_index (with_nguesses s (nguesses s + 1)) c.1 c.2)
      with (GRID_index s c.1 c.2).
    destruct (Z.eqb_spec (GRID_index s c.1 c.2) (GRID_index s x y)); [contradiction|].
    reflexivity.
Qed.

(** Arena cells lie inside the grid block unless the board is higher than
    wide by two or more. *)
Lemma arena_cell_in_bounds (s : game_state) (x y : Z) :
  wf_state s -> h s <= w s + 1 ->
  1 <= x <= w s -> 1 <= y <= h s ->
  0 <= GRID_index s x y < Z.of_nat (length (grid s)).
Proof.
  intros (Hw & Hh & Hg & _) Hs Hx Hy. rewrite Hg. unfold GRID_index. nia.
Qed.

(** C8 (amended).  In the guessing phase a ToggleBall command for an arena
    cell whose word lies inside the grid block is accepted whether or not
    the cell is locked: the guess flag is flipped, the lock flag is kept and
    the running count of guesses moves by exactly one.  The lock is honoured
    by [interpret_move], which issues no ToggleBall for a locked cell, not by
    [execute_move]. *)
Theorem C8_toggle_ball_ignores_lock (fuel : nat) (s : game_state)
        (move : string) (x y : Z) :
  reveal s = 0 ->
  reads_as move (ToggleBall x y) ->
  1 <= x <= w s -> 1 <= y <= h s ->
  GRID_index s x y < Z.of_nat (length (grid s)) ->
  exists s',
    apply_move fuel s (dup_game s) move = Done (Some s') /\
    guessed s' (x, y) = negb (guessed s (x, y)) /\
    locked s' (x, y) = locked s (x, y) /\
    nguesses s' = (if guessed s (x, y) then nguesses s - 1 else nguesses s + 1).
Proof.
  intros Hrev Hread Hx Hy Hb.
  pose proof (reads_as_not_solve move _ Hread) as Hs.
  destruct Hread as (p & Hp & Hscan).
  assert (Hb' : 0 <= GRID_index s x y < Z.of_nat (length (grid s)))
    by (unfold GRID_index in *; nia).
  destruct (toggle_ball_spec s x y Hb') as (s' & Ht & Hg & Hl & _ & Hn & _).
  exists s'. split; [|auto].
  unfold apply_move, dup_game. rewrite Hs, Hrev, Hp. simpl negb. cbv iota.
  rewrite Hscan. simpl.
  destruct (Z.ltb_spec x 1), (Z.ltb_spec y 1), (Z.ltb_spec (w s) x),
    (Z.ltb_spec (h s) y); try lia.
  simpl. rewrite Ht. reflexivity.
Qed.

Lemma C8_toggle_ball_ignores_lock_witness :
  locked square_board_locked (1, 1) = true /\
  exists s',
    apply_move 0 square_board_locked (dup_game square_board_locked) "T1,1"
      = Done (Some s') /\
    guessed s' (1, 1) = negb (guessed square_board_locked (1, 1)) /\
    locked s' (1, 1) = locked square_board_locked (1, 1) /\
    nguesses s' = (if guessed square_board_locked (1, 1)
                   then nguesses square_board_locked - 1
                   else nguesses square_board_locked + 1).
Proof.
  split; [vm_compute; reflexivity|].
  apply (C8_toggle_ball_ignores_lock 0 square_board_locked "T1,1" 1 1).
  - vm_compute. reflexivity.
  - exists ["1"; ","; "1"]%char. split; vm_compute; reflexivity.
  - vm_compute. split; discriminate.
  - vm_compute. split; discriminate.
  - vm_compute. reflexivity.
Defined.

(** C8 as stated fails: on the 5 by 5 board with cell (1,1) locked, the move
    "T1,1" is not rejected; it marks the cell and raises the count to 1. *)
Lemma C8_locked_cell_still_toggles :
  reveal square_board_locked = 0 /\
  locked square_board_locked (1, 1) = true /\
  guessed square_board_locked (1, 1) = false /\
  nguesses square_board_locked = 0 /\
  apply_move 0 square_board_locked square_board_locked "T1,1" <> Done None /\
  guessed (the_move (apply_move 0 square_board_locked square_board_locked "T1,1"))
          (1, 1) = true /\
  nguesses (the_move (apply_move 0 square_board_locked square_board_locked "T1,1"))
    = 1.
Proof. by_evaluation. Qed.

(** ** Counting at the reveal *)

Lemma count_cells_cons (p : Z * Z -> bool) (c : Z * Z) (l : list (Z * Z)) :
  count_cells p (c :: l) = (if p c then 1 else 0) + count_cells p l.
Proof.
  unfold count_cells. simpl. destruct (p c); simpl length; lia.
Qed.

Lemma count_cells_ext (p q : Z * Z -> bool) (l : list (Z * Z)) :
  (forall c, c ∈ l -> p c = q c) -> count_cells p l = count_cells q l.
Proof.
  induction l as [|c l IH]; intros E; [reflexivity|].
  rewrite !count_cells_cons, IH, (E c) by (intros; try apply E; constructor; auto).
  reflexivity.
Qed.

Lemma count_cell_Done (x y : Z) (s s' : game_state) :
  count_cell x y s = Done s' ->
  s' = with_counts s
         (nright s + if both s (x, y) then 1 else 0)
         (nwrong s + if only_guessed s (x, y) then 1 else 0)
         (nmissed s + if only_true s (x, y) then 1 else 0).
Proof.
  unfold count_cell. intros E. apply bind_Done in E as (v & Ev & E).
  apply GRID_Done in Ev as [_ <-].
  destruct (count_bits (cell_value s (x, y))) as (H3 & H2 & H1).
  rewrite H3, H2, H1 in E.
  unfold both, only_guessed, only_true, guessed, true_ball.
  destruct (flag_set (cell_value s (x, y)) BALL_GUESS),
    (flag_set (cell_value s (x, y)) BALL_CORRECT); simpl in *;
    injection E as <-; destruct s; unfold with_counts; simpl; f_equal; lia.
Qed.

(** Counting leaves the board alone and adds, to each counter, the number of
    visited cells of its kind. *)
Lemma count_run (l : list (Z * Z)) (s s' : game_state) :
  run_list (fun c t => count_cell c.1 c.2 t) l s = Done s' ->
  s' = with_counts s
         (nright s + count_cells (both s) l)
         (nwrong s + count_cells (only_guessed s) l)
         (nmissed s + count_cells (only_true s) l).
Proof.
  revert s. induction l as [|[x y] l IH]; intros s E; simpl in E.
  - injection E as <-. unfold count_cells. simpl.
    destruct s; unfold with_counts; simpl; f_equal; lia.
  - apply bind_Done in E as (t & Et & E).
    apply count_cell_Done in Et. apply IH in E.
    subst t.
    change (both (with_counts s _ _ _)) with (both s) in E.
    change (only_guessed (with_counts s _ _ _)) with (only_guessed s) in E.
    change (only_true (with_counts s _ _ _)) with (only_true s) in E.
    rewrite !count_cells_cons. rewrite E. unfold with_counts. simpl.
    f_equal; lia.
Qed.

Lemma count_balls_Done (s s' : game_state) :
  count_balls s = Done s' ->
  s' = with_counts s (nright s') (nwrong s') (nmissed s') /\
  nright s' = count_cells (both s') (arena_cells s') /\
  nwrong s' = count_cells (only_guessed s') (arena_cells s') /\
  nmissed s' = count_cells (only_true s') (arena_cells s').
Proof.
  unfold count_balls. rewrite for_arena_run_list. intros E.
  apply count_run in E. rewrite E. unfold with_counts, arena_cells. simpl.
  repeat split; rewrite ?Z.add_0_l; reflexivity.
Qed.

Lemma check_guesses_Done (fuel : nat) (s : game_state) (ret : Z) (s' : game_state) :
  check_guesses fuel s = Done (ret, s') ->
  exists sol gue sol' gue' st1 st2,
    clear_lasers (dup_game s) = Done sol /\
    for_arena (w s) (h s) guess_to_correct (dup_game sol) = Done gue /\
    for_range 0 (nlasers sol) (fire_both fuel) (sol, gue) = Done (sol', gue') /\
    for_range 0 (nlasers sol') (compare_exit sol' gue') (s, 1) = Done (st1, ret) /\
    (if ret =? 0 then Done st1
     else for_arena (w st1) (h st1) fix_correct st1) = Done st2 /\
    count_balls st2 = Done s'.
Proof.
  unfold check_guesses. intros E.
  apply bind_Done in E as (sol & E1 & E).
  apply bind_Done in E as (gue & E2 & E).
  apply bind_Done in E as ([sol' gue'] & E3 & E).
  apply bind_Done in E as ([st1 r] & E4 & E).
  apply bind_Done in E as (st2 & E5 & E).
  apply bind_Done in E as (s2 & E6 & E).
  injection E as <- <-.
  exists sol, gue, sol', gue', st1, st2. auto 10.
Qed.

Lemma compare_exit_step (sol gue : game_state) (i : Z) (p p' : game_state * Z) :
  compare_exit sol gue i p = Done p' -> p' = p \/ p'.2 = 0.
Proof.
  destruct p as [st r]. unfold compare_exit. intros E.
  apply bind_Done in E as ([[x y] d] & _ & E).
  apply bind_Done in E as (es & _ & E).
  apply bind_Done in E as (eg & _ & E).
  destruct (es =? eg).
  - injection E as <-. left. reflexivity.
  - apply bind_Done in E as (e & _ & E).
    apply bind_Done in E as (st' & _ & E).
    injection E as <-. right. reflexivity.
Qed.

(** A check that reports 1 has not touched the state while comparing. *)
Lemma compare_consistent (sol gue s st1 : game_state) (n ret : Z) :
  for_range 0 n (compare_exit sol gue) (s, 1) = Done (st1, ret) ->
  ret = 0 \/ (ret = 1 /\ st1 = s).
Proof.
  replace n with (0 + n) by lia. rewrite for_range_run_list. intros E.
  apply (run_list_inv _ (fun p => p.2 = 0 \/ (p.2 = 1 /\ p.1 = s)) _ _ _ E).
  - right. auto.
  - intros i p p' _ Hp Hstep. apply compare_exit_step in Hstep as [->| ->]; auto.
Qed.

(** ** Making the guesses the solution *)

Lemma fix_correct_Done (x y : Z) (s s' : game_state) :
  fix_correct x y s = Done s' ->
  0 <= GRID_index s x y < Z.of_nat (length (grid s)) /\
  s' = with_grid s
         (<[Z.to_nat (GRID_index s x y) :=
              if guessed s (x, y)
              then Z.lor (cell_value s (x, y)) BALL_CORRECT
              else Z.land (cell_value s (x, y)) (unot BALL_CORRECT)]> (grid s)).
Proof.
  unfold fix_correct. intros E. apply bind_Done in E as (v & Ev & E).
  apply GRID_Done in Ev as [Hb <-]. unfold guessed.
  destruct (flag_set (cell_value s (x, y)) BALL_GUESS);
    apply GRID_update_Done in E as [_ ->]; auto.
Qed.

Lemma fix_correct_guessed (x y : Z) (s s' : game_state) (c : Z * Z) :
  fix_correct x y s = Done s' -> guessed s' c = guessed s c.
Proof.
  intros E. apply fix_correct_Done in E as [Hb ->].
  unfold guessed at 1 2. rewrite cell_value_insert by exact Hb.
  destruct (Z.eqb_spec (GRID_index s c.1 c.2) (GRID_index s x y)) as [Ei|]; [|reflexivity].
  assert (Ec : cell_value s c = cell_value s (x, y)).
  { unfold cell_value, GRID. simpl. rewrite Ei. reflexivity. }
  unfold guessed. rewrite Ec.
  destruct (flag_set (cell_value s (x, y)) BALL_GUESS) eqn:Eg;
    flag_bits; rewrite ?flag_guess in Eg; exact Eg.
Qed.

Lemma fix_correct_settles (x y : Z) (s s' : game_state) :
  fix_correct x y s = Done s' -> settled s' (x, y).
Proof.
  intros E. pose proof (fix_correct_guessed x y s s' (x, y) E) as Hg.
  unfold settled. rewrite Hg.
  apply fix_correct_Done in E as [Hb ->].
  unfold true_ball. rewrite cell_value_insert by exact Hb. simpl.
  rewrite Z.eqb_refl. unfold guessed.
  destruct (flag_set (cell_value s (x, y)) BALL_GUESS) eqn:Eg;
    flag_bits; reflexivity.
Qed.

Lemma fix_correct_keeps_settled (x y : Z) (s s' : game_state) (c : Z * Z) :
  fix_correct x y s = Done s' -> settled s c -> settled s' c.
Proof.
  intros E Hc. unfold settled. rewrite (fix_correct_guessed x y s s' c E).
  pose proof (fix_correct_settles x y s s' E) as Hxy.
  pose proof (fix_correct_guessed x y s s' (x, y) E) as Hg.
  apply fix_correct_Done in E as [Hb ->].
  unfold true_ball. rewrite cell_value_insert by exact Hb.
  destruct (Z.eqb_spec (GRID_index s c.1 c.2) (GRID_index s x y)) as [Ei|].
  - assert (Ec : cell_value s c = cell_value s (x, y)).
    { unfold cell_value, GRID. simpl. rewrite Ei. reflexivity. }
    unfold settled, true_ball in Hxy. rewrite cell_value_insert in Hxy by exact Hb.
    simpl in Hxy. rewrite Z.eqb_refl in Hxy. rewrite Hxy, Hg.
    unfold guessed. rewrite Ec. reflexivity.
  - exact Hc.
Qed.

Lemma fix_run (l : list (Z * Z)) (s s' : game_state) :
  run_list (fun c t => fix_correct c.1 c.2 t) l s = Done s' ->
  (forall c, guessed s' c = guessed s c) /\
  (forall c, c ∈ l -> settled s' c).
Proof.
  revert s. induction l as [|[x y] l IH]; intros s E; simpl in E.
  - injection E as <-. split; [reflexivity|]. intros c Hc. inversion Hc.
  - apply bind_Done in E as (t & Et & E).
    destruct (IH t E) as [Hg Hs]. split.
    + intros c. rewrite Hg. apply (fix_correct_guessed x y s t c Et).
    + intros c Hc. apply elem_of_cons in Hc as [->|Hc]; [|auto].
      apply (run_list_inv _ (fun u => settled u (x, y)) _ _ _ E).
      * apply (fix_correct_settles x y s t Et).
      * intros [x' y'] u u' _ Hu Hstep.
        apply (fix_correct_keeps_settled x' y' u u' (x, y) Hstep Hu).
Qed.

Lemma fix_run_board (l : list (Z * Z)) (s s' : game_state) :
  run_list (fun c t => fix_correct c.1 c.2 t) l s = Done s' ->
  s' = with_grid s (grid s').
Proof.
  intros E.
  apply (run_list_inv _ (fun t => t = with_grid s (grid t)) _ _ _ E).
  - destruct s; reflexivity.
  - intros [x y] t t' _ Ht Hstep. apply fix_correct_Done in Hstep as [_ ->].
    rewrite Ht. reflexivity.
Qed.

Lemma count_cells_none (p : Z * Z -> bool) (l : list (Z * Z)) :
  (forall c, c ∈ l -> p c = false) -> count_cells p l = 0.
Proof.
  induction l as [|c l IH]; intros E; [reflexivity|].
  rewrite count_cells_cons, IH, (E c) by (intros; try apply E; constructor; auto).
  reflexivity.
Qed.

(** What a check that reports 1 leaves behind: the true cells are the cells
    the player had guessed, every guess counts as right, nothing is wrong or
    missed. *)
Lemma check_guesses_consistent (fuel : nat) (s s1 : game_state) :
  check_guesses fuel s = Done (1, s1) ->
  (forall c, c ∈ arena_cells s -> true_ball s1 c = guessed s c) /\
  nright s1 = count_cells (guessed s) (arena_cells s) /\
  nwrong s1 = 0 /\ nmissed s1 = 0.
Proof.
  intros Ec.
  apply check_guesses_Done in Ec
    as (sol & gue & sol' & gue' & st1 & st2 & _ & _ & _ & E4 & E5 & E6).
  apply count_balls_Done in E6 as (Hs1 & Hr & Hw & Hm).
  apply compare_consistent in E4 as [E4 | [_ ->]]; [discriminate|].
  simpl in E5. rewrite for_arena_run_list in E5.
  pose proof (fix_run_board _ _ _ E5) as Hb.
  apply fix_run in E5 as [Hg Hset].
  assert (Hcv : forall c, cell_value s1 c = cell_value st2 c).
  { intros c. rewrite Hs1. reflexivity. }
  assert (Hcells : arena_cells s1 = arena_cells s).
  { rewrite Hs1, Hb. reflexivity. }
  assert (Htrue : forall c, c ∈ arena_cells s -> true_ball s1 c = guessed s c).
  { intros c Hc. unfold true_ball. rewrite Hcv. rewrite <- Hg. apply Hset, Hc. }
  assert (Hguess : forall c, guessed s1 c = guessed s c).
  { intros c. unfold guessed at 1. rewrite Hcv. apply Hg. }
  split; [exact Htrue|]. rewrite Hr, Hw, Hm, Hcells. split; [|split].
  - apply count_cells_ext. intros c Hc. unfold both.
    rewrite Htrue, Hguess by exact Hc. apply andb_diag.
  - apply count_cells_none. intros c Hc. unfold only_guessed.
    rewrite Htrue, Hguess by exact Hc. apply andb_negb_r.
  - apply count_cells_none. intros c Hc. unfold only_true.
    rewrite Htrue, Hguess by exact Hc. apply andb_negb_r.
Qed.


(** ** The ray on square boards *)

Lemma laser_loop_path (fuel : nat) (s : game_state) (xs ys lno x y d : Z) :
  laser_loop fuel s xs ys lno x y d
  = laser_path fuel s x y d ≫= laser_mark s xs ys lno.
Proof.
  revert x y d. induction fuel as [|fuel IH]; intros x y d; [reflexivity|].
  simpl. destruct (grid2range s x y); [reflexivity|].
  destruct (GRID s x y) as [v| |]; simpl; try reflexivity.
  destruct (assert_true (Z.land v BALL_CORRECT =? 0)); simpl; try reflexivity.
  destruct (isball s x y d LOOK_FORWARD) as [[|]| |]; simpl; try reflexivity.
  destruct (isball s x y d LOOK_LEFT) as [[|]| |]; simpl; try reflexivity.
  - apply IH.
  - destruct (isball s x y d LOOK_RIGHT) as [[|]| |]; simpl; try reflexivity.
    + apply IH.
    + destruct (OFFSET x y d) as [x' y']. apply IH.
Qed.

Lemma laser_path_more (fuel : nat) (s : game_state) (x y d : Z) (f : fate) :
  laser_path fuel s x y d = Done f ->
  forall fuel', (fuel <= fuel')%nat -> laser_path fuel' s x y d = Done f.
Proof.
  revert x y d. induction fuel as [|fuel IH]; intros x y d E fuel' Hle;
    [discriminate|].
  destruct fuel' as [|fuel']; [lia|].
  assert (Hle' : (fuel <= fuel')%nat) by lia.
  simpl in *. destruct (grid2range s x y); [exact E|].
  destruct (GRID s x y) as [v| |]; simpl in *; try discriminate.
  destruct (assert_true (Z.land v BALL_CORRECT =? 0)); simpl in *; try discriminate.
  destruct (isball s x y d LOOK_FORWARD) as [[|]| |]; simpl in *; try discriminate;
    [exact E|].
  destruct (isball s x y d LOOK_LEFT) as [[|]| |]; simpl in *; try discriminate.
  - apply IH; assumption.
  - destruct (isball s x y d LOOK_RIGHT) as [[|]| |]; simpl in *; try discriminate.
    + apply IH; assumption.
    + destruct (OFFSET x y d) as [x' y']. apply IH; assumption.
Qed.

Lemma laser_path_leaves (fuel : nat) (s : game_state) (x y d ex ey : Z) :
  laser_path fuel s x y d = Done (Leaves ex ey) ->
  exists j, grid2range s ex ey = Some j.
Proof.
  revert x y d. induction fuel as [|fuel IH]; intros x y d E; [discriminate|].
  simpl in E. destruct (grid2range s x y) as [j|] eqn:Eg.
  - injection E as <- <-. eauto.
  - destruct (GRID s x y) as [v| |]; simpl in *; try discriminate.
    destruct (assert_true (Z.land v BALL_CORRECT =? 0)); simpl in *; try discriminate.
    destruct (isball s x y d LOOK_FORWARD) as [[|]| |]; simpl in *; try discriminate.
    destruct (isball s x y d LOOK_LEFT) as [[|]| |]; simpl in *; try discriminate.
    + eapply IH; eassumption.
    + destruct (isball s x y d LOOK_RIGHT) as [[|]| |]; simpl in *; try discriminate.
      * eapply IH; eassumption.
      * destruct (OFFSET x y d) as [x' y']. eapply IH; eassumption.
Qed.

(** ** Square boards *)

Lemma square_in_bounds (s : game_state) (x y : Z) :
  square s -> 0 <= x <= w s + 1 -> 0 <= y <= h s + 1 ->
  0 <= GRID_index s x y < Z.of_nat (length (grid s)).
Proof.
  intros ((Hw & Hh & Hg & _) & _ & Hsq) Hx Hy. rewrite Hg.
  unfold GRID_index. rewrite Hsq in *. nia.
Qed.

Lemma square_index_inj (s : game_state) (x y x' y' : Z) :
  square s -> 0 <= x <= w s + 1 -> 0 <= x' <= w s + 1 ->
  GRID_index s x y = GRID_index s x' y' -> x = x' /\ y = y'.
Proof.
  intros ((Hw & _) & _ & Hsq) Hx Hx'. unfold GRID_index. rewrite <- Hsq.
  intros E.
  assert (Hy : y = y').
  { destruct (Z.lt_trichotomy y y') as [Hlt|[Heq|Hgt]]; [|exact Heq|].
    - assert (1 * (w s + 2) <= (y' - y) * (w s + 2))
        by (apply Z.mul_le_mono_nonneg_r; lia).
      lia.
    - assert (1 * (w s + 2) <= (y - y') * (w s + 2))
        by (apply Z.mul_le_mono_nonneg_r; lia).
      lia. }
  subst y'. split; [lia | reflexivity].
Qed.

Lemma isball_probe (s : game_state) (gx gy d : Z) (lk : look) :
  isball s gx gy d lk
  = let p := probe (gx, gy) d lk in
    if (p.1 <? 1) || (p.2 <? 1) || (h s <? p.1) || (w s <? p.2) then Done false
    else v ← GRID s p.1 p.2; mret (negb (Z.land v BALL_CORRECT =? 0)).
Proof.
  unfold isball, probe, shift. cbn [fst snd].
  destruct (OFFSET gx gy d) as [ax ay]. cbn [fst snd].
  destruct lk; reflexivity.
Qed.

(** On a square board [isball] answers whether the probed cell is an arena
    cell holding a true ball. *)
Lemma isball_square (s : game_state) (gx gy d : Z) (lk : look) :
  square s -> isball s gx gy d lk = Done (ball_at s (probe (gx, gy) d lk)).
Proof.
  intros Hs. rewrite isball_probe.
  destruct (probe (gx, gy) d lk) as [px py]. cbn zeta. cbn [fst snd].
  unfold ball_at, in_arena. cbn [fst snd].
  pose proof Hs as (Hwf & [Hdw Hdh] & Hsq).
  destruct (Z.ltb_spec px 1), (Z.ltb_spec py 1), (Z.ltb_spec (h s) px),
    (Z.ltb_spec (w s) py); cbn [orb];
    destruct (Z.leb_spec 1 px), (Z.leb_spec px (w s)), (Z.leb_spec 1 py),
      (Z.leb_spec py (h s)); cbn [andb]; try reflexivity; try lia.
  rewrite (GRID_in_bounds s px py) by (apply square_in_bounds; [exact Hs | lia | lia]).
  reflexivity.
Qed.

Lemma ball_at_arena (s : game_state) (c : Z * Z) :
  ball_at s c = true -> in_arena s c = true.
Proof. unfold ball_at. intros H. apply andb_true_iff in H as [H _]. exact H. Qed.

Lemma in_arena_spec (s : game_state) (c : Z * Z) :
  in_arena s c = true <-> 1 <= c.1 <= w s /\ 1 <= c.2 <= h s.
Proof.
  unfold in_arena. rewrite !andb_true_iff, !Z.leb_le. lia.
Qed.

Lemma grid2range_arena (s : game_state) (x y : Z) :
  in_arena s (x, y) = true -> grid2range s x y = None.
Proof.
  intros H. apply in_arena_spec in H. simpl in H. unfold grid2range.
  settle_tests. reflexivity.
Qed.

(** One round of the loop at an arena cell without a ball. *)
Lemma laser_path_round (fuel : nat) (s : game_state) (x y d : Z) :
  square s -> in_arena s (x, y) = true -> ball_at s (x, y) = false ->
  laser_path (S fuel) s x y d
  = if ball_at s (probe (x, y) d LOOK_FORWARD) then Done Absorbed
    else if ball_at s (probe (x, y) d LOOK_LEFT)
    then laser_path fuel s x y ((d + 1) mod 4)
    else if ball_at s (probe (x, y) d LOOK_RIGHT)
    then laser_path fuel s x y ((d + 3) mod 4)
    else laser_path fuel s (shift (x, y) d).1 (shift (x, y) d).2 d.
Proof.
  intros Hs Ha Hb. simpl. rewrite (grid2range_arena s x y Ha).
  assert (Hxy : 1 <= x <= w s /\ 1 <= y <= h s) by (apply in_arena_spec in Ha; exact Ha).
  rewrite (GRID_in_bounds s x y) by (apply square_in_bounds; [exact Hs | lia | lia]).
  simpl. unfold ball_at in Hb. rewrite Ha in Hb. simpl in Hb.
  unfold true_ball, flag_set in Hb. apply negb_false_iff in Hb. rewrite Hb. simpl.
  rewrite !isball_square by exact Hs. simpl.
  destruct (ball_at s (probe (x, y) d LOOK_FORWARD)); [reflexivity|].
  destruct (ball_at s (probe (x, y) d LOOK_LEFT)); [reflexivity|].
  destruct (ball_at s (probe (x, y) d LOOK_RIGHT)); [reflexivity|].
  unfold shift. simpl. reflexivity.
Qed.

Ltac four_ways d :=
  let H := fresh in
  assert (H : d = 0 \/ d = 1 \/ d = 2 \/ d = 3) by lia;
  destruct H as [-> | [-> | [-> | ->]]].

Lemma cell_0 (x y : Z) : (x, y) = cell x y 0 0.
Proof. unfold cell. f_equal; lia. Qed.

Lemma shift_cell (x y a b k : Z) :
  shift (cell x y a b) k
  = cell x y (a + (offsets (k mod 4)).1) (b + (offsets (k mod 4)).2).
Proof. unfold shift, cell, OFFSET. simpl. f_equal; lia. Qed.

(** Brings every cell around (x, y) into the form [cell x y a b] with
    numerals [a] and [b]; the headings must be numerals. *)
Ltac fold_numerals :=
  repeat match goal with
  | |- context [cell ?x ?y ?a ?b] =>
    let a' := eval vm_compute in a in
    let b' := eval vm_compute in b in
    progress change (cell x y a b) with (cell x y a' b')
  | H : context [cell ?x ?y ?a ?b] |- _ =>
    let a' := eval vm_compute in a in
    let b' := eval vm_compute in b in
    progress change (cell x y a b) with (cell x y a' b') in H
  end.

Ltac canon x y :=
  unfold probe in *;
  rewrite ?(cell_0 x y) in *;
  rewrite ?shift_cell in *;
  fold_numerals.


Ltac split_balls :=
  repeat match goal with
  | H : context [if ball_at ?s ?c then _ else _] |- _ =>
    let E := fresh "E" in destruct (ball_at s c) eqn:E
  | |- context [if ball_at ?s ?c then _ else _] =>
    let E := fresh "E" in destruct (ball_at s c) eqn:E
  end.

Lemma hop_unhop (s : game_state) (a b : ray) :
  arrived s a -> hop s a = Some b -> a = unhop s b.
Proof.
  destruct a as [[x y] d].
  intros (Hd & Ha & Hp & HB & HL & HR & HBL & HBR) Hh.
  unfold hop in Hh.
  four_ways d; canon x y; split_balls; try discriminate;
    injection Hh as <-; unfold unhop; cbv beta iota zeta; canon x y;
    unfold turn; split_balls; try congruence.
  all: unfold cell; repeat f_equal; lia.
Qed.

Ltac fold_headings :=
  repeat match goal with
  | |- context [?a mod 4] =>
    let v := eval vm_compute in (a mod 4) in
    progress change (a mod 4) with v
  end.

Lemma hop_heading (s : game_state) (a b : ray) :
  arrived s a -> hop s a = Some b -> 0 <= b.2 < 4.
Proof.
  destruct a as [[x y] d]. intros (Hd & _) Hh. unfold hop in Hh.
  split_balls; try discriminate; injection Hh as <-; simpl;
    try lia; apply Z.mod_pos_bound; lia.
Qed.

Lemma hop_arrived (s : game_state) (a b : ray) :
  arrived s a -> hop s a = Some b -> in_arena s b.1 = true -> arrived s b.
Proof.
  destruct a as [[x y] d].
  intros (Hd & Ha & Hp & HB & HL & HR & HBL & HBR) Hh.
  unfold hop in Hh.
  four_ways d; canon x y; split_balls; try discriminate;
    injection Hh as <-; cbn [fst snd]; intros Hin;
    unfold arrived; cbv beta iota zeta; canon x y; fold_headings;
    repeat split; try lia; assumption.
Qed.

(** A hop leads to a cell next to the one it starts from. *)
Lemma hop_next (s : game_state) (x y d : Z) (b : ray) :
  arrived s (x, y, d) -> hop s (x, y, d) = Some b ->
  b.1 = cell x y 0 (-1) \/ b.1 = cell x y 1 0 \/
  b.1 = cell x y 0 1 \/ b.1 = cell x y (-1) 0.
Proof.
  intros (Hd & _) Hh. unfold hop in Hh.
  four_ways d; canon x y; split_balls; try discriminate;
    injection Hh as <-; cbn [fst snd]; auto.
Qed.

Lemma grid2range_ring (s : game_state) (x y : Z) :
  square s ->
  in_arena s (x, y) = false ->
  (1 <= x <= w s /\ (y = 0 \/ y = h s + 1)) \/
  (1 <= y <= h s /\ (x = 0 \/ x = w s + 1)) ->
  exists j, grid2range s x y = Some j /\ 0 <= j < nlasers s.
Proof.
  intros ((Hw & Hh & _ & Hn & _) & _ & Hsq) _ Hring.
  unfold grid2range. rewrite Hn.
  destruct Hring as [[Hx [-> | ->]] | [Hy [-> | ->]]]; settle_tests; simpl;
    eexists; (split; [reflexivity | lia]).
Qed.

Lemma hop_ring (s : game_state) (a b : ray) :
  square s -> arrived s a -> hop s a = Some b -> in_arena s b.1 = false ->
  exists j, grid2range s b.1.1 b.1.2 = Some j /\ 0 <= j < nlasers s.
Proof.
  intros Hs Ha Hh Hout. destruct a as [[x y] d].
  pose proof (hop_next s x y d b Ha Hh) as Hn.
  destruct b as [[x' y'] d']. cbn [fst snd] in *.
  destruct Ha as (_ & Ha & _). apply in_arena_spec in Ha. cbn [fst snd] in Ha.
  assert (Hnot : ~ (1 <= x' <= w s /\ 1 <= y' <= h s)).
  { intros H. apply (in_arena_spec s (x', y')) in H. congruence. }
  apply (grid2range_ring s x' y' Hs Hout).
  unfold cell in Hn.
  destruct Hn as [Hn | [Hn | [Hn | Hn]]]; injection Hn as -> ->; lia.
Qed.

(** The loop of [fire_laser] follows the hops. *)
Lemma hop_run (s : game_state) (x y d : Z) :
  square s -> arrived s (x, y, d) ->
  match hop s (x, y, d) with
  | None => forall fuel, laser_path (S fuel) s x y d = Done Absorbed
  | Some b =>
    forall fuel f,
      laser_path fuel s b.1.1 b.1.2 b.2 = Done f ->
      laser_path (3 + fuel) s x y d = Done f
  end.
Proof.
  intros Hs (Hd & Ha & Hp & HB & HL & HR & HBL & HBR).
  pose proof (fun fuel d => laser_path_round fuel s x y d Hs Ha Hp) as Hround.
  unfold hop.
  four_ways d; canon x y; split_balls; cbv beta iota; intros fuel.
  all: try (rewrite Hround; canon x y; rewrite ?E, ?E0, ?E1; reflexivity).
  all: intros f Hf; change (3 + fuel)%nat with (S (S (S fuel)));
    cbn [fst snd] in Hf;
    repeat match type of Hf with
    | context [?a mod 4] =>
      let v := eval vm_compute in (a mod 4) in
      progress change (a mod 4) with v in Hf
    end.
  all: rewrite Hround; canon x y; rewrite ?E, ?E0, ?E1; fold_headings.
  all: try (apply (laser_path_more fuel); [exact Hf | lia]).
  all: rewrite Hround; canon x y;
    rewrite ?E, ?E0, ?E1, ?HR, ?HL, ?HBL, ?HBR, ?HB; fold_headings.
  all: try (apply (laser_path_more fuel); [exact Hf | lia]).
  all: rewrite Hround; canon x y;
    rewrite ?E, ?E0, ?E1, ?HR, ?HL, ?HBL, ?HBR, ?HB; fold_headings.
  all: apply (laser_path_more fuel); [exact Hf | lia].
Qed.

Lemma in_arena_cells (s : game_state) (c : Z * Z) :
  in_arena s c = true <-> c ∈ arena_cells s.
Proof.
  rewrite in_arena_spec. unfold arena_cells, cells. destruct c as [x y].
  rewrite list_elem_of_bind. split.
  - cbn [fst snd]. intros [Hx Hy]. exists x. split; [|apply elem_of_seqZ; lia].
    apply list_elem_of_bind. exists y. split; [left|apply elem_of_seqZ; lia].
  - intros (x' & Hc & Hx). apply list_elem_of_bind in Hc as (y' & Hc & Hy).
    apply list_elem_of_singleton in Hc. injection Hc as -> ->.
    apply elem_of_seqZ in Hx, Hy. simpl. lia.
Qed.

Lemma arrived_all_rays (s : game_state) (a : ray) :
  arrived s a -> a ∈ all_rays s.
Proof.
  destruct a as [c d]. intros (Hd & Ha & _). unfold all_rays.
  apply list_elem_of_bind. exists c. split; [|apply in_arena_cells, Ha].
  apply list_elem_of_bind. exists d. split; [left|apply elem_of_seqZ; lia].
Qed.

Lemma trail_arrived (s : game_state) (l : list ray) :
  trail s l -> forall a, a ∈ l -> arrived s a.
Proof.
  induction 1 as [a [Ha _] | a b l Ht IH Hb Hh]; intros c Hc.
  - apply list_elem_of_singleton in Hc as ->. exact Ha.
  - apply elem_of_cons in Hc as [-> | Hc]; [exact Hb | apply IH, Hc].
Qed.

(** Every ray of a trail is the entry or was hopped to from a ray further
    back. *)
Lemma trail_pred (s : game_state) (l : list ray) :
  trail s l ->
  forall b, b ∈ l ->
  entered s b \/ exists a, a ∈ tail l /\ arrived s a /\ hop s a = Some b.
Proof.
  induction 1 as [a Ha | a b l Ht IH Hb Hh]; intros c Hc.
  - apply list_elem_of_singleton in Hc as ->. left. exact Ha.
  - apply elem_of_cons in Hc as [-> | Hc].
    + right. exists a. split; [left | split; [|exact Hh]].
      apply (trail_arrived s _ Ht). left.
    + destruct (IH c Hc) as [He | (a' & Ha' & Harr & Hhop)]; [left; exact He|].
      right. exists a'. split; [|auto]. simpl. right.
      simpl in Ha'. exact Ha'.
Qed.

(** A hop never leads back onto the trail. *)
Lemma trail_fresh (s : game_state) (a b : ray) (l : list ray) :
  trail s (a :: l) -> NoDup (a :: l) -> hop s a = Some b -> b ∉ a :: l.
Proof.
  intros Ht Hnd Hh Hb.
  assert (Ha : arrived s a) by (apply (trail_arrived s _ Ht); left).
  pose proof (hop_unhop s a b Ha Hh) as Eu.
  destruct (trail_pred s _ Ht b Hb) as [[_ Hout] | (a' & Ha' & Harr & Hhop)].
  - destruct a as [p d], b as [p' d']. unfold unhop in Eu.
    injection Eu as -> _. destruct Ha as (_ & Hin & _).
    cbn [fst snd] in Hout. congruence.
  - pose proof (hop_unhop s a' b Harr Hhop) as Eu'.
    apply NoDup_cons in Hnd as [Hnot _]. simpl in Ha'.
    apply Hnot. rewrite Eu, <- Eu'. exact Ha'.
Qed.

Lemma laser_path_on_range (fuel : nat) (s : game_state) (x y d j : Z) :
  grid2range s x y = Some j -> laser_path (S fuel) s x y d = Done (Leaves x y).
Proof. intros E. simpl. rewrite E. reflexivity. Qed.

(** On a square board the ray is absorbed or leaves before the fuel that is
    left for the rays not yet on the trail is used up. *)
Lemma trail_ends (s : game_state) :
  square s ->
  forall (m : nat) (a : ray) (l : list ray),
    trail s (a :: l) -> NoDup (a :: l) ->
    (length (all_rays s) < length (a :: l) + m)%nat ->
    exists f, laser_path (3 * m + 1) s a.1.1 a.1.2 a.2 = Done f.
Proof.
  intros Hs. induction m as [|m IH]; intros a l Ht Hnd Hlen.
  - exfalso.
    assert (length (a :: l) <= length (all_rays s))%nat; [|lia].
    apply submseteq_length, NoDup_submseteq; [exact Hnd|].
    intros c Hc. apply arrived_all_rays, (trail_arrived s _ Ht), Hc.
  - assert (Ha : arrived s a) by (apply (trail_arrived s _ Ht); left).
    destruct a as [[x y] d]. cbn [fst snd].
    pose proof (hop_run s x y d Hs Ha) as Hrun.
    destruct (hop s (x, y, d)) as [b|] eqn:Hh.
    + replace (3 * S m + 1)%nat with (3 + (3 * m + 1))%nat by lia.
      destruct (in_arena s b.1) eqn:Hin.
      * pose proof (hop_arrived s _ b Ha Hh Hin) as Hb.
        destruct (IH b ((x, y, d) :: l)) as [f Hf].
        -- apply trail_hop; assumption.
        -- apply NoDup_cons. split; [|exact Hnd].
           apply (trail_fresh s _ b l Ht Hnd Hh).
        -- simpl in *. lia.
        -- exists f. apply Hrun, Hf.
      * destruct (hop_ring s _ b Hs Ha Hh Hin) as (j & Hj & _).
        exists (Leaves b.1.1 b.1.2). apply Hrun.
        replace (3 * m + 1)%nat with (S (3 * m)) by lia.
        apply (laser_path_on_range _ s _ _ _ j Hj).
    + exists Absorbed. replace (3 * S m + 1)%nat with (S (3 * m + 3)) by lia.
      apply Hrun.
Qed.

(** Every ray that enters a square board is absorbed or leaves it. *)
Lemma entered_ends (s : game_state) (a : ray) :
  square s -> entered s a ->
  exists f, laser_path (enough_fuel s) s a.1.1 a.1.2 a.2 = Done f.
Proof.
  intros Hs He. unfold enough_fuel.
  apply (trail_ends s Hs (length (all_rays s)) a []).
  - apply trail_entry, He.
  - apply NoDup_singleton.
  - simpl. lia.
Qed.

Lemma same_shape_refl (s : game_state) : same_shape s s.
Proof. repeat split. Qed.

Lemma same_shape_trans (s t u : game_state) :
  same_shape s t -> same_shape t u -> same_shape s u.
Proof. unfold same_shape. intuition congruence. Qed.

Lemma same_shape_square (s s' : game_state) :
  same_shape s s' -> square s -> square s'.
Proof.
  unfold same_shape, square, wf_state, valid_dims.
  intros (-> & -> & -> & -> & ->). auto.
Qed.

Lemma same_shape_fuel (s s' : game_state) :
  same_shape s s' -> enough_fuel s' = enough_fuel s.
Proof.
  intros (Hw & Hh & _). unfold enough_fuel, all_rays, arena_cells.
  rewrite Hw, Hh. reflexivity.
Qed.

Lemma exits_set_Done (s : game_state) (i v : Z) (s' : game_state) :
  exits_set s i v = Done s' <->
  0 <= i < Z.of_nat (length (exits s)) /\
  s' = with_exits s (<[Z.to_nat i := v]> (exits s)).
Proof.
  unfold exits_set. split.
  - intros E. apply bind_Done in E as (g & Eg & E).
    apply write_Done in Eg as [Hb ->]. injection E as <-. auto.
  - intros [Hb ->].
    assert (write (exits s) i v = Done (<[Z.to_nat i := v]> (exits s))) as ->
      by (apply write_Done; auto).
    reflexivity.
Qed.

Lemma GRID_set_shape (s : game_state) (x y v : Z) (s' : game_state) :
  GRID_set s x y v = Done s' -> same_shape s s'.
Proof.
  intros E. apply GRID_set_Done in E as [_ ->].
  repeat split. simpl. apply length_insert.
Qed.

Lemma exits_set_shape (s : game_state) (i v : Z) (s' : game_state) :
  exits_set s i v = Done s' -> same_shape s s'.
Proof.
  intros E. apply exits_set_Done in E as [_ ->].
  repeat split. simpl. apply length_insert.
Qed.

Lemma GRID_set_square (s : game_state) (x y v : Z) :
  square s -> 0 <= x <= w s + 1 -> 0 <= y <= h s + 1 ->
  exists s', GRID_set s x y v = Done s' /\ same_shape s s' /\
             laserno s' = laserno s /\ exits s' = exits s.
Proof.
  intros Hs Hx Hy. eexists. split; [|split].
  - apply GRID_set_Done. split; [|reflexivity].
    apply square_in_bounds; assumption.
  - repeat split. simpl. apply length_insert.
  - split; reflexivity.
Qed.

Lemma exits_set_square (s : game_state) (i v : Z) :
  square s -> 0 <= i < nlasers s ->
  exists s', exits_set s i v = Done s' /\ same_shape s s' /\
             laserno s' = laserno s /\ grid s' = grid s /\
             exits s' = <[Z.to_nat i := v]> (exits s).
Proof.
  intros ((_ & _ & _ & _ & He) & _) Hi. eexists. split; [|split].
  - apply exits_set_Done. split; [lia | reflexivity].
  - repeat split. simpl. apply length_insert.
  - repeat split.
Qed.

(** What [grid2range] accepts on a square board: a cell of the range, with
    its index. *)
Lemma grid2range_Some (s : game_state) (x y j : Z) :
  square s -> grid2range s x y = Some j ->
  0 <= j < nlasers s /\ 0 <= x <= w s + 1 /\ 0 <= y <= h s + 1 /\
  in_arena s (x, y) = false /\
  exists d, range2grid s j = Some (x, y, d).
Proof.
  intros ((Hw & Hh & _ & Hn & _) & [Hdw Hdh] & Hsq). unfold grid2range.
  destruct ((0 <? x) && (x <? w s + 1) && (0 <? y) && (y <? h s + 1)) eqn:E1;
    [discriminate|].
  destruct ((x <? 0) || (h s + 1 <? x) || (y <? 0) || (h s + 1 <? y)) eqn:E2;
    [discriminate|].
  destruct (((x =? 0) || (x =? w s + 1)) && ((y =? 0) || (y =? h s + 1))) eqn:E3;
    [discriminate|].
  apply orb_false_iff in E2 as [E2 E2d]. apply orb_false_iff in E2 as [E2 E2c].
  apply orb_false_iff in E2 as [E2a E2b].
  apply Z.ltb_ge in E2a, E2b, E2c, E2d.
  assert (Hout : in_arena s (x, y) = false).
  { unfold in_arena. cbn [fst snd]. rewrite <- E1.
    destruct (Z.leb_spec 1 x), (Z.ltb_spec 0 x), (Z.leb_spec x (w s)),
      (Z.ltb_spec x (w s + 1)), (Z.leb_spec 1 y), (Z.ltb_spec 0 y),
      (Z.leb_spec y (h s)), (Z.ltb_spec y (h s + 1)); simpl; try reflexivity; lia. }
  assert (Hcorner : ~ ((x = 0 \/ x = w s + 1) /\ (y = 0 \/ y = h s + 1))).
  { intros [Hx Hy]. apply andb_false_iff in E3 as [E3 | E3];
      apply orb_false_iff in E3 as [E3a E3b];
      apply Z.eqb_neq in E3a, E3b; lia. }
  assert (Hring : ~ (1 <= x <= w s /\ 1 <= y <= h s)).
  { intros H. apply (in_arena_spec s (x, y)) in H. congruence. }
  rewrite Hn. unfold range2grid.
  destruct (Z.eqb_spec y 0); [|destruct (Z.eqb_spec x (w s + 1));
                                [|destruct (Z.eqb_spec y (h s + 1))]];
    intros E; injection E as <-;
    (split; [lia|]); (split; [lia|]); (split; [lia|]); (split; [exact Hout|]);
    settle_tests; eexists; repeat f_equal; lia.
Qed.

(** The entry of laser [i] on a square board. *)
Lemma range2grid_entry (s : game_state) (i x y d : Z) :
  square s -> range2grid s i = Some (x, y, d) ->
  0 <= i < nlasers s /\ grid2range s x y = Some i /\
  0 <= x <= w s + 1 /\ 0 <= y <= h s + 1 /\
  0 <= d < 4 /\
  in_arena s (shift (x, y) d) = true /\
  in_arena s (x, y) = false /\
  in_arena s (shift (x, y) (d + 3)) = false /\
  in_arena s (shift (x, y) (d + 1)) = false.
Proof.
  intros Hs E.
  pose proof Hs as ((Hw & Hh & _ & Hn & _) & [Hdw Hdh] & Hsq).
  split; [|split; [apply (range2grid_grid2range s i x y d); [lia | exact E]|]].
  - unfold range2grid in E. rewrite Hn. bool_cases; try discriminate; lia.
  - unfold range2grid in E.
    repeat match type of E with
    | context [ ?a <? ?b ] => destruct (Z.ltb_spec a b)
    end; inversion E; subst; clear E;
    unfold DIR_DOWN, DIR_LEFT, DIR_UP, DIR_RIGHT, in_arena, shift, OFFSET;
    cbn [fst snd];
    repeat match goal with
    | |- context [offsets ?k] =>
      let v := eval vm_compute in (offsets k) in change (offsets k) with v
    end; cbn [fst snd];
    repeat split; try lia;
    repeat match goal with
    | |- context [ ?a <=? ?b ] =>
      first [ rewrite (proj2 (Z.leb_le a b)) by lia
            | rewrite (proj2 (Z.leb_gt a b)) by lia ]
    end; rewrite ?andb_false_r; reflexivity.
Qed.

Lemma ball_at_outside (s : game_state) (c : Z * Z) :
  in_arena s c = false -> ball_at s c = false.
Proof. unfold ball_at. intros ->. reflexivity. Qed.

(** A ray that is neither absorbed nor reflected at its origin enters the
    arena as the trails require. *)
Lemma entry_entered (s : game_state) (i x y d : Z) :
  square s -> range2grid s i = Some (x, y, d) ->
  ball_at s (probe (x, y) d LOOK_FORWARD) = false ->
  ball_at s (probe (x, y) d LOOK_LEFT) = false ->
  ball_at s (probe (x, y) d LOOK_RIGHT) = false ->
  entered s (shift (x, y) d, d).
Proof.
  intros Hs Hi HF HL HR.
  destruct (range2grid_entry s i x y d Hs Hi)
    as (_ & _ & _ & _ & Hd & Hin & Ho & Hol & Hor).
  apply ball_at_outside in Hol, Hor. pose proof (ball_at_outside s _ Ho) as Hob.
  unfold entered, arrived. cbn [fst snd].
  four_ways d; canon x y; repeat split; try lia; assumption.
Qed.

Lemma fire_laser_square (fuel : nat) (s : game_state) (i x y d : Z) :
  square s -> range2grid s i = Some (x, y, d) ->
  fire_laser fuel s x y d
  = if ball_at s (probe (x, y) d LOOK_FORWARD)
    then mark_origin s x y i LASER_HIT
    else if ball_at s (probe (x, y) d LOOK_LEFT)
            || ball_at s (probe (x, y) d LOOK_RIGHT)
    then mark_origin s x y i LASER_REFLECT
    else laser_path fuel s (shift (x, y) d).1 (shift (x, y) d).2 d
           ≫= laser_mark s x y i.
Proof.
  intros Hs Hi.
  destruct (range2grid_entry s i x y d Hs Hi) as (_ & Hg & _).
  unfold fire_laser, mark_origin. rewrite Hg.
  rewrite !isball_square by exact Hs.
  cbn [assert_some mbind outcome_bind mret outcome_ret].
  destruct (ball_at s (probe (x, y) d LOOK_FORWARD)); [reflexivity|].
  destruct (ball_at s (probe (x, y) d LOOK_LEFT));
    cbn [orb mbind outcome_bind mret outcome_ret]; [reflexivity|].
  destruct (ball_at s (probe (x, y) d LOOK_RIGHT)); [reflexivity|].
  unfold shift. destruct (OFFSET (x, y).1 (x, y).2 d) as [x' y'] eqn:Eo.
  cbn [fst snd] in Eo. rewrite Eo. cbn [fst snd]. apply laser_loop_path.
Qed.

Lemma mark_origin_square (s : game_state) (x y lno v : Z) :
  square s -> 0 <= x <= w s + 1 -> 0 <= y <= h s + 1 ->
  0 <= lno < nlasers s ->
  mark_origin s x y lno v
  = Done (with_exits
            (with_grid s (<[Z.to_nat (GRID_index s x y) := v]> (grid s)))
            (<[Z.to_nat lno := v]> (exits s))).
Proof.
  intros Hs Hx Hy Hl. unfold mark_origin.
  assert (GRID_set s x y v
          = Done (with_grid s (<[Z.to_nat (GRID_index s x y) := v]> (grid s)))) as ->.
  { apply GRID_set_Done. split; [|reflexivity]. apply square_in_bounds; assumption. }
  simpl. apply exits_set_Done. split; [|reflexivity].
  destruct Hs as ((_ & _ & _ & _ & He) & _). simpl. lia.
Qed.

Lemma laser_exit_square (s : game_state) (xs ys lno x y j : Z) :
  square s -> 0 <= xs <= w s + 1 -> 0 <= ys <= h s + 1 ->
  0 <= lno < nlasers s -> grid2range s x y = Some j ->
  laser_exit s xs ys lno x y
  = Done
      (if (xs =? x) && (ys =? y)
       then with_exits
              (with_grid (with_laserno s (laserno s + 1))
                 (<[Z.to_nat (GRID_index s x y) := LASER_REFLECT]> (grid s)))
              (<[Z.to_nat lno := LASER_REFLECT]> (exits s))
       else with_exits
              (with_grid (with_laserno s (laserno s + 1))
                 (<[Z.to_nat (GRID_index s x y) := to_unsigned (laserno s)]>
                    (<[Z.to_nat (GRID_index s xs ys) := to_unsigned (laserno s)]>
                       (grid s))))
              (<[Z.to_nat j := to_unsigned lno]>
                 (<[Z.to_nat lno := to_unsigned j]> (exits s)))).
Proof.
  intros Hs Hxs Hys Hl Hj.
  destruct (grid2range_Some s x y j Hs Hj) as (Hjr & Hx & Hy & _).
  pose proof Hs as ((_ & _ & _ & _ & He) & _).
  pose proof (square_in_bounds s x y Hs Hx Hy) as Hb.
  pose proof (square_in_bounds s xs ys Hs Hxs Hys) as Hbs.
  unfold laser_exit. destruct ((xs =? x) && (ys =? y)).
  - assert (GRID_set (with_laserno s (laserno s + 1)) x y LASER_REFLECT
            = Done (with_grid (with_laserno s (laserno s + 1))
                      (<[Z.to_nat (GRID_index s x y) := LASER_REFLECT]> (grid s)))) as ->.
    { apply GRID_set_Done. split; [exact Hb | reflexivity]. }
    simpl. apply exits_set_Done. split; [simpl; lia | reflexivity].
  - assert (GRID_set (with_laserno s (laserno s + 1)) xs ys (to_unsigned (laserno s))
            = Done (with_grid (with_laserno s (laserno s + 1))
                      (<[Z.to_nat (GRID_index s xs ys) := to_unsigned (laserno s)]>
                         (grid s)))) as ->.
    { apply GRID_set_Done. split; [exact Hbs | reflexivity]. }
    cbn [mbind outcome_bind].
    match goal with
    | |- context [GRID_set ?t x y ?v] =>
      assert (GRID_set t x y v
              = Done (with_grid t (<[Z.to_nat (GRID_index s x y) := v]> (grid t)))) as ->
    end.
    { apply GRID_set_Done. split; [|reflexivity]. simpl. rewrite length_insert. exact Hb. }
    cbn [mbind outcome_bind].
    match goal with
    | |- context [grid2range ?t x y] => change (grid2range t x y) with (grid2range s x y)
    end.
    rewrite Hj. cbn [assert_some mbind outcome_bind].
    match goal with
    | |- context [exits_set ?t lno ?v] =>
      assert (exits_set t lno v
              = Done (with_exits t (<[Z.to_nat lno := v]> (exits t)))) as ->
    end.
    { apply exits_set_Done. split; [simpl; lia | reflexivity]. }
    cbn [mbind outcome_bind].
    apply exits_set_Done. split; [simpl; rewrite length_insert; lia | reflexivity].
Qed.

(** On a square board the origin rules are those of the claim C4: a ball in
    the first arena cell marks the origin Hit, whatever the diagonals hold;
    without it a ball on either diagonal marks the origin Reflected.  In both
    cases only the origin cell and its slot are written, no laser number is
    taken, and no fuel is needed: the ray does not enter the arena. *)
Lemma fire_laser_origin_square (fuel : nat) (s : game_state) (i x y d : Z) :
  square s -> range2grid s i = Some (x, y, d) ->
  (ball_at s (probe (x, y) d LOOK_FORWARD) = true ->
   fire_laser fuel s x y d
   = Done (with_exits
             (with_grid s (<[Z.to_nat (GRID_index s x y) := LASER_HIT]> (grid s)))
             (<[Z.to_nat i := LASER_HIT]> (exits s)))) /\
  (ball_at s (probe (x, y) d LOOK_FORWARD) = false ->
   ball_at s (probe (x, y) d LOOK_LEFT) = true \/
   ball_at s (probe (x, y) d LOOK_RIGHT) = true ->
   fire_laser fuel s x y d
   = Done (with_exits
             (with_grid s (<[Z.to_nat (GRID_index s x y) := LASER_REFLECT]> (grid s)))
             (<[Z.to_nat i := LASER_REFLECT]> (exits s)))).
Proof.
  intros Hs Hi.
  destruct (range2grid_entry s i x y d Hs Hi) as (Hir & _ & Hx & Hy & _).
  rewrite (fire_laser_square fuel s i x y d Hs Hi). split.
  - intros ->. apply mark_origin_square; assumption.
  - intros -> Hlr.
    assert (ball_at s (probe (x, y) d LOOK_LEFT)
            || ball_at s (probe (x, y) d LOOK_RIGHT) = true) as ->
      by (apply orb_true_iff; exact Hlr).
    apply mark_origin_square; assumption.
Qed.

Lemma fire_laser_origin_slot (s : game_state) (i x y v : Z) :
  square s -> 0 <= i < nlasers s ->
  exits_get (with_exits
               (with_grid s (<[Z.to_nat (GRID_index s x y) := v]> (grid s)))
               (<[Z.to_nat i := v]> (exits s))) i = Done v.
Proof.
  intros ((_ & _ & _ & _ & He) & _) Hi. unfold exits_get. simpl.
  apply read_Done. split; [lia|]. apply list_lookup_insert_eq. lia.
Qed.

Lemma laser_mark_square (s : game_state) (x y i : Z) (f : fate) :
  square s -> 0 <= x <= w s + 1 -> 0 <= y <= h s + 1 -> 0 <= i < nlasers s ->
  match f with
  | Absorbed => True
  | Leaves ex ey => exists j, grid2range s ex ey = Some j
  end ->
  exists s', laser_mark s x y i f = Done s' /\ same_shape s s'.
Proof.
  intros Hs Hx Hy Hi Hf. destruct f as [|ex ey].
  - change (laser_mark s x y i Absorbed) with (mark_origin s x y i LASER_HIT).
    rewrite mark_origin_square by assumption. eexists. split; [reflexivity|].
    repeat split; simpl; apply length_insert.
  - destruct Hf as [j Hj]. simpl.
    rewrite (laser_exit_square s x y i ex ey j) by assumption.
    eexists. split; [reflexivity|].
    destruct ((x =? ex) && (y =? ey)); repeat split; simpl;
      rewrite ?length_insert; reflexivity.
Qed.

(** On a square board every laser can be fired: the run of [fire_laser]
    completes within the fuel [enough_fuel], and keeps the shape of the
    state. *)
Lemma fire_laser_total_square (s : game_state) (i x y d : Z) :
  square s -> range2grid s i = Some (x, y, d) ->
  exists s', fire_laser (enough_fuel s) s x y d = Done s' /\ same_shape s s'.
Proof.
  intros Hs Hi.
  destruct (range2grid_entry s i x y d Hs Hi) as (Hir & _ & Hx & Hy & _).
  rewrite (fire_laser_square _ s i x y d Hs Hi).
  destruct (ball_at s (probe (x, y) d LOOK_FORWARD)) eqn:EF.
  - rewrite mark_origin_square by assumption. eexists. split; [reflexivity|].
    repeat split; simpl; apply length_insert.
  - destruct (ball_at s (probe (x, y) d LOOK_LEFT)) eqn:EL; cbn [orb].
    + rewrite mark_origin_square by assumption. eexists. split; [reflexivity|].
      repeat split; simpl; apply length_insert.
    + destruct (ball_at s (probe (x, y) d LOOK_RIGHT)) eqn:ER.
      * rewrite mark_origin_square by assumption. eexists. split; [reflexivity|].
        repeat split; simpl; apply length_insert.
      * pose proof (entry_entered s i x y d Hs Hi EF EL ER) as He.
        destruct (entered_ends s _ Hs He) as [f Hf]. cbn [fst snd] in Hf.
        rewrite Hf. cbn [mbind outcome_bind].
        apply laser_mark_square; try assumption.
        destruct f as [|ex ey]; [exact I|].
        apply (laser_path_leaves _ _ _ _ _ _ _ Hf).
Qed.

Lemma unot_correct_bits (n : Z) :
  0 <= n -> Z.testbit (unot BALL_CORRECT) n = (1 <=? n) && (n <? 32).
Proof.
  intros Hn. change (unot BALL_CORRECT) with (Z.shiftl (Z.ones 31) 1).
  rewrite Z.shiftl_spec by exact Hn.
  destruct (Z.leb_spec 1 n).
  - rewrite Z.testbit_ones_nonneg by lia. simpl.
    destruct (Z.ltb_spec (n - 1) 31), (Z.ltb_spec n 32); try reflexivity; lia.
  - rewrite Z.testbit_neg_r by lia. reflexivity.
Qed.

Lemma word_high_bits (v n : Z) :
  0 <= v < UINT_MOD -> 32 <= n -> Z.testbit v n = false.
Proof.
  intros [Hv Hm] Hn. destruct (Z.eq_dec v 0) as [->|Hne]; [apply Z.bits_0|].
  apply Z.bits_above_log2; [exact Hv|].
  assert (Z.log2 v < 32); [|lia].
  apply Z.log2_lt_pow2; [lia|]. exact Hm.
Qed.

Lemma clear_correct_id (v : Z) :
  0 <= v < UINT_MOD -> flag_set v BALL_CORRECT = false ->
  Z.land v (unot BALL_CORRECT) = v.
Proof.
  intros Hv Hf. rewrite flag_correct in Hf. apply Z.bits_inj'. intros n Hn.
  rewrite Z.land_spec, unot_correct_bits by exact Hn.
  destruct (Z.leb_spec 1 n); simpl.
  - destruct (Z.ltb_spec n 32); simpl; [apply andb_true_r|].
    rewrite (word_high_bits v n Hv) by lia. reflexivity.
  - assert (n = 0) by lia. subst n. rewrite Hf. reflexivity.
Qed.

Lemma clear_set_correct_id (v : Z) :
  0 <= v < UINT_MOD -> flag_set v BALL_CORRECT = true ->
  Z.lor (Z.land v (unot BALL_CORRECT)) BALL_CORRECT = v.
Proof.
  intros Hv Hf. rewrite flag_correct in Hf. apply Z.bits_inj'. intros n Hn.
  rewrite Z.lor_spec, Z.land_spec, unot_correct_bits by exact Hn.
  change BALL_CORRECT with (2 ^ 0). rewrite Z.pow2_bits_eqb by lia.
  destruct (Z.leb_spec 1 n), (Z.eqb_spec 0 n), (Z.ltb_spec n 32);
    try lia; subst; rewrite ?Hf; simpl;
    rewrite ?(word_high_bits v n Hv) by lia;
    rewrite ?andb_true_r, ?orb_false_r; reflexivity.
Qed.

Lemma with_grid_id (s : game_state) : with_grid s (grid s) = s.
Proof. destruct s; reflexivity. Qed.

Lemma cell_value_lookup (s : game_state) (x y : Z) :
  0 <= GRID_index s x y < Z.of_nat (length (grid s)) ->
  grid s !! Z.to_nat (GRID_index s x y) = Some (cell_value s (x, y)).
Proof.
  intros Hb. pose proof (GRID_in_bounds s x y Hb) as E.
  unfold GRID in E. apply read_Done in E as [_ E]. exact E.
Qed.

(** Where the guess flag and the true-ball flag of a cell agree, turning the
    guess into the solution changes nothing. *)
Lemma guess_to_correct_id (x y : Z) (g : game_state) :
  0 <= GRID_index g x y < Z.of_nat (length (grid g)) ->
  0 <= cell_value g (x, y) < UINT_MOD ->
  guessed g (x, y) = true_ball g (x, y) ->
  guess_to_correct x y g = Done g.
Proof.
  intros Hb Hv Hgt. unfold guess_to_correct.
  rewrite (GRID_update_in_bounds g x y _ Hb).
  cbn [mbind outcome_bind].
  set (v := cell_value g (x, y)) in *.
  set (k := Z.to_nat (GRID_index g x y)).
  pose proof (cell_value_lookup g x y Hb) as Hk. fold v k in Hk.
  set (g1 := with_grid g (<[k := Z.land v (unot BALL_CORRECT)]> (grid g))).
  assert (Hb1 : 0 <= GRID_index g1 x y < Z.of_nat (length (grid g1))).
  { unfold g1. simpl. rewrite length_insert. exact Hb. }
  assert (Hv1 : cell_value g1 (x, y) = Z.land v (unot BALL_CORRECT)).
  { unfold g1, k. rewrite cell_value_insert by exact Hb. simpl.
    rewrite Z.eqb_refl. reflexivity. }
  rewrite (GRID_in_bounds g1 x y Hb1). cbn [mbind outcome_bind]. rewrite Hv1.
  unfold guessed, true_ball in Hgt. fold v in Hgt.
  assert (Hg1 : flag_set (Z.land v (unot BALL_CORRECT)) BALL_GUESS
                = flag_set v BALL_GUESS) by (flag_bits; reflexivity).
  rewrite Hg1, Hgt.
  destruct (flag_set v BALL_CORRECT) eqn:Ec.
  - rewrite (GRID_update_in_bounds g1 x y _ Hb1). rewrite Hv1.
    rewrite (clear_set_correct_id v Hv Ec).
    unfold g1. simpl. fold k. rewrite list_insert_insert_eq.
    rewrite (list_insert_id _ _ _ Hk). f_equal.
    change (with_grid g (grid g) = g). apply with_grid_id.
  - unfold g1. rewrite (clear_correct_id v Hv Ec).
    rewrite (list_insert_id _ _ _ Hk). rewrite with_grid_id. reflexivity.
Qed.

Lemma run_list_id {A St} (body : A -> St -> outcome St) (l : list A) (s : St) :
  (forall a, a ∈ l -> body a s = Done s) -> run_list body l s = Done s.
Proof.
  induction l as [|a l IH]; intros H; [reflexivity|].
  simpl. rewrite H by left. simpl. apply IH. intros b Hb. apply H. right. exact Hb.
Qed.

Lemma run_list_total {A St} (body : A -> St -> outcome St) (P : St -> Prop)
      (l : list A) (s : St) :
  P s ->
  (forall a t, a ∈ l -> P t -> exists t', body a t = Done t' /\ P t') ->
  exists s', run_list body l s = Done s' /\ P s'.
Proof.
  revert s. induction l as [|a l IH]; intros s Hs Hstep.
  - exists s. auto.
  - destruct (Hstep a s) as (t & Et & Ht); [left | exact Hs |].
    destruct (IH t Ht) as (s' & Es & Hs').
    + intros b u Hb. apply Hstep. right. exact Hb.
    + exists s'. split; [|exact Hs']. simpl. rewrite Et. exact Es.
Qed.

Lemma cell_value_same (s t : game_state) (c : Z * Z) :
  grid t = grid s -> h t = h s -> cell_value t c = cell_value s c.
Proof.
  intros Hg Hh. unfold cell_value, GRID, GRID_index. rewrite Hg, Hh. reflexivity.
Qed.

Lemma cell_value_range (s : game_state) (c : Z * Z) :
  words_ok s -> 0 <= cell_value s c < UINT_MOD.
Proof.
  intros Hw. unfold cell_value, GRID, read.
  destruct (GRID_index s c.1 c.2 <? 0); [unfold UINT_MOD; lia|].
  destruct (grid s !! Z.to_nat (GRID_index s c.1 c.2)) as [v|] eqn:E;
    [|unfold UINT_MOD; lia].
  unfold words_ok in Hw. rewrite Forall_forall in Hw.
  apply Hw. apply list_elem_of_lookup. eauto.
Qed.

Lemma exits_get_square (s : game_state) (i : Z) :
  square s -> 0 <= i < nlasers s -> exists e, exits_get s i = Done e.
Proof.
  intros ((_ & _ & _ & _ & He) & _) Hi. unfold exits_get, read.
  destruct (Z.ltb_spec i 0); [lia|].
  destruct (exits s !! Z.to_nat i) as [e|] eqn:E; [eauto|].
  apply lookup_ge_None in E. lia.
Qed.

Lemma in_cells (s : game_state) (c : Z * Z) :
  c ∈ cells (w s) (h s) -> 1 <= c.1 <= w s /\ 1 <= c.2 <= h s.
Proof. intros H. apply in_arena_spec, in_arena_cells, H. Qed.

(** ** The consistency check on square boards *)

Lemma clear_lasers_square (s : game_state) :
  square s ->
  exists sol, clear_lasers s = Done sol /\ same_shape s sol /\
              forall c, in_arena s c = true -> cell_value sol c = cell_value s c.
Proof.
  intros Hs. unfold clear_lasers.
  replace (nlasers s) with (0 + nlasers s) by lia. rewrite for_range_run_list.
  apply (run_list_total _
           (fun t => same_shape s t /\
                     forall c, in_arena s c = true -> cell_value t c = cell_value s c)).
  { split; [apply same_shape_refl | reflexivity]. }
  intros i t Hi [Hsh Hval]. apply elem_of_seqZ in Hi.
  pose proof (same_shape_square s t Hsh Hs) as Ht.
  pose proof Hsh as (Hw & Hh & Hn & _).
  pose proof Ht as ((Hw0 & Hh0 & _ & Hnl & _) & _).
  destruct (range2grid_valid t i) as (x & y & d & Hr); [lia | lia | lia |].
  destruct (range2grid_entry t i x y d Ht Hr) as (Hir & _ & Hx & Hy & _ & _ & Ho & _).
  rewrite Hr. cbn [assert_some mbind outcome_bind].
  pose proof (square_in_bounds t x y Ht Hx Hy) as Hb.
  assert (GRID_set t x y 0
          = Done (with_grid t (<[Z.to_nat (GRID_index t x y) := 0]> (grid t)))) as ->
    by (apply GRID_set_Done; auto).
  cbn [mbind outcome_bind].
  set (t1 := with_grid t (<[Z.to_nat (GRID_index t x y) := 0]> (grid t))).
  assert (Hsh1 : same_shape t t1)
    by (repeat split; simpl; apply length_insert).
  pose proof (same_shape_square t t1 Hsh1 Ht) as Ht1.
  destruct (exits_set_square t1 i LASER_EMPTY Ht1) as (t2 & E2 & Hsh2 & _ & Hg2 & _);
    [exact Hir|].
  exists t2. split; [exact E2|]. split.
  - apply (same_shape_trans s t t2 Hsh), (same_shape_trans t t1 t2 Hsh1 Hsh2).
  - intros c Hc. rewrite <- (Hval c Hc).
    rewrite (cell_value_same t1 t2 c Hg2) by (destruct Hsh2 as (_ & H2 & _); exact H2).
    unfold t1. rewrite cell_value_insert by exact Hb.
    destruct (Z.eqb_spec (GRID_index t c.1 c.2) (GRID_index t x y)) as [Ei|];
      [|reflexivity].
    exfalso. apply in_arena_spec in Hc.
    apply (square_index_inj t c.1 c.2 x y Ht) in Ei as [E1 E2']; [|lia|lia].
    assert (in_arena t (x, y) = true); [|congruence].
    apply in_arena_spec. cbn [fst snd]. lia.
Qed.

Lemma fire_all_square (s : game_state) (l : list Z) :
  square s -> (forall i, i ∈ l -> 0 <= i < nlasers s) ->
  exists t, run_list (fire_both (enough_fuel s)) l (s, s) = Done (t, t) /\
            same_shape s t.
Proof.
  intros Hs Hl.
  destruct (run_list_total (fire_both (enough_fuel s))
              (fun p => p.1 = p.2 /\ same_shape s p.1) l (s, s))
    as ([t u] & E & Hp).
  { split; [reflexivity | apply same_shape_refl]. }
  { intros i [t u] Hi [Heq Hsh]. cbn [fst snd] in *. subst u.
    pose proof (same_shape_square s t Hsh Hs) as Ht.
    pose proof Hsh as (_ & _ & Hn & _).
    pose proof Ht as ((Hw0 & Hh0 & _ & Hnl & _) & _).
    specialize (Hl i Hi).
    destruct (range2grid_valid t i) as (x & y & d & Hr); [lia | lia | lia |].
    destruct (exits_get_square t i Ht) as [e He]; [lia|].
    unfold fire_both. rewrite Hr, He. cbn [assert_some mbind outcome_bind].
    destruct (e =? LASER_EMPTY).
    - destruct (fire_laser_total_square t i x y d Ht Hr) as (t' & Ef & Hsh').
      rewrite (same_shape_fuel s t Hsh) in Ef. rewrite Ef.
      cbn [mbind outcome_bind]. exists (t', t'). split; [reflexivity|].
      split; [reflexivity|]. cbn [fst]. apply (same_shape_trans s t t' Hsh Hsh').
    - cbn [mbind outcome_bind mret outcome_ret]. exists (t, t).
      split; [reflexivity|]. split; [reflexivity | exact Hsh]. }
  cbn [fst snd] in Hp. destruct Hp as [<- Hsh]. exists t. auto.
Qed.

Lemma compare_equal_square (sol s : game_state) :
  square sol ->
  for_range 0 (nlasers sol) (compare_exit sol sol) (s, 1) = Done (s, 1).
Proof.
  intros Hs. replace (nlasers sol) with (0 + nlasers sol) by lia.
  rewrite for_range_run_list. apply run_list_id. intros i Hi.
  apply elem_of_seqZ in Hi.
  pose proof Hs as ((Hw0 & Hh0 & _ & Hnl & _) & _).
  destruct (range2grid_valid sol i) as (x & y & d & Hr); [lia | lia | lia |].
  destruct (exits_get_square sol i Hs) as [e He]; [lia|].
  unfold compare_exit. rewrite Hr, He. cbn [assert_some mbind outcome_bind].
  rewrite Z.eqb_refl. reflexivity.
Qed.

Lemma fix_correct_in_bounds (x y : Z) (s : game_state) :
  0 <= GRID_index s x y < Z.of_nat (length (grid s)) ->
  exists s', fix_correct x y s = Done s' /\ same_shape s s'.
Proof.
  intros Hb. unfold fix_correct. rewrite (GRID_in_bounds s x y Hb).
  cbn [mbind outcome_bind].
  destruct (flag_set (cell_value s (x, y)) BALL_GUESS);
    rewrite (GRID_update_in_bounds s x y _ Hb); eexists; (split; [reflexivity|]);
    repeat split; simpl; apply length_insert.
Qed.

Lemma fix_all_square (s : game_state) :
  square s ->
  exists t, for_arena (w s) (h s) fix_correct s = Done t /\ same_shape s t.
Proof.
  intros Hs. rewrite for_arena_run_list.
  apply (run_list_total _ (same_shape s)); [apply same_shape_refl|].
  intros c t Hc Hsh. apply in_cells in Hc.
  pose proof (same_shape_square s t Hsh Hs) as Ht.
  pose proof Hsh as (Hw & Hh & _).
  destruct (fix_correct_in_bounds c.1 c.2 t) as (t' & E & Hsh').
  { apply square_in_bounds; [exact Ht | lia | lia]. }
  exists t'. split; [exact E|]. apply (same_shape_trans s t t' Hsh Hsh').
Qed.

Lemma count_balls_square (s : game_state) :
  square s -> exists t, count_balls s = Done t.
Proof.
  intros Hs. unfold count_balls. rewrite for_arena_run_list.
  destruct (run_list_total (fun c t => count_cell c.1 c.2 t) (same_shape s)
              (cells (w s) (h s)) (with_counts s 0 0 0))
    as (t & E & _); [repeat split | | eauto].
  intros c t Hc Hsh. apply in_cells in Hc.
  pose proof (same_shape_square s t Hsh Hs) as Ht.
  pose proof Hsh as (Hw & Hh & _).
  unfold count_cell. rewrite (GRID_in_bounds t c.1 c.2)
    by (apply square_in_bounds; [exact Ht | lia | lia]).
  cbn [mbind outcome_bind mret outcome_ret].
  repeat match goal with
  | |- context [if ?b then _ else _] => destruct b
  end; eexists; (split; [reflexivity|]); exact Hsh.
Qed.

(** The claim C1 on square boards: where the guessed cells are the true
    cells, [check_guesses] returns within the fuel [enough_fuel], reports the
    guesses consistent and counts nothing wrong and nothing missed. *)
Theorem check_guesses_sound_square (s : game_state) :
  square s -> words_ok s ->
  (forall c, c ∈ arena_cells s -> guessed s c = true_ball s c) ->
  exists s',
    check_guesses (enough_fuel s) s = Done (1, s') /\
    nwrong s' = 0 /\ nmissed s' = 0.
Proof.
  intros Hs Hwords Hsame.
  destruct (clear_lasers_square s Hs) as (sol & E1 & Hsh1 & Hval).
  pose proof (same_shape_square s sol Hsh1 Hs) as Hsol.
  pose proof Hsh1 as (Hw1 & Hh1 & Hn1 & _).
  assert (E2 : for_arena (w s) (h s) guess_to_correct (dup_game sol) = Done sol).
  { rewrite for_arena_run_list. apply run_list_id. intros c Hc.
    assert (Hin : in_arena s c = true) by (apply in_arena_cells, Hc).
    apply in_cells in Hc.
    apply guess_to_correct_id.
    - apply square_in_bounds; [exact Hsol | lia | lia].
    - rewrite <- surjective_pairing, (Hval c Hin). apply cell_value_range, Hwords.
    - unfold guessed, true_ball. rewrite <- surjective_pairing, (Hval c Hin).
      apply Hsame, in_arena_cells, Hin. }
  destruct (fire_all_square sol (seqZ 0 (nlasers sol)) Hsol) as (t & E3 & Hsh3).
  { intros i Hi. apply elem_of_seqZ in Hi. lia. }
  rewrite (same_shape_fuel s sol Hsh1) in E3.
  pose proof (same_shape_square sol t Hsh3 Hsol) as Ht.
  pose proof (compare_equal_square t s Ht) as E4.
  destruct (fix_all_square s Hs) as (st2 & E5 & Hsh5).
  destruct (count_balls_square st2 (same_shape_square s st2 Hsh5 Hs)) as (s' & E6).
  assert (E : check_guesses (enough_fuel s) s = Done (1, s')).
  { unfold check_guesses. change (dup_game s) with s. rewrite E1.
    cbn [mbind outcome_bind]. rewrite E2. cbn [mbind outcome_bind].
    replace (nlasers sol) with (0 + nlasers sol) at 1 by lia.
    rewrite for_range_run_list, E3. cbn [mbind outcome_bind].
    rewrite E4. cbn [mbind outcome_bind]. simpl (1 =? 0). cbv iota.
    rewrite E5. cbn [mbind outcome_bind]. rewrite E6. reflexivity. }
  exists s'. split; [exact E|].
  destruct (check_guesses_consistent _ s s' E) as (_ & _ & Hw & Hm). auto.
Qed.

Lemma to_unsigned_index (s : game_state) (j : Z) :
  square s -> 0 <= j < nlasers s -> to_unsigned j = j.
Proof.
  intros ((_ & _ & _ & Hn & _) & ([_ Hw] & [_ Hh]) & _) Hj.
  unfold to_unsigned, UINT_MOD. apply Z.mod_small. lia.
Qed.

(** The claim C5 on square boards.  A ray that enters the arena and comes
    back to the range at (ex, ey) takes the next laser number.  Back at its
    origin it marks the origin Reflected; elsewhere the slots of the two ends
    hold each other's index and both end cells hold the laser number taken. *)
Lemma fire_laser_leaves_square (fuel : nat) (s : game_state)
      (i x y d ex ey : Z) :
  square s -> range2grid s i = Some (x, y, d) ->
  ball_at s (probe (x, y) d LOOK_FORWARD) = false ->
  ball_at s (probe (x, y) d LOOK_LEFT) = false ->
  ball_at s (probe (x, y) d LOOK_RIGHT) = false ->
  laser_path fuel s (shift (x, y) d).1 (shift (x, y) d).2 d
    = Done (Leaves ex ey) ->
  exists j s',
    grid2range s ex ey = Some j /\
    fire_laser fuel s x y d = Done s' /\
    laserno s' = laserno s + 1 /\
    if (x =? ex) && (y =? ey)
    then exits_get s' i = Done LASER_REFLECT /\
         GRID s' x y = Done LASER_REFLECT
    else j <> i /\
         exits_get s' i = Done j /\ exits_get s' j = Done i /\
         GRID s' x y = Done (to_unsigned (laserno s)) /\
         GRID s' ex ey = Done (to_unsigned (laserno s)).
Proof.
  intros Hs Hi HF HL HR Hp.
  destruct (range2grid_entry s i x y d Hs Hi) as (Hir & Hgi & Hx & Hy & _).
  destruct (laser_path_leaves _ _ _ _ _ _ _ Hp) as [j Hj].
  destruct (grid2range_Some s ex ey j Hs Hj) as (Hjr & Hex & Hey & _ & _).
  pose proof Hs as ((_ & _ & _ & _ & He) & _).
  pose proof (square_in_bounds s x y Hs Hx Hy) as Hb.
  pose proof (square_in_bounds s ex ey Hs Hex Hey) as Hbe.
  exists j. eexists. split; [exact Hj|]. split.
  { rewrite (fire_laser_square fuel s i x y d Hs Hi), HF, HL, HR, Hp.
    cbn [orb mbind outcome_bind laser_mark].
    apply (laser_exit_square s x y i ex ey j); assumption. }
  rewrite (to_unsigned_index s j Hs Hjr), (to_unsigned_index s i Hs Hir).
  destruct ((x =? ex) && (y =? ey)) eqn:Eq.
  - apply andb_true_iff in Eq as [Ex Ey].
    apply Z.eqb_eq in Ex, Ey. subst ex ey.
    split; [reflexivity|]. split.
    + unfold exits_get. simpl. apply read_Done. split; [lia|].
      apply list_lookup_insert_eq. lia.
    + unfold GRID. simpl. repeat match goal with
      | |- context [GRID_index ?t ?a ?b] =>
        progress change (GRID_index t a b) with (GRID_index s a b)
      end.
      apply read_Done. split; [lia|].
      apply list_lookup_insert_eq. lia.
  - assert (Hcell : (x, y) <> (ex, ey)).
    { intros E. injection E as -> ->. rewrite !Z.eqb_refl in Eq. discriminate. }
    assert (Hij : j <> i).
    { intros ->.
      destruct (grid2range_Some s ex ey i Hs Hj) as (_ & _ & _ & _ & d1 & E1).
      rewrite Hi in E1. injection E1 as -> -> _. contradiction. }
    assert (Hidx : GRID_index s x y <> GRID_index s ex ey).
    { intros E. apply (square_index_inj s x y ex ey Hs) in E as [-> ->];
        [contradiction | lia | lia]. }
    split; [reflexivity|]. split; [exact Hij|].
    unfold exits_get, GRID. simpl. repeat match goal with
      | |- context [GRID_index ?t ?a ?b] =>
        progress change (GRID_index t a b) with (GRID_index s a b)
      end.
    repeat split; apply read_Done.
    + split; [lia|]. rewrite list_lookup_insert_ne by lia.
      apply list_lookup_insert_eq. lia.
    + split; [lia|]. apply list_lookup_insert_eq. rewrite length_insert. lia.
    + split; [lia|]. rewrite list_lookup_insert_ne by lia.
      apply list_lookup_insert_eq. lia.
    + split; [lia|]. apply list_lookup_insert_eq. rewrite length_insert. lia.
Qed.

(** The 5 by 5 boards of the examples are square boards of this kind. *)
Lemma square_board_solved_square :
  square square_board_solved /\ words_ok square_board_solved /\
  forallb (fun c => eqb (guessed square_board_solved c)
                        (true_ball square_board_solved c))
          (arena_cells square_board_solved) = true.
Proof.
  split; [|split].
  - unfold square, wf_state, valid_dims. simpl. lia.
  - unfold words_ok. simpl. repeat constructor; unfold UINT_MOD; lia.
  - vm_compute. reflexivity.
Qed.

(** ** The check on square boards, whatever the guesses *)

Lemma run_list_each_from {A St} (body : A -> St -> outcome St)
      (P : St -> Prop) (R : A -> St -> Prop) (l : list A) :
  (forall a t, a ∈ l -> P t ->
     exists t', body a t = Done t' /\ P t' /\ R a t' /\
                forall b, R b t -> R b t') ->
  forall (s : St) (before : list A),
    P s -> (forall b, b ∈ before -> R b s) ->
    exists s', run_list body l s = Done s' /\ P s' /\
               forall a, a ∈ before ++ l -> R a s'.
Proof.
  induction l as [|a l IH]; intros Hstep s before Hs Hb.
  - exists s. repeat split; auto. intros a Ha. rewrite app_nil_r in Ha. auto.
  - destruct (Hstep a s) as (t & Et & Ht & Ra & Hkeep); [left | exact Hs |].
    destruct (IH) with (s := t) (before := before ++ [a]) as (s' & Es & Ps & Rs).
    + intros c u Hc. apply Hstep. right. exact Hc.
    + exact Ht.
    + intros b Hin. apply elem_of_app in Hin as [Hin | Hin].
      * apply Hkeep, Hb, Hin.
      * apply list_elem_of_singleton in Hin as ->. exact Ra.
    + exists s'. split; [simpl; rewrite Et; exact Es|]. split; [exact Ps|].
      intros c Hc. apply Rs. rewrite <- app_assoc. exact Hc.
Qed.

(** A run that completes, keeps [P], and leaves for every index [a] of the
    loop the fact [R a], which later rounds do not undo. *)
Lemma run_list_each {A St} (body : A -> St -> outcome St)
      (P : St -> Prop) (R : A -> St -> Prop) (l : list A) (s : St) :
  P s ->
  (forall a t, a ∈ l -> P t ->
     exists t', body a t = Done t' /\ P t' /\ R a t' /\
                forall b, R b t -> R b t') ->
  exists s', run_list body l s = Done s' /\ P s' /\ forall a, a ∈ l -> R a s'.
Proof.
  intros Hs Hstep.
  destruct (run_list_each_from body P R l Hstep s [] Hs) as (s' & E & Ps & Rs).
  - intros b Hb. inversion Hb.
  - exists s'. auto.
Qed.

Lemma exit_ok_not_empty (s : game_state) (v : Z) :
  square s -> exit_ok s v -> v <> LASER_EMPTY.
Proof.
  intros ((_ & _ & _ & Hn & _) & ([_ Hw] & [_ Hh]) & _) [-> | [-> | Hv]];
    try discriminate.
  intros ->. change LASER_EMPTY with 4294967295 in Hv. lia.
Qed.

Lemma exit_ok_shape (s t : game_state) (v : Z) :
  same_shape s t -> exit_ok s v -> exit_ok t v.
Proof. intros (_ & _ & Hn & _). unfold exit_ok. rewrite Hn. auto. Qed.

(** What firing a laser does to the exit table of a square board: the slot
    of the laser holds a fired value afterwards, and any slot that changed
    holds one. *)
Lemma fire_laser_exits_square (s : game_state) (i x y d : Z) :
  square s -> range2grid s i = Some (x, y, d) ->
  exists s',
    fire_laser (enough_fuel s) s x y d = Done s' /\ same_shape s s' /\
    fired s s' i /\
    forall k v, exits s' !! k = Some v -> exits s !! k = Some v \/ exit_ok s v.
Proof.
  intros Hs Hi.
  destruct (range2grid_entry s i x y d Hs Hi) as (Hir & _ & Hx & Hy & _).
  pose proof Hs as ((_ & _ & _ & _ & He) & _).
  assert (Hmark : forall v, exit_ok s v ->
            exists s', mark_origin s x y i v = Done s' /\ same_shape s s' /\
              fired s s' i /\
              forall k u, exits s' !! k = Some u ->
                          exits s !! k = Some u \/ exit_ok s u).
  { intros v Hv. rewrite mark_origin_square by assumption.
    eexists. split; [reflexivity|]. split; [|split].
    - repeat split; simpl; apply length_insert.
    - exists v. split; [|exact Hv]. simpl. apply list_lookup_insert_eq. lia.
    - simpl. intros k u Hk.
      destruct (decide (k = Z.to_nat i)) as [->|Hne].
      + rewrite list_lookup_insert_eq in Hk by lia. injection Hk as <-. auto.
      + rewrite list_lookup_insert_ne in Hk by congruence. auto. }
  rewrite (fire_laser_square _ s i x y d Hs Hi).
  destruct (ball_at s (probe (x, y) d LOOK_FORWARD)) eqn:EF.
  { apply Hmark. left. reflexivity. }
  destruct (ball_at s (probe (x, y) d LOOK_LEFT)) eqn:EL; cbn [orb].
  { apply Hmark. right. left. reflexivity. }
  destruct (ball_at s (probe (x, y) d LOOK_RIGHT)) eqn:ER.
  { apply Hmark. right. left. reflexivity. }
  pose proof (entry_entered s i x y d Hs Hi EF EL ER) as Hent.
  destruct (entered_ends s _ Hs Hent) as [f Hf]. cbn [fst snd] in Hf.
  rewrite Hf. cbn [mbind outcome_bind]. destruct f as [|ex ey].
  { apply Hmark. left. reflexivity. }
  destruct (laser_path_leaves _ _ _ _ _ _ _ Hf) as [j Hj].
  destruct (grid2range_Some s ex ey j Hs Hj) as (Hjr & _).
  cbn [laser_mark]. rewrite (laser_exit_square s x y i ex ey j) by assumption.
  rewrite (to_unsigned_index s j Hs Hjr), (to_unsigned_index s i Hs Hir).
  eexists. split; [reflexivity|].
  destruct ((x =? ex) && (y =? ey)).
  - split; [repeat split; simpl; apply length_insert|]. split.
    + exists LASER_REFLECT. split; [|right; left; reflexivity].
      simpl. apply list_lookup_insert_eq. lia.
    + simpl. intros k u Hk.
      destruct (decide (k = Z.to_nat i)) as [->|Hne].
      * rewrite list_lookup_insert_eq in Hk by lia. injection Hk as <-.
        right. right. left. reflexivity.
      * rewrite list_lookup_insert_ne in Hk by congruence. auto.
  - split; [repeat split; simpl; rewrite ?length_insert; reflexivity|].
    assert (Hall : forall k u,
              <[Z.to_nat j := i]> (<[Z.to_nat i := j]> (exits s)) !! k = Some u ->
              exits s !! k = Some u \/ exit_ok s u).
    { intros k u Hk.
      destruct (decide (k = Z.to_nat j)) as [->|Hnj].
      - rewrite list_lookup_insert_eq in Hk by (rewrite length_insert; lia).
        injection Hk as <-. right. right. right. exact Hir.
      - rewrite list_lookup_insert_ne in Hk by congruence.
        destruct (decide (k = Z.to_nat i)) as [->|Hni].
        + rewrite list_lookup_insert_eq in Hk by lia. injection Hk as <-.
          right. right. right. exact Hjr.
        + rewrite list_lookup_insert_ne in Hk by congruence. auto. }
    split; [|exact Hall]. unfold fired. simpl.
    destruct (decide (Z.to_nat i = Z.to_nat j)) as [Eij|Hne].
    + exists i. split; [|right; right; exact Hir]. rewrite Eij.
      apply list_lookup_insert_eq. rewrite length_insert. lia.
    + exists j. split; [|right; right; exact Hjr].
      rewrite list_lookup_insert_ne by congruence.
      apply list_lookup_insert_eq. lia.
Qed.

Lemma clear_lasers_exits (s sol : game_state) :
  square s -> clear_lasers s = Done sol -> exits_ok s sol.
Proof.
  intros Hs E. unfold clear_lasers in E.
  replace (nlasers s) with (0 + nlasers s) in E by lia.
  rewrite for_range_run_list in E.
  destruct (run_list_each
              (fun i sol =>
                 '(x, y, _) ← assert_some (range2grid sol i);
                 sol ← GRID_set sol x y 0; exits_set sol i LASER_EMPTY)
              (same_shape s)
              (fun i t => exits t !! Z.to_nat i = Some LASER_EMPTY)
              (seqZ 0 (nlasers s)) s) as (sol' & E' & Hsh & HR).
  { apply same_shape_refl. }
  { intros i t Hi Hsh. apply elem_of_seqZ in Hi.
    pose proof (same_shape_square s t Hsh Hs) as Ht.
    pose proof Hsh as (Hw & Hh & Hn & _).
    pose proof Ht as ((Hw0 & Hh0 & _ & Hnl & He) & _).
    destruct (range2grid_valid t i) as (x & y & d & Hr); [lia | lia | lia |].
    destruct (range2grid_entry t i x y d Ht Hr) as (Hir & _ & Hx & Hy & _).
    rewrite Hr. cbn [assert_some mbind outcome_bind].
    destruct (GRID_set_square t x y 0 Ht Hx Hy) as (t1 & E1 & Hsh1 & _ & Hex1).
    rewrite E1. cbn [mbind outcome_bind].
    pose proof (same_shape_square t t1 Hsh1 Ht) as Ht1.
    destruct (exits_set_square t1 i LASER_EMPTY Ht1) as (t2 & E2 & Hsh2 & _ & _ & Hex2);
      [destruct Hsh1 as (_ & _ & -> & _); exact Hir|].
    exists t2. split; [exact E2|]. split.
    { apply (same_shape_trans s t t2 Hsh), (same_shape_trans t t1 t2 Hsh1 Hsh2). }
    rewrite Hex2, Hex1. split.
    - apply list_lookup_insert_eq. lia.
    - intros b Hb. destruct (decide (Z.to_nat i = Z.to_nat b)) as [<-|Hne].
      + apply list_lookup_insert_eq. lia.
      + rewrite list_lookup_insert_ne by exact Hne. exact Hb. }
  rewrite E in E'. injection E' as <-.
  intros k v Hk. left.
  pose proof (lookup_lt_Some _ _ _ Hk) as Hlt.
  pose proof (same_shape_square s sol Hsh Hs) as ((_ & _ & _ & _ & He) & _).
  destruct Hsh as (_ & _ & Hn & _).
  assert (Hin : Z.of_nat k ∈ seqZ 0 (nlasers s)) by (apply elem_of_seqZ; lia).
  apply HR in Hin. rewrite Nat2Z.id in Hin. congruence.
Qed.

Lemma guess_to_correct_in_bounds (x y : Z) (s : game_state) :
  0 <= GRID_index s x y < Z.of_nat (length (grid s)) ->
  exists s', guess_to_correct x y s = Done s' /\ same_shape s s' /\
             exits s' = exits s.
Proof.
  intros Hb. unfold guess_to_correct.
  rewrite (GRID_update_in_bounds s x y _ Hb). cbn [mbind outcome_bind].
  match goal with
  | |- context [GRID ?t x y] =>
    assert (Hb1 : 0 <= GRID_index t x y < Z.of_nat (length (grid t)))
      by (simpl; rewrite length_insert; exact Hb);
    rewrite (GRID_in_bounds t x y Hb1); cbn [mbind outcome_bind];
    destruct (flag_set (cell_value t (x, y)) BALL_GUESS);
    [rewrite (GRID_update_in_bounds t x y _ Hb1)|]
  end; eexists; (split; [reflexivity|]); repeat split; simpl;
    rewrite ?length_insert; reflexivity.
Qed.

Lemma guess_all_square (g : game_state) :
  square g ->
  exists t, for_arena (w g) (h g) guess_to_correct g = Done t /\
            same_shape g t /\ exits t = exits g.
Proof.
  intros Hs. rewrite for_arena_run_list.
  destruct (run_list_total (fun c t => guess_to_correct c.1 c.2 t)
              (fun t => same_shape g t /\ exits t = exits g)
              (cells (w g) (h g)) g) as (t & E & Hsh & He).
  { split; [apply same_shape_refl | reflexivity]. }
  { intros c t Hc [Hsh He]. apply in_cells in Hc.
    pose proof (same_shape_square g t Hsh Hs) as Ht.
    pose proof Hsh as (Hw & Hh & _).
    destruct (guess_to_correct_in_bounds c.1 c.2 t) as (t' & E & Hsh' & He').
    { apply square_in_bounds; [exact Ht | lia | lia]. }
    exists t'. split; [exact E|]. split; [|congruence].
    apply (same_shape_trans g t t' Hsh Hsh'). }
  exists t. auto.
Qed.

(** After the firing loop both tables are complete, and every slot of the
    solution's table holds a fired value. *)
Lemma fire_pairs_square (s a b : game_state) :
  square s -> same_shape s a -> same_shape s b -> exits_ok s a ->
  exists a' b',
    run_list (fire_both (enough_fuel s)) (seqZ 0 (nlasers s)) (a, b)
      = Done (a', b') /\
    same_shape s a' /\ same_shape s b' /\
    forall i, 0 <= i < nlasers s -> fired s a' i.
Proof.
  intros Hs Ha Hb Hok.
  destruct (run_list_each (fire_both (enough_fuel s))
              (fun p => same_shape s p.1 /\ same_shape s p.2 /\ exits_ok s p.1)
              (fun i p => fired s p.1 i)
              (seqZ 0 (nlasers s)) (a, b)) as ([a' b'] & E & (Ha' & Hb' & _) & HR).
  { auto. }
  { intros i [t u] Hi (Hst & Hsu & Hokt). cbn [fst snd] in *.
    apply elem_of_seqZ in Hi.
    pose proof (same_shape_square s t Hst Hs) as Ht.
    pose proof (same_shape_square s u Hsu Hs) as Hu.
    pose proof Hst as (_ & _ & Hnt & _ & Hlt).
    pose proof Hsu as (Hwu & Hhu & Hnu & _).
    pose proof Ht as ((Hw0 & Hh0 & _ & Hnl & Het) & _).
    destruct (range2grid_valid t i) as (x & y & d & Hr); [lia | lia | lia |].
    assert (Hru : range2grid u i = Some (x, y, d)).
    { unfold range2grid in *. destruct Hst as (-> & -> & _) in Hr.
      rewrite Hwu, Hhu. exact Hr. }
    destruct (exits_get_square t i Ht) as [e He]; [lia|].
    destruct (exits_get_square u i Hu) as [e' He']; [lia|].
    unfold fire_both. rewrite Hr, He. cbn [assert_some mbind outcome_bind].
    assert (Hsol : exists t',
              (if e =? LASER_EMPTY then fire_laser (enough_fuel s) t x y d
               else mret t) = Done t' /\ same_shape s t' /\
              exits_ok s t' /\ fired s t' i /\
              forall j, fired s t j -> fired s t' j).
    { destruct (Z.eqb_spec e LASER_EMPTY) as [->|Hne].
      - destruct (fire_laser_exits_square t i x y d Ht Hr)
          as (t' & Ef & Hsh' & Hf & Hall).
        rewrite (same_shape_fuel s t Hst) in Ef. exists t'.
        split; [exact Ef|]. split; [apply (same_shape_trans s t t' Hst Hsh')|].
        assert (Hok' : forall v, exit_ok t v -> exit_ok s v).
        { intros v. unfold exit_ok. rewrite Hnt. auto. }
        split; [|split].
        + intros k v Hk. destruct (Hall k v Hk) as [Hold | Hv];
            [apply (Hokt k v Hold) | right; apply Hok', Hv].
        + destruct Hf as (v & Hv & Hvok). exists v. split; [exact Hv|].
          apply Hok', Hvok.
        + intros j (v & Hv & Hvok).
          destruct (exits t' !! Z.to_nat j) as [v'|] eqn:Ev'.
          * exists v'. split; [exact Ev'|].
            destruct (Hall _ _ Ev') as [Hold | Hnew]; [|apply Hok', Hnew].
            rewrite Hv in Hold. injection Hold as <-. exact Hvok.
          * apply lookup_ge_None in Ev'. apply lookup_lt_Some in Hv.
            destruct Hsh' as (_ & _ & _ & _ & Hl'). lia.
      - exists t. split; [reflexivity|]. split; [exact Hst|].
        split; [exact Hokt|]. split; [|auto].
        unfold exits_get in He. apply read_Done in He as [_ He].
        exists e. split; [exact He|].
        destruct (Hokt _ _ He) as [-> | Hv]; [contradiction | exact Hv]. }
    destruct Hsol as (t' & Et & Hst' & Hokt' & Hfi & Hkeep).
    rewrite Et. cbn [mbind outcome_bind]. rewrite He'.
    cbn [mbind outcome_bind].
    assert (Hgue : exists u',
              (if e' =? LASER_EMPTY then fire_laser (enough_fuel s) u x y d
               else mret u) = Done u' /\ same_shape s u').
    { destruct (e' =? LASER_EMPTY).
      - destruct (fire_laser_total_square u i x y d Hu Hru) as (u' & Ef & Hsh').
        rewrite (same_shape_fuel s u Hsu) in Ef. exists u'.
        split; [exact Ef | apply (same_shape_trans s u u' Hsu Hsh')].
      - exists u. split; [reflexivity | exact Hsu]. }
    destruct Hgue as (u' & Eu & Hsu').
    rewrite Eu. cbn [mbind outcome_bind mret outcome_ret].
    exists (t', u'). split; [reflexivity|]. cbn [fst snd]. auto 10. }
  exists a', b'. split; [exact E|]. split; [exact Ha'|]. split; [exact Hb'|].
  intros i Hi. apply (HR i). apply elem_of_seqZ. lia.
Qed.

Lemma same_arena_refl (s : game_state) : same_arena s s.
Proof. intros c _. reflexivity. Qed.

Lemma same_arena_trans (s t u : game_state) :
  same_shape s t -> same_arena s t -> same_arena t u -> same_arena s u.
Proof.
  intros (Hw & Hh & _) Hst Htu c Hc. rewrite <- (Hst c Hc). apply Htu.
  unfold in_arena in *. rewrite Hw, Hh. exact Hc.
Qed.

Lemma same_arena_grid (s t : game_state) :
  grid t = grid s -> h t = h s -> same_arena s t.
Proof. intros Hg Hh c _. apply cell_value_same; assumption. Qed.

(** A word written on the range leaves the arena as it was. *)
Lemma GRID_set_ring (s : game_state) (x y v : Z) :
  square s -> 0 <= x <= w s + 1 -> 0 <= y <= h s + 1 ->
  in_arena s (x, y) = false ->
  exists s', GRID_set s x y v = Done s' /\ same_shape s s' /\
             exits s' = exits s /\ same_arena s s'.
Proof.
  intros Hs Hx Hy Ho.
  pose proof (square_in_bounds s x y Hs Hx Hy) as Hb.
  eexists. split; [apply GRID_set_Done; split; [exact Hb | reflexivity]|].
  split; [repeat split; simpl; apply length_insert|]. split; [reflexivity|].
  intros c Hc. rewrite cell_value_insert by exact Hb.
  destruct (Z.eqb_spec (GRID_index s c.1 c.2) (GRID_index s x y)) as [Ei|];
    [|reflexivity].
  exfalso. apply in_arena_spec in Hc.
  apply (square_index_inj s c.1 c.2 x y Hs) in Ei as [E1 E2]; [|lia|lia].
  assert (in_arena s (x, y) = true); [|congruence].
  apply in_arena_spec. cbn [fst snd]. lia.
Qed.

Lemma exits_update_square (s : game_state) (i : Z) (f : Z -> Z) :
  square s -> 0 <= i < nlasers s ->
  exists s', exits_update s i f = Done s' /\ same_shape s s' /\ same_arena s s'.
Proof.
  intros Hs Hi. unfold exits_update.
  destruct (exits_get_square s i Hs Hi) as [e ->]. cbn [mbind outcome_bind].
  destruct (exits_set_square s i (f e) Hs Hi) as (s' & E & Hsh & _ & Hg & _).
  exists s'. split; [exact E|]. split; [exact Hsh|].
  apply same_arena_grid; [exact Hg | apply Hsh].
Qed.

Lemma to_int_index (s : game_state) (j : Z) :
  square s -> 0 <= j < nlasers s -> to_int j = j.
Proof.
  intros ((_ & _ & _ & Hn & _) & ([_ Hw] & [_ Hh]) & _) Hj.
  unfold to_int, INT_MAX. destruct (Z.leb_spec j 2147483647); [reflexivity | lia].
Qed.

(** The marking of a laser the player left out completes on a square board,
    for every value a fired slot can hold, and stays on the range. *)
Lemma add_omitted_square (s : game_state) (i x y es : Z) :
  square s -> 0 <= i < nlasers s ->
  0 <= x <= w s + 1 -> 0 <= y <= h s + 1 -> in_arena s (x, y) = false ->
  exit_ok s es ->
  exists s', add_omitted s i x y es = Done s' /\ same_shape s s' /\
             same_arena s s'.
Proof.
  intros Hs Hi Hx Hy Ho Hes. unfold add_omitted.
  destruct (exits_set_square s i es Hs Hi) as (s1 & E1 & Hsh1 & _ & Hg1 & Hex1).
  rewrite E1. cbn [mbind outcome_bind].
  pose proof (same_shape_square s s1 Hsh1 Hs) as Hs1.
  pose proof Hsh1 as (Hw1 & Hh1 & Hn1 & _ & Hl1).
  pose proof Hs as ((_ & _ & _ & _ & He) & _).
  assert (Ha1 : same_arena s s1) by (apply same_arena_grid; assumption).
  assert (Eg : exits_get s1 i = Done es).
  { unfold exits_get. apply read_Done. split; [lia|]. rewrite Hex1.
    apply list_lookup_insert_eq. lia. }
  rewrite Eg. cbn [mbind outcome_bind].
  assert (Hx1 : 0 <= x <= w s1 + 1) by lia.
  assert (Hy1 : 0 <= y <= h s1 + 1) by lia.
  assert (Ho1 : in_arena s1 (x, y) = false)
    by (unfold in_arena in *; rewrite Hw1, Hh1; exact Ho).
  assert (Hmid : exists s2,
            (if (es =? LASER_REFLECT) || (es =? LASER_HIT)
             then GRID_set s1 x y es
             else
               '(ex, ey, _) ← assert_some
                  (range2grid (with_laserno s1 (laserno s1 + 1)) (to_int es));
               state ← GRID_set (with_laserno s1 (laserno s1 + 1)) x y
                         (to_unsigned (laserno s1));
               GRID_set state ex ey (to_unsigned (laserno s1))) = Done s2 /\
            same_shape s1 s2 /\ same_arena s1 s2).
  { destruct ((es =? LASER_REFLECT) || (es =? LASER_HIT)) eqn:Eflag.
    - destruct (GRID_set_ring s1 x y es Hs1 Hx1 Hy1 Ho1) as (s2 & E2 & Hsh2 & _ & Ha2).
      eauto.
    - apply orb_false_iff in Eflag as [Er Eh]. apply Z.eqb_neq in Er, Eh.
      destruct Hes as [-> | [-> | Hes]]; [contradiction | contradiction |].
      rewrite (to_int_index s es Hs Hes).
      set (s1' := with_laserno s1 (laserno s1 + 1)).
      assert (Hsh' : same_shape s1 s1') by (repeat split).
      pose proof (same_shape_square s1 s1' Hsh' Hs1) as Hs1'.
      pose proof Hs1' as ((Hw0 & Hh0 & _ & Hnl & _) & _).
      destruct (range2grid_valid s1' es) as (ex & ey & d & Hr);
        [destruct Hsh' as (_ & _ & Hn' & _); lia | lia | lia |].
      rewrite Hr. cbn [assert_some mbind outcome_bind].
      destruct (range2grid_entry s1' es ex ey d Hs1' Hr)
        as (_ & _ & Hex & Hey & _ & _ & Hoe & _).
      destruct (GRID_set_ring s1' x y (to_unsigned (laserno s1)) Hs1' Hx1 Hy1 Ho1)
        as (s2 & E2 & Hsh2 & _ & Ha2).
      rewrite E2. cbn [mbind outcome_bind].
      pose proof (same_shape_square s1' s2 Hsh2 Hs1') as Hs2.
      pose proof Hsh2 as (Hw2 & Hh2 & _).
      destruct (GRID_set_ring s2 ex ey (to_unsigned (laserno s1)) Hs2)
        as (s3 & E3 & Hsh3 & _ & Ha3);
        [lia | lia | unfold in_arena in *; rewrite Hw2, Hh2; exact Hoe |].
      exists s3. split; [exact E3|]. split.
      + apply (same_shape_trans s1 s1' s3 Hsh'), (same_shape_trans s1' s2 s3 Hsh2 Hsh3).
      + apply (same_arena_trans s1 s1' s3 Hsh'); [apply same_arena_grid; reflexivity|].
        apply (same_arena_trans s1' s2 s3 Hsh2 Ha2 Ha3). }
  destruct Hmid as (s2 & E2 & Hsh2 & Ha2).
  match goal with
  | |- context [mbind _ ?m] => replace m with (Done (A := game_state) s2)
  end.
  cbn [mbind outcome_bind].
  pose proof (same_shape_square s1 s2 Hsh2 Hs1) as Hs2.
  destruct (exits_update_square s2 i (fun v => Z.lor v LASER_OMITTED) Hs2)
    as (s3 & E3 & Hsh3 & Ha3); [destruct Hsh2 as (_ & _ & -> & _); lia|].
  exists s3. split; [exact E3|]. split.
  - apply (same_shape_trans s s1 s3 Hsh1), (same_shape_trans s1 s2 s3 Hsh2 Hsh3).
  - apply (same_arena_trans s s1 s3 Hsh1 Ha1), (same_arena_trans s1 s2 s3 Hsh2 Ha2 Ha3).
Qed.

(** The comparison of the two exit tables completes on a square board once
    every laser of the solution is fired, and leaves the arena alone. *)
Lemma compare_all_square (s sol gue : game_state) :
  square s -> same_shape s sol -> same_shape s gue ->
  (forall i, 0 <= i < nlasers s -> fired s sol i) ->
  exists st ret,
    for_range 0 (nlasers sol) (compare_exit sol gue) (s, 1) = Done (st, ret) /\
    same_shape s st /\ same_arena s st.
Proof.
  intros Hs Hsol Hgue Hfired.
  pose proof (same_shape_square s sol Hsol Hs) as Hqsol.
  pose proof (same_shape_square s gue Hgue Hs) as Hqgue.
  pose proof Hsol as (_ & _ & Hnsol & _).
  pose proof Hgue as (_ & _ & Hngue & _).
  replace (nlasers sol) with (0 + nlasers sol) by lia.
  rewrite for_range_run_list.
  destruct (run_list_total (compare_exit sol gue)
              (fun p => same_shape s p.1 /\ same_arena s p.1)
              (seqZ 0 (nlasers sol)) (s, 1)) as ([st ret] & E & Hsh & Ha).
  { split; [apply same_shape_refl | apply same_arena_refl]. }
  { intros i [t r] Hi [Hst Hat]. cbn [fst snd] in *. apply elem_of_seqZ in Hi.
    pose proof (same_shape_square s t Hst Hs) as Ht.
    pose proof Hst as (Hwt & Hht & Hnt & _).
    pose proof Hqsol as ((Hw0 & Hh0 & _ & Hnl & _) & _).
    destruct (range2grid_valid sol i) as (x & y & d & Hr); [lia | lia | lia |].
    destruct (range2grid_entry sol i x y d Hqsol Hr)
      as (_ & _ & Hx & Hy & _ & _ & Ho & _).
    destruct (Hfired i) as (es & Hes & Hesok); [lia|].
    assert (Ees : exits_get sol i = Done es)
      by (apply read_Done; split; [lia | exact Hes]).
    destruct (exits_get_square gue i Hqgue) as [eg Eeg]; [lia|].
    destruct (exits_get_square t i Ht) as [e Ee]; [lia|].
    unfold compare_exit. rewrite Hr, Ees, Eeg.
    cbn [assert_some mbind outcome_bind].
    destruct (es =? eg); [exists (t, r); auto|].
    rewrite Ee. cbn [mbind outcome_bind].
    destruct Hsol as (Hwsol & Hhsol & _).
    assert (Hstep : exists t',
              (if e =? LASER_EMPTY then add_omitted t i x y es
               else exits_update t i (fun v => Z.lor v LASER_WRONG)) = Done t' /\
              same_shape t t' /\ same_arena t t').
    { destruct (e =? LASER_EMPTY).
      - apply add_omitted_square; [exact Ht | lia | lia | lia | |].
        + unfold in_arena in *. rewrite Hwt, Hht, <- Hwsol, <- Hhsol. exact Ho.
        + unfold exit_ok in *. rewrite Hnt. exact Hesok.
      - apply exits_update_square; [exact Ht | lia]. }
    destruct Hstep as (t' & -> & Hsh' & Ha'). cbn [mbind outcome_bind].
    exists (t', 0). split; [reflexivity|]. cbn [fst]. split.
    - apply (same_shape_trans s t t' Hst Hsh').
    - apply (same_arena_trans s t t' Hst Hat Ha'). }
  exists st, ret. auto.
Qed.

(** On a square board the consistency check returns within the fuel
    [enough_fuel], whatever the guesses are; where it reports them
    inconsistent the arena holds afterwards what it held before. *)
Theorem check_guesses_total_square (s : game_state) :
  square s ->
  exists ret s',
    check_guesses (enough_fuel s) s = Done (ret, s') /\
    same_shape s s' /\ (ret = 0 -> same_arena s s').
Proof.
  intros Hs.
  destruct (clear_lasers_square s Hs) as (sol & E1 & Hsh1 & _).
  pose proof (same_shape_square s sol Hsh1 Hs) as Hsol.
  pose proof (clear_lasers_exits s sol Hs E1) as Hok.
  pose proof Hsh1 as (Hw1 & Hh1 & Hn1 & _).
  destruct (guess_all_square sol Hsol) as (gue & E2 & Hsh2 & _).
  rewrite Hw1, Hh1 in E2.
  pose proof (same_shape_trans s sol gue Hsh1 Hsh2) as Hsg.
  destruct (fire_pairs_square s sol gue Hs Hsh1 Hsg Hok)
    as (sol' & gue' & E3 & Hsh3 & Hsh3' & Hfired).
  destruct (compare_all_square s sol' gue' Hs Hsh3 Hsh3' Hfired)
    as (st1 & ret & E4 & Hsh4 & Ha4).
  pose proof (same_shape_square s st1 Hsh4 Hs) as Hst1.
  assert (E5 : exists st2,
            (if ret =? 0 then mret st1
             else for_arena (w st1) (h st1) fix_correct st1) = Done st2 /\
            same_shape st1 st2 /\ (ret = 0 -> st2 = st1)).
  { destruct (Z.eqb_spec ret 0) as [Hz | Hnz].
    - exists st1. split; [reflexivity|]. split; [apply same_shape_refl | auto].
    - destruct (fix_all_square st1 Hst1) as (st2 & E & Hsh). exists st2.
      split; [exact E|]. split; [exact Hsh | contradiction]. }
  destruct E5 as (st2 & E5 & Hsh5 & Hz).
  pose proof (same_shape_square st1 st2 Hsh5 Hst1) as Hst2.
  destruct (count_balls_square st2 Hst2) as (s' & E6).
  exists ret, s'. split.
  { unfold check_guesses. change (dup_game s) with s. rewrite E1.
    cbn [mbind outcome_bind]. change (dup_game sol) with sol. rewrite E2.
    cbn [mbind outcome_bind].
    replace (nlasers sol) with (0 + nlasers s) at 1 by lia.
    rewrite for_range_run_list, E3. cbn [mbind outcome_bind].
    rewrite E4. cbn [mbind outcome_bind]. rewrite E5.
    cbn [mbind outcome_bind]. rewrite E6. reflexivity. }
  apply count_balls_Done in E6 as (Hs' & _).
  split.
  { apply (same_shape_trans s st1 s' Hsh4), (same_shape_trans st1 st2 s' Hsh5).
    rewrite Hs'. repeat split. }
  intros Hret. rewrite (Hz Hret) in Hs'.
  intros c Hc. rewrite <- (Ha4 c Hc). rewrite Hs'. reflexivity.
Qed.

(** Reveal on a square board: in the guessing phase, with the number of
    guesses within the bounds, the move completes within [enough_fuel]. *)
Lemma reveal_completes_square (s : game_state) :
  square s -> reveal s = 0 -> minballs s <= nguesses s <= maxballs s ->
  exists s', apply_move (enough_fuel s) s (dup_game s) "R" = Done (Some s').
Proof.
  intros Hs Hr Hn.
  destruct (check_guesses_total_square s Hs) as (ret & s1 & E & _).
  unfold apply_move, dup_game. simpl. rewrite Hr. simpl.
  destruct (Z.ltb_spec (nguesses s) (minballs s)); [lia|].
  destruct (Z.ltb_spec (maxballs s) (nguesses s)); [lia|].
  simpl. rewrite E. eexists. reflexivity.
Qed.

Lemma square_board_guessed_square : square square_board_guessed.
Proof. unfold square, wf_state, valid_dims. simpl. lia. Qed.

(** C6.  When a Reveal move completes, [reveal] is set and the three counts
    are the numbers of arena cells that are guessed and true, guessed and
    not true, true and not guessed.  When the check reported the guesses
    consistent, the true cells are the cells the player had guessed, so that
    [nright] is the number of guesses and the other two counts are 0.  On a
    square board the move does complete, within the fuel [enough_fuel]; the
    check reports 0 or 1, and where it reports 0 the arena is left as it was,
    so that the counts are those of the guessed and the true cells of the
    state before the move.  On the 5 by 5 board with balls in (1,1), (2,2)
    and guesses in (1,1), (3,3) the counts are 1, 1 and 1. *)
Theorem C6_reveal_counts :
  (forall (fuel : nat) (s s' : game_state),
     apply_move fuel s (dup_game s) "R" = Done (Some s') ->
     reveal s' = 1 /\
     nright s' = count_cells (both s') (arena_cells s') /\
     nwrong s' = count_cells (only_guessed s') (arena_cells s') /\
     nmissed s' = count_cells (only_true s') (arena_cells s') /\
     forall s1, check_guesses fuel s = Done (1, s1) ->
       (forall c, c ∈ arena_cells s -> true_ball s' c = guessed s c) /\
       nright s' = count_cells (guessed s) (arena_cells s) /\
       nwrong s' = 0 /\ nmissed s' = 0) /\
  (forall s : game_state,
     square s -> reveal s = 0 -> minballs s <= nguesses s <= maxballs s ->
     exists (ret : Z) (s1 s' : game_state),
       check_guesses (enough_fuel s) s = Done (ret, s1) /\
       apply_move (enough_fuel s) s (dup_game s) "R" = Done (Some s') /\
       (ret = 0 \/ ret = 1) /\
       (ret = 0 ->
        (forall c, c ∈ arena_cells s ->
           guessed s' c = guessed s c /\ true_ball s' c = true_ball s c) /\
        nright s' = count_cells (both s) (arena_cells s) /\
        nwrong s' = count_cells (only_guessed s) (arena_cells s) /\
        nmissed s' = count_cells (only_true s) (arena_cells s))) /\
  (List.filter (true_ball square_board_guessed) (arena_cells square_board_guessed)
     = [(1, 1); (2, 2)] /\
   List.filter (guessed square_board_guessed) (arena_cells square_board_guessed)
     = [(1, 1); (3, 3)] /\
   apply_move 30 square_board_guessed (dup_game square_board_guessed) "R"
     = Done (Some square_board_revealed) /\
   nright square_board_revealed = 1 /\
   nwrong square_board_revealed = 1 /\
   nmissed square_board_revealed = 1).
Proof.
  split; [|split; [|by_evaluation]].
  - intros fuel s s' E. unfold apply_move, dup_game in E. simpl in E.
    destruct (negb (reveal s =? 0)); [discriminate|].
    destruct ((nguesses s <? minballs s) || (maxballs s <? nguesses s));
      [discriminate|].
    apply bind_Done in E as ([ret s1] & Ec & E). injection E as <-.
    pose proof Ec as Ec'.
    apply check_guesses_Done in Ec
      as (sol & gue & sol' & gue' & st1 & st2 & _ & _ & _ & _ & _ & E6).
    apply count_balls_Done in E6 as (_ & Hr & Hw & Hm).
    split; [reflexivity|]. do 3 (split; [assumption|]).
    intros s2 Ec2. rewrite Ec' in Ec2. injection Ec2 as -> <-.
    exact (check_guesses_consistent fuel s s1 Ec').
  - intros s Hs Hrev Hn.
    destruct (check_guesses_total_square s Hs) as (ret & s1 & E & Hsh & Hsame).
    exists ret, s1, (with_reveal s1 1). split; [exact E|]. split.
    { unfold apply_move, dup_game. simpl. rewrite Hrev. simpl.
      destruct (Z.ltb_spec (nguesses s) (minballs s)); [lia|].
      destruct (Z.ltb_spec (maxballs s) (nguesses s)); [lia|].
      simpl. rewrite E. reflexivity. }
    split.
    { pose proof E as Ec.
      apply check_guesses_Done in Ec
        as (sol & gue & sol' & gue' & st1 & st2 & _ & _ & _ & E4 & _).
      apply compare_consistent in E4 as [E4 | [E4 _]]; auto. }
    intros Hz. specialize (Hsame Hz).
    pose proof E as Ec.
    apply check_guesses_Done in Ec
      as (sol & gue & sol' & gue' & st1 & st2 & _ & _ & _ & _ & _ & E6).
    apply count_balls_Done in E6 as (_ & Hr & Hw & Hm).
    assert (Hcells : arena_cells s1 = arena_cells s).
    { destruct Hsh as (Hw1 & Hh1 & _). unfold arena_cells. rewrite Hw1, Hh1.
      reflexivity. }
    assert (Hval : forall c, c ∈ arena_cells s ->
              guessed s1 c = guessed s c /\ true_ball s1 c = true_ball s c).
    { intros c Hc. apply in_arena_cells in Hc. unfold guessed, true_ball.
      rewrite (Hsame c Hc). auto. }
    split; [exact Hval|].
    change (nright (with_reveal s1 1)) with (nright s1).
    change (nwrong (with_reveal s1 1)) with (nwrong s1).
    change (nmissed (with_reveal s1 1)) with (nmissed s1).
    rewrite Hr, Hw, Hm, Hcells.
    split; [|split]; apply count_cells_ext; intros c Hc;
      destruct (Hval c Hc) as [Hg Ht]; unfold both, only_guessed, only_true;
      rewrite Hg, Ht; reflexivity.
Qed.

Lemma C6_reveal_counts_witness :
  (apply_move 30 square_board_solved (dup_game square_board_solved) "R"
     = Done (Some (the_move (apply_move 30 square_board_solved square_board_solved "R"))) /\
   nright (the_move (apply_move 30 square_board_solved square_board_solved "R"))
   = count_cells (both (the_move (apply_move 30 square_board_solved square_board_solved "R")))
       (arena_cells (the_move (apply_move 30 square_board_solved square_board_solved "R")))) /\
  (square square_board_guessed /\ reveal square_board_guessed = 0 /\
   minballs square_board_guessed <= nguesses square_board_guessed
     <= maxballs square_board_guessed /\
   exists s', apply_move (enough_fuel square_board_guessed) square_board_guessed
                (dup_game square_board_guessed) "R" = Done (Some s')).
Proof.
  assert (H : apply_move 30 square_board_solved (dup_game square_board_solved) "R"
    = Done (Some (the_move (apply_move 30 square_board_solved square_board_solved "R"))))
    by (vm_compute; reflexivity).
  pose proof square_board_guessed_square as Hq.
  assert (Hr : reveal square_board_guessed = 0) by reflexivity.
  assert (Hn : minballs square_board_guessed <= nguesses square_board_guessed
               <= maxballs square_board_guessed) by (vm_compute; split; discriminate).
  split; [split; [exact H|]|].
  - exact (proj1 (proj2 (proj1 C6_reveal_counts 30%nat square_board_solved _ H))).
  - split; [exact Hq|]. split; [exact Hr|]. split; [exact Hn|].
    destruct (proj1 (proj2 C6_reveal_counts) square_board_guessed Hq Hr Hn)
      as (ret & s1 & s' & _ & E & _).
    exists s'. exact E.
Defined.

(** * Parameters, descriptions, pointer input and whole games *)

(** ** Numbers as text *)

Lemma digit_char_spec (d : Z) :
  0 <= d <= 9 ->
  isdigit (digit_char d) = true /\ digit_value (digit_char d) = d /\
  isspace (digit_char d) = false /\ key_letter (digit_char d) = false /\
  digit_char d <> "-"%char /\ digit_char d <> "+"%char.
Proof.
  intros Hd.
  assert (H : d = 0 \/ d = 1 \/ d = 2 \/ d = 3 \/ d = 4 \/ d = 5 \/ d = 6 \/
              d = 7 \/ d = 8 \/ d = 9) by lia.
  repeat destruct H as [-> | H]; try subst d;
    (repeat split; try reflexivity; discriminate).
Qed.

Lemma print_digits_spec (fuel : nat) :
  forall (n : Z) (tail : list ascii),
    0 <= n < 10 ^ Z.of_nat (S fuel) ->
    exists ds,
      print_digits (S fuel) n tail = ds ++ tail /\ ds <> [] /\
      Forall (fun c => isdigit c = true) ds /\
      forall acc, digits_value ds acc = acc * 10 ^ Z.of_nat (length ds) + n.
Proof.
  induction fuel as [|fuel IH]; intros n tail Hn;
    cbn [print_digits]; destruct (Z.ltb_spec n 10) as [Hlt | Hge].
  1, 3: exists [digit_char (n mod 10)]; rewrite Z.mod_small by lia;
    destruct (digit_char_spec n) as (Hd & Hv & _); [lia|];
    split; [reflexivity|]; split; [discriminate|]; split;
    [constructor; [exact Hd | constructor]
    |intros acc; unfold digits_value; simpl; rewrite Hv; lia].
  - change (10 ^ Z.of_nat 1) with 10 in Hn. lia.
  - assert (Hdiv : 0 <= n / 10 < 10 ^ Z.of_nat (S fuel)).
    { split; [apply Z.div_pos; lia|]. apply Z.div_lt_upper_bound; [lia|].
      rewrite (Nat2Z.inj_succ (S fuel)), Z.pow_succ_r in Hn by lia. lia. }
    destruct (IH (n / 10) (digit_char (n mod 10) :: tail) Hdiv)
      as (ds & E & Hne & Hall & Hval).
    pose proof (Z.mod_pos_bound n 10 ltac:(lia)) as Hm.
    destruct (digit_char_spec (n mod 10)) as (Hd & Hv & _); [lia|].
    exists (ds ++ [digit_char (n mod 10)]).
    cbn [print_digits] in E.
    split; [rewrite E, <- app_assoc; reflexivity|].
    split; [destruct ds; discriminate|]. split.
    + apply Forall_app. split; [exact Hall|]. constructor; [exact Hd | constructor].
    + intros acc. unfold digits_value in *. rewrite fold_left_app. simpl.
      rewrite Hval, Hv, length_app. simpl.
      rewrite Nat2Z.inj_add, Z.pow_add_r by lia. simpl (Z.of_nat 1).
      rewrite Z.pow_1_r. pose proof (Z.div_mod n 10 ltac:(lia)). lia.
Qed.

Lemma scan_digits_app (ds rest : list ascii) (acc : Z) :
  Forall (fun c => isdigit c = true) ds -> stops rest ->
  scan_digits acc (ds ++ rest) = (digits_value ds acc, rest).
Proof.
  intros Hds Hrest. revert acc.
  induction Hds as [|c ds Hc Hds IH]; intros acc.
  - simpl. destruct rest as [|c rest]; [reflexivity|].
    simpl in *. rewrite Hrest. reflexivity.
  - simpl. rewrite Hc. apply IH.
Qed.

Lemma skip_digits_app (ds rest : list ascii) :
  Forall (fun c => isdigit c = true) ds -> stops rest ->
  skip_digits (ds ++ rest) = rest.
Proof.
  intros Hds Hrest. induction Hds as [|c ds Hc Hds IH].
  - simpl. destruct rest as [|c rest]; [reflexivity|].
    simpl in *. rewrite Hrest. reflexivity.
  - simpl. rewrite Hc. exact IH.
Qed.

Lemma isdigit_not_space (c : ascii) : isdigit c = true -> isspace c = false.
Proof.
  unfold isdigit, isspace. intros H. apply andb_true_iff in H as [H1 H2].
  apply Z.leb_le in H1, H2.
  destruct (Z.eqb_spec (Z.of_nat (nat_of_ascii c)) 32); [lia|].
  destruct (Z.leb_spec (Z.of_nat (nat_of_ascii c)) 13); [lia|].
  rewrite andb_false_r. reflexivity.
Qed.

(** The digits of a non-negative [int], as [%d] prints them. *)
Lemma print_nat_spec (n : Z) (tail : list ascii) :
  0 <= n <= 2147483648 ->
  exists c ds,
    print_digits 10 n tail = c :: ds ++ tail /\
    Forall (fun c => isdigit c = true) (c :: ds) /\
    digits_value (c :: ds) 0 = n.
Proof.
  intros Hn.
  destruct (print_digits_spec 9 n tail) as (ds & E & Hne & Hall & Hval).
  { change (10 ^ Z.of_nat 10) with 10000000000. lia. }
  destruct ds as [|c ds]; [contradiction|].
  exists c, ds. split; [exact E|]. split; [exact Hall|].
  rewrite Hval. lia.
Qed.

(** What [%d] of [sprintf] writes, [%d] of [sscanf] reads back, up to the
    first character that is no digit. *)
Lemma scan_int_print_int (n : Z) (rest : list ascii) :
  int_range n -> stops rest ->
  scan_int (print_int n ++ rest) = Done (Some (n, rest)).
Proof.
  intros [Hlo Hhi] Hrest. unfold INT_MIN, INT_MAX in *. unfold print_int.
  destruct (Z.ltb_spec n 0) as [Hneg | Hpos].
  - destruct (print_nat_spec (- n) []) as (c & ds & E & Hall & Hval); [lia|].
    rewrite E, app_nil_r. pose proof (Forall_inv Hall) as Hc. simpl in Hc.
    unfold scan_int. cbn [app skip_space isspace].
    change (isspace "-") with false. cbv iota.
    rewrite Hc.
    change (c :: ds ++ rest) with ((c :: ds) ++ rest).
    rewrite (scan_digits_app (c :: ds) rest 0 Hall Hrest), Hval.
    unfold INT_MIN, INT_MAX.
    destruct (Z.ltb_spec (- - n) (-2147483648)); [lia|].
    destruct (Z.ltb_spec 2147483647 (- - n)); [lia|].
    simpl. repeat f_equal. lia.
  - destruct (print_nat_spec n []) as (c & ds & E & Hall & Hval); [lia|].
    rewrite E, app_nil_r. pose proof (Forall_inv Hall) as Hc. simpl in Hc.
    unfold scan_int. cbn [app skip_space].
    rewrite (isdigit_not_space c Hc).
    assert (Hsign : c <> "-"%char /\ c <> "+"%char).
    { split; intros ->; discriminate. }
    destruct Hsign as [Hm Hp].
    assert (Hbranch :
      match c :: ds ++ rest with
      | "-"%char :: l' => (true, l')
      | "+"%char :: l' => (false, l')
      | _ => (false, c :: ds ++ rest)
      end = (false, c :: ds ++ rest)).
    { destruct c as [[] [] [] [] [] [] [] []]; try reflexivity; contradiction. }
    rewrite Hbranch. rewrite Hc.
    change (c :: ds ++ rest) with ((c :: ds) ++ rest).
    rewrite (scan_digits_app (c :: ds) rest 0 Hall Hrest), Hval.
    unfold INT_MIN, INT_MAX.
    destruct (Z.ltb_spec n (-2147483648)); [lia|].
    destruct (Z.ltb_spec 2147483647 n); [lia|].
    reflexivity.
Qed.

Lemma atoi_print_int (n : Z) (rest : list ascii) :
  int_range n -> stops rest -> atoi (print_int n ++ rest) = Done n.
Proof.
  intros Hn Hrest. unfold atoi. rewrite scan_int_print_int by assumption.
  reflexivity.
Qed.

(** No character that [%d] writes is a key letter of [decode_params]. *)
Lemma print_int_junk (n : Z) :
  int_range n -> Forall (fun c => key_letter c = false) (print_int n).
Proof.
  intros [Hlo Hhi]. unfold INT_MIN, INT_MAX in *. unfold print_int.
  assert (Hd : forall c, isdigit c = true -> key_letter c = false).
  { intros c Hc. unfold isdigit in Hc. apply andb_true_iff in Hc as [H1 H2].
    apply Z.leb_le in H1, H2. unfold key_letter.
    repeat match goal with
    | |- context [Ascii.eqb c ?k] =>
      destruct (Ascii.eqb_spec c k) as [-> | _];
        [exfalso; vm_compute in H2; apply H2; reflexivity|]
    end. reflexivity. }
  destruct (Z.ltb_spec n 0).
  - destruct (print_nat_spec (- n) []) as (c & ds & E & Hall & _); [lia|].
    rewrite E, app_nil_r. constructor; [reflexivity|].
    eapply Forall_impl; [exact Hall | exact Hd].
  - destruct (print_nat_spec n []) as (c & ds & E & Hall & _); [lia|].
    rewrite E, app_nil_r. eapply Forall_impl; [exact Hall | exact Hd].
Qed.

(** After a number that [%d] wrote, the digit-skipping loop stands either
    behind the number or, for a negative one, still in front of it. *)
Lemma skip_digits_print_int (n : Z) (rest : list ascii) :
  int_range n -> stops rest ->
  skip_digits (print_int n ++ rest) = rest \/
  skip_digits (print_int n ++ rest) = print_int n ++ rest.
Proof.
  intros [Hlo Hhi] Hrest. unfold INT_MIN, INT_MAX in *. unfold print_int.
  destruct (Z.ltb_spec n 0).
  - right. reflexivity.
  - left. destruct (print_nat_spec n []) as (c & ds & E & Hall & _); [lia|].
    rewrite E, app_nil_r. apply (skip_digits_app (c :: ds) rest Hall Hrest).
Qed.

(** ** Parameters as text *)

Lemma skip_digits_length (p : list ascii) :
  (length (skip_digits p) <= length p)%nat.
Proof.
  induction p as [|c p IH]; [reflexivity|].
  simpl. destruct (isdigit c); simpl; lia.
Qed.

Lemma atoi_cases (p : list ascii) :
  (exists v, atoi p = Done v) \/ atoi p = Fault.
Proof.
  unfold atoi, scan_int.
  destruct (match skip_space p with
            | "-"%char :: l' => (true, l')
            | "+"%char :: l' => (false, l')
            | _ => (false, skip_space p)
            end) as [neg l].
  destruct l as [|c l]; [left; eexists; reflexivity|].
  destruct (isdigit c); [|left; eexists; reflexivity].
  destruct (scan_digits 0 (c :: l)) as [v rest].
  destruct ((_ <? INT_MIN) || _); [right | left; eexists]; reflexivity.
Qed.

(** The loop of [decode_params] needs no more rounds than the text has
    characters. *)
Lemma decode_loop_fuel (fuel : nat) :
  forall (fuel' : nat) (p : list ascii) (prm : game_params),
    (length p <= fuel)%nat -> (length p <= fuel')%nat ->
    decode_loop fuel p prm = decode_loop fuel' p prm.
Proof.
  induction fuel as [|fuel IH]; intros fuel' p prm H H'.
  - destruct p; [destruct fuel'; reflexivity | simpl in H; lia].
  - destruct p as [|c p]; [destruct fuel'; reflexivity|].
    destruct fuel' as [|fuel']; [simpl in H'; lia|].
    simpl in H, H'. pose proof (skip_digits_length p) as Hs.
    cbn [decode_loop].
    repeat match goal with
    | |- context [Ascii.eqb c ?k] => destruct (Ascii.eqb c k)
    end;
    try (destruct (atoi_cases p) as [[v ->] | ->];
         [cbn [mbind outcome_bind]; apply IH; lia | reflexivity]).
    apply IH; lia.
Qed.

Lemma decode_loop_junk (j rest : list ascii) (prm : game_params) :
  Forall (fun c => key_letter c = false) j ->
  decode_loop (length (j ++ rest)) (j ++ rest) prm
  = decode_loop (length rest) rest prm.
Proof.
  intros Hj. induction Hj as [|c j Hc Hj IH]; [reflexivity|].
  cbn [app length decode_loop]. unfold key_letter in Hc.
  apply orb_false_iff in Hc as [Hc HM]. apply orb_false_iff in Hc as [Hc Hm].
  apply orb_false_iff in Hc as [Hw Hh]. rewrite Hw, Hh, Hm, HM. exact IH.
Qed.

(** One field of the encoding: its key letter, then its number. *)
Lemma decode_loop_field (k : ascii) (v : Z) (rest : list ascii)
      (prm : game_params) (upd : Z -> game_params) :
  int_range v -> stops rest ->
  (forall fuel p,
     decode_loop (S fuel) (k :: p) prm
     = (v ← atoi p; decode_loop fuel (skip_digits p) (upd v))) ->
  decode_loop (length (k :: print_int v ++ rest)) (k :: print_int v ++ rest) prm
  = decode_loop (length rest) rest (upd v).
Proof.
  intros Hv Hrest Hstep. cbn [length]. rewrite Hstep.
  rewrite (atoi_print_int v rest Hv Hrest). cbn [mbind outcome_bind].
  destruct (skip_digits_print_int v rest Hv Hrest) as [-> | ->].
  - apply decode_loop_fuel; [rewrite length_app; lia | lia].
  - apply decode_loop_junk, print_int_junk, Hv.
Qed.

Lemma string_of_list_ascii_length (l : list ascii) :
  String.length (string_of_list_ascii l) = length l.
Proof. induction l as [|c l IH]; [reflexivity | simpl; rewrite IH; reflexivity]. Qed.

(** X1.  [decode_params] reads back what [encode_params] writes: for
    parameters whose four fields are [int]s, negative ones included, decoding
    the encoded text returns, without a fault, the parameters encoded. *)
Theorem decode_encode_params (p : game_params) (full : bool) :
  params_in_range p ->
  decode_params (encode_params p full) = Done p.
Proof.
  intros (Hw & Hh & Hm & HM). unfold decode_params, encode_params.
  rewrite string_of_list_ascii_length, list_ascii_of_string_of_list_ascii.
  rewrite (decode_loop_field "w" (params.w p) _ default_params
             (fun v => params.mk_params v 8 5 5)); [|exact Hw|reflexivity|reflexivity].
  rewrite (decode_loop_field "h" (params.h p) _ _
             (fun v => params.mk_params (params.w p) v 5 5));
    [|exact Hh|reflexivity|reflexivity].
  rewrite (decode_loop_field "m" (params.minballs p) _ _
             (fun v => params.mk_params (params.w p) (params.h p) v 5));
    [|exact Hm|reflexivity|reflexivity].
  replace (print_int (params.maxballs p)) with (print_int (params.maxballs p) ++ [])
    by apply app_nil_r.
  rewrite (decode_loop_field "M" (params.maxballs p) [] _
             (fun v => params.mk_params (params.w p) (params.h p)
                         (params.minballs p) v));
    [|exact HM|exact I|reflexivity].
  destruct p. reflexivity.
Qed.

Lemma decode_encode_params_witness :
  params_in_range (params.mk_params 12 7 (-3) 2147483647) /\
  decode_params (encode_params (params.mk_params 12 7 (-3) 2147483647) true)
  = Done (params.mk_params 12 7 (-3) 2147483647).
Proof.
  assert (H : params_in_range (params.mk_params 12 7 (-3) 2147483647))
    by (unfold params_in_range, int_range, INT_MIN, INT_MAX; simpl; lia).
  split; [exact H|].
  exact (decode_encode_params (params.mk_params 12 7 (-3) 2147483647) true H).
Defined.

(** ** The configuration dialogue *)

Lemma stops_minus (rest : list ascii) : stops ("-"%char :: rest).
Proof. reflexivity. Qed.

(** X2.  [custom_params] reads back what [game_configure] shows: the width,
    the height and the ball count, shown as one number when the two bounds
    are equal and as a range otherwise, whatever the two fields held before
    [sscanf] filled them. *)
Theorem custom_configure_params (p : game_params) (garbage : Z * Z) :
  params_in_range p ->
  custom_params garbage (game_configure p) = Done p.
Proof.
  intros (Hw & Hh & Hm & HM). unfold custom_params, game_configure.
  cbn [cfg_sval lookup list_lookup config.sval assert_some mbind outcome_bind].
  replace (print_int (params.w p)) with (print_int (params.w p) ++ [])
    by apply app_nil_r.
  rewrite (atoi_print_int _ [] Hw I). cbn [mbind outcome_bind].
  replace (print_int (params.h p)) with (print_int (params.h p) ++ [])
    by apply app_nil_r.
  rewrite (atoi_print_int _ [] Hh I). cbn [mbind outcome_bind].
  unfold sscanf_d_minus_d.
  destruct (Z.eqb_spec (params.minballs p) (params.maxballs p)) as [E | Hne].
  - replace (print_int (params.minballs p))
      with (print_int (params.minballs p) ++ []) by apply app_nil_r.
    rewrite (scan_int_print_int _ [] Hm I). cbn [mbind outcome_bind mret outcome_ret].
    simpl (1 <? 2). cbv iota.
    rewrite (atoi_print_int _ [] Hm I). cbn [mbind outcome_bind mret outcome_ret].
    destruct p. simpl in *. subst. reflexivity.
  - rewrite (scan_int_print_int _ _ Hm (stops_minus _)).
    cbn [mbind outcome_bind mret outcome_ret].
    replace (print_int (params.maxballs p))
      with (print_int (params.maxballs p) ++ []) by apply app_nil_r.
    rewrite (scan_int_print_int _ [] HM I). cbn [mbind outcome_bind mret outcome_ret].
    simpl (2 <? 2). cbv iota. destruct p. reflexivity.
Qed.

Lemma custom_configure_params_witness :
  params_in_range (params.mk_params 8 8 3 6) /\
  custom_params (0, 0) (game_configure (params.mk_params 8 8 3 6))
  = Done (params.mk_params 8 8 3 6).
Proof.
  assert (H : params_in_range (params.mk_params 8 8 3 6))
    by (unfold params_in_range, int_range, INT_MIN, INT_MAX; simpl; lia).
  split; [exact H|].
  exact (custom_configure_params (params.mk_params 8 8 3 6) (0, 0) H).
Defined.

(** ** Parameters and presets *)

Lemma validate_params_None (p : game_params) (full : bool) :
  validate_params p full = None <->
  2 <= params.w p <= 255 /\ 2 <= params.h p <= 255 /\
  params.minballs p <= params.maxballs p /\
  params.minballs p < params.w p * params.h p.
Proof.
  unfold validate_params.
  destruct (Z.ltb_spec (params.w p) 2), (Z.ltb_spec (params.h p) 2),
    (Z.ltb_spec 255 (params.w p)), (Z.ltb_spec 255 (params.h p)),
    (Z.ltb_spec (params.maxballs p) (params.minballs p)),
    (Z.leb_spec (params.w p * params.h p) (params.minballs p));
    simpl; split; intros H'; try discriminate; try reflexivity; lia.
Qed.

(** X3.  [game_fetch_preset] answers for the indices 0 to 4 and for no
    other; every preset it hands out, and the default parameters, pass
    [validate_params]. *)
Theorem presets_are_valid (i : Z) :
  (0 <= i < 5 <->
   exists name p, game_fetch_preset i = Some (name, p)) /\
  (forall name p, game_fetch_preset i = Some (name, p) ->
     validate_params p true = None) /\
  validate_params default_params true = None.
Proof.
  split; [|split; [|reflexivity]].
  - split.
    + intros Hi.
      assert (H : i = 0 \/ i = 1 \/ i = 2 \/ i = 3 \/ i = 4) by lia.
      repeat destruct H as [-> | H]; try subst i; eexists; eexists; reflexivity.
    + intros (name & p & E). unfold game_fetch_preset in E.
      destruct (Z.ltb_spec i 0); [discriminate|].
      destruct (Z.leb_spec (Z.of_nat (length blackbox_presets)) i);
        [discriminate|]. simpl in *. lia.
  - intros name p E. unfold game_fetch_preset in E.
    destruct (Z.ltb_spec i 0); [discriminate|].
    destruct (Z.leb_spec (Z.of_nat (length blackbox_presets)) i);
      [discriminate|]. simpl in *.
    assert (Hc : i = 0 \/ i = 1 \/ i = 2 \/ i = 3 \/ i = 4) by lia.
    repeat destruct Hc as [-> | Hc]; try subst i; injection E as _ <-; reflexivity.
Qed.

(** ** Descriptions *)

Lemma run_flag (B : Z -> outcome bool) (l : list Z) :
  run_list (fun i (ok : bool) => if ok then B i else mret false) l true
    = Done true ->
  forall i, i ∈ l -> B i = Done true.
Proof.
  assert (Hfalse : forall l,
    run_list (fun i (ok : bool) => if ok then B i else mret false) l false
    = Done false).
  { intros l'. induction l' as [|a l' IH]; [reflexivity | exact IH]. }
  induction l as [|a l IH]; intros E i Hi; [inversion Hi|].
  simpl in E. apply bind_Done in E as (b & Eb & E).
  destruct b; [|rewrite Hfalse in E; discriminate].
  apply elem_of_cons in Hi as [-> | Hi]; [exact Eb | apply IH; assumption].
Qed.

Lemma run_flag_ok (B : Z -> outcome bool) (l : list Z) :
  (forall i, i ∈ l -> B i = Done true) ->
  run_list (fun i (ok : bool) => if ok then B i else mret false) l true
    = Done true.
Proof.
  induction l as [|a l IH]; intros H; [reflexivity|].
  simpl. rewrite H by left. simpl. apply IH. intros i Hi. apply H. right. exact Hi.
Qed.

(** What a description that [validate_desc] accepts looks like: the length
    is that of a header and a whole number of balls, their number is within
    the bounds, the header repeats the dimensions and every coordinate lies
    between 0 and the dimension, the dimension itself included. *)
Lemma validate_desc_accepts (p : game_params) (bmp : list Z) :
  2 <= Z.of_nat (length bmp) ->
  let nballs := (Z.of_nat (length bmp) - 2) / 2 in
  validate_desc p (2 * Z.of_nat (length bmp)) bmp = Done None <->
  Z.of_nat (length bmp) = nballs * 2 + 2 /\
  params.minballs p <= nballs <= params.maxballs p /\
  bmp !! 0%nat = Some (params.w p) /\ bmp !! 1%nat = Some (params.h p) /\
  forall i, 0 <= i < nballs ->
    exists x y, desc_ball bmp i = Some (x, y) /\
                0 <= x <= params.w p /\ 0 <= y <= params.h p.
Proof.
  intros Hlen nballs. set (n := Z.of_nat (length bmp)) in *.
  unfold validate_desc.
  rewrite (Z.quot_div_nonneg (2 * n) 2), (Z.mul_comm 2 n), Z.div_mul by lia.
  rewrite (Z.quot_div_nonneg (n - 2) 2) by lia. fold nballs.
  rewrite (Z.rem_mod_nonneg (n * 2) 4) by lia.
  assert (Hmod : (n * 2) mod 4 = 0 <-> n = nballs * 2 + 2).
  { unfold nballs. pose proof (Z.div_mod (n - 2) 2 ltac:(lia)) as Hd.
    pose proof (Z.mod_pos_bound (n - 2) 2 ltac:(lia)) as Hb.
    pose proof (Z.div_mod (n * 2) 4 ltac:(lia)) as Hd4.
    pose proof (Z.mod_pos_bound (n * 2) 4 ltac:(lia)) as Hb4.
    split; intros H'; lia. }
  destruct (Z.ltb_spec (n * 2) 4); [lia|].
  destruct (Z.eqb_spec ((n * 2) mod 4) 0) as [Hz | Hnz]; cbn [negb orb];
    [|split; [discriminate | intros [H' _]; apply Hmod in H'; contradiction]].
  apply Hmod in Hz.
  destruct (Z.ltb_spec nballs (params.minballs p));
    [split; [discriminate | lia]|].
  destruct (Z.ltb_spec (params.maxballs p) nballs);
    [split; [discriminate | lia]|].
  cbn [orb].
  assert (Hr : forall k, 0 <= k < n ->
            exists v, bmp !! Z.to_nat k = Some v /\ read bmp k = Done v).
  { intros k Hk. destruct (bmp !! Z.to_nat k) as [v|] eqn:E.
    - exists v. split; [reflexivity|]. apply read_Done. split; [lia | exact E].
    - apply lookup_ge_None in E. unfold n in Hk. lia. }
  destruct (Hr 0) as (b0 & E0 & ->); [lia|].
  destruct (Hr 1) as (b1 & E1 & ->); [lia|].
  cbn [mbind outcome_bind]. change (Z.to_nat 0) with 0%nat in E0.
  change (Z.to_nat 1) with 1%nat in E1.
  destruct (Z.eqb_spec b0 (params.w p)) as [-> | Hb0]; cbn [negb orb];
    [|split; [discriminate | intros (_ & _ & H' & _); congruence]].
  destruct (Z.eqb_spec b1 (params.h p)) as [-> | Hb1]; cbn [negb orb];
    [|split; [discriminate | intros (_ & _ & _ & H' & _); congruence]].
  replace nballs with (0 + nballs) at 1 2 by lia.
  rewrite for_range_run_list.
  set (B := fun i : Z =>
         x ← read bmp ((i + 1) * 2 + 0);
         y ← read bmp ((i + 1) * 2 + 1);
         mret (negb ((x <? 0) || (y <? 0) ||
                     (params.w p <? x) || (params.h p <? y)))).
  change (run_list _ (seqZ 0 nballs) true)
    with (run_list (fun i (ok : bool) => if ok then B i else mret false)
            (seqZ 0 nballs) true).
  assert (HB : forall i, 0 <= i < nballs ->
            (B i = Done true <->
             exists x y, desc_ball bmp i = Some (x, y) /\
                         0 <= x <= params.w p /\ 0 <= y <= params.h p)).
  { intros i Hi. unfold B, desc_ball.
    destruct (Hr ((i + 1) * 2 + 0)) as (x & Ex & ->); [lia|].
    destruct (Hr ((i + 1) * 2 + 1)) as (y & Ey & ->); [lia|].
    rewrite Ex, Ey. cbn [mbind outcome_bind mret outcome_ret option_bind].
    destruct (Z.ltb_spec x 0), (Z.ltb_spec y 0), (Z.ltb_spec (params.w p) x),
      (Z.ltb_spec (params.h p) y); simpl;
      (split; [intros H'; first [discriminate
                                | exists x, y; split; [reflexivity | lia]]
              |intros (x' & y' & E' & Hx' & Hy'); injection E' as <- <-;
               first [reflexivity | lia]]). }
  split.
  - intros E.
    destruct (run_list _ (seqZ 0 nballs) true) as [ok| |] eqn:Erun;
      try discriminate.
    destruct ok; [|discriminate].
    do 4 (split; [assumption || lia|]).
    intros i Hi. apply HB; [exact Hi|].
    apply (run_flag B _ Erun). apply elem_of_seqZ. lia.
  - intros (_ & _ & _ & _ & Hall).
    rewrite run_flag_ok; [reflexivity|].
    intros i Hi. apply elem_of_seqZ in Hi. apply HB; [lia|]. apply Hall. lia.
Qed.

Lemma desc_ball_reads (bmp : list Z) (i x y : Z) :
  0 <= i -> desc_ball bmp i = Some (x, y) ->
  read bmp ((i + 1) * 2 + 0) = Done x /\ read bmp ((i + 1) * 2 + 1) = Done y.
Proof.
  intros Hi E. unfold desc_ball in E.
  destruct (bmp !! Z.to_nat ((i + 1) * 2 + 0)) as [x'|] eqn:Ex; [|discriminate].
  destruct (bmp !! Z.to_nat ((i + 1) * 2 + 1)) as [y'|] eqn:Ey; [|discriminate].
  injection E as -> ->. split; apply read_Done; (split; [lia | assumption]).
Qed.

Lemma new_game_square (p : game_params) (bmp : list Z) :
  validate_params p true = None ->
  params.w p = params.h p ->
  2 <= Z.of_nat (length bmp) ->
  validate_desc p (2 * Z.of_nat (length bmp)) bmp = Done None ->
  exists s,
    new_game (params.minballs p) (params.maxballs p) bmp = Done s /\
    square s /\ words_ok s /\
    w s = params.w p /\ h s = params.h p /\
    nballs s = (Z.of_nat (length bmp) - 2) / 2 /\
    params.minballs p <= nballs s <= params.maxballs p /\
    untouched s /\
    forall c, in_arena s c = true ->
      (true_ball s c = true <->
       exists i, 0 <= i < nballs s /\
                 desc_ball bmp i = Some (c.1 - 1, c.2 - 1)).
Proof.
  intros Hp Hsq Hlen Hd.
  apply validate_params_None in Hp as (Hw & Hh & _ & _).
  apply (validate_desc_accepts p bmp Hlen) in Hd as (_ & Hn & E0 & E1 & Hballs).
  set (nb := (Z.of_nat (length bmp) - 2) / 2) in *.
  unfold new_game. fold nb.
  assert (R0 : read bmp 0 = Done (params.w p)) by (apply read_Done; auto with lia).
  assert (R1 : read bmp 1 = Done (params.h p)) by (apply read_Done; auto with lia).
  rewrite R0, R1. cbn [mbind outcome_bind].
  set (s0 := mk_state (params.w p) (params.h p) (params.minballs p)
               (params.maxballs p) nb (2 * (params.w p + params.h p))
               (replicate (Z.to_nat ((params.w p + 2) * (params.h p + 2))) 0)
               (replicate (Z.to_nat (2 * (params.w p + params.h p))) LASER_EMPTY)
               0 1 0 0 0 0 0).
  assert (Hs0 : square s0).
  { unfold square, wf_state, valid_dims, s0. simpl. rewrite !length_replicate.
    repeat split; try lia. }
  change (for_range 0 nb) with (for_range (St := game_state) 0 (0 + nb)).
  rewrite for_range_run_list.
  destruct (run_list_each
    (fun i s => bx ← read bmp ((i + 1) * 2 + 0);
                by_ ← read bmp ((i + 1) * 2 + 1);
                GRID_set s (bx + 1) (by_ + 1) BALL_CORRECT)
    (fun t => exists g, t = with_grid s0 g /\ length g = length (grid s0) /\
       forall k v, g !! k = Some v ->
         v = 0 \/ (v = 1 /\ exists i x y, 0 <= i < nb /\
                     desc_ball bmp i = Some (x, y) /\
                     k = Z.to_nat (GRID_index s0 (x + 1) (y + 1))))
    (fun i t => exists x y, desc_ball bmp i = Some (x, y) /\
       grid t !! Z.to_nat (GRID_index s0 (x + 1) (y + 1)) = Some 1)
    (seqZ 0 nb) s0) as (s & Es & (g & -> & Hg & Hwords) & Hmarks).
  { exists (grid s0). split; [reflexivity|]. split; [reflexivity|].
    intros k v Hk. left. apply lookup_replicate in Hk as [-> _]. reflexivity. }
  { intros i t Hi (g & -> & Hg & Hwords). apply elem_of_seqZ in Hi.
    destruct (Hballs i) as (x & y & Eb & Hx & Hy); [lia|].
    destruct (desc_ball_reads bmp i x y ltac:(lia) Eb) as [-> ->].
    cbn [mbind outcome_bind].
    assert (Hb : 0 <= GRID_index s0 (x + 1) (y + 1) < Z.of_nat (length g)).
    { rewrite Hg. apply square_in_bounds; [exact Hs0 | simpl; lia | simpl; lia]. }
    eexists. split; [apply GRID_set_Done; split; [exact Hb | reflexivity]|].
    cbn [grid with_grid]. change (GRID_index (with_grid s0 g)) with (GRID_index s0).
    split; [|split].
    - eexists. split; [reflexivity|]. split; [rewrite length_insert; exact Hg|].
      intros k v Hk.
      destruct (decide (k = Z.to_nat (GRID_index s0 (x + 1) (y + 1)))) as [-> | Hne].
      + rewrite list_lookup_insert_eq in Hk by lia. injection Hk as <-.
        right. split; [reflexivity|]. exists i, x, y. auto with lia.
      + rewrite list_lookup_insert_ne in Hk by congruence. apply Hwords, Hk.
    - exists x, y. split; [exact Eb|]. apply list_lookup_insert_eq. lia.
    - intros j (x' & y' & Eb' & Hj). exists x', y'. split; [exact Eb'|].
      destruct (decide (Z.to_nat (GRID_index s0 (x + 1) (y + 1))
                        = Z.to_nat (GRID_index s0 (x' + 1) (y' + 1)))) as [<- | Hne].
      + apply list_lookup_insert_eq. lia.
      + rewrite list_lookup_insert_ne by exact Hne. exact Hj. }
  exists (with_grid s0 g). split; [exact Es|].
  assert (Hsh : same_shape s0 (with_grid s0 g)) by (repeat split; exact Hg).
  pose proof (same_shape_square _ _ Hsh Hs0) as Hs.
  split; [exact Hs|]. split.
  { unfold words_ok. apply Forall_forall. intros v Hv.
    apply list_elem_of_lookup in Hv as [k Hk].
    destruct (Hwords k v Hk) as [-> | [-> _]]; unfold UINT_MOD; lia. }
  split; [reflexivity|]. split; [reflexivity|]. split; [reflexivity|].
  split; [exact Hn|].
  assert (Hcell : forall c, in_arena (with_grid s0 g) c = true ->
            exists v, g !! Z.to_nat (GRID_index s0 c.1 c.2) = Some v /\
                      cell_value (with_grid s0 g) c = v).
  { intros c Hc. apply in_arena_spec in Hc. simpl in Hc.
    assert (Hb : 0 <= GRID_index s0 c.1 c.2 < Z.of_nat (length g)).
    { rewrite Hg. apply square_in_bounds; [exact Hs0 | simpl; lia | simpl; lia]. }
    destruct (g !! Z.to_nat (GRID_index s0 c.1 c.2)) as [v|] eqn:E;
      [|apply lookup_ge_None in E; lia].
    exists v. split; [reflexivity|].
    unfold cell_value, GRID. cbn [grid with_grid].
    change (GRID_index (with_grid s0 g)) with (GRID_index s0).
    assert (read g (GRID_index s0 c.1 c.2) = Done v) as ->
      by (apply read_Done; split; [lia | exact E]).
    reflexivity. }
  split.
  { split; [reflexivity|]. split; [reflexivity|]. split; [reflexivity|]. split.
    - intros k v Hk. simpl in Hk. apply lookup_replicate in Hk as [-> _].
      reflexivity.
    - intros c Hc. destruct (Hcell c Hc) as (v & Ev & Hv).
      unfold guessed, locked. rewrite Hv.
      destruct (Hwords _ _ Ev) as [-> | [-> _]]; split; reflexivity. }
  intros c Hc. destruct (Hcell c Hc) as (v & Ev & Hv).
  unfold true_ball. rewrite Hv. cbn [nballs with_grid]. simpl (nballs s0).
  apply in_arena_spec in Hc. simpl in Hc. split.
  - intros Ht. destruct (Hwords _ _ Ev) as [-> | [-> (i & x & y & Hi & Eb & Hk)]];
      [discriminate|].
    exists i. split; [exact Hi|].
    destruct (Hballs i Hi) as (x' & y' & Eb' & Hx & Hy).
    rewrite Eb in Eb'. injection Eb' as <- <-.
    assert (Hidx : GRID_index s0 c.1 c.2 = GRID_index s0 (x + 1) (y + 1)).
    { pose proof (square_in_bounds s0 c.1 c.2 Hs0 ltac:(simpl; lia) ltac:(simpl; lia)).
      pose proof (square_in_bounds s0 (x + 1) (y + 1) Hs0
                    ltac:(simpl; lia) ltac:(simpl; lia)). lia. }
    apply (square_index_inj s0 _ _ _ _ Hs0) in Hidx as [Hcx Hcy];
      [|simpl; lia|simpl; lia].
    rewrite Eb. repeat f_equal; lia.
  - intros (i & Hi & Eb).
    destruct (Hmarks i) as (x & y & Eb' & Hm); [apply elem_of_seqZ; lia|].
    rewrite Eb in Eb'. injection Eb' as <- <-.
    cbn [grid with_grid] in Hm.
    replace (c.1 - 1 + 1) with c.1 in Hm by lia.
    replace (c.2 - 1 + 1) with c.2 in Hm by lia.
    rewrite Ev in Hm. injection Hm as ->. reflexivity.
Qed.

(** X4.  On a square board, a description that [validate_desc] accepts for
    parameters that [validate_params] accepts makes [new_game] return a
    well-formed state of these dimensions on which nothing was done yet; its
    ball count is the number of coordinate pairs of the description and lies
    within the bounds; an arena cell holds a true ball exactly when the
    description lists it. *)
Theorem new_game_validated (p : game_params) (bmp : list Z) :
  validate_params p true = None ->
  params.w p = params.h p ->
  2 <= Z.of_nat (length bmp) ->
  validate_desc p (2 * Z.of_nat (length bmp)) bmp = Done None ->
  exists s,
    new_game (params.minballs p) (params.maxballs p) bmp = Done s /\
    square s /\ words_ok s /\
    w s = params.w p /\ h s = params.h p /\
    nballs s = (Z.of_nat (length bmp) - 2) / 2 /\
    params.minballs p <= nballs s <= params.maxballs p /\
    untouched s /\
    forall c, in_arena s c = true ->
      (true_ball s c = true <->
       exists i, 0 <= i < nballs s /\
                 desc_ball bmp i = Some (c.1 - 1, c.2 - 1)).
Proof. exact (new_game_square p bmp). Qed.

Lemma new_game_validated_witness :
  validate_params (params.mk_params 5 5 2 2) true = None /\
  validate_desc (params.mk_params 5 5 2 2) 12 [5; 5; 0; 0; 1; 1] = Done None /\
  exists s, new_game 2 2 [5; 5; 0; 0; 1; 1] = Done s /\ square s /\ untouched s.
Proof.
  assert (H1 : validate_params (params.mk_params 5 5 2 2) true = None)
    by reflexivity.
  assert (H2 : validate_desc (params.mk_params 5 5 2 2) 12 [5; 5; 0; 0; 1; 1]
               = Done None) by (vm_compute; reflexivity).
  split; [exact H1|]. split; [exact H2|].
  destruct (new_game_validated (params.mk_params 5 5 2 2) [5; 5; 0; 0; 1; 1]
              H1 eq_refl ltac:(simpl; lia) H2)
    as (s & E & Hs & _ & _ & _ & _ & _ & Hu & _).
  exists s. auto.
Defined.

Lemma validate_desc_one_ball (p : game_params) (x y : Z) :
  params.minballs p <= 1 <= params.maxballs p ->
  0 <= x <= params.w p -> 0 <= y <= params.h p ->
  validate_desc p 8 [params.w p; params.h p; x; y] = Done None.
Proof.
  intros Hn Hx Hy.
  apply (validate_desc_accepts p [params.w p; params.h p; x; y]); [simpl; lia|].
  change ((Z.of_nat (length [params.w p; params.h p; x; y]) - 2) / 2) with 1.
  split; [reflexivity|]. split; [exact Hn|]. split; [reflexivity|].
  split; [reflexivity|].
  intros i Hi. assert (i = 0) as -> by lia. exists x, y. auto.
Qed.

(** X5.  [validate_desc] lets a coordinate equal to the dimension pass (its
    test is [x > w], not [x >= w]).  On a square board a description whose
    one ball has x = w is accepted, and [new_game] then returns a board that
    counts one ball and has none in its arena. *)
Theorem ball_outside_arena_accepted (p : game_params) (y : Z) :
  validate_params p true = None ->
  params.w p = params.h p ->
  params.minballs p <= 1 <= params.maxballs p ->
  0 <= y <= params.h p ->
  validate_desc p 8 [params.w p; params.h p; params.w p; y] = Done None /\
  exists s,
    new_game (params.minballs p) (params.maxballs p)
      [params.w p; params.h p; params.w p; y] = Done s /\
    nballs s = 1 /\
    forall c, in_arena s c = true -> true_ball s c = false.
Proof.
  intros Hp Hsq Hn Hy.
  pose proof Hp as Hp'. apply validate_params_None in Hp' as (Hw & Hh & _).
  assert (Hd : validate_desc p 8 [params.w p; params.h p; params.w p; y] = Done None)
    by (apply validate_desc_one_ball; lia).
  split; [exact Hd|].
  destruct (new_game_square p [params.w p; params.h p; params.w p; y]
              Hp Hsq ltac:(simpl; lia) Hd)
    as (s & E & Hs & _ & Hws & Hhs & Hnb & _ & _ & Hballs).
  exists s. split; [exact E|].
  change ((Z.of_nat (length [params.w p; params.h p; params.w p; y]) - 2) / 2)
    with 1 in Hnb.
  split; [exact Hnb|].
  intros c Hc. destruct (true_ball s c) eqn:Et; [|reflexivity].
  apply (Hballs c Hc) in Et as (i & Hi & Eb).
  rewrite Hnb in Hi. assert (i = 0) as -> by lia.
  injection Eb as Ex _. apply in_arena_spec in Hc. lia.
Qed.

Lemma ball_outside_arena_accepted_witness :
  validate_params (params.mk_params 5 5 1 3) true = None /\
  validate_desc (params.mk_params 5 5 1 3) 8 [5; 5; 5; 2] = Done None /\
  exists s, new_game 1 3 [5; 5; 5; 2] = Done s /\ nballs s = 1 /\
            forall c, in_arena s c = true -> true_ball s c = false.
Proof.
  assert (H1 : validate_params (params.mk_params 5 5 1 3) true = None)
    by reflexivity.
  destruct (ball_outside_arena_accepted (params.mk_params 5 5 1 3) 2 H1 eq_refl
              ltac:(simpl; lia) ltac:(simpl; lia)) as [H2 H3].
  split; [exact H1|]. split; [exact H2 | exact H3].
Defined.

(** X6.  On a board at least two rows higher than wide, a description with
    one ball in the bottom row of the arena is accepted by [validate_desc],
    and [new_game] writes that ball outside the grid block: [GRID] strides by
    [h+2] in a block of [(w+2)*(h+2)] words. *)
Theorem new_game_faults_on_tall_board (p : game_params) (x : Z) :
  validate_params p true = None ->
  params.w p + 2 <= params.h p ->
  params.minballs p <= 1 <= params.maxballs p ->
  0 <= x < params.w p ->
  validate_desc p 8 [params.w p; params.h p; x; params.h p - 1] = Done None /\
  new_game (params.minballs p) (params.maxballs p)
    [params.w p; params.h p; x; params.h p - 1] = Fault.
Proof.
  intros Hp Htall Hn Hx.
  apply validate_params_None in Hp as (Hw & Hh & _).
  split; [apply validate_desc_one_ball; lia|].
  unfold new_game. cbn [length].
  change (read [params.w p; params.h p; x; params.h p - 1] 0)
    with (Done (params.w p)).
  change (read [params.w p; params.h p; x; params.h p - 1] 1)
    with (Done (params.h p)).
  cbn [mbind outcome_bind]. unfold for_range.
  change (Z.to_nat ((Z.of_nat 4 - 2) / 2 - 0)) with 1%nat.
  cbn [for_loop].
  change (read [params.w p; params.h p; x; params.h p - 1] ((0 + 1) * 2 + 0))
    with (Done x).
  change (read [params.w p; params.h p; x; params.h p - 1] ((0 + 1) * 2 + 1))
    with (Done (params.h p - 1)).
  cbn [mbind outcome_bind]. unfold GRID_set, GRID_index, write.
  cbn [grid h]. rewrite length_replicate.
  rewrite Z2Nat.id by nia.
  destruct (Z.ltb_spec ((params.h p - 1 + 1) * (params.h p + 2) + (x + 1)) 0);
    [reflexivity|].
  destruct (Z.leb_spec ((params.w p + 2) * (params.h p + 2))
              ((params.h p - 1 + 1) * (params.h p + 2) + (x + 1)));
    [reflexivity|]. exfalso. nia.
Qed.

Lemma new_game_faults_on_tall_board_witness :
  validate_params (params.mk_params 2 5 1 1) true = None /\
  validate_desc (params.mk_params 2 5 1 1) 8 [2; 5; 0; 4] = Done None /\
  new_game 1 1 [2; 5; 0; 4] = Fault.
Proof.
  assert (H1 : validate_params (params.mk_params 2 5 1 1) true = None)
    by reflexivity.
  destruct (new_game_faults_on_tall_board (params.mk_params 2 5 1 1) 0 H1
              ltac:(simpl; lia) ltac:(simpl; lia) ltac:(simpl; lia)) as [H2 H3].
  split; [exact H1|]. split; [exact H2 | exact H3].
Defined.

(** ** Generated descriptions *)

(** A loop over a range seen through an invariant that knows the index. *)
Lemma run_range_invariant {St} (body : Z -> St -> outcome St)
      (Inv : Z -> St -> Prop) (len : nat) :
  forall (lo : Z) (s s' : St),
    (forall i t t', lo <= i < lo + Z.of_nat len -> Inv i t ->
       body i t = Done t' -> Inv (i + 1) t') ->
    Inv lo s ->
    run_list body (seqZ lo (Z.of_nat len)) s = Done s' ->
    Inv (lo + Z.of_nat len) s'.
Proof.
  induction len as [|len IH]; intros lo s s' Hstep Hs E.
  - simpl in E. injection E as <-. rewrite Z.add_0_r. exact Hs.
  - rewrite Nat2Z.inj_succ, seqZ_cons in E by lia. simpl in E.
    apply bind_Done in E as (t & Et & E).
    replace (Z.pred (Z.succ (Z.of_nat len))) with (Z.of_nat len) in E by lia.
    replace (lo + Z.of_nat (S len)) with (Z.succ lo + Z.of_nat len) by lia.
    apply (IH (Z.succ lo) t s'); [| |exact E].
    + intros i u u' Hi. apply Hstep. lia.
    + replace (Z.succ lo) with (lo + 1) by lia.
      apply (Hstep lo s t); [lia | exact Hs | exact Et].
Qed.

Section Generated.

Variable random_state : Type.
Variable random_upto : random_state -> Z -> Z * random_state.

(** The contract of [random_upto]: a number below the limit. *)
Hypothesis random_upto_below :
  forall rs limit, 0 < limit -> 0 <= (random_upto rs limit).1 < limit.

Lemma newball_Done (fuel : nat) (p : game_params) :
  0 < params.w p -> 0 < params.h p ->
  forall (rs rs' : random_state) (grid grid' : list Z) (x y : Z),
    newball random_state random_upto fuel p rs grid = Done (x, y, grid', rs') ->
    0 <= x < params.w p /\ 0 <= y < params.h p /\
    grid !! Z.to_nat (y * params.h p + x) = Some 0 /\
    grid' = <[Z.to_nat (y * params.h p + x) := 1]> grid.
Proof.
  intros Hw Hh. induction fuel as [|fuel IH]; intros rs rs' grid grid' x y E;
    [discriminate|].
  cbn [newball] in E.
  pose proof (random_upto_below rs (params.w p) Hw) as Hx.
  destruct (random_upto rs (params.w p)) as [x1 rs1]. cbn [fst] in Hx.
  pose proof (random_upto_below rs1 (params.h p) Hh) as Hy.
  destruct (random_upto rs1 (params.h p)) as [y1 rs2]. cbn [fst] in Hy.
  apply bind_Done in E as (v & Ev & E).
  destruct (Z.eqb_spec v 0) as [-> | Hv]; cbn [negb] in E.
  - apply bind_Done in E as (g & Eg & E). injection E as <- <- <- <-.
    apply read_Done in Ev as [_ Ev]. apply write_Done in Eg as [_ ->]. auto.
  - apply (IH _ _ _ _ _ _ E).
Qed.

Lemma new_game_desc_sound (fuel : nat) (p : game_params)
        (rs rs' : random_state) (bmp : list Z) :
  validate_params p true = None ->
  new_game_desc random_state random_upto fuel p rs = Done (bmp, rs') ->
  let nballs := (Z.of_nat (length bmp) - 2) / 2 in
  validate_desc p (2 * Z.of_nat (length bmp)) bmp = Done None /\
  (nballs = params.minballs p \/
   params.minballs p <= nballs < params.maxballs p) /\
  (forall i, 0 <= i < nballs ->
     exists x y, desc_ball bmp i = Some (x, y) /\
                 0 <= x < params.w p /\ 0 <= y < params.h p) /\
  forall i j, 0 <= i < j -> j < nballs -> desc_ball bmp i <> desc_ball bmp j.
Proof.
  intros Hp E. apply validate_params_None in Hp as (Hw & Hh & Hmm & _).
  unfold new_game_desc in E.
  set (pick := if params.minballs p <? params.maxballs p
               then let '(r, rs0) := random_upto rs (params.maxballs p - params.minballs p)
                    in (params.minballs p + r, rs0)
               else (params.minballs p, rs)) in E.
  assert (Hpick : pick.1 = params.minballs p \/
                  params.minballs p <= pick.1 < params.maxballs p).
  { unfold pick. destruct (Z.ltb_spec (params.minballs p) (params.maxballs p)).
    - pose proof (random_upto_below rs (params.maxballs p - params.minballs p)
                    ltac:(lia)) as Hr.
      destruct (random_upto rs _) as [r rs0]. simpl in *. right. lia.
    - left. reflexivity. }
  destruct pick as [nb rs0]. cbn [fst] in Hpick.
  apply bind_Done in E as (bmp1 & E1 & E). apply write_Done in E1 as [Hl1 ->].
  apply bind_Done in E as (bmp2 & E2 & E). apply write_Done in E2 as [Hl2 ->].
  rewrite length_insert, length_replicate in Hl2. rewrite length_replicate in Hl1.
  assert (Hnb : 0 <= nb) by lia.
  apply bind_Done in E as ([[g bmp3] rs3] & Eloop & E). injection E as <- <-.
  set (bmp0 := <[Z.to_nat 1 := to_uchar (params.h p)]>
                 (<[Z.to_nat 0 := to_uchar (params.w p)]>
                    (replicate (Z.to_nat (nb * 2 + 2)) 0))) in *.
  assert (Hlen0 : Z.of_nat (length bmp0) = nb * 2 + 2).
  { unfold bmp0. rewrite !length_insert, length_replicate. lia. }
  assert (Hw0 : bmp0 !! 0%nat = Some (params.w p)).
  { unfold bmp0. rewrite list_lookup_insert_ne by (simpl; lia).
    rewrite list_lookup_insert_eq by (rewrite length_replicate; lia).
    unfold to_uchar. rewrite Z.mod_small by lia. reflexivity. }
  assert (Hh0 : bmp0 !! 1%nat = Some (params.h p)).
  { unfold bmp0. change (Z.to_nat 1) with 1%nat.
    rewrite list_lookup_insert_eq
      by (rewrite length_insert, length_replicate; lia).
    unfold to_uchar. rewrite Z.mod_small by lia. reflexivity. }
  replace nb with (0 + nb) in Eloop at 1 by lia.
  rewrite for_range_run_list in Eloop.
  rewrite <- (Z2Nat.id nb Hnb) in Eloop.
  apply (run_range_invariant _
    (fun i (st : list Z * list Z * random_state) =>
       Z.of_nat (length st.1.2) = nb * 2 + 2 /\
       st.1.2 !! 0%nat = Some (params.w p) /\
       st.1.2 !! 1%nat = Some (params.h p) /\
       (forall j, 0 <= j < i ->
          exists x y, desc_ball st.1.2 j = Some (x, y) /\
                      0 <= x < params.w p /\ 0 <= y < params.h p /\
                      st.1.1 !! Z.to_nat (y * params.h p + x) = Some 1) /\
       forall j1 j2, 0 <= j1 < j2 -> j2 < i ->
         desc_ball st.1.2 j1 <> desc_ball st.1.2 j2)
    (Z.to_nat nb) 0) in Eloop.
  2: { intros i [[g1 b1] r1] [[g2 b2] r2] Hi (Hlen & Ew & Eh & Hballs & Hdist) Ebody.
    cbn [fst snd] in *.
    apply bind_Done in Ebody as ([[[x y] g'] r'] & En & Ebody).
    apply newball_Done in En as (Hx & Hy & Hfree & ->); [|lia|lia].
    apply bind_Done in Ebody as (b' & Eb1 & Ebody).
    apply write_Done in Eb1 as [Hb1 ->].
    apply bind_Done in Ebody as (b'' & Eb2 & Ebody).
    apply write_Done in Eb2 as [Hb2 ->]. injection Ebody as <- <- <-.
    rewrite length_insert in Hb2.
    unfold to_uchar. rewrite !(Z.mod_small x), !(Z.mod_small y) by lia.
    assert (Hold : forall j, 0 <= j < i ->
              desc_ball (<[Z.to_nat ((i + 1) * 2 + 1) := y]>
                           (<[Z.to_nat ((i + 1) * 2 + 0) := x]> b1)) j
              = desc_ball b1 j).
    { intros j Hj. unfold desc_ball.
      rewrite !list_lookup_insert_ne by lia. reflexivity. }
    assert (Hnew : desc_ball (<[Z.to_nat ((i + 1) * 2 + 1) := y]>
                                (<[Z.to_nat ((i + 1) * 2 + 0) := x]> b1)) i
                   = Some (x, y)).
    { unfold desc_ball.
      rewrite (list_lookup_insert_ne _ (Z.to_nat ((i + 1) * 2 + 1))
                 (Z.to_nat ((i + 1) * 2 + 0))) by lia.
      rewrite !list_lookup_insert_eq by (rewrite ?length_insert; lia).
      reflexivity. }
    rewrite !length_insert. split; [exact Hlen|].
    split; [rewrite !list_lookup_insert_ne by lia; exact Ew|].
    split; [rewrite !list_lookup_insert_ne by lia; exact Eh|].
    split.
    - intros j Hj. destruct (decide (j = i)) as [-> | Hne].
      + exists x, y. split; [exact Hnew|]. split; [exact Hx|]. split; [exact Hy|].
        apply list_lookup_insert_eq. apply lookup_lt_Some in Hfree. exact Hfree.
      + destruct (Hballs j) as (x' & y' & Eb & Hx' & Hy' & Hg); [lia|].
        exists x', y'. rewrite Hold by lia. split; [exact Eb|].
        split; [exact Hx'|]. split; [exact Hy'|].
        rewrite list_lookup_insert_ne; [exact Hg|].
        intros Heq. rewrite Heq in Hfree. congruence.
    - intros j1 j2 Hj1 Hj2. destruct (decide (j2 = i)) as [-> | Hne].
      + rewrite Hold, Hnew by lia.
        destruct (Hballs j1) as (x' & y' & Eb & _ & _ & Hg); [lia|].
        rewrite Eb. intros Heq. injection Heq as -> ->. congruence.
      + rewrite !Hold by lia. apply Hdist; lia. }
  2: { cbn [fst snd]. split; [exact Hlen0|]. split; [exact Hw0|].
       split; [exact Hh0|]. split; intros; lia. }
  rewrite Z2Nat.id in Eloop by exact Hnb. cbn [fst snd] in Eloop.
  destruct Eloop as (Hlen & Ew & Eh & Hballs & Hdist).
  intros nballs.
  assert (Hnballs : nballs = nb).
  { unfold nballs. rewrite Hlen. replace (nb * 2 + 2 - 2) with (nb * 2) by lia.
    apply Z.div_mul. lia. }
  rewrite Hnballs. simpl (0 + nb) in Hballs, Hdist.
  split; [|split; [exact Hpick|split]].
  - apply validate_desc_accepts; [lia|]. cbv zeta. fold nballs. rewrite Hnballs.
    split; [exact Hlen|]. split; [lia|]. split; [exact Ew|]. split; [exact Eh|].
    intros i Hi. destruct (Hballs i Hi) as (x & y & Eb & Hx & Hy & _).
    exists x, y. split; [exact Eb | lia].
  - intros i Hi. destruct (Hballs i Hi) as (x & y & Eb & Hx & Hy & _).
    exists x, y. auto.
  - intros i j Hi Hj. apply Hdist; lia.
Qed.

End Generated.

(** X7.  Whatever [new_game_desc] returns for parameters that
    [validate_params] accepts, with a [random_upto] that keeps below its
    limit, [validate_desc] accepts for the same parameters: the bitmap has
    the dimensions in its header and one coordinate pair per ball, every
    pair names a cell of the arena, no two pairs name the same cell, and the
    number of balls is [minballs] or lies from [minballs] up to, but never
    at, [maxballs].  With a generator that counts up, the 5 by 5 board with
    3 to 6 balls gets four balls within five attempts each. *)
Theorem new_game_desc_validates :
  (forall (random_state : Type)
          (random_upto : random_state -> Z -> Z * random_state),
     (forall rs limit, 0 < limit -> 0 <= (random_upto rs limit).1 < limit) ->
     forall (fuel : nat) (p : game_params) (rs rs' : random_state)
            (bmp : list Z),
       validate_params p true = None ->
       new_game_desc random_state random_upto fuel p rs = Done (bmp, rs') ->
       let nballs := (Z.of_nat (length bmp) - 2) / 2 in
       validate_desc p (2 * Z.of_nat (length bmp)) bmp = Done None /\
       (nballs = params.minballs p \/
        params.minballs p <= nballs < params.maxballs p) /\
       (forall i, 0 <= i < nballs ->
          exists x y, desc_ball bmp i = Some (x, y) /\
                      0 <= x < params.w p /\ 0 <= y < params.h p) /\
       forall i j, 0 <= i < j -> j < nballs ->
                   desc_ball bmp i <> desc_ball bmp j) /\
  new_game_desc nat counting_upto 5 (params.mk_params 5 5 3 6) 7%nat
    = Done ([5; 5; 3; 4; 0; 1; 2; 3; 4; 0], 16%nat).
Proof.
  split; [|vm_compute; reflexivity].
  intros random_state random_upto Hbelow fuel p rs rs' bmp.
  exact (new_game_desc_sound random_state random_upto Hbelow fuel p rs rs' bmp).
Qed.

Lemma new_game_desc_validates_witness :
  validate_params (params.mk_params 5 5 3 6) true = None /\
  new_game_desc nat counting_upto 5 (params.mk_params 5 5 3 6) 7%nat
    = Done ([5; 5; 3; 4; 0; 1; 2; 3; 4; 0], 16%nat) /\
  validate_desc (params.mk_params 5 5 3 6) 20 [5; 5; 3; 4; 0; 1; 2; 3; 4; 0]
    = Done None.
Proof.
  assert (H1 : validate_params (params.mk_params 5 5 3 6) true = None)
    by reflexivity.
  assert (H2 : new_game_desc nat counting_upto 5 (params.mk_params 5 5 3 6) 7%nat
               = Done ([5; 5; 3; 4; 0; 1; 2; 3; 4; 0], 16%nat))
    by (vm_compute; reflexivity).
  split; [exact H1|]. split; [exact H2|].
  refine (proj1 (proj1 new_game_desc_validates nat counting_upto _ 5%nat
                   (params.mk_params 5 5 3 6) 7%nat 16%nat _ H1 H2)).
  intros rs limit Hl. unfold counting_upto. cbn [fst].
  apply Z.mod_pos_bound. exact Hl.
Defined.

(** ** Lock moves *)

Lemma run_list_fmap {A B St} (f : A -> B) (body : B -> St -> outcome St)
      (l : list A) (s : St) :
  run_list (fun a t => body (f a) t) l s = run_list body (f <$> l) s.
Proof.
  revert s. induction l as [|a l IH]; intros s; [reflexivity|].
  simpl. destruct (body (f a) s); simpl; auto.
Qed.

Lemma COUNTLOCK_in_bounds (s : game_state) (x y n : Z) :
  0 <= GRID_index s x y < Z.of_nat (length (grid s)) ->
  COUNTLOCK s x y n = Done (if locked s (x, y) then n + 1 else n).
Proof.
  intros Hb. unfold COUNTLOCK. rewrite (GRID_in_bounds s x y Hb). reflexivity.
Qed.

Lemma countlock_run (s : game_state) (l : list (Z * Z)) :
  forall n0,
    (forall c, c ∈ l -> 0 <= GRID_index s c.1 c.2 < Z.of_nat (length (grid s))) ->
    run_list (fun c lc => COUNTLOCK s c.1 c.2 lc) l n0
    = Done (n0 + count_cells (locked s) l).
Proof.
  induction l as [|c l IH]; intros n0 Hb.
  - simpl. f_equal. unfold count_cells. simpl. lia.
  - cbn [run_list].
    rewrite (COUNTLOCK_in_bounds s c.1 c.2) by (apply Hb; left).
    cbn [mbind outcome_bind].
    rewrite IH by (intros c' Hc'; apply Hb; right; exact Hc').
    rewrite count_cells_cons, <- surjective_pairing.
    destruct (locked s c); f_equal; lia.
Qed.

(** The second loop of a line lock: every cell of the line gets its lock
    flag cleared, when [q < n], or set; nothing else changes. *)
Lemma setlock_run (dim : game_state -> Z) (n : Z) (l : list (Z * Z)) :
  (forall s g, dim (with_grid s g) = dim s) ->
  forall s,
    (forall c, c ∈ l -> 0 <= GRID_index s c.1 c.2 < Z.of_nat (length (grid s))) ->
    NoDup ((fun c => GRID_index s c.1 c.2) <$> l) ->
    exists g,
      run_list (fun c r => SETLOCKIF (Z.quot (dim r) 2) n c.1 c.2 r) l s
        = Done (with_grid s g) /\
      length g = length (grid s) /\
      (forall c, GRID_index s c.1 c.2 ∉ (fun c => GRID_index s c.1 c.2) <$> l ->
         cell_value (with_grid s g) c = cell_value s c) /\
      (forall c, c ∈ l ->
         cell_value (with_grid s g) c
         = if Z.quot (dim s) 2 <? n
           then Z.land (cell_value s c) (unot BALL_LOCK)
           else Z.lor (cell_value s c) BALL_LOCK).
Proof.
  intros Hdim. induction l as [|a l IH]; intros s Hb Hnd.
  - exists (grid s). simpl. rewrite with_grid_id.
    split; [reflexivity|]. split; [reflexivity|]. split; [reflexivity|].
    intros c Hc. inversion Hc.
  - rewrite fmap_cons in Hnd. apply NoDup_cons in Hnd as [Hnot Hnd].
    assert (Hba : 0 <= GRID_index s a.1 a.2 < Z.of_nat (length (grid s)))
      by (apply Hb; left).
    set (F := fun v : Z => if Z.quot (dim s) 2 <? n
                           then Z.land v (unot BALL_LOCK) else Z.lor v BALL_LOCK).
    set (s1 := with_grid s (<[Z.to_nat (GRID_index s a.1 a.2)
                              := F (cell_value s a)]> (grid s))).
    assert (E1 : SETLOCKIF (Z.quot (dim s) 2) n a.1 a.2 s = Done s1).
    { unfold SETLOCKIF, s1, F. rewrite (surjective_pairing a) at 3 6.
      destruct (Z.quot (dim s) 2 <? n);
        apply GRID_update_in_bounds; exact Hba. }
    assert (Hv1 : forall c, cell_value s1 c
                  = if GRID_index s c.1 c.2 =? GRID_index s a.1 a.2
                    then F (cell_value s a) else cell_value s c).
    { intros c. unfold s1. apply cell_value_insert. exact Hba. }
    destruct (IH s1) as (g & Erun & Hg & Hout & Hin).
    { intros c Hc. change (GRID_index s1) with (GRID_index s).
      unfold s1. cbn [grid with_grid]. rewrite length_insert.
      apply Hb. right. exact Hc. }
    { exact Hnd. }
    exists g. change (with_grid s1 g) with (with_grid s g) in *.
    change (GRID_index s1) with (GRID_index s) in *.
    split; [cbn [run_list]; rewrite E1; exact Erun|].
    split; [rewrite Hg; unfold s1; cbn [grid with_grid]; apply length_insert|].
    split.
    + intros c Hc. rewrite fmap_cons in Hc. apply not_elem_of_cons in Hc as [Hne Hc].
      rewrite (Hout c Hc), Hv1.
      destruct (Z.eqb_spec (GRID_index s c.1 c.2) (GRID_index s a.1 a.2));
        [contradiction | reflexivity].
    + intros c Hc. apply elem_of_cons in Hc as [-> | Hc].
      * rewrite (Hout a Hnot), Hv1, Z.eqb_refl. reflexivity.
      * rewrite (Hin c Hc). unfold s1. rewrite Hdim. fold F.
        rewrite Hv1.
        destruct (Z.eqb_spec (GRID_index s c.1 c.2) (GRID_index s a.1 a.2)) as [E|];
          [|reflexivity].
        exfalso. apply Hnot. rewrite <- E.
        apply (list_elem_of_fmap_2 (fun c => GRID_index s c.1 c.2)). exact Hc.
Qed.

Lemma setlock_flags (v : Z) (clear : bool) :
  let v' := if clear then Z.land v (unot BALL_LOCK) else Z.lor v BALL_LOCK in
  flag_set v' BALL_GUESS = flag_set v BALL_GUESS /\
  flag_set v' BALL_CORRECT = flag_set v BALL_CORRECT /\
  flag_set v' BALL_LOCK = negb clear.
Proof.
  destruct clear; cbv zeta; repeat split; flag_bits; reflexivity.
Qed.

(** What a line lock does to a square board, for a line given by its cells. *)
Lemma line_lock (s : game_state) (dim : game_state -> Z) (l : list (Z * Z)) :
  square s ->
  (forall s g, dim (with_grid s g) = dim s) ->
  (forall c, c ∈ l -> in_arena s c = true) -> NoDup l ->
  exists s',
    (lcount ← run_list (fun c lc => COUNTLOCK s c.1 c.2 lc) l 0;
     run_list (fun c r => SETLOCKIF (Z.quot (dim r) 2) lcount c.1 c.2 r) l s)
      = Done s' /\
    same_shape s s' /\
    nguesses s' = nguesses s /\ exits s' = exits s /\ reveal s' = reveal s /\
    laserno s' = laserno s /\
    forall c, in_arena s c = true ->
      guessed s' c = guessed s c /\ true_ball s' c = true_ball s c /\
      locked s' c = if bool_decide (c ∈ l)
                    then count_cells (locked s) l <=? Z.quot (dim s) 2
                    else locked s c.
Proof.
  intros Hs Hdim Hl Hnd.
  assert (Hb : forall c, in_arena s c = true ->
            0 <= GRID_index s c.1 c.2 < Z.of_nat (length (grid s))).
  { intros c Hc. apply in_arena_spec in Hc.
    apply square_in_bounds; [exact Hs | lia | lia]. }
  assert (Hinj : forall c c', in_arena s c = true -> in_arena s c' = true ->
            GRID_index s c.1 c.2 = GRID_index s c'.1 c'.2 -> c = c').
  { intros [x y] [x' y'] Hc Hc' E. apply in_arena_spec in Hc, Hc'.
    cbn [fst snd] in *.
    apply (square_index_inj s x y x' y' Hs) in E as [-> ->]; [reflexivity|lia|lia]. }
  rewrite countlock_run by (intros c Hc; apply Hb, Hl, Hc).
  cbn [mbind outcome_bind]. rewrite Z.add_0_l.
  destruct (setlock_run dim (count_cells (locked s) l) l Hdim s)
    as (g & Erun & Hg & Hout & Hin).
  { intros c Hc. apply Hb, Hl, Hc. }
  { apply NoDup_fmap_2_strong; [|exact Hnd].
    intros c c' Hc Hc'. apply Hinj; apply Hl; assumption. }
  exists (with_grid s g). split; [exact Erun|].
  split; [repeat split; exact Hg|].
  do 4 (split; [reflexivity|]).
  intros c Hc. unfold guessed, true_ball, locked.
  destruct (bool_decide_reflect (c ∈ l)) as [Hcl | Hcl].
  - rewrite (Hin c Hcl).
    destruct (setlock_flags (cell_value s c)
                (Z.quot (dim s) 2 <? count_cells (locked s) l)) as (-> & -> & ->).
    split; [reflexivity|]. split; [reflexivity|].
    rewrite Z.leb_antisym. reflexivity.
  - rewrite Hout; [auto|].
    intros Hidx. apply list_elem_of_fmap in Hidx as (c' & E & Hc').
    apply Hcl. rewrite (Hinj c c' Hc (Hl c' Hc') E). exact Hc'.
Qed.

Lemma column_cells_spec (s : game_state) (x : Z) (c : Z * Z) :
  1 <= x <= w s ->
  (c ∈ column_cells s x <-> in_arena s c = true /\ c.1 = x).
Proof.
  intros Hx. unfold column_cells. rewrite list_elem_of_fmap. split.
  - intros (y & -> & Hy). apply elem_of_seqZ in Hy.
    split; [apply in_arena_spec; simpl; lia | reflexivity].
  - intros [Hc <-]. apply in_arena_spec in Hc. exists c.2.
    split; [apply surjective_pairing | apply elem_of_seqZ; lia].
Qed.

Lemma row_cells_spec (s : game_state) (y : Z) (c : Z * Z) :
  1 <= y <= h s ->
  (c ∈ row_cells s y <-> in_arena s c = true /\ c.2 = y).
Proof.
  intros Hy. unfold row_cells. rewrite list_elem_of_fmap. split.
  - intros (x & -> & Hx). apply elem_of_seqZ in Hx.
    split; [apply in_arena_spec; simpl; lia | reflexivity].
  - intros [Hc <-]. apply in_arena_spec in Hc. exists c.1.
    split; [apply surjective_pairing | apply elem_of_seqZ; lia].
Qed.

Lemma column_lock_accepted (fuel : nat) (s : game_state) (move : string) (x : Z) :
  square s -> reveal s = 0 ->
  reads_as move (ToggleColumnLock x) -> 1 <= x <= w s ->
  exists s',
    apply_move fuel s (dup_game s) move = Done (Some s') /\
    same_shape s s' /\ nguesses s' = nguesses s /\ exits s' = exits s /\
    forall c, in_arena s c = true ->
      guessed s' c = guessed s c /\ true_ball s' c = true_ball s c /\
      locked s' c = if c.1 =? x
                    then count_cells (locked s) (column_cells s x) <=? h s / 2
                    else locked s c.
Proof.
  intros Hs Hrev Hread Hx.
  pose proof (reads_as_not_solve move _ Hread) as Hnot.
  destruct Hread as (p & Hp & Hscan).
  pose proof Hs as ((Hw0 & Hh0 & _) & _).
  destruct (line_lock s h (column_cells s x) Hs (fun _ _ => eq_refl))
    as (s' & E & Hsh & Hn & He & _ & _ & Hcells).
  { intros c Hc. apply (column_cells_spec s x c Hx) in Hc as [Hc _]. exact Hc. }
  { apply NoDup_fmap_2; [intros y y' Eq; congruence | apply NoDup_seqZ]. }
  exists s'. split.
  { unfold apply_move, dup_game. rewrite Hnot, Hrev, Hp. simpl negb. cbv iota.
    unfold lock_move. rewrite Hscan. cbn [mbind outcome_bind].
    destruct (Z.ltb_spec x 1); [lia|]. destruct (Z.ltb_spec (w s) x); [lia|].
    cbn [orb]. replace (h s + 1) with (1 + h s) by lia.
    rewrite for_range_run_list.
    rewrite (run_list_fmap (fun y => (x, y))
               (fun c lc => COUNTLOCK s c.1 c.2 lc)).
    fold (column_cells s x).
    unfold column_cells in E |- *.
    destruct (run_list _ ((fun y => (x, y)) <$> seqZ 1 (h s)) 0) as [lc| |];
      try discriminate.
    cbn [mbind outcome_bind] in E |- *. rewrite for_range_run_list.
    rewrite (run_list_fmap (fun y => (x, y))
               (fun c r => SETLOCKIF (Z.quot (h r) 2) lc c.1 c.2 r)).
    rewrite E. reflexivity. }
  split; [exact Hsh|]. split; [exact Hn|]. split; [exact He|].
  intros c Hc. destruct (Hcells c Hc) as (Hg & Ht & Hl).
  split; [exact Hg|]. split; [exact Ht|]. rewrite Hl.
  rewrite Z.quot_div_nonneg by lia.
  destruct (bool_decide_reflect (c ∈ column_cells s x)) as [Hin | Hout];
    destruct (Z.eqb_spec c.1 x) as [Ex | Ex]; try reflexivity.
  - apply (column_cells_spec s x c Hx) in Hin as [_ Hin]. contradiction.
  - exfalso. apply Hout, (column_cells_spec s x c Hx). auto.
Qed.

(** X8.  A column lock on a square board in the guessing phase is accepted.
    It counts the locked cells of the column: when more than half the height
    are locked it unlocks the whole column, otherwise it locks the whole
    column.  No guess, no true ball, no other column, the number of guesses
    and the exit table are touched. *)
Theorem column_lock_move (fuel : nat) (s : game_state) (move : string) (x : Z) :
  square s -> reveal s = 0 ->
  reads_as move (ToggleColumnLock x) -> 1 <= x <= w s ->
  exists s',
    apply_move fuel s (dup_game s) move = Done (Some s') /\
    same_shape s s' /\ nguesses s' = nguesses s /\ exits s' = exits s /\
    forall c, in_arena s c = true ->
      guessed s' c = guessed s c /\ true_ball s' c = true_ball s c /\
      locked s' c = if c.1 =? x
                    then count_cells (locked s) (column_cells s x) <=? h s / 2
                    else locked s c.
Proof. exact (column_lock_accepted fuel s move x). Qed.

Lemma column_lock_move_witness :
  square square_board_locked /\ reveal square_board_locked = 0 /\
  reads_as "LC1" (ToggleColumnLock 1) /\
  exists s',
    apply_move 0 square_board_locked (dup_game square_board_locked) "LC1"
      = Done (Some s') /\
    locked s' (1, 3) = true.
Proof.
  assert (H1 : square square_board_locked)
    by (unfold square, wf_state, valid_dims; simpl; lia).
  assert (H2 : reads_as "LC1" (ToggleColumnLock 1))
    by (exists ["1"%char]; split; vm_compute; reflexivity).
  split; [exact H1|]. split; [reflexivity|]. split; [exact H2|].
  destruct (column_lock_move 0 square_board_locked "LC1" 1 H1 eq_refl H2
              ltac:(simpl; lia)) as (s' & E & _ & _ & _ & Hc).
  exists s'. split; [exact E|].
  destruct (Hc (1, 3) eq_refl) as (_ & _ & ->). reflexivity.
Defined.

Lemma row_lock_accepted (fuel : nat) (s : game_state) (move : string) (y : Z) :
  square s -> reveal s = 0 ->
  reads_as move (ToggleRowLock y) -> 1 <= y <= h s ->
  exists s',
    apply_move fuel s (dup_game s) move = Done (Some s') /\
    same_shape s s' /\ nguesses s' = nguesses s /\ exits s' = exits s /\
    forall c, in_arena s c = true ->
      guessed s' c = guessed s c /\ true_ball s' c = true_ball s c /\
      locked s' c = if c.2 =? y
                    then count_cells (locked s) (row_cells s y) <=? w s / 2
                    else locked s c.
Proof.
  intros Hs Hrev Hread Hy.
  pose proof (reads_as_not_solve move _ Hread) as Hnot.
  destruct Hread as (p & Hp & Hscan).
  pose proof Hs as ((Hw0 & Hh0 & _) & _).
  destruct (line_lock s w (row_cells s y) Hs (fun _ _ => eq_refl))
    as (s' & E & Hsh & Hn & He & _ & _ & Hcells).
  { intros c Hc. apply (row_cells_spec s y c Hy) in Hc as [Hc _]. exact Hc. }
  { apply NoDup_fmap_2; [intros x x' Eq; congruence | apply NoDup_seqZ]. }
  exists s'. split.
  { unfold apply_move, dup_game. rewrite Hnot, Hrev, Hp. simpl negb. cbv iota.
    unfold lock_move. rewrite Hscan. cbn [mbind outcome_bind].
    destruct (Z.ltb_spec y 1); [lia|]. destruct (Z.ltb_spec (h s) y); [lia|].
    cbn [orb]. replace (w s + 1) with (1 + w s) by lia.
    rewrite for_range_run_list.
    rewrite (run_list_fmap (fun x => (x, y))
               (fun c lc => COUNTLOCK s c.1 c.2 lc)).
    unfold row_cells in E |- *.
    destruct (run_list _ ((fun x => (x, y)) <$> seqZ 1 (w s)) 0) as [lc| |];
      try discriminate.
    cbn [mbind outcome_bind] in E |- *. rewrite for_range_run_list.
    rewrite (run_list_fmap (fun x => (x, y))
               (fun c r => SETLOCKIF (Z.quot (w r) 2) lc c.1 c.2 r)).
    rewrite E. reflexivity. }
  split; [exact Hsh|]. split; [exact Hn|]. split; [exact He|].
  intros c Hc. destruct (Hcells c Hc) as (Hg & Ht & Hl).
  split; [exact Hg|]. split; [exact Ht|]. rewrite Hl.
  rewrite Z.quot_div_nonneg by lia.
  destruct (bool_decide_reflect (c ∈ row_cells s y)) as [Hin | Hout];
    destruct (Z.eqb_spec c.2 y) as [Ey | Ey]; try reflexivity.
  - apply (row_cells_spec s y c Hy) in Hin as [_ Hin]. contradiction.
  - exfalso. apply Hout, (row_cells_spec s y c Hy). auto.
Qed.

(** X9.  A row lock on a square board in the guessing phase is accepted.  It
    counts the locked cells of the row: when more than half the width are
    locked it unlocks the whole row, otherwise it locks the whole row.  No
    guess, no true ball, no other row, the number of guesses and the exit
    table are touched. *)
Theorem row_lock_move (fuel : nat) (s : game_state) (move : string) (y : Z) :
  square s -> reveal s = 0 ->
  reads_as move (ToggleRowLock y) -> 1 <= y <= h s ->
  exists s',
    apply_move fuel s (dup_game s) move = Done (Some s') /\
    same_shape s s' /\ nguesses s' = nguesses s /\ exits s' = exits s /\
    forall c, in_arena s c = true ->
      guessed s' c = guessed s c /\ true_ball s' c = true_ball s c /\
      locked s' c = if c.2 =? y
                    then count_cells (locked s) (row_cells s y) <=? w s / 2
                    else locked s c.
Proof. exact (row_lock_accepted fuel s move y). Qed.

Lemma row_lock_move_witness :
  square square_board_locked /\ reveal square_board_locked = 0 /\
  reads_as "LR1" (ToggleRowLock 1) /\
  exists s',
    apply_move 0 square_board_locked (dup_game square_board_locked) "LR1"
      = Done (Some s') /\
    locked s' (4, 1) = true.
Proof.
  assert (H1 : square square_board_locked)
    by (unfold square, wf_state, valid_dims; simpl; lia).
  assert (H2 : reads_as "LR1" (ToggleRowLock 1))
    by (exists ["1"%char]; split; vm_compute; reflexivity).
  split; [exact H1|]. split; [reflexivity|]. split; [exact H2|].
  destruct (row_lock_move 0 square_board_locked "LR1" 1 H1 eq_refl H2
              ltac:(simpl; lia)) as (s' & E & _ & _ & _ & Hc).
  exists s'. split; [exact E|].
  destruct (Hc (4, 1) eq_refl) as (_ & _ & ->). reflexivity.
Defined.

(** ** Toggling twice *)

Lemma unot_guess_bits (n : Z) :
  0 <= n -> Z.testbit (unot BALL_GUESS) n = negb (n =? 1) && (n <? 32).
Proof.
  intros Hn.
  change (unot BALL_GUESS) with (Z.lor (Z.shiftl (Z.ones 30) 2) 1).
  rewrite Z.lor_spec, Z.shiftl_spec by exact Hn.
  change 1 with (2 ^ 0) at 1. rewrite Z.pow2_bits_eqb by lia.
  destruct (Z.leb_spec 2 n).
  - rewrite Z.testbit_ones_nonneg by lia.
    destruct (Z.ltb_spec (n - 2) 30), (Z.ltb_spec n 32), (Z.eqb_spec 0 n),
      (Z.eqb_spec n 1); try reflexivity; lia.
  - rewrite Z.testbit_neg_r by lia.
    destruct (Z.ltb_spec n 32), (Z.eqb_spec 0 n), (Z.eqb_spec n 1);
      try reflexivity; lia.
Qed.

Lemma set_clear_guess (v : Z) :
  0 <= v < UINT_MOD -> flag_set v BALL_GUESS = false ->
  Z.land (Z.lor v BALL_GUESS) (unot BALL_GUESS) = v.
Proof.
  intros Hv Hf. rewrite flag_guess in Hf. apply Z.bits_inj'. intros n Hn.
  rewrite Z.land_spec, Z.lor_spec, unot_guess_bits by exact Hn.
  change BALL_GUESS with (2 ^ 1). rewrite Z.pow2_bits_eqb by lia.
  destruct (Z.eqb_spec 1 n), (Z.eqb_spec n 1), (Z.ltb_spec n 32);
    try lia; subst; rewrite ?Hf; simpl;
    rewrite ?(word_high_bits v n Hv) by lia;
    rewrite ?andb_true_r, ?orb_false_r; reflexivity.
Qed.

Lemma clear_set_guess (v : Z) :
  0 <= v < UINT_MOD -> flag_set v BALL_GUESS = true ->
  Z.lor (Z.land v (unot BALL_GUESS)) BALL_GUESS = v.
Proof.
  intros Hv Hf. rewrite flag_guess in Hf. apply Z.bits_inj'. intros n Hn.
  rewrite Z.lor_spec, Z.land_spec, unot_guess_bits by exact Hn.
  change BALL_GUESS with (2 ^ 1). rewrite Z.pow2_bits_eqb by lia.
  destruct (Z.eqb_spec 1 n), (Z.eqb_spec n 1), (Z.ltb_spec n 32);
    try lia; subst; rewrite ?Hf; simpl;
    rewrite ?(word_high_bits v n Hv) by lia;
    rewrite ?andb_true_r, ?orb_false_r; reflexivity.
Qed.

Lemma xor_lock_twice (v : Z) : Z.lxor (Z.lxor v BALL_LOCK) BALL_LOCK = v.
Proof. rewrite Z.lxor_assoc, Z.lxor_nilpotent. apply Z.lxor_0_r. Qed.

Lemma insert_twice_back (g : list Z) (k : nat) (v u : Z) :
  g !! k = Some v -> <[k := v]> (<[k := u]> g) = g.
Proof.
  intros E. rewrite list_insert_insert_eq. apply list_insert_id. exact E.
Qed.

Lemma toggle_ball_twice (s : game_state) (x y : Z) :
  0 <= GRID_index s x y < Z.of_nat (length (grid s)) -> words_ok s ->
  exists s1, toggle_ball s x y = Done s1 /\ toggle_ball s1 x y = Done s.
Proof.
  intros Hb Hwords.
  pose proof (cell_value_lookup s x y Hb) as Hk.
  pose proof (cell_value_range s (x, y) Hwords) as Hv.
  set (v := cell_value s (x, y)) in *.
  set (k := Z.to_nat (GRID_index s x y)) in *.
  assert (Hsecond : forall n u,
    toggle_ball (with_grid (with_nguesses s n) (<[k := u]> (grid s))) x y
    = (if flag_set u BALL_GUESS
       then Done (with_grid (with_nguesses s (n - 1))
                    (<[k := Z.land u (unot BALL_GUESS)]> (<[k := u]> (grid s))))
       else Done (with_grid (with_nguesses s (n + 1))
                    (<[k := Z.lor u BALL_GUESS]> (<[k := u]> (grid s)))))).
  { intros n u. unfold toggle_ball.
    set (t := with_grid (with_nguesses s n) (<[k := u]> (grid s))).
    assert (Hbt : 0 <= GRID_index t x y < Z.of_nat (length (grid t)))
      by (unfold t; cbn [grid with_grid]; rewrite length_insert; exact Hb).
    assert (Hvt : cell_value t (x, y) = u).
    { pose proof (cell_value_insert (with_nguesses s n) (GRID_index s x y) u
                    (x, y) Hb) as Hins.
      change (grid (with_nguesses s n)) with (grid s) in Hins.
      change (GRID_index (with_nguesses s n)) with (GRID_index s) in Hins.
      cbn [fst snd] in Hins. rewrite Z.eqb_refl in Hins. exact Hins. }
    rewrite (GRID_in_bounds t x y Hbt), Hvt. cbn [mbind outcome_bind].
    destruct (flag_set u BALL_GUESS).
    - rewrite GRID_update_in_bounds
        by (cbn [grid with_grid with_nguesses]; exact Hbt).
      change (cell_value (with_nguesses t (nguesses t - 1)) (x, y))
        with (cell_value t (x, y)). rewrite Hvt. reflexivity.
    - rewrite GRID_update_in_bounds
        by (cbn [grid with_grid with_nguesses]; exact Hbt).
      change (cell_value (with_nguesses t (nguesses t + 1)) (x, y))
        with (cell_value t (x, y)). rewrite Hvt. reflexivity. }
  unfold toggle_ball at 1. rewrite (GRID_in_bounds s x y Hb).
  cbn [mbind outcome_bind]. fold v.
  destruct (flag_set v BALL_GUESS) eqn:Eg.
  - rewrite GRID_update_in_bounds by exact Hb.
    change (cell_value (with_nguesses s (nguesses s - 1)) (x, y)) with v.
    change (GRID_index (with_nguesses s (nguesses s - 1)) x y)
      with (GRID_index s x y). fold k.
    eexists. split; [reflexivity|].
    change (grid (with_nguesses s (nguesses s - 1))) with (grid s).
    rewrite Hsecond.
    assert (flag_set (Z.land v (unot BALL_GUESS)) BALL_GUESS = false) as ->
      by (flag_bits; reflexivity).
    rewrite (clear_set_guess v Hv Eg), (insert_twice_back _ _ _ _ Hk).
    replace (nguesses s - 1 + 1) with (nguesses s) by lia.
    destruct s; reflexivity.
  - rewrite GRID_update_in_bounds by exact Hb.
    change (cell_value (with_nguesses s (nguesses s + 1)) (x, y)) with v.
    change (GRID_index (with_nguesses s (nguesses s + 1)) x y)
      with (GRID_index s x y). fold k.
    eexists. split; [reflexivity|].
    change (grid (with_nguesses s (nguesses s + 1))) with (grid s).
    rewrite Hsecond.
    assert (flag_set (Z.lor v BALL_GUESS) BALL_GUESS = true) as ->
      by (flag_bits; reflexivity).
    rewrite (set_clear_guess v Hv Eg), (insert_twice_back _ _ _ _ Hk).
    replace (nguesses s + 1 - 1) with (nguesses s) by lia.
    destruct s; reflexivity.
Qed.

(** X10.  Guess toggles and cell-lock toggles undo themselves.  In the
    guessing phase, on a board whose grid holds [unsigned int] words, for an
    arena cell whose word lies inside the grid block (every arena cell of a
    square board is such a cell): the same ToggleBall move, or the same
    ToggleLock move, made twice in a row gives back exactly the state before
    the first, the number of guesses included. *)
Theorem toggle_twice_restores (fuel : nat) (s : game_state) (move : string)
        (x y : Z) :
  reveal s = 0 -> words_ok s ->
  1 <= x <= w s -> 1 <= y <= h s ->
  0 <= GRID_index s x y < Z.of_nat (length (grid s)) \/ square s ->
  reads_as move (ToggleBall x y) \/ reads_as move (ToggleLock x y) ->
  exists s1,
    apply_move fuel s (dup_game s) move = Done (Some s1) /\
    apply_move fuel s1 (dup_game s1) move = Done (Some s).
Proof.
  intros Hrev Hwords Hx Hy Hin Hreads.
  assert (Hb : 0 <= GRID_index s x y < Z.of_nat (length (grid s))).
  { destruct Hin as [Hb | Hs]; [exact Hb|].
    apply square_in_bounds; [exact Hs | lia | lia]. }
  clear Hin. destruct Hreads as [Hread | Hread];
    pose proof (reads_as_not_solve move _ Hread) as Hnot;
    destruct Hread as (p & Hp & Hscan).
  - destruct (toggle_ball_twice s x y Hb Hwords) as (s1 & E1 & E2).
    assert (Hs1 : reveal s1 = 0 /\ w s1 = w s /\ h s1 = h s).
    { unfold toggle_ball in E1. rewrite (GRID_in_bounds s x y Hb) in E1.
      cbn [mbind outcome_bind] in E1.
      destruct (flag_set _ BALL_GUESS);
        rewrite GRID_update_in_bounds in E1 by exact Hb;
        injection E1 as <-; auto. }
    destruct Hs1 as (Hrev1 & Hw1 & Hh1).
    exists s1. unfold apply_move, dup_game.
    rewrite Hnot, Hrev, Hrev1, Hp. simpl negb. cbv iota.
    rewrite Hscan. cbn [mbind outcome_bind]. rewrite Hw1, Hh1.
    destruct (Z.ltb_spec x 1), (Z.ltb_spec y 1), (Z.ltb_spec (w s) x),
      (Z.ltb_spec (h s) y); try lia.
    cbn [orb]. rewrite E1, E2. split; reflexivity.
  - pose proof (cell_value_lookup s x y Hb) as Hk.
    set (s1 := with_grid s (<[Z.to_nat (GRID_index s x y)
                              := Z.lxor (cell_value s (x, y)) BALL_LOCK]> (grid s))).
    assert (E1 : GRID_update s x y (fun v => Z.lxor v BALL_LOCK) = Done s1)
      by (apply GRID_update_in_bounds; exact Hb).
    assert (Hb1 : 0 <= GRID_index s1 x y < Z.of_nat (length (grid s1)))
      by (unfold s1; cbn [grid with_grid]; rewrite length_insert; exact Hb).
    assert (E2 : GRID_update s1 x y (fun v => Z.lxor v BALL_LOCK) = Done s).
    { rewrite (GRID_update_in_bounds s1 x y _ Hb1).
      assert (Hv1 : cell_value s1 (x, y) = Z.lxor (cell_value s (x, y)) BALL_LOCK).
      { unfold s1. rewrite (cell_value_insert s) by exact Hb.
        cbn [fst snd]. rewrite Z.eqb_refl. reflexivity. }
      rewrite Hv1, xor_lock_twice.
      unfold s1. cbn [grid with_grid].
      change (GRID_index (with_grid s _) x y) with (GRID_index s x y).
      rewrite (insert_twice_back _ _ _ _ Hk). destruct s; reflexivity. }
    exists s1. unfold apply_move, dup_game.
    change (reveal s1) with (reveal s).
    rewrite Hnot, Hrev, Hp. simpl negb. cbv iota.
    unfold lock_move. rewrite Hscan. cbn [mbind outcome_bind].
    change (w s1) with (w s). change (h s1) with (h s).
    destruct (Z.ltb_spec x 1), (Z.ltb_spec y 1), (Z.ltb_spec (w s) x),
      (Z.ltb_spec (h s) y); try lia.
    cbn [orb]. rewrite E1, E2. split; reflexivity.
Qed.

Lemma toggle_twice_restores_witness :
  reads_as "T2,3" (ToggleBall 2 3) /\
  exists s1,
    apply_move 0 square_board_guessed (dup_game square_board_guessed) "T2,3"
      = Done (Some s1) /\
    apply_move 0 s1 (dup_game s1) "T2,3" = Done (Some square_board_guessed).
Proof.
  assert (H : reads_as "T2,3" (ToggleBall 2 3))
    by (exists ["2"; ","; "3"]%char; split; vm_compute; reflexivity).
  split; [exact H|].
  apply (toggle_twice_restores 0 square_board_guessed "T2,3" 2 3).
  - reflexivity.
  - unfold words_ok. simpl. repeat constructor; unfold UINT_MOD; lia.
  - simpl. lia.
  - simpl. lia.
  - left. vm_compute. split; [discriminate | reflexivity].
  - left. exact H.
Defined.

(** ** Pixels and tiles *)

Lemma int_result_Done (z v : Z) :
  int_result z = Done v <-> v = z /\ INT_MIN <= z <= INT_MAX.
Proof.
  unfold int_result.
  destruct (Z.ltb_spec z INT_MIN), (Z.ltb_spec INT_MAX z); cbn [orb]; split;
    try discriminate; try lia.
  - intros E. injection E as <-. lia.
  - intros [-> _]. reflexivity.
Qed.

Lemma TODRAW_Done (ds : game_drawstate) (g o : Z) :
  TODRAW ds g = Done o <->
  o = drawstate.tilesize ds * g + Z.quot (drawstate.tilesize ds) 2 /\
  INT_MIN <= drawstate.tilesize ds * g <= INT_MAX /\
  INT_MIN <= o <= INT_MAX.
Proof.
  unfold TODRAW. split.
  - intros E. apply bind_Done in E as (p & Ep & E).
    apply int_result_Done in Ep as [-> Hp]. apply int_result_Done in E as [-> Ho].
    auto.
  - intros (-> & Hp & Ho).
    assert (int_result (drawstate.tilesize ds * g)
            = Done (drawstate.tilesize ds * g)) as ->
      by (apply int_result_Done; auto).
    cbn [mbind outcome_bind]. apply int_result_Done. auto.
Qed.

Lemma FROMDRAW_TODRAW (ds : game_drawstate) (g d o : Z) :
  0 < drawstate.tilesize ds -> 0 <= g -> 0 <= d < drawstate.tilesize ds ->
  TODRAW ds g = Done o ->
  FROMDRAW ds (o + d) = Done g.
Proof.
  intros Hts Hg Hd E. apply TODRAW_Done in E as (-> & _). unfold FROMDRAW.
  destruct (Z.eqb_spec (drawstate.tilesize ds) 0); [lia|]. f_equal.
  replace (drawstate.tilesize ds * g + Z.quot (drawstate.tilesize ds) 2 + d
           - Z.quot (drawstate.tilesize ds) 2)
    with (d + g * drawstate.tilesize ds) by lia.
  rewrite Z.quot_div_nonneg by nia.
  rewrite Z.div_add by lia. rewrite Z.div_small by lia. lia.
Qed.

(** X11.  Where the window that [game_compute_size] asks for fits an [int]
    (its products do not overflow), for a board of non-negative dimensions
    and a positive tile size: [game_set_size] stores the tile size without
    overflow, [TODRAW] gives the corner of the tile of every grid cell
    without overflow, every pixel of that tile lies inside the window, and
    [FROMDRAW] maps it back to the cell.  The pixels of the border above and
    to the left of the grid are mapped to row or column 0 as well, since the
    division of C rounds towards 0. *)
Theorem tile_pixels_map_back (ds : game_drawstate) (p : game_params)
        (tilesize wx wy : Z) :
  0 < tilesize -> 0 <= params.w p -> 0 <= params.h p ->
  game_compute_size p tilesize = Done (wx, wy) ->
  exists ds',
    game_set_size ds p tilesize = Done ds' /\
    drawstate.tilesize ds' = tilesize /\
    (forall gx gy dx dy,
       0 <= gx <= params.w p + 1 -> 0 <= gy <= params.h p + 1 ->
       0 <= dx < tilesize -> 0 <= dy < tilesize ->
       exists ox oy,
         TODRAW ds' gx = Done ox /\ TODRAW ds' gy = Done oy /\
         0 <= ox + dx < wx /\ 0 <= oy + dy < wy /\
         FROMDRAW ds' (ox + dx) = Done gx /\
         FROMDRAW ds' (oy + dy) = Done gy) /\
    exists o0,
      TODRAW ds' 0 = Done o0 /\
      forall x, 0 <= x < o0 -> FROMDRAW ds' x = Done 0.
Proof.
  intros Hts Hw Hh E.
  unfold game_compute_size in E.
  apply bind_Done in E as (a & Ea & E). apply int_result_Done in Ea as [-> Ha].
  apply bind_Done in E as (x & Ex & E). apply int_result_Done in Ex as [-> Hx].
  apply bind_Done in E as (b & Eb & E). apply int_result_Done in Eb as [-> Hb].
  apply bind_Done in E as (y & Ey & E). apply int_result_Done in Ey as [-> Hy].
  injection E as <- <-.
  assert (Hq : 0 <= Z.quot tilesize 2 < tilesize).
  { rewrite Z.quot_div_nonneg by lia. split; [apply Z.div_pos; lia|].
    apply Z.div_lt; lia. }
  assert (Hmax : tilesize <= INT_MAX /\ 3 * tilesize <= INT_MAX) by nia.
  set (ds' := drawstate.mk_drawstate tilesize (Z.quot (tilesize - 1) 2)
                (Z.quot (3 * tilesize) 8)
                (drawstate.w ds) (drawstate.h ds) (drawstate.grid ds)
                (drawstate.started ds) (drawstate.canreveal ds)
                (drawstate.reveal ds) (drawstate.flash_laserno ds)).
  assert (Hcorner : forall g bound,
            0 <= g <= bound + 1 -> 0 <= bound ->
            INT_MIN <= (bound + 3) * tilesize <= INT_MAX ->
            TODRAW ds' g = Done (tilesize * g + Z.quot tilesize 2) /\
            forall d, 0 <= d < tilesize ->
              0 <= tilesize * g + Z.quot tilesize 2 + d
              < (bound + 3) * tilesize).
  { intros g bound Hg Hbd Hfit. split.
    - apply TODRAW_Done. unfold ds'. cbn [drawstate.tilesize].
      unfold INT_MIN in *. split; [reflexivity|]. split; nia.
    - intros d Hd. nia. }
  exists ds'. split.
  { unfold game_set_size.
    assert (int_result (tilesize - 1) = Done (tilesize - 1)) as ->
      by (apply int_result_Done; unfold INT_MIN; split; [reflexivity | lia]).
    cbn [mbind outcome_bind].
    assert (int_result (3 * tilesize) = Done (3 * tilesize)) as ->
      by (apply int_result_Done; unfold INT_MIN; split; [reflexivity | lia]).
    reflexivity. }
  split; [reflexivity|]. split.
  - intros gx gy dx dy Hgx Hgy Hdx Hdy.
    destruct (Hcorner gx (params.w p) Hgx Hw Hx) as [Ex Hinx].
    destruct (Hcorner gy (params.h p) Hgy Hh Hy) as [Ey Hiny].
    exists (tilesize * gx + Z.quot tilesize 2),
           (tilesize * gy + Z.quot tilesize 2).
    split; [exact Ex|]. split; [exact Ey|].
    split; [apply Hinx, Hdx|]. split; [apply Hiny, Hdy|]. split.
    + apply FROMDRAW_TODRAW; [exact Hts | lia | exact Hdx | exact Ex].
    + apply FROMDRAW_TODRAW; [exact Hts | lia | exact Hdy | exact Ey].
  - destruct (Hcorner 0 (params.w p) ltac:(lia) Hw Hx) as [E0 _].
    exists (tilesize * 0 + Z.quot tilesize 2). split; [exact E0|].
    intros x Hx0. unfold FROMDRAW, ds'. cbn [drawstate.tilesize].
    destruct (Z.eqb_spec tilesize 0); [lia|]. f_equal.
    apply Z.quot_small_iff; [lia|]. lia.
Qed.

Lemma tile_pixels_map_back_witness :
  game_compute_size (params.mk_params 5 5 3 3) 32 = Done (256, 256) /\
  exists ds',
    game_set_size (drawstate.mk_drawstate 0 0 0 5 5 [] 0 0 0 0)
      (params.mk_params 5 5 3 3) 32 = Done ds' /\
    FROMDRAW ds' 100 = Done 2.
Proof.
  assert (H1 : game_compute_size (params.mk_params 5 5 3 3) 32
               = Done (256, 256)) by reflexivity.
  split; [exact H1|].
  destruct (tile_pixels_map_back (drawstate.mk_drawstate 0 0 0 5 5 [] 0 0 0 0)
              (params.mk_params 5 5 3 3) 32 256 256 ltac:(lia)
              ltac:(simpl; lia) ltac:(simpl; lia) H1)
    as (ds' & E & Hts & H & _).
  exists ds'. split; [exact E|].
  destruct (H 2 2 20 20 ltac:(simpl; lia) ltac:(simpl; lia) ltac:(lia) ltac:(lia))
    as (ox & oy & Ex & _ & _ & _ & Ef & _).
  apply TODRAW_Done in Ex as (-> & _). rewrite Hts in Ef. exact Ef.
Defined.

(** ** Move texts *)

Lemma sscanf_d_print (a a0 : Z) :
  int_range a -> sscanf_d (print_int a) a0 = Done a.
Proof.
  intros Ha. unfold sscanf_d.
  replace (print_int a) with (print_int a ++ []) by apply app_nil_r.
  rewrite (scan_int_print_int a [] Ha I). reflexivity.
Qed.

Lemma sscanf_d_d_print (a b a0 b0 : Z) :
  int_range a -> int_range b ->
  sscanf_d_d (print_int a ++ ","%char :: print_int b) a0 b0 = Done (a, b).
Proof.
  intros Ha Hb. unfold sscanf_d_d.
  rewrite (scan_int_print_int a _ Ha) by reflexivity.
  cbn [mbind outcome_bind].
  replace (print_int b) with (print_int b ++ []) by apply app_nil_r.
  rewrite (scan_int_print_int b [] Hb I). reflexivity.
Qed.

Lemma small_int_range (n bound : Z) :
  0 <= n <= bound -> bound <= 2000 -> int_range n.
Proof. unfold int_range, INT_MIN, INT_MAX. lia. Qed.

Lemma in_arena_not_range (s : game_state) (gx gy : Z) :
  in_arena s (gx, gy) = true -> grid2range s gx gy = None.
Proof.
  intros H. apply in_arena_spec in H. cbn [fst snd] in H.
  unfold grid2range.
  destruct (Z.ltb_spec 0 gx), (Z.ltb_spec gx (w s + 1)), (Z.ltb_spec 0 gy),
    (Z.ltb_spec gy (h s + 1)); try lia. reflexivity.
Qed.

Lemma origin_not_range (s : game_state) : grid2range s 0 0 = None.
Proof.
  unfold grid2range. cbn [Z.ltb Z.compare andb].
  destruct (false || (h s + 1 <? 0) || false || (h s + 1 <? 0)); reflexivity.
Qed.

(** The side of the range a cell with a range index lies on. *)
Lemma range_cell_sides (s : game_state) (gx gy i : Z) :
  square s -> grid2range s gx gy = Some i ->
  0 <= i < nlasers s /\ in_arena s (gx, gy) = false /\
  (((gy = 0 \/ gy = h s + 1) /\ 1 <= gx <= w s) \/
   ((gx = 0 \/ gx = w s + 1) /\ 1 <= gy <= h s)).
Proof.
  intros Hs E. pose proof Hs as ((Hw & Hh & _) & _ & Hsq).
  destruct (grid2range_Some s gx gy i Hs E) as (Hi & Hx & Hy & Ho & _).
  split; [exact Hi|]. split; [exact Ho|].
  unfold grid2range in E.
  destruct ((0 <? gx) && (gx <? w s + 1) && (0 <? gy) && (gy <? h s + 1)) eqn:E1;
    [discriminate|].
  destruct ((gx <? 0) || (h s + 1 <? gx) || (gy <? 0) || (h s + 1 <? gy));
    [discriminate|].
  destruct (((gx =? 0) || (gx =? w s + 1)) && ((gy =? 0) || (gy =? h s + 1)))
    eqn:E3; [discriminate|].
  destruct (Z.eqb_spec gx 0), (Z.eqb_spec gx (w s + 1)), (Z.eqb_spec gy 0),
    (Z.eqb_spec gy (h s + 1)); simpl in E3; try discriminate; try lia.
Qed.

Lemma reads_back (l : list ascii) :
  list_ascii_of_string (string_of_list_ascii l) = l.
Proof. apply list_ascii_of_string_of_list_ascii. Qed.

Ltac read_text :=
  eexists; cbn [string_of_list_ascii list_ascii_of_string];
  rewrite ?reads_back; split; [reflexivity|].

(** What [interpret_move] makes of a click when it returns a move text. *)
Lemma interpret_move_command (s : game_state) (ui ui' : game_ui)
      (ds : game_drawstate) (x y : Z) (b : button) (m : string) :
  square s ->
  interpret_move s ui ds x y b = Done (Some m, ui') ->
  m <> EmptyString ->
  reveal s = 0 /\
  exists c, reads_as m c /\ aims_at s ds x y b c /\ applicable s c.
Proof.
  intros Hs E Hm. pose proof Hs as ((Hw0 & Hh0 & _) & ([_ Hw] & [_ Hh]) & Hsq).
  unfold interpret_move in E.
  destruct b; try (injection E as <- _; contradiction); try discriminate.
  - (* left button *)
    apply bind_Done in E as (gx & Egx & E). apply bind_Done in E as (gy & Egy & E).
    cbn [is_left] in E. rewrite andb_true_r in E.
    destruct ((1 <=? gx) && (gx <=? w s) && (1 <=? gy) && (gy <=? h s)) eqn:Ea.
    + assert (Hin : in_arena s (gx, gy) = true) by exact Ea.
      pose proof Hin as Hc. apply in_arena_spec in Hc. cbn [fst snd] in Hc.
      apply bind_Done in E as (act & Eact & E).
      apply bind_Done in Eact as (v & Ev & Eact).
      rewrite (in_arena_not_range s gx gy Hin) in E.
      assert (Hv : cell_value s (gx, gy) = v)
        by (unfold cell_value; cbn [fst snd]; rewrite Ev; reflexivity).
      destruct ((gx =? 0) && (gy =? 0)) eqn:E0;
        [apply andb_true_iff in E0 as [E0 _]; apply Z.eqb_eq in E0; lia|].
      destruct (flag_set v BALL_LOCK) eqn:El; injection Eact as <-;
        [discriminate|].
      destruct (Z.eqb_spec (reveal s) 0) as [Hrev | Hrev]; [|discriminate].
      injection E as <- _. split; [exact Hrev|].
      exists (ToggleBall gx gy). split; [|split].
      * read_text.
        apply sscanf_d_d_print; apply (small_int_range _ 255); lia.
      * exists gx, gy. auto.
      * split; [exact Hin|]. unfold locked. rewrite Hv. exact El.
    + apply bind_Done in E as (act & Eact & E). injection Eact as <-.
      destruct (grid2range s gx gy) as [i|] eqn:Eg.
      * apply bind_Done in E as (e & Ee & E).
        destruct (Z.eqb_spec (reveal s) 0) as [Hrev | Hrev];
          [|destruct (Z.eqb_spec e LASER_EMPTY); cbn [negb andb] in E;
            [discriminate | injection E as <- _; contradiction]].
        cbn [negb andb] in E.
        destruct (Z.eqb_spec e LASER_EMPTY) as [-> | He]; cbn [negb] in E;
          [|injection E as <- _; contradiction].
        injection E as <- _. split; [exact Hrev|].
        destruct (range_cell_sides s gx gy i Hs Eg) as (Hi & _ & _).
        pose proof Hs as ((_ & _ & _ & Hn & _) & _).
        exists (Fire i). split; [|split].
        -- read_text.
           apply sscanf_d_print. apply (small_int_range _ 1020); lia.
        -- exists gx, gy. auto.
        -- split; [exact Hi | exact Ee].
      * destruct ((gx =? 0) && (gy =? 0)) eqn:E0; [|discriminate].
        apply andb_true_iff in E0 as [Ex0 Ey0]. apply Z.eqb_eq in Ex0, Ey0.
        destruct (Z.eqb_spec (drawstate.canreveal ds) 0) as [|Hcan];
          [discriminate|].
        destruct (Z.eqb_spec (reveal s) 0) as [Hrev | Hrev]; [|discriminate].
        injection E as <- _. split; [exact Hrev|].
        exists Reveal. split; [|split].
        -- exists []. reflexivity.
        -- exists gx, gy. repeat (split; [assumption || reflexivity|]). exact Hcan.
        -- exact I.
  - (* right button *)
    apply bind_Done in E as (gx & Egx & E). apply bind_Done in E as (gy & Egy & E).
    cbn [is_left] in E. rewrite andb_false_r in E.
    destruct ((1 <=? gx) && (gx <=? w s) && (1 <=? gy) && (gy <=? h s)) eqn:Ea.
    + assert (Hin : in_arena s (gx, gy) = true) by exact Ea.
      pose proof Hin as Hc. apply in_arena_spec in Hc. cbn [fst snd] in Hc.
      cbn [mbind outcome_bind mret outcome_ret] in E.
      rewrite (in_arena_not_range s gx gy Hin) in E.
      destruct (Z.eqb_spec (reveal s) 0) as [Hrev | Hrev]; [|discriminate].
      injection E as <- _. split; [exact Hrev|].
      exists (ToggleLock gx gy). split; [|split].
      * read_text.
        apply sscanf_d_d_print; apply (small_int_range _ 255); lia.
      * exists gx, gy. auto.
      * exact Hin.
    + cbn [mbind outcome_bind mret outcome_ret] in E.
      destruct (grid2range s gx gy) as [i|] eqn:Eg; [|discriminate].
      destruct (range_cell_sides s gx gy i Hs Eg) as (Hi & _ & Hside).
      destruct (Z.eqb_spec (reveal s) 0) as [Hrev | Hrev];
        [|destruct ((gy =? 0) || (h s <? gy)); discriminate].
      split; [exact Hrev|].
      destruct (Z.eqb_spec gy 0) as [Hy0 | Hy0];
        [|destruct (Z.ltb_spec (h s) gy) as [Hyh | Hyh]];
        cbn [orb] in E; injection E as <- _.
      * exists (ToggleColumnLock gx).
        assert (Hgx : 1 <= gx <= w s) by lia.
        split; [|split].
        -- read_text.
           apply sscanf_d_print. apply (small_int_range _ 255); lia.
        -- exists gx, gy. split; [exact Egx|]. split; [exact Egy|].
           split; [reflexivity|]. split; [reflexivity|]. lia.
        -- exact Hgx.
      * exists (ToggleColumnLock gx).
        assert (Hgx : 1 <= gx <= w s) by lia.
        split; [|split].
        -- read_text.
           apply sscanf_d_print. apply (small_int_range _ 255); lia.
        -- exists gx, gy. split; [exact Egx|]. split; [exact Egy|].
           split; [reflexivity|]. split; [reflexivity|]. lia.
        -- exact Hgx.
      * exists (ToggleRowLock gy).
        assert (Hgy : 1 <= gy <= h s) by lia.
        split; [|split].
        -- read_text.
           apply sscanf_d_print. apply (small_int_range _ 255); lia.
        -- exists gx, gy. split; [exact Egx|]. split; [exact Egy|].
           split; [reflexivity|]. split; [reflexivity|]. lia.
        -- exact Hgy.
Qed.

Lemma interpret_move_returns (s : game_state) (ui : game_ui)
      (ds : game_drawstate) (x y : Z) (b : button) :
  square s -> drawstate.tilesize ds <> 0 ->
  exists r ui', interpret_move s ui ds x y b = Done (r, ui').
Proof.
  intros Hs Hts. unfold interpret_move, FROMDRAW.
  destruct (Z.eqb_spec (drawstate.tilesize ds) 0); [contradiction|].
  set (gx := Z.quot (x - Z.quot (drawstate.tilesize ds) 2) (drawstate.tilesize ds)).
  set (gy := Z.quot (y - Z.quot (drawstate.tilesize ds) 2) (drawstate.tilesize ds)).
  assert (Hfire : forall i (ui0 : game_ui), grid2range s gx gy = Some i ->
            exists r ui',
              (e ← exits_get s i;
               if negb (reveal s =? 0) && (e =? LASER_EMPTY) then mret (None, ui0)
               else
                 if negb (e =? LASER_EMPTY)
                 then mret (Some EmptyString, mk_ui i)
                 else if negb (reveal s =? 0)
                      then mret (Some EmptyString, mk_ui i)
                      else mret (Some (string_of_list_ascii
                                         ("F"%char :: print_int i)), mk_ui i))
              = Done (r, ui')).
  { intros i ui0 Eg. destruct (range_cell_sides s gx gy i Hs Eg) as (Hi & _).
    destruct (exits_get_square s i Hs Hi) as [e ->]. cbn [mbind outcome_bind].
    destruct (negb (reveal s =? 0)), (e =? LASER_EMPTY); cbn [negb andb];
      eexists; eexists; reflexivity. }
  destruct b; try (eexists; eexists; reflexivity);
    cbn [mbind outcome_bind is_left].
  - destruct ((1 <=? gx) && (gx <=? w s) && (1 <=? gy) && (gy <=? h s)) eqn:Ea.
    + assert (Hin : in_arena s (gx, gy) = true) by exact Ea.
      pose proof Hin as Hc. apply in_arena_spec in Hc. cbn [fst snd] in Hc.
      rewrite (GRID_in_bounds s gx gy)
        by (apply square_in_bounds; [exact Hs | lia | lia]).
      cbn [mbind outcome_bind mret outcome_ret].
      rewrite (in_arena_not_range s gx gy Hin).
      destruct ((gx =? 0) && (gy =? 0) && true),
        (flag_set (cell_value s (gx, gy)) BALL_LOCK),
        (negb (reveal s =? 0)), (drawstate.canreveal ds =? 0);
        eexists; eexists; reflexivity.
    + cbn [mbind outcome_bind mret outcome_ret].
      destruct (grid2range s gx gy) as [i|] eqn:Eg; [apply (Hfire i ui eq_refl)|].
      destruct ((gx =? 0) && (gy =? 0) && true),
        (negb (reveal s =? 0)), (drawstate.canreveal ds =? 0);
        eexists; eexists; reflexivity.
  - destruct ((1 <=? gx) && (gx <=? w s) && (1 <=? gy) && (gy <=? h s));
      cbn [mbind outcome_bind mret outcome_ret];
      destruct (grid2range s gx gy) as [i|];
      destruct ((gx =? 0) && (gy =? 0) && false),
        ((gy =? 0) || (h s <? gy)), (negb (reveal s =? 0)),
        (drawstate.canreveal ds =? 0);
      eexists; eexists; reflexivity.
Qed.



(** ** Gates of the pointer input *)

(** X13.  [interpret_move] holds two gates, on any board.  Once [reveal] is
    set no click yields a move: the result is NULL or the empty string.  And
    a left click on a pixel that [FROMDRAW] maps to a locked arena cell
    yields NULL and leaves the [game_ui] alone; with a positive tile size
    these are in particular all the pixels of the tile that [TODRAW] places
    for the cell. *)
Theorem interpret_move_gates (s : game_state) (ui : game_ui)
        (ds : game_drawstate) :
  (forall x y b r ui',
     reveal s <> 0 ->
     interpret_move s ui ds x y b = Done (r, ui') ->
     r = None \/ r = Some EmptyString) /\
  (forall x y gx gy,
     FROMDRAW ds x = Done gx -> FROMDRAW ds y = Done gy ->
     in_arena s (gx, gy) = true -> locked s (gx, gy) = true ->
     interpret_move s ui ds x y LEFT_BUTTON = Done (None, ui)) /\
  (forall gx gy ox oy dx dy,
     0 < drawstate.tilesize ds ->
     TODRAW ds gx = Done ox -> TODRAW ds gy = Done oy ->
     in_arena s (gx, gy) = true -> locked s (gx, gy) = true ->
     0 <= dx < drawstate.tilesize ds -> 0 <= dy < drawstate.tilesize ds ->
     interpret_move s ui ds (ox + dx) (oy + dy) LEFT_BUTTON = Done (None, ui)).
Proof.
  assert (Hgate : forall x y gx gy,
            FROMDRAW ds x = Done gx -> FROMDRAW ds y = Done gy ->
            in_arena s (gx, gy) = true -> locked s (gx, gy) = true ->
            interpret_move s ui ds x y LEFT_BUTTON = Done (None, ui)).
  { intros x y gx gy Ex Ey Hin Hlock.
    pose proof Hin as Hc. apply in_arena_spec in Hc. cbn [fst snd] in Hc.
    unfold interpret_move. rewrite Ex, Ey. cbn [mbind outcome_bind is_left].
    change ((1 <=? gx) && (gx <=? w s) && (1 <=? gy) && (gy <=? h s))
      with (in_arena s (gx, gy)). rewrite Hin.
    assert (Hv : GRID s gx gy = Done (cell_value s (gx, gy))).
    { unfold locked, cell_value in *. cbn [fst snd] in *.
      destruct (GRID s gx gy) as [v| |]; [reflexivity | discriminate..]. }
    rewrite Hv. cbn [mbind outcome_bind mret outcome_ret].
    change (flag_set (cell_value s (gx, gy)) BALL_LOCK) with (locked s (gx, gy)).
    rewrite Hlock, (in_arena_not_range s gx gy Hin).
    destruct (Z.eqb_spec gx 0); [lia|]. reflexivity. }
  split.
  - intros x y b r ui' Hrev E. unfold interpret_move in E.
    destruct (Z.eqb_spec (reveal s) 0) as [|_]; [contradiction|].
    cbn [negb andb] in E.
    destruct b; try (injection E as <- _; auto; fail).
    + apply bind_Done in E as (gx & _ & E). apply bind_Done in E as (gy & _ & E).
      apply bind_Done in E as (act & _ & E).
      destruct (grid2range s gx gy) as [i|].
      * apply bind_Done in E as (e & _ & E).
        destruct (e =? LASER_EMPTY); injection E as <- _; auto.
      * destruct act; try (injection E as <- _; auto; fail).
        -- apply bind_Done in E as (e & _ & E).
           destruct (e =? LASER_EMPTY); injection E as <- _; auto.
        -- destruct (drawstate.canreveal ds =? 0); injection E as <- _; auto.
    + apply bind_Done in E as (gx & _ & E). apply bind_Done in E as (gy & _ & E).
      apply bind_Done in E as (act & _ & E).
      destruct (grid2range s gx gy) as [i|].
      * destruct ((gy =? 0) || (h s <? gy)); injection E as <- _; auto.
      * destruct act; try (injection E as <- _; auto; fail).
        -- apply bind_Done in E as (e & _ & E).
           destruct (e =? LASER_EMPTY); injection E as <- _; auto.
        -- destruct (drawstate.canreveal ds =? 0); injection E as <- _; auto.
  - split; [exact Hgate|].
    intros gx gy ox oy dx dy Hts Ex Ey Hin Hlock Hdx Hdy.
    pose proof Hin as Hc. apply in_arena_spec in Hc. cbn [fst snd] in Hc.
    apply (Hgate _ _ gx gy); try assumption.
    + apply FROMDRAW_TODRAW; [exact Hts | lia | exact Hdx | exact Ex].
    + apply FROMDRAW_TODRAW; [exact Hts | lia | exact Hdy | exact Ey].
Qed.

Lemma interpret_move_gates_witness :
  FROMDRAW (drawstate.mk_drawstate 32 15 12 5 5 [] 1 1 0 (-1)) 55 = Done 1 /\
  FROMDRAW (drawstate.mk_drawstate 32 15 12 5 5 [] 1 1 0 (-1)) 78 = Done 1 /\
  locked square_board_locked (1, 1) = true /\
  interpret_move square_board_locked new_ui
    (drawstate.mk_drawstate 32 15 12 5 5 [] 1 1 0 (-1)) 55 78 LEFT_BUTTON
  = Done (None, new_ui).
Proof.
  split; [reflexivity|]. split; [reflexivity|]. split; [reflexivity|].
  apply (proj1 (proj2 (interpret_move_gates square_board_locked new_ui
                         (drawstate.mk_drawstate 32 15 12 5 5 [] 1 1 0 (-1))))
           55 78 1 1); reflexivity.
Defined.

(** ** From the click to the new state *)

Lemma applicable_executes (s : game_state) (m : string) (c : command) :
  square s -> reveal s = 0 -> reads_as m c -> applicable s c ->
  exists r, apply_move (enough_fuel s) s (dup_game s) m = Done r /\
    (r = None ->
     c = Reveal /\ ~ (minballs s <= nguesses s <= maxballs s)).
Proof.
  intros Hs Hrev Hread Happ.
  pose proof (reads_as_not_solve m c Hread) as Hnot.
  assert (Hb : forall x y, in_arena s (x, y) = true ->
            1 <= x <= w s /\ 1 <= y <= h s /\
            0 <= GRID_index s x y < Z.of_nat (length (grid s))).
  { intros x y Hin. apply in_arena_spec in Hin. cbn [fst snd] in Hin.
    split; [lia|]. split; [lia|].
    apply square_in_bounds; [exact Hs | lia | lia]. }
  destruct c as [x y | x y | x | y | i |].
  - destruct Happ as [Hin _]. destruct (Hb x y Hin) as (Hx & Hy & Hbd).
    destruct Hread as (p & Hp & Hscan).
    destruct (toggle_ball_spec s x y Hbd) as (s' & E & _).
    exists (Some s'). split; [|discriminate].
    unfold apply_move, dup_game. rewrite Hnot, Hrev, Hp. simpl negb. cbv iota.
    rewrite Hscan. cbn [mbind outcome_bind].
    destruct (Z.ltb_spec x 1), (Z.ltb_spec y 1), (Z.ltb_spec (w s) x),
      (Z.ltb_spec (h s) y); try lia.
    cbn [orb]. rewrite E. reflexivity.
  - destruct (Hb x y Happ) as (Hx & Hy & Hbd).
    destruct Hread as (p & Hp & Hscan).
    exists (Some (with_grid s (<[Z.to_nat (GRID_index s x y)
                     := Z.lxor (cell_value s (x, y)) BALL_LOCK]> (grid s)))).
    split; [|discriminate].
    unfold apply_move, dup_game. rewrite Hnot, Hrev, Hp. simpl negb. cbv iota.
    unfold lock_move. rewrite Hscan. cbn [mbind outcome_bind].
    destruct (Z.ltb_spec x 1), (Z.ltb_spec y 1), (Z.ltb_spec (w s) x),
      (Z.ltb_spec (h s) y); try lia.
    cbn [orb]. rewrite (GRID_update_in_bounds s x y _ Hbd). reflexivity.
  - destruct (column_lock_accepted (enough_fuel s) s m x Hs Hrev Hread Happ)
      as (s' & E & _).
    exists (Some s'). split; [exact E | discriminate].
  - destruct (row_lock_accepted (enough_fuel s) s m y Hs Hrev Hread Happ)
      as (s' & E & _).
    exists (Some s'). split; [exact E | discriminate].
  - destruct Happ as [Hi He]. destruct Hread as (p & Hp & Hscan).
    pose proof Hs as ((Hw0 & Hh0 & _ & Hn & _) & _).
    destruct (range2grid_valid s i) as (x & y & d & Hr); [lia | lia | lia |].
    destruct (fire_laser_total_square s i x y d Hs Hr) as (s' & E & _).
    exists (Some s'). split; [|discriminate].
    unfold apply_move, dup_game. rewrite Hnot, Hrev, Hp. simpl negb. cbv iota.
    rewrite Hscan. cbn [mbind outcome_bind]. rewrite He.
    cbn [mbind outcome_bind]. rewrite Z.eqb_refl. cbn [negb].
    rewrite Hr, E. reflexivity.
  - destruct Hread as (p & Hp).
    destruct (check_guesses_total_square s Hs) as (ret & s1 & E & _).
    unfold apply_move, dup_game. rewrite Hnot, Hrev, Hp. simpl negb. cbv iota.
    destruct (Z.ltb_spec (nguesses s) (minballs s));
      [eexists; split; [reflexivity|]; intros _; split; [reflexivity | lia]|].
    destruct (Z.ltb_spec (maxballs s) (nguesses s));
      [eexists; split; [reflexivity|]; intros _; split; [reflexivity | lia]|].
    cbn [orb]. rewrite E. eexists. split; [reflexivity | discriminate].
Qed.

(** X14.  On a square board every move text that [interpret_move] returns is
    one that [execute_move] carries out within the fuel [enough_fuel]: it
    neither faults nor runs on, and it rejects only a Reveal asked for while
    the number of guesses is outside the bounds. *)
Theorem issued_move_executes (s : game_state) (ui ui' : game_ui)
        (ds : game_drawstate) (x y : Z) (b : button) (m : string) :
  square s ->
  interpret_move s ui ds x y b = Done (Some m, ui') ->
  m <> EmptyString ->
  exists r,
    apply_move (enough_fuel s) s (dup_game s) m = Done r /\
    (r = None ->
     reads_as m Reveal /\ ~ (minballs s <= nguesses s <= maxballs s)).
Proof.
  intros Hs E Hm.
  destruct (interpret_move_command s ui ui' ds x y b m Hs E Hm)
    as (Hrev & c & Hread & _ & Happ).
  destruct (applicable_executes s m c Hs Hrev Hread Happ) as (r & Er & Hr).
  exists r. split; [exact Er|].
  intros Hn. destruct (Hr Hn) as [-> Hout]. auto.
Qed.

Lemma issued_move_executes_witness :
  square square_board /\
  interpret_move square_board new_ui
    (drawstate.mk_drawstate 32 15 12 5 5 [] 1 1 0 (-1)) 60 20 LEFT_BUTTON
    = Done (Some "F0"%string, mk_ui 0) /\
  exists r, apply_move (enough_fuel square_board) square_board
              (dup_game square_board) "F0" = Done r.
Proof.
  assert (H1 : square square_board)
    by (unfold square, wf_state, valid_dims; simpl; lia).
  assert (H2 : interpret_move square_board new_ui
                 (drawstate.mk_drawstate 32 15 12 5 5 [] 1 1 0 (-1)) 60 20
                 LEFT_BUTTON = Done (Some "F0"%string, mk_ui 0))
    by (vm_compute; reflexivity).
  split; [exact H1|]. split; [exact H2|].
  destruct (issued_move_executes _ _ _ _ _ _ _ _ H1 H2 ltac:(discriminate))
    as (r & Er & _).
  exists r. exact Er.
Defined.

(** ** One shot *)

Lemma same_arena_lookup (s t : game_state) :
  square s -> h t = h s ->
  (forall c, in_arena s c = true ->
     grid t !! Z.to_nat (GRID_index s c.1 c.2)
     = grid s !! Z.to_nat (GRID_index s c.1 c.2)) ->
  same_arena s t.
Proof.
  intros Hs Hh Hg c Hc. unfold cell_value, GRID, GRID_index, read.
  rewrite Hh. fold (GRID_index s c.1 c.2). rewrite (Hg c Hc). reflexivity.
Qed.

Lemma ring_insert_lookup (s : game_state) (x y v : Z) (g : list Z) (c : Z * Z) :
  square s -> 0 <= x <= w s + 1 -> 0 <= y <= h s + 1 ->
  in_arena s (x, y) = false -> in_arena s c = true ->
  <[Z.to_nat (GRID_index s x y) := v]> g !! Z.to_nat (GRID_index s c.1 c.2)
  = g !! Z.to_nat (GRID_index s c.1 c.2).
Proof.
  intros Hs Hx Hy Ho Hc. apply list_lookup_insert_ne.
  pose proof Hc as Hc'. apply in_arena_spec in Hc'.
  pose proof (square_in_bounds s x y Hs Hx Hy).
  pose proof (square_in_bounds s c.1 c.2 Hs ltac:(lia) ltac:(lia)).
  intros E. assert (Hidx : GRID_index s x y = GRID_index s c.1 c.2) by lia.
  apply (square_index_inj s x y c.1 c.2 Hs) in Hidx as [E1 E2]; [|lia|lia].
  rewrite (surjective_pairing c), <- E1, <- E2 in Hc. congruence.
Qed.

Lemma HIT_REFLECT_above (s : game_state) :
  square s -> nlasers s <= LASER_REFLECT /\ nlasers s <= LASER_HIT.
Proof.
  intros ((_ & _ & _ & Hn & _) & ([_ Hw] & [_ Hh]) & _).
  unfold LASER_REFLECT, LASER_HIT. lia.
Qed.

(** A shot that marks its origin. *)
Lemma mark_origin_shot (s : game_state) (i x y d v : Z) :
  square s -> range2grid s i = Some (x, y, d) ->
  v = LASER_HIT \/ v = LASER_REFLECT ->
  exists s', mark_origin s x y i v = Done s' /\ shot s s' i.
Proof.
  intros Hs Hi Hv.
  destruct (range2grid_entry s i x y d Hs Hi)
    as (Hir & _ & Hx & Hy & _ & _ & Ho & _).
  pose proof Hs as ((_ & _ & _ & _ & He) & _).
  destruct (HIT_REFLECT_above s Hs) as [HR HH].
  rewrite mark_origin_square by assumption.
  eexists. split; [reflexivity|].
  split; [repeat split; simpl; apply length_insert|].
  split.
  { apply same_arena_lookup; [exact Hs | reflexivity|].
    intros c Hc. cbn [grid with_exits with_grid].
    apply ring_insert_lookup; assumption. }
  do 4 (split; [reflexivity|]). split; [simpl; lia|].
  exists v. cbn [exits with_exits].
  split; [apply list_lookup_insert_eq; lia|].
  split; [unfold exit_ok; tauto|].
  split; [intros Hr; destruct Hv as [-> | ->]; lia|].
  intros k Hk _. apply list_lookup_insert_ne. congruence.
Qed.

(** The outcome of firing laser [i] on a square board. *)
Lemma fire_laser_shot (s : game_state) (i x y d : Z) :
  square s -> range2grid s i = Some (x, y, d) ->
  exists s', fire_laser (enough_fuel s) s x y d = Done s' /\ shot s s' i.
Proof.
  intros Hs Hi.
  destruct (range2grid_entry s i x y d Hs Hi)
    as (Hir & Hgi & Hx & Hy & _ & _ & Ho & _).
  pose proof Hs as ((_ & _ & _ & _ & He) & _).
  rewrite (fire_laser_square _ s i x y d Hs Hi).
  destruct (ball_at s (probe (x, y) d LOOK_FORWARD)) eqn:EF.
  { apply (mark_origin_shot s i x y d); auto. }
  destruct (ball_at s (probe (x, y) d LOOK_LEFT)) eqn:EL; cbn [orb].
  { apply (mark_origin_shot s i x y d); auto. }
  destruct (ball_at s (probe (x, y) d LOOK_RIGHT)) eqn:ER.
  { apply (mark_origin_shot s i x y d); auto. }
  pose proof (entry_entered s i x y d Hs Hi EF EL ER) as Hent.
  destruct (entered_ends s _ Hs Hent) as [f Hf]. cbn [fst snd] in Hf.
  rewrite Hf. cbn [mbind outcome_bind]. destruct f as [|ex ey].
  { apply (mark_origin_shot s i x y d); auto. }
  destruct (laser_path_leaves _ _ _ _ _ _ _ Hf) as [j Hj].
  destruct (grid2range_Some s ex ey j Hs Hj) as (Hjr & Hex & Hey & Hoe & de & Hrj).
  cbn [laser_mark]. rewrite (laser_exit_square s x y i ex ey j) by assumption.
  rewrite (to_unsigned_index s j Hs Hjr), (to_unsigned_index s i Hs Hir).
  destruct (HIT_REFLECT_above s Hs) as [HR HH].
  eexists. split; [reflexivity|].
  destruct ((x =? ex) && (y =? ey)) eqn:Eq.
  - split; [repeat split; simpl; apply length_insert|]. split.
    { apply same_arena_lookup; [exact Hs | reflexivity|].
      intros c Hc. cbn [grid with_exits with_grid].
      apply ring_insert_lookup; assumption. }
    do 4 (split; [reflexivity|]). split; [simpl; lia|].
    exists LASER_REFLECT. cbn [exits with_exits].
    split; [apply list_lookup_insert_eq; lia|].
    split; [unfold exit_ok; tauto|]. split; [lia|].
    intros k Hk _. apply list_lookup_insert_ne. congruence.
  - assert (Hcell : (x, y) <> (ex, ey)).
    { intros E. injection E as -> ->. rewrite !Z.eqb_refl in Eq. discriminate. }
    assert (Hij : j <> i).
    { intros ->. rewrite Hi in Hrj. injection Hrj as -> -> _. contradiction. }
    split; [repeat split; simpl; rewrite ?length_insert; reflexivity|]. split.
    { apply same_arena_lookup; [exact Hs | reflexivity|].
      intros c Hc. cbn [grid with_exits with_grid].
      rewrite !ring_insert_lookup by assumption. reflexivity. }
    do 4 (split; [reflexivity|]). split; [simpl; lia|].
    exists j. cbn [exits with_exits].
    split.
    { rewrite list_lookup_insert_ne by lia. apply list_lookup_insert_eq. lia. }
    split; [unfold exit_ok; tauto|]. split.
    { intros _. split; [exact Hij|]. split; [|reflexivity].
      apply list_lookup_insert_eq. rewrite length_insert. lia. }
    intros k Hk Hkj. rewrite !list_lookup_insert_ne; [reflexivity | congruence|].
    specialize (Hkj Hjr). congruence.
Qed.

Lemma shot_square (s s' : game_state) (i : Z) :
  square s -> shot s s' i -> square s'.
Proof. intros Hs (Hsh & _). apply (same_shape_square s s' Hsh Hs). Qed.

Lemma fire_move_shot (s : game_state) (m : string) (i : Z) :
  square s -> reveal s = 0 -> reads_as m (Fire i) ->
  0 <= i < nlasers s -> exits_get s i = Done LASER_EMPTY ->
  exists s',
    apply_move (enough_fuel s) s (dup_game s) m = Done (Some s') /\
    shot s s' i.
Proof.
  intros Hs Hrev Hread Hi He.
  pose proof (reads_as_not_solve m _ Hread) as Hnot.
  destruct Hread as (p & Hp & Hscan).
  pose proof Hs as ((Hw0 & Hh0 & _ & Hn & _) & _).
  destruct (range2grid_valid s i) as (x & y & d & Hr); [lia | lia | lia |].
  destruct (fire_laser_shot s i x y d Hs Hr) as (s' & E & Hshot).
  exists s'. split; [|exact Hshot].
  unfold apply_move, dup_game. rewrite Hnot, Hrev, Hp. simpl negb. cbv iota.
  rewrite Hscan. cbn [mbind outcome_bind]. rewrite He.
  cbn [mbind outcome_bind]. rewrite Z.eqb_refl. cbn [negb].
  rewrite Hr, E. reflexivity.
Qed.

(** X15.  A Fire move for an unfired laser of a square board in the guessing
    phase is accepted.  It leaves the arena, the guesses and their number as
    they were, fills the slot of the laser with Hit, Reflected or the index
    of the exit, pairs the slot of the exit with it, and changes no other
    slot.  The same move made again is rejected, and so is a Fire move for
    the laser at the exit. *)
Theorem fire_move_once (s : game_state) (m : string) (i : Z) :
  square s -> reveal s = 0 -> reads_as m (Fire i) ->
  0 <= i < nlasers s -> exits_get s i = Done LASER_EMPTY ->
  exists s',
    apply_move (enough_fuel s) s (dup_game s) m = Done (Some s') /\
    shot s s' i /\
    apply_move (enough_fuel s') s' (dup_game s') m = Done None /\
    forall j m',
      exits_get s' i = Done j -> 0 <= j < nlasers s ->
      reads_as m' (Fire j) ->
      apply_move (enough_fuel s') s' (dup_game s') m' = Done None.
Proof.
  intros Hs Hrev Hread Hi He.
  destruct (fire_move_shot s m i Hs Hrev Hread Hi He) as (s' & E & Hshot).
  exists s'. split; [exact E|]. split; [exact Hshot|].
  pose proof Hshot as (Hsh & _ & _ & Hrev' & _ & _ & _ & v & Hv & Hok & Hpair & _).
  pose proof (exit_ok_not_empty s v Hs Hok) as Hne.
  assert (Hrej : forall k u m', 0 <= k -> exits s' !! Z.to_nat k = Some u ->
            u <> LASER_EMPTY -> reads_as m' (Fire k) ->
            apply_move (enough_fuel s') s' (dup_game s') m' = Done None).
  { intros k u m' Hk Hu Hue Hread'.
    pose proof (reads_as_not_solve m' _ Hread') as Hnot'.
    destruct Hread' as (p' & Hp' & Hscan').
    unfold apply_move, dup_game. rewrite Hnot', Hrev', Hrev, Hp'.
    simpl negb. cbv iota. rewrite Hscan'. cbn [mbind outcome_bind].
    assert (exits_get s' k = Done u) as ->
      by (apply read_Done; split; [lia | exact Hu]).
    cbn [mbind outcome_bind].
    destruct (Z.eqb_spec u LASER_EMPTY); [contradiction | reflexivity]. }
  split; [apply (Hrej i v m); [lia | exact Hv | exact Hne | exact Hread]|].
  intros j m' Ej Hj Hread'. apply read_Done in Ej as [_ Ej].
  rewrite Hv in Ej. injection Ej as <-.
  destruct (Hpair Hj) as (_ & Hvi & _).
  apply (Hrej v i m'); [lia | exact Hvi | | exact Hread'].
  pose proof Hs as ((_ & _ & _ & Hn & _) & ([_ Hw] & [_ Hh]) & _).
  change LASER_EMPTY with 4294967295. lia.
Qed.

Lemma fire_move_once_witness :
  square square_board /\ reads_as "F5" (Fire 5) /\
  exits_get square_board 5 = Done LASER_EMPTY /\
  exists s',
    apply_move (enough_fuel square_board) square_board (dup_game square_board) "F5"
      = Done (Some s') /\
    apply_move (enough_fuel s') s' (dup_game s') "F5" = Done None.
Proof.
  assert (H1 : square square_board)
    by (unfold square, wf_state, valid_dims; simpl; lia).
  assert (H2 : reads_as "F5" (Fire 5))
    by (exists ["5"%char]; split; vm_compute; reflexivity).
  assert (H3 : exits_get square_board 5 = Done LASER_EMPTY) by reflexivity.
  split; [exact H1|]. split; [exact H2|]. split; [exact H3|].
  destruct (fire_move_once square_board "F5" 5 H1 eq_refl H2
              ltac:(simpl; lia) H3) as (s' & E & _ & E2 & _).
  exists s'. auto.
Defined.

(** ** Runs with more fuel than needed *)

(** A run of the ray tracer that ended is the run with the fuel
    [enough_fuel]. *)
Lemma fire_laser_fuel (fuel : nat) (s s' : game_state) (i x y d : Z) :
  square s -> range2grid s i = Some (x, y, d) ->
  fire_laser fuel s x y d = Done s' ->
  fire_laser (enough_fuel s) s x y d = Done s'.
Proof.
  intros Hs Hi E. rewrite (fire_laser_square fuel s i x y d Hs Hi) in E.
  rewrite (fire_laser_square (enough_fuel s) s i x y d Hs Hi).
  destruct (ball_at s (probe (x, y) d LOOK_FORWARD)) eqn:EF; [exact E|].
  destruct (ball_at s (probe (x, y) d LOOK_LEFT)) eqn:EL; [exact E|].
  destruct (ball_at s (probe (x, y) d LOOK_RIGHT)) eqn:ER; [exact E|].
  cbn [orb] in E |- *.
  apply bind_Done in E as (f & Ef & E).
  pose proof (entry_entered s i x y d Hs Hi EF EL ER) as Hent.
  destruct (entered_ends s _ Hs Hent) as [f' Hf']. cbn [fst snd] in Hf'.
  assert (f' = f) as ->.
  { pose proof (laser_path_more _ _ _ _ _ _ Ef (Nat.max fuel (enough_fuel s))
                  (Nat.le_max_l _ _)) as H1.
    pose proof (laser_path_more _ _ _ _ _ _ Hf' (Nat.max fuel (enough_fuel s))
                  (Nat.le_max_r _ _)) as H2.
    congruence. }
  rewrite Hf'. exact E.
Qed.

Lemma run_list_impl {A St} (f g : A -> St -> outcome St) (P : St -> Prop)
      (l : list A) :
  (forall a t t', a ∈ l -> P t -> f a t = Done t' -> g a t = Done t' /\ P t') ->
  forall s s', P s -> run_list f l s = Done s' -> run_list g l s = Done s'.
Proof.
  induction l as [|a l IH]; intros Hstep s s' Hs E; [exact E|].
  simpl in E |- *. apply bind_Done in E as (t & Et & E).
  destruct (Hstep a s t) as [Eg Ht]; [left | exact Hs | exact Et |].
  rewrite Eg. simpl. apply (IH (fun b u u' Hb => Hstep b u u' (proj2 (elem_of_cons l b a) (or_intror Hb))) t s' Ht E).
Qed.

Lemma fire_both_fuel (fuel : nat) (s : game_state) (i : Z)
      (p p' : game_state * game_state) :
  square s -> same_shape s p.1 -> same_shape s p.2 ->
  fire_both fuel i p = Done p' ->
  fire_both (enough_fuel s) i p = Done p' /\
  same_shape s p'.1 /\ same_shape s p'.2.
Proof.
  destruct p as [t u], p' as [t' u']. cbn [fst snd]. intros Hs Hst Hsu E.
  pose proof (same_shape_square s t Hst Hs) as Ht.
  pose proof (same_shape_square s u Hsu Hs) as Hu.
  unfold fire_both in E |- *.
  apply bind_Done in E as ([[x y] d] & Er & E).
  destruct (range2grid t i) as [[[x0 y0] d0]|] eqn:Hr; [|discriminate].
  injection Er as -> -> ->. cbn [assert_some mbind outcome_bind].
  assert (Hru : range2grid u i = Some (x, y, d)).
  { unfold range2grid in *. destruct Hst as (Hwt & Hht & _).
    destruct Hsu as (Hwu & Hhu & _). rewrite Hwu, Hhu, <- Hwt, <- Hht. exact Hr. }
  apply bind_Done in E as (e & -> & E). cbn [mbind outcome_bind].
  apply bind_Done in E as (t1 & Et & E).
  assert (Ht1 : (if e =? LASER_EMPTY then fire_laser (enough_fuel s) t x y d
                 else mret t) = Done t1 /\ same_shape s t1).
  { destruct (e =? LASER_EMPTY).
    - apply (fire_laser_fuel fuel t t1 i x y d Ht Hr) in Et.
      rewrite (same_shape_fuel s t Hst) in Et. split; [exact Et|].
      destruct (fire_laser_total_square t i x y d Ht Hr) as (t2 & E2 & Hsh2).
      rewrite (same_shape_fuel s t Hst), Et in E2. injection E2 as <-.
      apply (same_shape_trans s t t1 Hst Hsh2).
    - injection Et as <-. auto. }
  destruct Ht1 as [-> Hst1]. cbn [mbind outcome_bind].
  apply bind_Done in E as (e' & -> & E). cbn [mbind outcome_bind].
  apply bind_Done in E as (u1 & Eu & E). injection E as <- <-.
  assert (Hu1 : (if e' =? LASER_EMPTY then fire_laser (enough_fuel s) u x y d
                 else mret u) = Done u1 /\ same_shape s u1).
  { destruct (e' =? LASER_EMPTY).
    - apply (fire_laser_fuel fuel u u1 i x y d Hu Hru) in Eu.
      rewrite (same_shape_fuel s u Hsu) in Eu. split; [exact Eu|].
      destruct (fire_laser_total_square u i x y d Hu Hru) as (u2 & E2 & Hsh2).
      rewrite (same_shape_fuel s u Hsu), Eu in E2. injection E2 as <-.
      apply (same_shape_trans s u u1 Hsu Hsh2).
    - injection Eu as <-. auto. }
  destruct Hu1 as [-> Hsu1]. auto.
Qed.

(** A run of the consistency check that ended is the run with the fuel
    [enough_fuel]. *)
Lemma check_guesses_fuel (fuel : nat) (s : game_state) (r : Z * game_state) :
  square s -> check_guesses fuel s = Done r ->
  check_guesses (enough_fuel s) s = Done r.
Proof.
  intros Hs E. unfold check_guesses in E |- *.
  apply bind_Done in E as (sol & E1 & E). rewrite E1. cbn [mbind outcome_bind].
  apply bind_Done in E as (gue & E2 & E). rewrite E2. cbn [mbind outcome_bind].
  apply bind_Done in E as ([sol' gue'] & E3 & E).
  destruct (clear_lasers_square s Hs) as (sol0 & E1' & Hsh1 & _).
  change (dup_game s) with s in E1. rewrite E1 in E1'. injection E1' as <-.
  pose proof (same_shape_square s sol Hsh1 Hs) as Hsol.
  destruct (guess_all_square sol Hsol) as (gue0 & E2' & Hsh2 & _).
  pose proof Hsh1 as (Hw1 & Hh1 & Hn1 & _).
  rewrite Hw1, Hh1 in E2'. change (dup_game sol) with sol in E2.
  rewrite E2 in E2'. injection E2' as <-.
  pose proof (same_shape_trans s sol gue Hsh1 Hsh2) as Hsg.
  assert (E3' : for_range 0 (nlasers sol) (fire_both (enough_fuel s)) (sol, gue)
                = Done (sol', gue')).
  { replace (nlasers sol) with (0 + nlasers sol) in E3 |- * by lia.
    rewrite for_range_run_list in E3 |- *.
    apply (run_list_impl (fire_both fuel) (fire_both (enough_fuel s))
             (fun p => same_shape s p.1 /\ same_shape s p.2) _) with (s := (sol, gue));
      [|split; assumption|exact E3].
    intros i p p' _ [Hp1 Hp2] Ep.
    destruct (fire_both_fuel fuel s i p p' Hs Hp1 Hp2 Ep) as (Ep' & H1 & H2).
    auto. }
  rewrite E3'. exact E.
Qed.

(** ** What an accepted move was *)

Lemma in_arena_of_tests (s : game_state) (x y : Z) :
  (x <? 1) || (y <? 1) || (w s <? x) || (h s <? y) = false ->
  in_arena s (x, y) = true.
Proof.
  intros H. apply in_arena_spec. cbn [fst snd].
  destruct (Z.ltb_spec x 1), (Z.ltb_spec y 1), (Z.ltb_spec (w s) x),
    (Z.ltb_spec (h s) y); try discriminate. lia.
Qed.

(** An accepted move is the solve move or, in the guessing phase, a command
    of the vocabulary with operands on the board. *)
Lemma apply_move_accepted (fuel : nat) (s s' : game_state) (m : string) :
  square s ->
  apply_move fuel s (dup_game s) m = Done (Some s') ->
  (s' = with_reveal s 1) \/
  (reveal s = 0 /\ exists c, reads_as m c /\ accepted_command s c).
Proof.
  intros Hs E. unfold apply_move, dup_game in E.
  destruct (String.eqb m "S"); [injection E as <-; left; reflexivity|].
  destruct (Z.eqb_spec (reveal s) 0) as [Hrev | Hrev]; [|discriminate].
  right. split; [exact Hrev|]. cbn [negb] in E.
  destruct (list_ascii_of_string m) as [|a p] eqn:Hm; [discriminate|].
  destruct (Ascii.eqb_spec a "T") as [-> | HT].
  { apply bind_Done in E as ([x y] & Escan & E).
    destruct ((x <? 1) || (y <? 1) || (w s <? x) || (h s <? y)) eqn:Et;
      [discriminate|].
    exists (ToggleBall x y). split; [exists p; auto|].
    apply in_arena_of_tests, Et. }
  destruct (Ascii.eqb_spec a "F") as [-> | HF].
  { apply bind_Done in E as (i & Escan & E).
    apply bind_Done in E as (e & Ee & E).
    destruct (Z.eqb_spec e LASER_EMPTY) as [-> | He]; [|discriminate].
    cbn [negb] in E.
    destruct (range2grid s i) as [[[x y] d]|] eqn:Hr; [|discriminate].
    destruct (range2grid_entry s i x y d Hs Hr) as (Hi & _).
    exists (Fire i). split; [exists p; auto | split; assumption]. }
  destruct (Ascii.eqb_spec a "R") as [-> | HR].
  { destruct (Z.ltb_spec (nguesses s) (minballs s)); [discriminate|].
    destruct (Z.ltb_spec (maxballs s) (nguesses s)); [discriminate|].
    exists Reveal. split; [exists p; auto | simpl; lia]. }
  destruct (Ascii.eqb_spec a "L") as [-> | HL].
  { unfold lock_move in E. destruct p as [|a2 p2]; [discriminate|].
    destruct (Ascii.eqb_spec a2 "B") as [-> | HB].
    { apply bind_Done in E as ([x y] & Escan & E).
      destruct ((x <? 1) || (y <? 1) || (w s <? x) || (h s <? y)) eqn:Et;
        [discriminate|].
      exists (ToggleLock x y). split; [exists p2; auto|].
      apply in_arena_of_tests, Et. }
    destruct (Ascii.eqb_spec a2 "C") as [-> | HC].
    { apply bind_Done in E as (x & Escan & E).
      destruct (Z.ltb_spec x 1); [discriminate|].
      destruct (Z.ltb_spec (w s) x); [discriminate|].
      exists (ToggleColumnLock x). split; [exists p2; auto | simpl; lia]. }
    destruct (Ascii.eqb_spec a2 "R") as [-> | HR2].
    { apply bind_Done in E as (y & Escan & E).
      destruct (Z.ltb_spec y 1); [discriminate|].
      destruct (Z.ltb_spec (h s) y); [discriminate|].
      exists (ToggleRowLock y). split; [exists p2; auto | simpl; lia]. }
    exfalso.
    destruct a2 as [[] [] [] [] [] [] [] []]; try discriminate;
      solve [apply HB; reflexivity | apply HC; reflexivity
            | apply HR2; reflexivity]. }
  exfalso.
  destruct a as [[] [] [] [] [] [] [] []]; try discriminate;
    solve [apply HT; reflexivity | apply HF; reflexivity
          | apply HR; reflexivity | apply HL; reflexivity].
Qed.

(** ** The fields the check leaves alone *)

Lemma scalars_refl (s : game_state) : scalars s s.
Proof. repeat split. Qed.

Lemma scalars_trans (s t u : game_state) :
  scalars s t -> scalars t u -> scalars s u.
Proof. unfold scalars. intuition congruence. Qed.

Lemma GRID_set_scalars (s s' : game_state) (x y v : Z) :
  GRID_set s x y v = Done s' -> scalars s s'.
Proof. intros E. apply GRID_set_Done in E as [_ ->]. repeat split. Qed.

Lemma exits_set_scalars (s s' : game_state) (i v : Z) :
  exits_set s i v = Done s' -> scalars s s'.
Proof. intros E. apply exits_set_Done in E as [_ ->]. repeat split. Qed.

Lemma exits_update_scalars (s s' : game_state) (i : Z) (f : Z -> Z) :
  exits_update s i f = Done s' -> scalars s s'.
Proof.
  unfold exits_update. intros E. apply bind_Done in E as (v & _ & E).
  apply (exits_set_scalars _ _ _ _ E).
Qed.

Lemma add_omitted_scalars (s s' : game_state) (i x y es : Z) :
  add_omitted s i x y es = Done s' -> scalars s s'.
Proof.
  unfold add_omitted. intros E.
  apply bind_Done in E as (s1 & E1 & E). apply exits_set_scalars in E1.
  apply bind_Done in E as (e & _ & E).
  apply bind_Done in E as (s2 & E2 & E). apply exits_update_scalars in E.
  apply (scalars_trans s s1 s' E1). apply (scalars_trans s1 s2 s'); [|exact E].
  destruct ((e =? LASER_REFLECT) || (e =? LASER_HIT)).
  - apply (GRID_set_scalars _ _ _ _ _ E2).
  - apply bind_Done in E2 as ([[ex ey] d] & _ & E2).
    apply bind_Done in E2 as (s3 & E3 & E2).
    apply GRID_set_scalars in E3, E2.
    apply (scalars_trans s1 s3 s2); [|exact E2].
    apply (scalars_trans s1 (with_laserno s1 (laserno s1 + 1)) s3);
      [repeat split | exact E3].
Qed.

Lemma compare_exit_scalars (sol gue : game_state) (i : Z)
      (p p' : game_state * Z) :
  compare_exit sol gue i p = Done p' -> scalars p.1 p'.1.
Proof.
  destruct p as [st r]. unfold compare_exit. intros E.
  apply bind_Done in E as ([[x y] d] & _ & E).
  apply bind_Done in E as (es & _ & E). apply bind_Done in E as (eg & _ & E).
  destruct (es =? eg); [injection E as <-; apply scalars_refl|].
  apply bind_Done in E as (e & _ & E). apply bind_Done in E as (st' & E' & E).
  injection E as <-. cbn [fst].
  destruct (e =? LASER_EMPTY);
    [apply (add_omitted_scalars _ _ _ _ _ _ E')
    |apply (exits_update_scalars _ _ _ _ E')].
Qed.

(** The consistency check writes neither the number of guesses nor a guess
    flag. *)
Lemma check_guesses_keeps_guesses (fuel : nat) (s s1 : game_state) (ret : Z) :
  square s -> check_guesses fuel s = Done (ret, s1) ->
  same_shape s s1 /\ scalars s s1 /\
  forall c, in_arena s c = true -> guessed s1 c = guessed s c.
Proof.
  intros Hs E. pose proof (check_guesses_fuel fuel s _ Hs E) as E'.
  destruct (check_guesses_total_square s Hs) as (ret0 & s0 & E0 & Hsh & Hsame).
  rewrite E' in E0. injection E0 as <- <-.
  split; [exact Hsh|].
  apply check_guesses_Done in E
    as (sol & gue & sol' & gue' & st1 & st2 & _ & _ & _ & E4 & E5 & E6).
  pose proof E4 as E4'.
  replace (nlasers sol') with (0 + nlasers sol') in E4' by lia.
  rewrite for_range_run_list in E4'.
  assert (Hsc1 : scalars s st1).
  { apply (run_list_inv _ (fun p => scalars s p.1) _ _ _ E4');
      [apply scalars_refl|].
    intros i p p' _ Hp Hstep. apply (scalars_trans s p.1 p'.1 Hp).
    apply (compare_exit_scalars _ _ _ _ _ Hstep). }
  apply count_balls_Done in E6 as (Hs1 & _).
  assert (Hsc2 : scalars st1 st2 /\ forall c, guessed st2 c = guessed st1 c).
  { destruct (ret =? 0); [injection E5 as <-; split; [apply scalars_refl | auto]|].
    rewrite for_arena_run_list in E5.
    pose proof (fix_run_board _ _ _ E5) as Hb. apply fix_run in E5 as [Hg _].
    split; [rewrite Hb; repeat split | exact Hg]. }
  destruct Hsc2 as [Hsc2 Hg2].
  split.
  { apply (scalars_trans s st1 s1 Hsc1), (scalars_trans st1 st2 s1 Hsc2).
    rewrite Hs1. repeat split. }
  intros c Hc.
  assert (Hg1 : guessed s1 c = guessed st2 c) by (rewrite Hs1; reflexivity).
  rewrite Hg1, Hg2.
  apply compare_consistent in E4 as [-> | [_ ->]]; [|reflexivity].
  unfold guessed. rewrite <- (Hsame eq_refl c Hc).
  rewrite Hs1. simpl in E5. injection E5 as <-. reflexivity.
Qed.

(** ** Counting the guesses *)

Lemma NoDup_cells (wd ht : Z) : NoDup (cells wd ht).
Proof.
  unfold cells. apply NoDup_bind.
  - intros x x' c _ _ Hc Hc'. apply list_elem_of_bind in Hc as (y & Hy & _).
    apply list_elem_of_bind in Hc' as (y' & Hy' & _).
    apply list_elem_of_singleton in Hy, Hy'. congruence.
  - intros x _. apply NoDup_bind;
      [|intros; apply NoDup_singleton|apply NoDup_seqZ].
    intros y y' c _ _ Hc Hc'. apply list_elem_of_singleton in Hc, Hc'.
    congruence.
  - apply NoDup_seqZ.
Qed.

Lemma count_cells_flip (p q : Z * Z -> bool) (c0 : Z * Z) (l : list (Z * Z)) :
  NoDup l -> c0 ∈ l -> q c0 = negb (p c0) ->
  (forall c, c ∈ l -> c <> c0 -> q c = p c) ->
  count_cells q l = count_cells p l + (if p c0 then -1 else 1).
Proof.
  induction l as [|c l IH]; intros Hnd Hin Hq Hrest; [inversion Hin|].
  apply NoDup_cons in Hnd as [Hnot Hnd]. rewrite !count_cells_cons.
  destruct (decide (c = c0)) as [-> | Hne].
  - rewrite Hq. rewrite (count_cells_ext q p l).
    + destruct (p c0); simpl; lia.
    + intros c Hc. apply Hrest; [right; exact Hc|]. intros ->. contradiction.
  - apply elem_of_cons in Hin as [-> | Hin]; [contradiction|].
    rewrite IH; [|exact Hnd|exact Hin|exact Hq|].
    + rewrite (Hrest c) by (try left; assumption). lia.
    + intros c' Hc'. apply Hrest. right. exact Hc'.
Qed.

(** ** One move *)

Lemma same_flags_count (s s' : game_state) :
  same_shape s s' ->
  (forall c, in_arena s c = true -> guessed s' c = guessed s c) ->
  count_cells (guessed s') (arena_cells s')
  = count_cells (guessed s) (arena_cells s).
Proof.
  intros (Hw & Hh & _) Hg. unfold arena_cells. rewrite Hw, Hh.
  apply count_cells_ext. intros c Hc. apply Hg, in_arena_cells, Hc.
Qed.

Lemma same_arena_flags (s s' : game_state) (c : Z * Z) :
  same_arena s s' -> in_arena s c = true ->
  guessed s' c = guessed s c /\ true_ball s' c = true_ball s c /\
  locked s' c = locked s c.
Proof.
  intros Ha Hc. unfold guessed, true_ball, locked. rewrite (Ha c Hc). auto.
Qed.

(** What one accepted move does to the quantities of the invariant. *)
Lemma apply_move_step (fuel : nat) (s s' : game_state) (m : string) :
  square s ->
  apply_move fuel s (dup_game s) m = Done (Some s') ->
  same_shape s s' /\
  minballs s' = minballs s /\ maxballs s' = maxballs s /\
  nguesses s' - count_cells (guessed s') (arena_cells s')
  = nguesses s - count_cells (guessed s) (arena_cells s) /\
  (reveal s' = 0 ->
   reveal s = 0 /\
   (exits_ok s s -> exits_ok s' s') /\
   forall c, in_arena s c = true -> true_ball s' c = true_ball s c).
Proof.
  intros Hs E.
  assert (Hb : forall x y, in_arena s (x, y) = true ->
            1 <= x <= w s /\ 1 <= y <= h s /\
            0 <= GRID_index s x y < Z.of_nat (length (grid s))).
  { intros x y Hin. apply in_arena_spec in Hin. cbn [fst snd] in Hin.
    split; [lia|]. split; [lia|].
    apply square_in_bounds; [exact Hs | lia | lia]. }
  assert (Hframe : forall t,
            same_shape s t -> scalars s t ->
            (exits_ok s s -> exits_ok s t) ->
            (forall c, in_arena s c = true ->
               guessed t c = guessed s c /\
               (reveal t = 0 -> true_ball t c = true_ball s c)) ->
            same_shape s t /\
            minballs t = minballs s /\ maxballs t = maxballs s /\
            nguesses t - count_cells (guessed t) (arena_cells t)
            = nguesses s - count_cells (guessed s) (arena_cells s) /\
            (reveal t = 0 ->
             reveal s = 0 /\
             (exits_ok s s -> exits_ok t t) /\
             forall c, in_arena s c = true -> true_ball t c = true_ball s c)).
  { intros t Hsh (Hn & Hmin & Hmax & Hr) Hex Hfl.
    split; [exact Hsh|]. split; [exact Hmin|]. split; [exact Hmax|]. split.
    - rewrite Hn, (same_flags_count s t Hsh); [reflexivity|].
      intros c Hc. apply (Hfl c Hc).
    - intros Hr0. split; [congruence|]. split.
      + intros Hok k v Hk. destruct (Hex Hok k v Hk) as [-> | Hv]; [left; reflexivity|].
        right. apply (exit_ok_shape s t v Hsh Hv).
      + intros c Hc. apply (Hfl c Hc), Hr0. }
  destruct (apply_move_accepted fuel s s' m Hs E)
    as [-> | (Hrev & c & Hread & Hacc)].
  { split; [repeat split|]. do 3 (split; [reflexivity|]). discriminate. }
  pose proof (reads_as_not_solve m c Hread) as Hnot.
  destruct c as [x y | x y | x | y | i |].
  - (* ToggleBall *)
    destruct (Hb x y Hacc) as (Hx & Hy & Hbd).
    destruct Hread as (p & Hp & Hscan).
    unfold apply_move, dup_game in E. rewrite Hnot, Hrev, Hp in E.
    simpl negb in E. cbv iota in E. rewrite Hscan in E.
    cbn [mbind outcome_bind] in E.
    destruct (Z.ltb_spec x 1), (Z.ltb_spec y 1), (Z.ltb_spec (w s) x),
      (Z.ltb_spec (h s) y); try lia.
    cbn [orb] in E. apply bind_Done in E as (t & Et & E). injection E as <-.
    destruct (toggle_ball_spec s x y Hbd)
      as (t0 & Et0 & Hg & _ & Htb & Hn & Hr & Hother).
    rewrite Et in Et0. injection Et0 as <-.
    assert (Hsh : same_shape s t).
    { unfold toggle_ball in Et. rewrite (GRID_in_bounds s x y Hbd) in Et.
      cbn [mbind outcome_bind] in Et.
      destruct (flag_set _ BALL_GUESS);
        rewrite GRID_update_in_bounds in Et by exact Hbd;
        injection Et as <-; repeat split; simpl; apply length_insert. }
    assert (Hrest : forall c, in_arena s c = true -> c <> (x, y) ->
              cell_value t c = cell_value s c).
    { intros c Hc Hne. apply Hother. intros Hidx.
      apply in_arena_spec in Hc.
      apply (square_index_inj s c.1 c.2 x y Hs) in Hidx as [E1 E2]; [|lia|lia].
      apply Hne. rewrite (surjective_pairing c), E1, E2. reflexivity. }
    split; [exact Hsh|].
    assert (Hmm : minballs t = minballs s /\ maxballs t = maxballs s /\
                  exits t = exits s).
    { unfold toggle_ball in Et. rewrite (GRID_in_bounds s x y Hbd) in Et.
      cbn [mbind outcome_bind] in Et.
      destruct (flag_set _ BALL_GUESS);
        rewrite GRID_update_in_bounds in Et by exact Hbd;
        injection Et as <-; repeat split; reflexivity. }
    split; [apply Hmm|]. split; [apply Hmm|]. split.
    + assert (Hcells : arena_cells t = arena_cells s).
      { destruct Hsh as (Hw & Hh & _). unfold arena_cells. rewrite Hw, Hh.
        reflexivity. }
      rewrite Hcells.
      rewrite (count_cells_flip (guessed s) (guessed t) (x, y) (arena_cells s));
        [rewrite Hn; destruct (guessed s (x, y)); lia | apply NoDup_cells
        | apply in_arena_cells, Hacc | exact Hg |].
      intros c Hc Hne. unfold guessed.
      rewrite (Hrest c (proj2 (in_arena_cells s c) Hc) Hne). reflexivity.
    + intros _. split; [exact Hrev|]. split.
      * destruct Hmm as (_ & _ & Hex). intros Hok k v Hk. rewrite Hex in Hk.
        destruct (Hok k v Hk) as [-> | Hv]; [left; reflexivity|].
        right. apply (exit_ok_shape s t v Hsh Hv).
      * intros c Hc.
        destruct (decide (c = (x, y))) as [-> | Hne]; [exact Htb|].
        unfold true_ball. rewrite (Hrest c Hc Hne). reflexivity.
  - (* ToggleLock *)
    destruct (Hb x y Hacc) as (Hx & Hy & Hbd).
    destruct Hread as (p & Hp & Hscan).
    unfold apply_move, dup_game in E. rewrite Hnot, Hrev, Hp in E.
    simpl negb in E. cbv iota in E. unfold lock_move in E. rewrite Hscan in E.
    cbn [mbind outcome_bind] in E.
    destruct (Z.ltb_spec x 1), (Z.ltb_spec y 1), (Z.ltb_spec (w s) x),
      (Z.ltb_spec (h s) y); try lia.
    cbn [orb] in E. rewrite (GRID_update_in_bounds s x y _ Hbd) in E.
    injection E as <-. apply Hframe.
    + repeat split. simpl. apply length_insert.
    + repeat split.
    + intros Hok. exact Hok.
    + intros c Hc. unfold guessed, true_ball.
      rewrite cell_value_insert by exact Hbd.
      destruct (Z.eqb_spec (GRID_index s c.1 c.2) (GRID_index s x y)) as [Ei|];
        [|auto].
      assert (Ec : cell_value s c = cell_value s (x, y)).
      { unfold cell_value, GRID. cbn [fst snd]. rewrite Ei. reflexivity. }
      rewrite Ec. split; [|intros _]; flag_bits; reflexivity.
  - (* ToggleColumnLock *)
    destruct (column_lock_accepted fuel s m x Hs Hrev Hread Hacc)
      as (t & Et & Hsh & Hn & Hex & Hfl).
    rewrite E in Et. injection Et as <-.
    assert (Hsc : scalars s s').
    { unfold apply_move, dup_game in E. rewrite Hnot, Hrev in E.
      destruct Hread as (p & Hp & Hscan). rewrite Hp in E.
      simpl negb in E. cbv iota in E. unfold lock_move in E. rewrite Hscan in E.
      cbn [mbind outcome_bind] in E.
      destruct ((x <? 1) || (w s <? x)); [discriminate|].
      apply bind_Done in E as (lc & _ & E). apply bind_Done in E as (t & Et & E).
      injection E as <-. replace (h s + 1) with (1 + h s) in Et by lia.
      rewrite for_range_run_list in Et.
      apply (run_list_inv _ (scalars s) _ _ _ Et); [apply scalars_refl|].
      intros gy u u' _ Hu Hstep. apply (scalars_trans s u u' Hu).
      unfold SETLOCKIF in Hstep.
      destruct (_ <? lc); apply GRID_update_Done in Hstep as [_ ->];
        repeat split. }
    apply Hframe; [exact Hsh | exact Hsc | |].
    { intros Hok k v Hk. rewrite Hex in Hk. apply (Hok k v Hk). }
    intros c Hc. destruct (Hfl c Hc) as (Hg & Ht & _). auto.
  - (* ToggleRowLock *)
    destruct (row_lock_accepted fuel s m y Hs Hrev Hread Hacc)
      as (t & Et & Hsh & Hn & Hex & Hfl).
    rewrite E in Et. injection Et as <-.
    assert (Hsc : scalars s s').
    { unfold apply_move, dup_game in E. rewrite Hnot, Hrev in E.
      destruct Hread as (p & Hp & Hscan). rewrite Hp in E.
      simpl negb in E. cbv iota in E. unfold lock_move in E. rewrite Hscan in E.
      cbn [mbind outcome_bind] in E.
      destruct ((y <? 1) || (h s <? y)); [discriminate|].
      apply bind_Done in E as (lc & _ & E). apply bind_Done in E as (t & Et & E).
      injection E as <-. replace (w s + 1) with (1 + w s) in Et by lia.
      rewrite for_range_run_list in Et.
      apply (run_list_inv _ (scalars s) _ _ _ Et); [apply scalars_refl|].
      intros gx u u' _ Hu Hstep. apply (scalars_trans s u u' Hu).
      unfold SETLOCKIF in Hstep.
      destruct (_ <? lc); apply GRID_update_Done in Hstep as [_ ->];
        repeat split. }
    apply Hframe; [exact Hsh | exact Hsc | |].
    { intros Hok k v Hk. rewrite Hex in Hk. apply (Hok k v Hk). }
    intros c Hc. destruct (Hfl c Hc) as (Hg & Ht & _). auto.
  - (* Fire *)
    destruct Hacc as [Hi He]. destruct Hread as (p & Hp & Hscan).
    unfold apply_move, dup_game in E. rewrite Hnot, Hrev, Hp in E.
    simpl negb in E. cbv iota in E. rewrite Hscan in E.
    cbn [mbind outcome_bind] in E. rewrite He in E.
    cbn [mbind outcome_bind] in E. rewrite Z.eqb_refl in E. cbn [negb] in E.
    destruct (range2grid s i) as [[[x y] d]|] eqn:Hr; [|discriminate].
    apply bind_Done in E as (t & Et & E). injection E as <-.
    apply (fire_laser_fuel fuel s t i x y d Hs Hr) in Et.
    destruct (fire_laser_shot s i x y d Hs Hr) as (t0 & Et0 & Hshot).
    rewrite Et in Et0. injection Et0 as <-.
    destruct Hshot as (Hsh & Ha & Hn & Hr' & Hmin & Hmax & _ & v & Hv & Hvok & Hpair & Hrest).
    apply Hframe; [exact Hsh | repeat split; assumption | |].
    { intros Hok k u Hk.
      destruct (decide (k = Z.to_nat i)) as [-> | Hki].
      { rewrite Hv in Hk. injection Hk as <-. right. exact Hvok. }
      destruct (decide (0 <= v < nlasers s)) as [Hvr | Hvr].
      - destruct (decide (k = Z.to_nat v)) as [-> | Hkv].
        + destruct (Hpair Hvr) as (_ & Hvi & _). rewrite Hvi in Hk.
          injection Hk as <-. right. right. right. exact Hi.
        + rewrite (Hrest k Hki (fun _ => Hkv)) in Hk. apply (Hok k u Hk).
      - rewrite (Hrest k Hki (fun H' => False_ind _ (Hvr H'))) in Hk.
        apply (Hok k u Hk). }
    intros c Hc. destruct (same_arena_flags s t c Ha Hc) as (Hg & Ht & _). auto.
  - (* Reveal *)
    destruct Hread as (p & Hp).
    unfold apply_move, dup_game in E. rewrite Hnot, Hrev, Hp in E.
    simpl negb in E. cbv iota in E.
    destruct ((nguesses s <? minballs s) || (maxballs s <? nguesses s));
      [discriminate|].
    apply bind_Done in E as ([ret s1] & Ec & E). injection E as <-.
    destruct (check_guesses_keeps_guesses fuel s s1 ret Hs Ec)
      as (Hsh & (Hn & Hmin & Hmax & _) & Hg).
    split; [destruct Hsh as (? & ? & ? & ? & ?); repeat split; assumption|].
    split; [exact Hmin|]. split; [exact Hmax|]. split; [|discriminate].
    change (nguesses (with_reveal s1 1)) with (nguesses s1).
    rewrite Hn. f_equal.
    apply (same_flags_count s (with_reveal s1 1)).
    + destruct Hsh as (? & ? & ? & ? & ?); repeat split; assumption.
    + intros c Hc. apply (Hg c Hc).
Qed.

Lemma reachable_invariant (s0 s : game_state) :
  square s0 ->
  nguesses s0 = count_cells (guessed s0) (arena_cells s0) ->
  exits_ok s0 s0 ->
  reachable s0 s -> game_invariant s0 s.
Proof.
  intros Hs0 Hn0 Hex0 Hreach. induction Hreach as [|fuel s s' m Hreach IH E].
  - split; [exact Hs0|]. split; [apply same_shape_refl|].
    split; [reflexivity|]. split; [reflexivity|]. split; [exact Hn0|]. auto.
  - destruct IH as (Hs & Hsh & Hmin & Hmax & Hn & Htrue).
    destruct (apply_move_step fuel s s' m Hs E)
      as (Hsh' & Hmin' & Hmax' & Hdiff & Hrev').
    split; [apply (same_shape_square s s' Hsh' Hs)|].
    split; [apply (same_shape_trans s0 s s' Hsh Hsh')|].
    split; [congruence|]. split; [congruence|]. split; [lia|].
    intros Hr. destruct (Hrev' Hr) as (Hr0 & Hex & Ht).
    destruct (Htrue Hr0) as [Hok Htrue0].
    split; [apply Hex, Hok|]. intros c Hc.
    assert (Hc0 : in_arena s c = true).
    { destruct Hsh' as (Hw & Hh & _). unfold in_arena in *.
      rewrite <- Hw, <- Hh. exact Hc. }
    rewrite (Ht c Hc0). apply (Htrue0 c Hc0).
Qed.

(** X16.  Through a whole game on a square board, started from a state that
    [new_game] made of a validated description, whatever moves are accepted:
    the state stays well formed with the dimensions and the ball bounds it
    started with, the number of guesses it carries is the number of arena
    cells marked as guessed, and as long as the game is not revealed every
    slot of the exit table is empty or holds Hit, Reflected or a laser
    index, and the true balls are where [new_game] put them. *)
Theorem game_keeps_invariant (p : game_params) (bmp : list Z)
        (s0 s : game_state) :
  validate_params p true = None ->
  params.w p = params.h p ->
  2 <= Z.of_nat (length bmp) ->
  validate_desc p (2 * Z.of_nat (length bmp)) bmp = Done None ->
  new_game (params.minballs p) (params.maxballs p) bmp = Done s0 ->
  reachable s0 s ->
  game_invariant s0 s.
Proof.
  intros Hp Hsq Hlen Hd E Hreach.
  destruct (new_game_square p bmp Hp Hsq Hlen Hd)
    as (s1 & E1 & Hs & _ & _ & _ & _ & _ & (_ & Hn & _ & Hempty & Hfl) & _).
  rewrite E in E1. injection E1 as <-.
  apply reachable_invariant; [exact Hs| | |exact Hreach].
  - rewrite Hn. symmetry. apply count_cells_none.
    intros c Hc. apply (Hfl c), in_arena_cells, Hc.
  - intros k v Hk. left. apply (Hempty k v Hk).
Qed.

Lemma game_keeps_invariant_witness :
  validate_params (params.mk_params 5 5 2 2) true = None /\
  validate_desc (params.mk_params 5 5 2 2) 12 [5; 5; 0; 0; 1; 1] = Done None /\
  new_game 2 2 [5; 5; 0; 0; 1; 1] = Done square_board /\
  reachable square_board square_board_guessed /\
  nguesses square_board_guessed
  = count_cells (guessed square_board_guessed) (arena_cells square_board_guessed).
Proof.
  assert (H1 : validate_params (params.mk_params 5 5 2 2) true = None)
    by reflexivity.
  assert (H2 : validate_desc (params.mk_params 5 5 2 2) 12 [5; 5; 0; 0; 1; 1]
               = Done None) by (vm_compute; reflexivity).
  assert (H3 : new_game 2 2 [5; 5; 0; 0; 1; 1] = Done square_board)
    by (vm_compute; reflexivity).
  assert (H4 : reachable square_board square_board_guessed).
  { apply (reach_move square_board 0
             (the_move (apply_move 0 square_board square_board "T1,1"))
             square_board_guessed "T3,3").
    - apply (reach_move square_board 0 square_board _ "T1,1");
        [apply reach_start | vm_compute; reflexivity].
    - vm_compute. reflexivity. }
  split; [exact H1|]. split; [exact H2|]. split; [exact H3|]. split; [exact H4|].
  exact (proj1 (proj2 (proj2 (proj2 (proj2
           (game_keeps_invariant (params.mk_params 5 5 2 2) [5; 5; 0; 0; 1; 1]
              square_board square_board_guessed H1 eq_refl
              ltac:(simpl; lia) H2 H3 H4)))))).
Defined.

(** ** The marks of the check *)

Lemma lor_below (a b : Z) :
  0 <= a < 32768 -> 0 <= b < 32768 -> 0 <= Z.lor a b < 32768.
Proof.
  intros Ha Hb.
  assert (H0 : 0 <= Z.lor a b) by (apply Z.lor_nonneg; lia).
  split; [exact H0|].
  destruct (Z.eq_dec (Z.lor a b) 0) as [-> | Hne]; [lia|].
  change 32768 with (2 ^ 15). apply Z.log2_lt_pow2; [lia|].
  rewrite Z.log2_lor by lia.
  assert (Hlog : forall c, 0 <= c < 32768 -> Z.log2 c < 15).
  { intros c Hc. destruct (Z.eq_dec c 0) as [-> | Hc0]; [reflexivity|].
    apply Z.log2_lt_pow2; [lia|]. change (2 ^ 15) with 32768. lia. }
  apply Z.max_lub_lt; apply Hlog; assumption.
Qed.

Lemma flag_lor (v f : Z) : f <> 0 -> flag_set (Z.lor v f) f = true.
Proof.
  intros Hf. unfold flag_set.
  assert (E : Z.land (Z.lor v f) f = f).
  { apply Z.bits_inj'. intros n _.
    rewrite Z.land_spec, Z.lor_spec.
    destruct (Z.testbit v n), (Z.testbit f n); reflexivity. }
  rewrite E. destruct (Z.eqb_spec f 0); [contradiction | reflexivity].
Qed.

Lemma marked_lor (v f : Z) :
  0 <= v < 32768 -> f = LASER_WRONG \/ f = LASER_OMITTED ->
  0 <= Z.lor v f < 32768 /\ marked (Z.lor v f) = true.
Proof.
  intros Hv Hf.
  assert (Hb : 0 <= Z.lor v f < 32768).
  { apply lor_below; [exact Hv|].
    destruct Hf as [-> | ->]; unfold LASER_WRONG, LASER_OMITTED; lia. }
  split; [exact Hb|]. unfold marked.
  destruct (Z.eqb_spec (Z.lor v f) LASER_EMPTY) as [E | _].
  { exfalso. revert E. change LASER_EMPTY with 4294967295. lia. }
  destruct Hf as [-> | ->].
  - rewrite flag_lor by discriminate. reflexivity.
  - rewrite (flag_lor v LASER_OMITTED) by discriminate. apply orb_true_r.
Qed.

(** A slot that holds what the laser shots write is not marked. *)
Lemma exit_ok_unmarked (s : game_state) (v : Z) :
  square s -> v = LASER_EMPTY \/ exit_ok s v ->
  marked v = false /\ (v = LASER_EMPTY \/ 0 <= v < 32768).
Proof.
  intros ((_ & _ & _ & Hn & _) & ([_ Hw] & [_ Hh]) & _) [-> | Hv].
  { split; [reflexivity | left; reflexivity]. }
  assert (Hcase : v = 8192 \/ v = 4096 \/ 0 <= v < 2048).
  { destruct Hv as [-> | [-> | Hv]]; [left | right; left | right; right];
      try reflexivity. lia. }
  split; [|right; lia].
  unfold marked. apply andb_false_intro2.
  assert (Hbits : Z.land v 16384 = 0 /\ Z.land v 2048 = 0).
  { destruct Hcase as [-> | [-> | Hlt]]; [split; reflexivity..|].
    split; apply Z.bits_inj'; intros n Hn0; rewrite Z.land_spec, Z.bits_0.
    - destruct (Z.testbit 16384 n) eqn:Eb; [|apply andb_false_r].
      assert (n = 14) as ->.
      { change 16384 with (2 ^ 14) in Eb. rewrite Z.pow2_bits_eqb in Eb by lia.
        apply Z.eqb_eq in Eb. lia. }
      rewrite andb_true_r. apply Z.bits_above_log2; [lia|].
      destruct (Z.eq_dec v 0) as [-> | Hv0]; [simpl; lia|].
      apply Z.log2_lt_pow2; [lia|]. change (2 ^ 14) with 16384. lia.
    - destruct (Z.testbit 2048 n) eqn:Eb; [|apply andb_false_r].
      assert (n = 11) as ->.
      { change 2048 with (2 ^ 11) in Eb. rewrite Z.pow2_bits_eqb in Eb by lia.
        apply Z.eqb_eq in Eb. lia. }
      rewrite andb_true_r. apply Z.bits_above_log2; [lia|].
      destruct (Z.eq_dec v 0) as [-> | Hv0]; [simpl; lia|].
      apply Z.log2_lt_pow2; [lia|]. change (2 ^ 11) with 2048. lia. }
  destruct Hbits as [H1 H2]. unfold flag_set, LASER_WRONG, LASER_OMITTED.
  rewrite H1, H2. reflexivity.
Qed.

Lemma exits_update_Done (s s' : game_state) (i : Z) (f : Z -> Z) :
  exits_update s i f = Done s' ->
  exists v, exits s !! Z.to_nat i = Some v /\
            0 <= i < Z.of_nat (length (exits s)) /\
            s' = with_exits s (<[Z.to_nat i := f v]> (exits s)).
Proof.
  unfold exits_update. intros E. apply bind_Done in E as (v & Ev & E).
  apply read_Done in Ev as [_ Ev]. apply exits_set_Done in E as [Hi ->].
  exists v. auto.
Qed.

(** [add_omitted] leaves in the slot of the laser the exit of the solution
    with [LASER_OMITTED] set, and touches no other slot. *)
Lemma add_omitted_exits (s s' : game_state) (i x y es : Z) :
  add_omitted s i x y es = Done s' ->
  0 <= i < Z.of_nat (length (exits s)) /\
  exits s' = <[Z.to_nat i := Z.lor es LASER_OMITTED]> (exits s).
Proof.
  unfold add_omitted. intros E.
  apply bind_Done in E as (s1 & E1 & E). apply exits_set_Done in E1 as [Hi ->].
  apply bind_Done in E as (e & Ee & E).
  apply bind_Done in E as (s2 & E2 & E).
  split; [exact Hi|].
  assert (H2 : exits s2 = <[Z.to_nat i := es]> (exits s)).
  { destruct ((e =? LASER_REFLECT) || (e =? LASER_HIT)).
    - apply GRID_set_Done in E2 as [_ ->]. reflexivity.
    - apply bind_Done in E2 as ([[ex ey] d] & _ & E2).
      apply bind_Done in E2 as (s3 & E3 & E2).
      apply GRID_set_Done in E3 as [_ ->].
      apply GRID_set_Done in E2 as [_ ->]. reflexivity. }
  apply exits_update_Done in E as (v & Hv & _ & ->).
  cbn [exits with_exits]. rewrite H2 in Hv |- *.
  rewrite list_lookup_insert_eq in Hv by lia. injection Hv as <-.
  apply list_insert_insert_eq.
Qed.

(** Writing a mark into one slot keeps [marking], with the verdict 0. *)
Lemma marking_slot (s t t' : game_state) (r i n : Z) :
  Z.of_nat (length (exits s)) = nlasers s ->
  marking s (t, r) ->
  0 <= i < nlasers s ->
  exits t' = <[Z.to_nat i := n]> (exits t) ->
  0 <= n < 32768 -> marked n = true ->
  marking s (t', 0).
Proof.
  intros Hlen (Hl & Hb & Hc & Hv) Hi Ht' Hn Hm. cbn [fst snd] in *.
  assert (Hslot : exits t' !! Z.to_nat i = Some n).
  { rewrite Ht'. apply list_lookup_insert_eq. lia. }
  assert (Hother : forall k, k <> Z.to_nat i -> exits t' !! k = exits t !! k).
  { intros k Hk. rewrite Ht'. apply list_lookup_insert_ne. auto. }
  unfold marking. cbn [fst snd].
  split; [rewrite Ht', length_insert; exact Hl|]. split; [|split].
  - intros k v Hk. destruct (decide (k = Z.to_nat i)) as [-> | Hne].
    + rewrite Hslot in Hk. injection Hk as <-. right. exact Hn.
    + rewrite (Hother k Hne) in Hk. apply (Hb k v Hk).
  - intros k v Hk. destruct (decide (k = Z.to_nat i)) as [-> | Hne].
    + rewrite Hslot in Hk. injection Hk as <-. right. exact Hm.
    + rewrite (Hother k Hne) in Hk. apply (Hc k v Hk).
  - right. split; [reflexivity|]. exists i, n. auto.
Qed.

(** One comparison keeps [marking]. *)
Lemma compare_exit_marking (s sol gue : game_state) (i : Z)
      (p p' : game_state * Z) :
  square s -> 0 <= i < nlasers s -> fired s sol i ->
  marking s p -> compare_exit sol gue i p = Done p' -> marking s p'.
Proof.
  intros Hs Hi (es0 & Hes0 & Hesok) Hp E.
  pose proof Hs as ((_ & _ & _ & _ & Hlen) & _).
  destruct p as [t r]. unfold compare_exit in E.
  apply bind_Done in E as ([[x y] d] & _ & E).
  apply bind_Done in E as (es & Ees & E). apply bind_Done in E as (eg & _ & E).
  apply read_Done in Ees as [_ Ees]. rewrite Hes0 in Ees. injection Ees as <-.
  destruct (es0 =? eg); [injection E as <-; exact Hp|].
  apply bind_Done in E as (e & Ee & E). apply bind_Done in E as (t' & E' & E).
  injection E as <-. apply read_Done in Ee as [_ Ee].
  destruct (exit_ok_unmarked s es0 Hs (or_intror Hesok)) as [_ [Hemp | Hes]].
  { exfalso. subst es0. destruct Hesok as [H | [H | H]]; revert H;
      change LASER_EMPTY with 4294967295; unfold LASER_HIT, LASER_REFLECT;
      try discriminate.
    destruct Hs as ((_ & _ & _ & Hn & _) & ([_ Hw] & [_ Hh]) & _). lia. }
  destruct (Z.eqb_spec e LASER_EMPTY) as [-> | Hne].
  - apply add_omitted_exits in E' as [_ Ex].
    destruct (marked_lor es0 LASER_OMITTED Hes (or_intror eq_refl)) as [Hn Hm].
    apply (marking_slot s t t' r i _ Hlen Hp Hi Ex Hn Hm).
  - apply exits_update_Done in E' as (v & Hv & _ & ->).
    rewrite Ee in Hv. injection Hv as <-. cbn beta.
    destruct Hp as (Hl & Hb & Hrest). cbn [fst] in Hb.
    destruct (Hb _ _ Ee) as [He | He]; [contradiction|].
    destruct (marked_lor e LASER_WRONG He (or_introl eq_refl)) as [Hn Hm].
    apply (marking_slot s t
             (with_exits t (<[Z.to_nat i := Z.lor e LASER_WRONG]> (exits t)))
             r i (Z.lor e LASER_WRONG) Hlen (conj Hl (conj Hb Hrest)) Hi
             eq_refl Hn Hm).
Qed.

(** What the check leaves in the exit table of a square board whose slots
    hold what the laser shots write. *)
Lemma check_guesses_marks (s s1 : game_state) (ret : Z) :
  square s -> exits_ok s s ->
  check_guesses (enough_fuel s) s = Done (ret, s1) ->
  (forall k v, exits s1 !! k = Some v ->
               exits s !! k = Some v \/ marked v = true) /\
  ((ret = 1 /\ exits s1 = exits s) \/
   (ret = 0 /\ exists i v, 0 <= i < nlasers s /\
                           exits s1 !! Z.to_nat i = Some v /\
                           marked v = true)).
Proof.
  intros Hs Hok E.
  destruct (clear_lasers_square s Hs) as (sol & E1 & Hsh1 & _).
  pose proof (same_shape_square s sol Hsh1 Hs) as Hsol.
  pose proof (clear_lasers_exits s sol Hs E1) as Hoksol.
  pose proof Hsh1 as (Hw1 & Hh1 & Hn1 & _).
  destruct (guess_all_square sol Hsol) as (gue & E2 & Hsh2 & _).
  rewrite Hw1, Hh1 in E2.
  pose proof (same_shape_trans s sol gue Hsh1 Hsh2) as Hsg.
  destruct (fire_pairs_square s sol gue Hs Hsh1 Hsg Hoksol)
    as (sol' & gue' & E3 & Hsh3 & _ & Hfired).
  apply check_guesses_Done in E
    as (sol0 & gue0 & sol0' & gue0' & st1 & st2 & F1 & F2 & F3 & F4 & F5 & F6).
  change (dup_game s) with s in F1. rewrite E1 in F1. injection F1 as <-.
  change (dup_game sol) with sol in F2. rewrite E2 in F2. injection F2 as <-.
  replace (nlasers sol) with (0 + nlasers s) in F3 by lia.
  rewrite for_range_run_list, E3 in F3. injection F3 as <- <-.
  pose proof Hsh3 as (_ & _ & Hn3 & _).
  replace (nlasers sol') with (0 + nlasers s) in F4 by lia.
  rewrite for_range_run_list in F4.
  assert (Hmark : marking s (st1, ret)).
  { apply (run_list_inv _ (marking s) _ _ _ F4).
    - split; [reflexivity|]. split; [|split].
      + intros k v Hk. apply (exit_ok_unmarked s v Hs (Hok k v Hk)).
      + intros k v Hk. left. exact Hk.
      + left. auto.
    - intros i p p' Hi Hp Hstep. apply elem_of_seqZ in Hi.
      apply (compare_exit_marking s sol' gue' i p p' Hs);
        [lia | apply Hfired; lia | exact Hp | exact Hstep]. }
  assert (Hex : exits s1 = exits st1).
  { apply count_balls_Done in F6 as (-> & _). cbn [exits with_counts].
    destruct (ret =? 0); [injection F5 as <-; reflexivity|].
    rewrite for_arena_run_list in F5. apply fix_run_board in F5.
    rewrite F5. reflexivity. }
  destruct Hmark as (_ & _ & Hc & Hv). cbn [fst snd] in *. rewrite Hex.
  split; [exact Hc|].
  destruct Hv as [[-> ->] | [-> Hv]]; [left | right]; auto.
Qed.

(** X17.  Reveal on a square board whose exit table holds what the laser
    shots write (no slot is marked yet), asked for in the guessing phase
    with the number of guesses within the bounds: the move is accepted and
    sets [reveal]; a slot of the exit table that differs afterwards is
    marked wrong or omitted; where the check reports the guesses consistent
    the exit table is unchanged, and where it reports them inconsistent at
    least one laser is marked. *)
Theorem reveal_marks_lasers (s : game_state) :
  square s -> exits_ok s s -> reveal s = 0 ->
  minballs s <= nguesses s <= maxballs s ->
  (forall k v, exits s !! k = Some v -> marked v = false) /\
  exists ret chk s',
    check_guesses (enough_fuel s) s = Done (ret, chk) /\
    apply_move (enough_fuel s) s (dup_game s) "R" = Done (Some s') /\
    reveal s' = 1 /\
    (forall k v, exits s' !! k = Some v ->
                 exits s !! k = Some v \/ marked v = true) /\
    ((ret = 1 /\ exits s' = exits s) \/
     (ret = 0 /\ exists i v, 0 <= i < nlasers s /\
                             exits s' !! Z.to_nat i = Some v /\
                             marked v = true)).
Proof.
  intros Hs Hok Hr Hn. split.
  { intros k v Hk. apply (exit_ok_unmarked s v Hs (Hok k v Hk)). }
  destruct (check_guesses_total_square s Hs) as (ret & s1 & E & _).
  exists ret, s1, (with_reveal s1 1). split; [exact E|]. split.
  { unfold apply_move, dup_game. simpl. rewrite Hr. simpl.
    destruct (Z.ltb_spec (nguesses s) (minballs s)); [lia|].
    destruct (Z.ltb_spec (maxballs s) (nguesses s)); [lia|].
    simpl. rewrite E. reflexivity. }
  split; [reflexivity|].
  apply (check_guesses_marks s s1 ret Hs Hok E).
Qed.

Lemma reveal_marks_lasers_witness :
  square square_board_guessed /\ exits_ok square_board_guessed square_board_guessed /\
  exists ret chk s',
    check_guesses (enough_fuel square_board_guessed) square_board_guessed
      = Done (ret, chk) /\
    apply_move (enough_fuel square_board_guessed) square_board_guessed
      (dup_game square_board_guessed) "R" = Done (Some s') /\
    reveal s' = 1.
Proof.
  assert (Hs : square square_board_guessed)
    by (unfold square, wf_state, valid_dims; simpl; lia).
  assert (Hok : exits_ok square_board_guessed square_board_guessed).
  { intros k v Hk. left.
    change (exits square_board_guessed)
      with (replicate 20 LASER_EMPTY) in Hk.
    apply lookup_replicate in Hk as [-> _]. reflexivity. }
  split; [exact Hs|]. split; [exact Hok|].
  destruct (reveal_marks_lasers square_board_guessed Hs Hok eq_refl
              ltac:(simpl; lia))
    as (_ & ret & chk & s' & E1 & E2 & E3 & _).
  exists ret, chk, s'. auto.
Defined.

(** * The code over the heap *)

(** ** Blocks of the heap *)

Ltac map_cases :=
  apply map_eq; intros ?k;
  repeat (rewrite lookup_insert || rewrite lookup_delete);
  repeat case_decide; subst; congruence.

Lemma memory_eq (a a' : gmap positive game_struct)
      (b b' : gmap positive (list Z)) :
  a = a' -> b = b' -> mk_memory a b = mk_memory a' b'.
Proof. intros -> ->. reflexivity. Qed.

Lemma lies_at_inject (p gp ep : positive) (m : memory) (s : game_state) :
  gp <> ep -> lies_at p gp ep (inject p gp ep s m) s.
Proof.
  intros Hne. unfold lies_at, inject. cbn [structs arrays].
  rewrite lookup_insert_eq, lookup_insert_eq.
  rewrite lookup_insert_ne by congruence. rewrite lookup_insert_eq. auto.
Qed.

Lemma inject_inject (p gp ep : positive) (m : memory) (a b : game_state) :
  inject p gp ep b (inject p gp ep a m) = inject p gp ep b m.
Proof. unfold inject. cbn [structs arrays]. apply memory_eq; map_cases. Qed.

Lemma inject_id (p gp ep : positive) (m : memory) (s : game_state) :
  lies_at p gp ep m s -> inject p gp ep s m = m.
Proof.
  intros (Hp & Hg & He & Hne). destruct m as [st ar]. unfold inject.
  cbn [structs arrays] in *. apply memory_eq.
  - apply insert_id, Hp.
  - rewrite (insert_id ar gp) by exact Hg. apply insert_id, He.
Qed.

Lemma inject_comm (p gp ep q gq eq : positive) (m : memory)
      (a b : game_state) :
  apart p gp ep q gq eq ->
  inject p gp ep a (inject q gq eq b m) = inject q gq eq b (inject p gp ep a m).
Proof.
  intros (H1 & H2 & H3 & H4 & H5). unfold inject. cbn [structs arrays].
  apply memory_eq; map_cases.
Qed.

Lemma lies_at_inject_other (p gp ep q gq eq : positive) (m : memory)
      (a t : game_state) :
  apart p gp ep q gq eq -> lies_at q gq eq m t ->
  lies_at q gq eq (inject p gp ep a m) t.
Proof.
  intros (H1 & H2 & H3 & H4 & H5) (Hq & Hg & He & Hne).
  unfold lies_at, inject. cbn [structs arrays].
  rewrite !lookup_insert_ne by congruence. auto.
Qed.

Lemma apart_sym (p gp ep q gq eq : positive) :
  apart p gp ep q gq eq -> apart q gq eq p gp ep.
Proof. unfold apart. intuition congruence. Qed.

Lemma erase_inject (p gp ep : positive) (m : memory) (s : game_state) :
  erase p gp ep (inject p gp ep s m) = erase p gp ep m.
Proof. unfold erase, inject. cbn [structs arrays]. apply memory_eq; map_cases. Qed.

Lemma erase_inject_other (p gp ep q gq eq : positive) (m : memory)
      (t : game_state) :
  apart p gp ep q gq eq ->
  erase p gp ep (inject q gq eq t m) = inject q gq eq t (erase p gp ep m).
Proof.
  intros (H1 & H2 & H3 & H4 & H5). unfold erase, inject. cbn [structs arrays].
  apply memory_eq; map_cases.
Qed.

Lemma erase_fresh (p gp ep : positive) (m : memory) :
  structs m !! p = None -> arrays m !! gp = None -> arrays m !! ep = None ->
  erase p gp ep m = m.
Proof.
  intros Hp Hg He. destruct m as [st ar]. unfold erase.
  cbn [structs arrays] in *. apply memory_eq.
  - apply delete_id, Hp.
  - rewrite (delete_id ar ep) by exact He. apply delete_id, Hg.
Qed.

Lemma kept_refl (m : memory) : kept m m.
Proof. split; reflexivity. Qed.

Lemma kept_inject_fresh (p gp ep : positive) (m : memory) (s : game_state) :
  structs m !! p = None -> arrays m !! gp = None -> arrays m !! ep = None ->
  kept m (inject p gp ep s m).
Proof.
  intros Hp Hg He. unfold kept, inject. cbn [structs arrays]. split.
  - apply insert_subseteq, Hp.
  - apply map_subseteq_spec. intros k v Hk.
    rewrite !lookup_insert_ne by congruence. exact Hk.
Qed.

(** ** The accesses *)

Section Accesses.
Variables (p gp ep : positive) (m : memory) (s : game_state).
Hypothesis Hat : lies_at p gp ep m s.

Lemma load_at : Heap.load p m = Done (struct_of s gp ep).
Proof. destruct Hat as (Hp & _). unfold Heap.load. rewrite Hp. reflexivity. Qed.

Lemma grid_words_at : Heap.words gp m = Done (grid s).
Proof. destruct Hat as (_ & Hg & _). unfold Heap.words. rewrite Hg. reflexivity. Qed.

Lemma exits_words_at : Heap.words ep m = Done (exits s).
Proof. destruct Hat as (_ & _ & He & _). unfold Heap.words. rewrite He. reflexivity. Qed.

Lemma GRID_at (x y : Z) : Heap.GRID p x y m = GRID s x y.
Proof.
  unfold Heap.GRID. rewrite load_at. cbn [mbind outcome_bind struct_of block.grid].
  rewrite grid_words_at. reflexivity.
Qed.

Lemma exits_get_at (i : Z) : Heap.exits_get p i m = exits_get s i.
Proof.
  unfold Heap.exits_get. rewrite load_at.
  cbn [mbind outcome_bind struct_of block.exits].
  rewrite exits_words_at. reflexivity.
Qed.

(** A write of scalar fields. *)
Lemma store_at (s' : game_state) :
  grid s' = grid s -> exits s' = exits s ->
  Heap.store p (struct_of s' gp ep) m = Done (inject p gp ep s' m).
Proof.
  intros Hg He. unfold Heap.store. rewrite load_at. cbn [mbind outcome_bind].
  destruct Hat as (_ & Hgm & Hem & Hne). unfold inject, mret, outcome_ret.
  f_equal. destruct m as [st ar]. cbn [structs arrays] in *.
  apply memory_eq; [reflexivity|].
  rewrite Hg, He. rewrite (insert_id ar gp) by exact Hgm.
  symmetry. apply insert_id, Hem.
Qed.

Lemma GRID_set_at (x y v : Z) :
  Heap.GRID_set p x y v m = commit p gp ep m (GRID_set s x y v).
Proof.
  unfold Heap.GRID_set, GRID_set, commit. rewrite load_at.
  cbn [mbind outcome_bind struct_of block.grid block.h].
  rewrite grid_words_at. cbn [mbind outcome_bind].
  change (y * (h s + 2) + x) with (GRID_index s x y).
  destruct (write (grid s) (GRID_index s x y) v) as [g| |]; [|reflexivity..].
  cbn [mbind outcome_bind mret outcome_ret]. f_equal.
  destruct Hat as (Hp & Hgm & Hem & Hne). unfold inject.
  destruct m as [st ar]. cbn [structs arrays grid exits with_grid] in *.
  apply memory_eq.
  - symmetry. apply insert_id. exact Hp.
  - symmetry. apply insert_id. rewrite lookup_insert_ne by congruence. exact Hem.
Qed.

Lemma exits_set_at (i v : Z) :
  Heap.exits_set p i v m = commit p gp ep m (exits_set s i v).
Proof.
  unfold Heap.exits_set, exits_set, commit. rewrite load_at.
  cbn [mbind outcome_bind struct_of block.exits].
  rewrite exits_words_at. cbn [mbind outcome_bind].
  destruct (write (exits s) i v) as [e| |]; [|reflexivity..].
  cbn [mbind outcome_bind mret outcome_ret]. f_equal.
  destruct Hat as (Hp & Hgm & Hem & Hne). unfold inject.
  destruct m as [st ar]. cbn [structs arrays grid exits with_exits] in *.
  apply memory_eq.
  - symmetry. apply insert_id. exact Hp.
  - rewrite (insert_id ar gp) by exact Hgm. reflexivity.
Qed.

Lemma range2grid_at (i : Z) :
  Heap.range2grid p i m = Done (range2grid s i).
Proof. unfold Heap.range2grid. rewrite load_at. reflexivity. Qed.

Lemma grid2range_at (x y : Z) :
  Heap.grid2range p x y m = Done (grid2range s x y).
Proof. unfold Heap.grid2range. rewrite load_at. reflexivity. Qed.

Lemma isball_at (gx gy d : Z) (lw : look) :
  Heap.isball p gx gy d lw m = isball s gx gy d lw.
Proof.
  unfold Heap.isball, isball.
  destruct (OFFSET gx gy d) as [x1 y1].
  destruct (match lw with
            | LOOK_LEFT => OFFSET x1 y1 (d - 1)
            | LOOK_FORWARD => (x1, y1)
            | LOOK_RIGHT => OFFSET x1 y1 (d + 1)
            end) as [x2 y2].
  rewrite load_at. cbn [mbind outcome_bind struct_of block.h block.w].
  rewrite GRID_at. reflexivity.
Qed.

Lemma free_game_at : Heap.free_game p m = Done (erase p gp ep m).
Proof.
  unfold Heap.free_game. rewrite load_at.
  cbn [mbind outcome_bind struct_of block.exits block.grid].
  rewrite exits_words_at. cbn [mbind outcome_bind].
  destruct Hat as (_ & Hg & _ & Hne).
  rewrite lookup_delete_ne by congruence. rewrite Hg. reflexivity.
Qed.

End Accesses.

Lemma memcpy_all (l : list Z) (n : Z) :
  Z.of_nat (length l) = n -> memcpy l n = Done l.
Proof.
  intros H. unfold memcpy.
  destruct (Z.ltb_spec n 0); [lia|].
  destruct (Z.ltb_spec (Z.of_nat (length l)) n); [lia|].
  cbn [orb]. rewrite take_ge by lia. reflexivity.
Qed.

(** [dup_game] on a state whose arrays have their sizes: three blocks that
    were not allocated before hold a copy, and nothing else changes. *)
Lemma dup_game_copy (p gp ep : positive) (m : memory) (s : game_state) :
  lies_at p gp ep m s -> sized s ->
  let r := fresh (dom (structs m)) in
  let rg := fresh (dom (arrays m)) in
  let re := fresh (dom (<[rg := grid s]> (arrays m))) in
  Heap.dup_game p m = Done (r, inject r rg re s m) /\
  structs m !! r = None /\ arrays m !! rg = None /\ arrays m !! re = None /\
  rg <> re /\ apart p gp ep r rg re.
Proof.
  intros Hat [Hsg Hse] r rg re.
  assert (Hr : structs m !! r = None) by apply not_elem_of_dom, is_fresh.
  assert (Hrg : arrays m !! rg = None) by apply not_elem_of_dom, is_fresh.
  assert (Hre' : <[rg := grid s]> (arrays m) !! re = None)
    by apply not_elem_of_dom, is_fresh.
  apply lookup_insert_None in Hre' as [Hre Hne].
  pose proof Hat as (Hp & Hg & He & Hge).
  split.
  { unfold Heap.dup_game. rewrite (load_at p gp ep m s Hat).
    cbn [mbind outcome_bind struct_of block.grid block.exits block.w block.h
         block.nlasers].
    rewrite (grid_words_at p gp ep m s Hat). cbn [mbind outcome_bind].
    rewrite (memcpy_all _ _ Hsg). cbn [mbind outcome_bind].
    rewrite (exits_words_at p gp ep m s Hat). cbn [mbind outcome_bind].
    rewrite (memcpy_all _ _ Hse). reflexivity. }
  split; [exact Hr|]. split; [exact Hrg|]. split; [exact Hre|].
  split; [exact Hne|].
  unfold apart. repeat split; intros ->; congruence.
Qed.

(** ** Loops over the heap *)

Lemma for_loop_ext {St} (f g : Z -> St -> outcome St) (n : nat) :
  forall (lo : Z) (a : St),
    (forall i a, f i a = g i a) -> for_loop n lo f a = for_loop n lo g a.
Proof.
  induction n as [|n IH]; intros lo a H; simpl; [reflexivity|].
  rewrite H. destruct (g lo a); simpl; auto.
Qed.

(** A loop whose body works on the state at [p], in a memory that keeps
    [Inv] whatever is written there. *)
Lemma for_loop_at (p gp ep : positive) (Inv : memory -> Prop)
      (bp : Z -> memory -> outcome memory)
      (b : Z -> game_state -> outcome game_state) :
  gp <> ep ->
  (forall m s', Inv m -> Inv (inject p gp ep s' m)) ->
  (forall i m s, Inv m -> lies_at p gp ep m s ->
     bp i m = commit p gp ep m (b i s)) ->
  forall (n : nat) (lo : Z) (m : memory) (s : game_state),
    Inv m -> lies_at p gp ep m s ->
    for_loop n lo bp m = commit p gp ep m (for_loop n lo b s).
Proof.
  intros Hne Hinv Hbody. induction n as [|n IH]; intros lo m s HI Hat; simpl.
  - unfold commit. cbn [mbind outcome_bind mret outcome_ret].
    rewrite (inject_id _ _ _ _ _ Hat). reflexivity.
  - rewrite (Hbody lo m s HI Hat). unfold commit at 1.
    destruct (b lo s) as [s1| |]; cbn [mbind outcome_bind mret outcome_ret];
      [|reflexivity..].
    rewrite (IH (lo + 1) (inject p gp ep s1 m) s1 (Hinv _ _ HI)
               (lies_at_inject _ _ _ _ _ Hne)).
    unfold commit. destruct (for_loop n (lo + 1) b s1);
      cbn [mbind outcome_bind mret outcome_ret]; [|reflexivity..].
    rewrite inject_inject. reflexivity.
Qed.

Lemma for_range_at (p gp ep : positive) (Inv : memory -> Prop)
      (bp : Z -> memory -> outcome memory)
      (b : Z -> game_state -> outcome game_state) (lo hi : Z)
      (m : memory) (s : game_state) :
  gp <> ep ->
  (forall m s', Inv m -> Inv (inject p gp ep s' m)) ->
  (forall i m s, Inv m -> lies_at p gp ep m s ->
     bp i m = commit p gp ep m (b i s)) ->
  Inv m -> lies_at p gp ep m s ->
  for_range lo hi bp m = commit p gp ep m (for_range lo hi b s).
Proof.
  intros Hne Hinv Hbody HI Hat. unfold for_range.
  apply (for_loop_at p gp ep Inv); assumption.
Qed.

Lemma for_arena_at (p gp ep : positive) (Inv : memory -> Prop)
      (bp : Z -> Z -> memory -> outcome memory)
      (b : Z -> Z -> game_state -> outcome game_state) (wd ht : Z)
      (m : memory) (s : game_state) :
  gp <> ep ->
  (forall m s', Inv m -> Inv (inject p gp ep s' m)) ->
  (forall x y m s, Inv m -> lies_at p gp ep m s ->
     bp x y m = commit p gp ep m (b x y s)) ->
  Inv m -> lies_at p gp ep m s ->
  for_arena wd ht bp m = commit p gp ep m (for_arena wd ht b s).
Proof.
  intros Hne Hinv Hbody HI Hat. unfold for_arena.
  apply (for_range_at p gp ep Inv); try assumption.
  intros x m1 s1 HI1 Hat1.
  apply (for_range_at p gp ep Inv); try assumption.
  intros y m2 s2 HI2 Hat2. apply Hbody; assumption.
Qed.

(** ** The procedures that work on one state *)

Ltac settle :=
  cbn [mbind outcome_bind mret outcome_ret assert_some assert_true];
  rewrite ?inject_inject.

Ltac finish :=
  unfold commit; settle;
  repeat match goal with
  | |- context [mbind _ ?o] => destruct o; settle
  end;
  rewrite ?inject_inject; reflexivity.

Section OneState.
Variables (p gp ep : positive).
Hypothesis Hne : gp <> ep.

Lemma here (m : memory) (s : game_state) :
  lies_at p gp ep (inject p gp ep s m) s.
Proof. apply lies_at_inject, Hne. Qed.

Lemma GRID_update_at (m : memory) (s : game_state) (x y : Z) (f : Z -> Z) :
  lies_at p gp ep m s ->
  Heap.GRID_update p x y f m = commit p gp ep m (GRID_update s x y f).
Proof.
  intros Hat. unfold Heap.GRID_update, GRID_update.
  rewrite (GRID_at _ _ _ _ _ Hat).
  destruct (GRID s x y) as [v| |]; [|reflexivity..]. settle.
  apply GRID_set_at, Hat.
Qed.

Lemma exits_update_at (m : memory) (s : game_state) (i : Z) (f : Z -> Z) :
  lies_at p gp ep m s ->
  Heap.exits_update p i f m = commit p gp ep m (exits_update s i f).
Proof.
  intros Hat. unfold Heap.exits_update, exits_update.
  rewrite (exits_get_at _ _ _ _ _ Hat).
  destruct (exits_get s i) as [v| |]; [|reflexivity..]. settle.
  apply exits_set_at, Hat.
Qed.

Lemma laserno_incr_at (m : memory) (s : game_state) :
  lies_at p gp ep m s ->
  Heap.laserno_incr p m
  = Done (laserno s, inject p gp ep (with_laserno s (laserno s + 1)) m).
Proof.
  intros Hat. unfold Heap.laserno_incr. rewrite (load_at _ _ _ _ _ Hat).
  settle.
  change (block.with_laserno (struct_of s gp ep)
            (block.laserno (struct_of s gp ep) + 1))
    with (struct_of (with_laserno s (laserno s + 1)) gp ep).
  rewrite (store_at _ _ _ _ _ Hat) by reflexivity. reflexivity.
Qed.

Lemma laser_exit_at (m : memory) (s : game_state) (xs ys lno x y : Z) :
  lies_at p gp ep m s ->
  Heap.laser_exit p xs ys lno x y m
  = commit p gp ep m (laser_exit s xs ys lno x y).
Proof.
  intros Hat. unfold Heap.laser_exit, laser_exit.
  rewrite (laserno_incr_at _ _ Hat). settle.
  set (s1 := with_laserno s (laserno s + 1)).
  destruct ((xs =? x) && (ys =? y)).
  - rewrite (GRID_set_at _ _ _ _ _ (here m s1)). unfold commit at 1.
    destruct (GRID_set s1 x y LASER_REFLECT) as [s2| |]; settle;
      [|reflexivity..].
    rewrite (exits_set_at _ _ _ _ _ (here m s2)). finish.
  - rewrite (GRID_set_at _ _ _ _ _ (here m s1)). unfold commit at 1.
    destruct (GRID_set s1 xs ys (to_unsigned (laserno s))) as [s2| |]; settle;
      [|reflexivity..].
    rewrite (GRID_set_at _ _ _ _ _ (here m s2)). unfold commit at 1.
    destruct (GRID_set s2 x y (to_unsigned (laserno s))) as [s3| |]; settle;
      [|reflexivity..].
    rewrite (grid2range_at _ _ _ _ _ (here m s3)). settle.
    destruct (grid2range s3 x y) as [exitno|]; settle; [|reflexivity].
    rewrite (exits_set_at _ _ _ _ _ (here m s3)). unfold commit at 1.
    destruct (exits_set s3 lno (to_unsigned exitno)) as [s4| |]; settle;
      [|reflexivity..].
    rewrite (exits_set_at _ _ _ _ _ (here m s4)). finish.
Qed.

Lemma hit_at (m : memory) (s : game_state) (x y lno v : Z) :
  lies_at p gp ep m s ->
  (m1 ← Heap.GRID_set p x y v m; Heap.exits_set p lno v m1)
  = commit p gp ep m (s1 ← GRID_set s x y v; exits_set s1 lno v).
Proof.
  intros Hat. rewrite (GRID_set_at _ _ _ _ _ Hat). unfold commit at 1.
  destruct (GRID_set s x y v) as [s1| |]; settle; [|reflexivity..].
  rewrite (exits_set_at _ _ _ _ _ (here m s1)). finish.
Qed.

Lemma laser_loop_at (fuel : nat) :
  forall (m : memory) (s : game_state) (xs ys lno x y d : Z),
    lies_at p gp ep m s ->
    Heap.laser_loop fuel p xs ys lno x y d m
    = commit p gp ep m (laser_loop fuel s xs ys lno x y d).
Proof.
  induction fuel as [|fuel IH]; intros m s xs ys lno x y d Hat;
    [reflexivity|].
  cbn [Heap.laser_loop laser_loop].
  rewrite (grid2range_at _ _ _ _ _ Hat). settle.
  destruct (grid2range s x y) as [j|].
  { apply laser_exit_at, Hat. }
  rewrite (GRID_at _ _ _ _ _ Hat).
  destruct (GRID s x y) as [v| |]; settle; [|reflexivity..].
  destruct (Z.land v BALL_CORRECT =? 0); settle; [|reflexivity].
  rewrite !(isball_at _ _ _ _ _ Hat).
  destruct (isball s x y d LOOK_FORWARD) as [[|]| |]; settle;
    [apply hit_at, Hat | | reflexivity..].
  destruct (isball s x y d LOOK_LEFT) as [[|]| |]; settle;
    [apply IH, Hat | | reflexivity..].
  destruct (isball s x y d LOOK_RIGHT) as [[|]| |]; settle;
    [apply IH, Hat | | reflexivity..].
  destruct (OFFSET x y d) as [x' y']. apply IH, Hat.
Qed.

Lemma fire_laser_at (fuel : nat) (m : memory) (s : game_state) (x y d : Z) :
  lies_at p gp ep m s ->
  Heap.fire_laser fuel p x y d m = commit p gp ep m (fire_laser fuel s x y d).
Proof.
  intros Hat. unfold Heap.fire_laser, fire_laser.
  rewrite (grid2range_at _ _ _ _ _ Hat). settle.
  destruct (grid2range s x y) as [lno|]; settle; [|reflexivity].
  rewrite !(isball_at _ _ _ _ _ Hat).
  destruct (isball s x y d LOOK_FORWARD) as [[|]| |]; settle;
    [apply hit_at, Hat | | reflexivity..].
  destruct (isball s x y d LOOK_LEFT) as [[|]| |]; settle;
    [apply hit_at, Hat | | reflexivity..].
  destruct (isball s x y d LOOK_RIGHT) as [[|]| |]; settle;
    [apply hit_at, Hat | | reflexivity..].
  destruct (OFFSET x y d) as [x' y']. apply laser_loop_at, Hat.
Qed.

Lemma clear_lasers_at (m : memory) (s : game_state) :
  lies_at p gp ep m s ->
  Heap.clear_lasers p m = commit p gp ep m (clear_lasers s).
Proof.
  intros Hat. unfold Heap.clear_lasers, clear_lasers.
  rewrite (load_at _ _ _ _ _ Hat). settle.
  change (block.nlasers (struct_of s gp ep)) with (nlasers s).
  apply (for_range_at p gp ep (fun _ => True)); auto.
  intros i m1 s1 _ Hat1.
  rewrite (range2grid_at _ _ _ _ _ Hat1). settle.
  destruct (range2grid s1 i) as [[[x y] d]|]; settle; [|reflexivity].
  rewrite (GRID_set_at _ _ _ _ _ Hat1). unfold commit at 1.
  destruct (GRID_set s1 x y 0) as [s2| |]; settle; [|reflexivity..].
  rewrite (exits_set_at _ _ _ _ _ (here m1 s2)). finish.
Qed.

Lemma guess_to_correct_at (m : memory) (s : game_state) (x y : Z) :
  lies_at p gp ep m s ->
  Heap.guess_to_correct p x y m = commit p gp ep m (guess_to_correct x y s).
Proof.
  intros Hat. unfold Heap.guess_to_correct, guess_to_correct.
  rewrite (GRID_update_at _ _ _ _ _ Hat). unfold commit at 1.
  destruct (GRID_update s x y _) as [s1| |]; settle; [|reflexivity..].
  rewrite (GRID_at _ _ _ _ _ (here m s1)).
  destruct (GRID s1 x y) as [v| |]; settle; [|reflexivity..].
  destruct (flag_set v BALL_GUESS).
  - rewrite (GRID_update_at _ _ _ _ _ (here m s1)). finish.
  - reflexivity.
Qed.

Lemma fix_correct_at (m : memory) (s : game_state) (x y : Z) :
  lies_at p gp ep m s ->
  Heap.fix_correct p x y m = commit p gp ep m (fix_correct x y s).
Proof.
  intros Hat. unfold Heap.fix_correct, fix_correct.
  rewrite (GRID_at _ _ _ _ _ Hat).
  destruct (GRID s x y) as [v| |]; settle; [|reflexivity..].
  destruct (flag_set v BALL_GUESS); apply GRID_update_at, Hat.
Qed.

Lemma count_cell_at (m : memory) (s : game_state) (x y : Z) :
  lies_at p gp ep m s ->
  Heap.count_cell p x y m = commit p gp ep m (count_cell x y s).
Proof.
  intros Hat. unfold Heap.count_cell, count_cell.
  rewrite (GRID_at _ _ _ _ _ Hat).
  destruct (GRID s x y) as [v| |]; settle; [|reflexivity..].
  rewrite (load_at _ _ _ _ _ Hat). settle.
  repeat match goal with
  | |- context [if ?b then _ else _] => destruct b
  end;
    try (unfold commit; settle; rewrite (inject_id _ _ _ _ _ Hat); reflexivity);
    match goal with
    | |- Heap.store _ _ _ = commit _ _ _ _ (mret ?s') =>
      change (Heap.store p (struct_of s' gp ep) m = Done (inject p gp ep s' m));
      apply (store_at _ _ _ _ _ Hat); reflexivity
    end.
Qed.

Lemma count_balls_at (m : memory) (s : game_state) :
  lies_at p gp ep m s ->
  Heap.count_balls p m = commit p gp ep m (count_balls s).
Proof.
  intros Hat. unfold Heap.count_balls, count_balls.
  rewrite (load_at _ _ _ _ _ Hat). settle.
  change (block.with_counts (struct_of s gp ep) 0 0 0)
    with (struct_of (with_counts s 0 0 0) gp ep).
  rewrite (store_at _ _ _ _ _ Hat) by reflexivity. settle.
  change (block.w (struct_of s gp ep)) with (w s).
  change (block.h (struct_of s gp ep)) with (h s).
  rewrite (for_arena_at p gp ep (fun _ => True) _ count_cell (w s) (h s) _
             (with_counts s 0 0 0) Hne); auto using here.
  - finish.
  - intros x y m1 s1 _ Hat1. apply count_cell_at, Hat1.
Qed.

Lemma add_omitted_at (m : memory) (s : game_state) (i x y es : Z) :
  lies_at p gp ep m s ->
  Heap.add_omitted p i x y es m = commit p gp ep m (add_omitted s i x y es).
Proof.
  intros Hat. unfold Heap.add_omitted, add_omitted.
  rewrite (exits_set_at _ _ _ _ _ Hat). unfold commit at 1.
  destruct (exits_set s i es) as [s1| |]; settle; [|reflexivity..].
  rewrite (exits_get_at _ _ _ _ _ (here m s1)).
  destruct (exits_get s1 i) as [e| |]; settle; [|reflexivity..].
  destruct ((e =? LASER_REFLECT) || (e =? LASER_HIT)).
  - rewrite (GRID_set_at _ _ _ _ _ (here m s1)). unfold commit at 1.
    destruct (GRID_set s1 x y e) as [s2| |]; settle; [|reflexivity..].
    rewrite (exits_update_at _ _ _ _ (here m s2)). finish.
  - rewrite (laserno_incr_at _ _ (here m s1)). settle.
    set (s2 := with_laserno s1 (laserno s1 + 1)).
    rewrite (range2grid_at _ _ _ _ _ (here m s2)). settle.
    destruct (range2grid s2 (to_int e)) as [[[ex ey] d]|]; settle;
      [|reflexivity].
    rewrite (GRID_set_at _ _ _ _ _ (here m s2)). unfold commit at 1.
    destruct (GRID_set s2 x y (to_unsigned (laserno s1))) as [s3| |]; settle;
      [|reflexivity..].
    rewrite (GRID_set_at _ _ _ _ _ (here m s3)). unfold commit at 1.
    destruct (GRID_set s3 ex ey (to_unsigned (laserno s1))) as [s4| |]; settle;
      [|reflexivity..].
    rewrite (exits_update_at _ _ _ _ (here m s4)). finish.
Qed.

Lemma toggle_ball_at (m : memory) (s : game_state) (gx gy : Z) :
  lies_at p gp ep m s ->
  Heap.toggle_ball p gx gy m = commit p gp ep m (toggle_ball s gx gy).
Proof.
  intros Hat. unfold Heap.toggle_ball, toggle_ball.
  rewrite (GRID_at _ _ _ _ _ Hat).
  destruct (GRID s gx gy) as [v| |]; settle; [|reflexivity..].
  rewrite (load_at _ _ _ _ _ Hat). settle.
  destruct (flag_set v BALL_GUESS).
  - change (block.with_nguesses (struct_of s gp ep)
              (block.nguesses (struct_of s gp ep) - 1))
      with (struct_of (with_nguesses s (nguesses s - 1)) gp ep).
    rewrite (store_at _ _ _ _ _ Hat) by reflexivity. settle.
    rewrite (GRID_update_at _ _ _ _ _ (here m _)). finish.
  - change (block.with_nguesses (struct_of s gp ep)
              (block.nguesses (struct_of s gp ep) + 1))
      with (struct_of (with_nguesses s (nguesses s + 1)) gp ep).
    rewrite (store_at _ _ _ _ _ Hat) by reflexivity. settle.
    rewrite (GRID_update_at _ _ _ _ _ (here m _)). finish.
Qed.

Lemma COUNTLOCK_at (m : memory) (s : game_state) (gx gy lc : Z) :
  lies_at p gp ep m s ->
  Heap.COUNTLOCK p gx gy lc m = COUNTLOCK s gx gy lc.
Proof.
  intros Hat. unfold Heap.COUNTLOCK, COUNTLOCK.
  rewrite (GRID_at _ _ _ _ _ Hat). reflexivity.
Qed.

Lemma SETLOCKIF_at (m : memory) (s : game_state) (c lc gx gy : Z) :
  lies_at p gp ep m s ->
  Heap.SETLOCKIF c lc p gx gy m = commit p gp ep m (SETLOCKIF c lc gx gy s).
Proof.
  intros Hat. unfold Heap.SETLOCKIF, SETLOCKIF.
  destruct (c <? lc); apply GRID_update_at, Hat.
Qed.

End OneState.

(** ** The check, which works on three states *)

Lemma lies_at_erase_other (p gp ep q gq eq : positive) (m : memory)
      (t : game_state) :
  apart p gp ep q gq eq -> lies_at q gq eq m t ->
  lies_at q gq eq (erase p gp ep m) t.
Proof.
  intros (H1 & H2 & H3 & H4 & H5) (Hq & Hg & He & Hne).
  unfold lies_at, erase. cbn [structs arrays].
  rewrite !lookup_delete_ne by congruence. auto.
Qed.

Lemma sized_shape (s s' : game_state) :
  sized s -> same_shape s s' -> sized s'.
Proof.
  intros [Hg He] (Hw & Hh & Hn & Hlg & Hle). unfold sized.
  rewrite Hw, Hh, Hn, Hlg, Hle. auto.
Qed.

Lemma clear_lasers_shape (s a : game_state) :
  clear_lasers s = Done a -> same_shape s a.
Proof.
  unfold clear_lasers. intros E.
  replace (nlasers s) with (0 + nlasers s) in E by lia.
  rewrite for_range_run_list in E.
  apply (run_list_inv _ (same_shape s) _ _ _ E); [apply same_shape_refl|].
  intros i t t' _ Ht Hstep.
  apply bind_Done in Hstep as ([[x y] d] & _ & Hstep).
  apply bind_Done in Hstep as (t1 & E1 & E2).
  apply GRID_set_shape in E1. apply exits_set_shape in E2.
  apply (same_shape_trans s t t' Ht), (same_shape_trans t t1 t' E1 E2).
Qed.

Section ThreeStates.
Variables (S sg se P pg pe Q qg qe : positive).
Hypothesis HS : sg <> se.
Hypothesis HP : pg <> pe.
Hypothesis HQ : qg <> qe.
Hypothesis HSP : apart S sg se P pg pe.
Hypothesis HSQ : apart S sg se Q qg qe.
Hypothesis HPQ : apart P pg pe Q qg qe.

Lemma fire_both_at (fuel : nat) (m : memory) (a b : game_state) (i : Z) :
  lies_at P pg pe m a -> lies_at Q qg qe m b ->
  Heap.fire_both fuel P Q i m
  = '(a', b') ← fire_both fuel i (a, b);
    mret (inject Q qg qe b' (inject P pg pe a' m)).
Proof.
  intros Ha Hb. unfold Heap.fire_both, fire_both.
  rewrite (range2grid_at _ _ _ _ _ Ha). settle.
  destruct (range2grid a i) as [[[x y] d]|]; settle; [|reflexivity].
  rewrite (exits_get_at _ _ _ _ _ Ha).
  destruct (exits_get a i) as [e| |]; settle; [|reflexivity..].
  assert (Hsecond : forall m1 a1,
            m1 = inject P pg pe a1 m ->
            (e0 ← Heap.exits_get Q i m1;
             if e0 =? LASER_EMPTY then Heap.fire_laser fuel Q x y d m1
             else mret m1)
            = (e0 ← exits_get b i;
               b' ← (if e0 =? LASER_EMPTY then fire_laser fuel b x y d
                     else mret b);
               mret (inject Q qg qe b' (inject P pg pe a1 m)))).
  { intros m1 a1 ->.
    pose proof (lies_at_inject_other P pg pe Q qg qe m a1 b HPQ Hb) as Hb1.
    rewrite (exits_get_at _ _ _ _ _ Hb1).
    destruct (exits_get b i) as [e0| |]; settle; [|reflexivity..].
    destruct (e0 =? LASER_EMPTY).
    - rewrite (fire_laser_at _ _ _ HQ _ _ _ _ _ _ Hb1). reflexivity.
    - settle. rewrite (inject_id _ _ _ _ _ Hb1). reflexivity. }
  destruct (e =? LASER_EMPTY).
  - rewrite (fire_laser_at _ _ _ HP _ _ _ _ _ _ Ha). unfold commit.
    destruct (fire_laser fuel a x y d) as [a1| |]; settle; [|reflexivity..].
    rewrite (Hsecond _ a1 eq_refl).
    destruct (exits_get b i) as [e0| |]; settle; [|reflexivity..].
    destruct (if e0 =? LASER_EMPTY then _ else _); reflexivity.
  - settle. rewrite (Hsecond m a (eq_sym (inject_id _ _ _ _ _ Ha))).
    destruct (exits_get b i) as [e0| |]; settle; [|reflexivity..].
    destruct (if e0 =? LASER_EMPTY then _ else _); reflexivity.
Qed.

Lemma fire_loop_at (fuel : nat) (n : nat) :
  forall (lo : Z) (m : memory) (a b : game_state),
    lies_at P pg pe m a -> lies_at Q qg qe m b ->
    for_loop n lo (Heap.fire_both fuel P Q) m
    = '(a', b') ← for_loop n lo (fire_both fuel) (a, b);
      mret (inject Q qg qe b' (inject P pg pe a' m)).
Proof.
  induction n as [|n IH]; intros lo m a b Ha Hb; cbn [for_loop]; settle.
  - rewrite (inject_id _ _ _ _ _ Ha), (inject_id _ _ _ _ _ Hb). reflexivity.
  - rewrite (fire_both_at fuel m a b lo Ha Hb).
    destruct (fire_both fuel lo (a, b)) as [[a1 b1]| |]; settle;
      [|reflexivity..].
    set (m1 := inject Q qg qe b1 (inject P pg pe a1 m)).
    assert (Ha1 : lies_at P pg pe m1 a1).
    { apply (lies_at_inject_other Q qg qe P pg pe); [apply apart_sym, HPQ|].
      apply lies_at_inject, HP. }
    assert (Hb1 : lies_at Q qg qe m1 b1) by apply lies_at_inject, HQ.
    rewrite (IH (lo + 1) m1 a1 b1 Ha1 Hb1).
    destruct (for_loop n (lo + 1) (fire_both fuel) (a1, b1)) as [[a2 b2]| |];
      settle; [|reflexivity..].
    unfold m1. f_equal.
    rewrite (inject_comm P pg pe Q qg qe _ a2 b1 HPQ).
    rewrite !inject_inject. reflexivity.
Qed.

Lemma compare_exit_at (m : memory) (st a b : game_state) (i ret : Z) :
  lies_at S sg se m st -> lies_at P pg pe m a -> lies_at Q qg qe m b ->
  Heap.compare_exit S P Q i (m, ret)
  = '(st', r) ← compare_exit a b i (st, ret);
    mret (inject S sg se st' m, r).
Proof.
  intros Hst Ha Hb. unfold Heap.compare_exit, compare_exit.
  rewrite (range2grid_at _ _ _ _ _ Ha). settle.
  destruct (range2grid a i) as [[[x y] d]|]; settle; [|reflexivity].
  rewrite (exits_get_at _ _ _ _ _ Ha).
  destruct (exits_get a i) as [es| |]; settle; [|reflexivity..].
  rewrite (exits_get_at _ _ _ _ _ Hb).
  destruct (exits_get b i) as [eg| |]; settle; [|reflexivity..].
  destruct (es =? eg).
  { settle. rewrite (inject_id _ _ _ _ _ Hst). reflexivity. }
  rewrite (exits_get_at _ _ _ _ _ Hst).
  destruct (exits_get st i) as [e| |]; settle; [|reflexivity..].
  destruct (e =? LASER_EMPTY).
  - rewrite (add_omitted_at _ _ _ HS _ _ _ _ _ _ Hst). unfold commit.
    destruct (add_omitted st i x y es); reflexivity.
  - rewrite (exits_update_at _ _ _ _ _ _ _ Hst). unfold commit.
    destruct (exits_update st i _); reflexivity.
Qed.

Lemma compare_loop_at (n : nat) (a b : game_state) :
  forall (lo : Z) (m : memory) (st : game_state) (ret : Z),
    lies_at S sg se m st -> lies_at P pg pe m a -> lies_at Q qg qe m b ->
    for_loop n lo (Heap.compare_exit S P Q) (m, ret)
    = '(st', r) ← for_loop n lo (compare_exit a b) (st, ret);
      mret (inject S sg se st' m, r).
Proof.
  induction n as [|n IH]; intros lo m st ret Hst Ha Hb; cbn [for_loop]; settle.
  - rewrite (inject_id _ _ _ _ _ Hst). reflexivity.
  - rewrite (compare_exit_at m st a b lo ret Hst Ha Hb).
    destruct (compare_exit a b lo (st, ret)) as [[st1 r1]| |]; settle;
      [|reflexivity..].
    rewrite (IH (lo + 1) (inject S sg se st1 m) st1 r1).
    + destruct (for_loop n (lo + 1) (compare_exit a b) (st1, r1))
        as [[st2 r2]| |]; settle; reflexivity.
    + apply lies_at_inject, HS.
    + apply (lies_at_inject_other S sg se P pg pe); assumption.
    + apply (lies_at_inject_other S sg se Q qg qe); assumption.
Qed.

End ThreeStates.

Ltac located :=
  solve [ repeat first
            [ assumption
            | apply lies_at_inject; assumption
            | apply lies_at_inject_other;
              [solve [assumption | apply apart_sym; assumption]|] ] ].

Lemma apart_fresh (p gp ep q gq eq : positive) (m : memory) (t : game_state) :
  lies_at p gp ep m t ->
  structs m !! q = None -> arrays m !! gq = None -> arrays m !! eq = None ->
  apart p gp ep q gq eq.
Proof.
  intros (Hp & Hg & He & _) Hq Hgq Heq.
  unfold apart. repeat split; intros ->; congruence.
Qed.

Lemma fresh_before (p gp ep q gq eq : positive) (m : memory) (a : game_state) :
  structs (inject p gp ep a m) !! q = None ->
  arrays (inject p gp ep a m) !! gq = None ->
  arrays (inject p gp ep a m) !! eq = None ->
  structs m !! q = None /\ arrays m !! gq = None /\ arrays m !! eq = None.
Proof.
  unfold inject. cbn [structs arrays]. intros H1 H2 H3.
  apply lookup_insert_None in H1 as [H1 _].
  apply lookup_insert_None in H2 as [H2 _].
  apply lookup_insert_None in H2 as [H2 _].
  apply lookup_insert_None in H3 as [H3 _].
  apply lookup_insert_None in H3 as [H3 _]. auto.
Qed.

(** The two copies of the check are released, and what is left is the
    memory before the check with the state at [S] rewritten. *)
Lemma release_two (S sg se P pg pe Q qg qe : positive) (m : memory)
      (s' a b : game_state) :
  apart S sg se P pg pe -> apart S sg se Q qg qe -> apart P pg pe Q qg qe ->
  structs m !! P = None -> arrays m !! pg = None -> arrays m !! pe = None ->
  structs m !! Q = None -> arrays m !! qg = None -> arrays m !! qe = None ->
  erase Q qg qe
    (erase P pg pe
       (inject S sg se s' (inject Q qg qe b (inject P pg pe a m))))
  = inject S sg se s' m.
Proof.
  intros HSP HSQ HPQ HP1 HP2 HP3 HQ1 HQ2 HQ3.
  rewrite (erase_inject_other P pg pe S sg se) by (apply apart_sym, HSP).
  rewrite (erase_inject_other P pg pe Q qg qe) by exact HPQ.
  rewrite erase_inject, (erase_fresh P pg pe m) by assumption.
  rewrite (erase_inject_other Q qg qe S sg se) by (apply apart_sym, HSQ).
  rewrite erase_inject, (erase_fresh Q qg qe m) by assumption.
  reflexivity.
Qed.

Lemma check_guesses_at (fuel : nat) (S sg se : positive) (m : memory)
      (s : game_state) :
  lies_at S sg se m s -> sized s ->
  Heap.check_guesses fuel S m
  = '(ret, s') ← check_guesses fuel s; mret (ret, inject S sg se s' m).
Proof.
  intros Hs Hsz. pose proof Hs as (_ & _ & _ & HS).
  unfold Heap.check_guesses, check_guesses. change (dup_game s) with s.
  destruct (dup_game_copy S sg se m s Hs Hsz)
    as (Edup & HP1 & HP2 & HP3 & HP & HSP).
  set (P := fresh (dom (structs m))) in *.
  set (pg := fresh (dom (arrays m))) in *.
  set (pe := fresh (dom (<[pg := grid s]> (arrays m)))) in *.
  rewrite Edup. settle.
  rewrite (clear_lasers_at P pg pe HP _ s) by located. unfold commit at 1.
  destruct (clear_lasers s) as [a| |] eqn:Ea; settle; [|reflexivity..].
  change (dup_game a) with a.
  assert (Hsza : sized a)
    by apply (sized_shape s a Hsz (clear_lasers_shape s a Ea)).
  assert (Ha2 : lies_at P pg pe (inject P pg pe a m) a) by located.
  assert (Hs2 : lies_at S sg se (inject P pg pe a m) s) by located.
  destruct (dup_game_copy P pg pe _ a Ha2 Hsza)
    as (Edup2 & HQ1 & HQ2 & HQ3 & HQ & HPQ).
  set (Q := fresh (dom (structs (inject P pg pe a m)))) in *.
  set (qg := fresh (dom (arrays (inject P pg pe a m)))) in *.
  set (qe := fresh (dom (<[qg := grid a]> (arrays (inject P pg pe a m))))) in *.
  pose proof (apart_fresh S sg se Q qg qe _ s Hs2 HQ1 HQ2 HQ3) as HSQ.
  destruct (fresh_before P pg pe Q qg qe m a HQ1 HQ2 HQ3) as (HQ1' & HQ2' & HQ3').
  rewrite Edup2. settle.
  (* the guesses become the balls of the second copy *)
  rewrite (load_at S sg se _ s) by located. settle.
  change (block.w (struct_of s sg se)) with (w s).
  change (block.h (struct_of s sg se)) with (h s).
  rewrite (for_arena_at Q qg qe (fun _ => True) _ guess_to_correct (w s) (h s)
             _ a HQ); auto; try located.
  2: { intros x y m1 s1 _ H1. apply guess_to_correct_at; assumption. }
  unfold commit at 1.
  destruct (for_arena (w s) (h s) guess_to_correct a) as [b| |]; settle;
    [|reflexivity..].
  (* both are fired *)
  rewrite (load_at P pg pe _ a) by located. settle.
  change (block.nlasers (struct_of a pg pe)) with (nlasers a).
  unfold for_range.
  rewrite (fire_loop_at P pg pe Q qg qe HP HQ HPQ fuel _ _ _ a b)
    by located.
  destruct (for_loop _ 0 (fire_both fuel) (a, b)) as [[a' b']| |]; settle;
    [|reflexivity..].
  rewrite (inject_comm P pg pe Q qg qe _ a' b HPQ). settle.
  (* the exits are compared *)
  rewrite (load_at P pg pe _ a') by located. settle.
  change (block.nlasers (struct_of a' pg pe)) with (nlasers a').
  rewrite (compare_loop_at S sg se P pg pe Q qg qe HS HSP HSQ _ a' b' _ _ s 1)
    by located.
  destruct (for_loop _ 0 (compare_exit a' b') (s, 1)) as [[st1 ret]| |]; settle;
    [|reflexivity..].
  rewrite (load_at S sg se _ st1) by located. settle.
  change (block.w (struct_of st1 sg se)) with (w st1).
  change (block.h (struct_of st1 sg se)) with (h st1).
  assert (Hlast : forall st2,
            lies_at S sg se
              (inject S sg se st2
                 (inject Q qg qe b' (inject P pg pe a' m))) st2 ->
            (m2 ← Heap.count_balls S
                    (inject S sg se st2
                       (inject Q qg qe b' (inject P pg pe a' m)));
             m3 ← Heap.free_game P m2;
             m4 ← Heap.free_game Q m3; mret (ret, m4))
            = ('(ret0, s') ← (s1 ← count_balls st2; mret (ret, s1));
               mret (ret0, inject S sg se s' m))).
  { intros st2 H2. rewrite (count_balls_at S sg se HS _ st2 H2).
    unfold commit at 1.
    destruct (count_balls st2) as [s'| |]; settle; [|reflexivity..].
    rewrite (free_game_at P pg pe _ a') by located. settle.
    rewrite (free_game_at Q qg qe _ b').
    2: { apply lies_at_erase_other; [exact HPQ | located]. }
    settle. rewrite release_two by assumption. reflexivity. }
  destruct (ret =? 0).
  - settle. apply Hlast. located.
  - rewrite (for_arena_at S sg se (fun _ => True) _ fix_correct (w st1) (h st1)
               _ st1 HS); auto; try located.
    2: { intros x y m1 s1 _ H1. apply fix_correct_at; assumption. }
    unfold commit at 1.
    destruct (for_arena (w st1) (h st1) fix_correct st1) as [st2| |]; settle;
      [|reflexivity..].
    apply Hlast. located.
Qed.

(** ** The move *)

Section Move.
Variables (r rg re : positive) (m : memory).
Hypothesis Hr : structs m !! r = None.
Hypothesis Hrg : arrays m !! rg = None.
Hypothesis Hre : arrays m !! re = None.
Hypothesis Hne : rg <> re.

Lemma badmove_at (s : game_state) :
  Heap.badmove r (inject r rg re s m) = Done (None, m).
Proof.
  unfold Heap.badmove.
  rewrite (free_game_at r rg re _ s) by (apply lies_at_inject, Hne).
  settle. rewrite erase_inject, erase_fresh by assumption. reflexivity.
Qed.

Lemma lock_move_at (s : game_state) (p : list ascii) :
  Heap.lock_move r p (inject r rg re s m)
  = answer r rg re m (lock_move s p).
Proof.
  pose proof (lies_at_inject r rg re m s Hne) as Hat.
  assert (Hline : forall (n : nat) (lo : Z)
                         (bp : Z -> memory -> outcome memory)
                         (b : Z -> game_state -> outcome game_state),
            (forall i m1 s1, lies_at r rg re m1 s1 ->
                             bp i m1 = commit r rg re m1 (b i s1)) ->
            (m1 ← for_loop n lo bp (inject r rg re s m); mret (Some r, m1))
            = answer r rg re m
                (s1 ← for_loop n lo b s; mret (Some s1))).
  { intros n lo bp b Hb.
    rewrite (for_loop_at r rg re (fun _ => True) bp b Hne) with (s := s);
      auto.
    unfold commit.
    destruct (for_loop n lo b s) as [s1| |]; settle; reflexivity. }
  unfold Heap.lock_move, lock_move.
  destruct p as [|c p2]; [apply badmove_at|].
  destruct (ascii_dec c "B") as [->|HB].
  { destruct (sscanf_d_d p2 (-1) (-1)) as [[gx gy]| |]; settle;
      [|reflexivity..].
    rewrite (load_at _ _ _ _ _ Hat). settle.
    change (block.w (struct_of s rg re)) with (w s).
    change (block.h (struct_of s rg re)) with (h s).
    destruct ((gx <? 1) || (gy <? 1) || (w s <? gx) || (h s <? gy));
      [apply badmove_at|].
    rewrite (GRID_update_at r rg re _ s gx gy _ Hat). unfold commit.
    destruct (GRID_update s gx gy _) as [s1| |]; settle; reflexivity. }
  destruct (ascii_dec c "C") as [->|HC].
  { destruct (sscanf_d p2 (-1)) as [gx| |]; settle; [|reflexivity..].
    rewrite (load_at _ _ _ _ _ Hat). settle.
    change (block.w (struct_of s rg re)) with (w s).
    change (block.h (struct_of s rg re)) with (h s).
    destruct ((gx <? 1) || (w s <? gx)); [apply badmove_at|].
    unfold for_range.
    rewrite (for_loop_ext
               (fun gy lc => Heap.COUNTLOCK r gx gy lc (inject r rg re s m))
               (fun gy lc => COUNTLOCK s gx gy lc)).
    2: { intros i lc. apply (COUNTLOCK_at _ _ _ _ _ _ _ _ Hat). }
    destruct (for_loop _ 1 (fun gy lc => COUNTLOCK s gx gy lc) 0)
      as [lcount| |]; settle; [|reflexivity..].
    apply (Hline _ 1). intros i m1 s1 H1.
    rewrite (load_at _ _ _ _ _ H1). settle.
    apply SETLOCKIF_at; assumption. }
  destruct (ascii_dec c "R") as [->|HR].
  { destruct (sscanf_d p2 (-1)) as [gy| |]; settle; [|reflexivity..].
    rewrite (load_at _ _ _ _ _ Hat). settle.
    change (block.w (struct_of s rg re)) with (w s).
    change (block.h (struct_of s rg re)) with (h s).
    destruct ((gy <? 1) || (h s <? gy)); [apply badmove_at|].
    unfold for_range.
    rewrite (for_loop_ext
               (fun gx lc => Heap.COUNTLOCK r gx gy lc (inject r rg re s m))
               (fun gx lc => COUNTLOCK s gx gy lc)).
    2: { intros i lc. apply (COUNTLOCK_at _ _ _ _ _ _ _ _ Hat). }
    destruct (for_loop _ 1 (fun gx lc => COUNTLOCK s gx gy lc) 0)
      as [lcount| |]; settle; [|reflexivity..].
    apply (Hline _ 1). intros i m1 s1 H1.
    rewrite (load_at _ _ _ _ _ H1). settle.
    apply SETLOCKIF_at; assumption. }
  destruct c as [[|] [|] [|] [|] [|] [|] [|] [|]];
    try (exfalso;
         solve [apply HB; reflexivity | apply HC; reflexivity
               | apply HR; reflexivity]);
    apply badmove_at.
Qed.

End Move.

(** [execute_move] over the heap does what the value-level [apply_move]
    does, on three blocks that were not allocated before. *)
Lemma execute_move_at (fuel : nat) (from gp ep : positive) (m : memory)
      (s : game_state) (move : string) :
  lies_at from gp ep m s -> sized s ->
  let r := fresh (dom (structs m)) in
  let rg := fresh (dom (arrays m)) in
  let re := fresh (dom (<[rg := grid s]> (arrays m))) in
  Heap.execute_move fuel from move m
  = answer r rg re m (apply_move fuel s (dup_game s) move).
Proof.
  intros Hs Hsz r rg re.
  destruct (dup_game_copy from gp ep m s Hs Hsz)
    as (Edup & Hr & Hrg & Hre & Hne & Hap).
  fold r rg re in Edup, Hr, Hrg, Hre, Hne, Hap.
  pose proof (lies_at_inject r rg re m s Hne) as Hat.
  assert (Hfrom : lies_at from gp ep (inject r rg re s m) s).
  { apply lies_at_inject_other; [apply apart_sym, Hap | exact Hs]. }
  unfold Heap.execute_move, apply_move. change (dup_game s) with s.
  rewrite Edup. settle.
  destruct (String.eqb move "S").
  { rewrite (load_at _ _ _ _ _ Hat). settle.
    change (block.with_reveal (struct_of s rg re) 1)
      with (struct_of (with_reveal s 1) rg re).
    rewrite (store_at _ _ _ _ _ Hat) by reflexivity. settle. reflexivity. }
  rewrite (load_at _ _ _ _ _ Hfrom). settle.
  change (block.reveal (struct_of s gp ep)) with (reveal s).
  destruct (negb (reveal s =? 0)); [apply badmove_at; assumption|].
  destruct (list_ascii_of_string move) as [|c p];
    [apply badmove_at; assumption|].
  destruct (ascii_dec c "T") as [->|HT].
  { destruct (sscanf_d_d p (-1) (-1)) as [[gx gy]| |]; settle;
      [|reflexivity..].
    rewrite (load_at _ _ _ _ _ Hat). settle.
    change (block.w (struct_of s rg re)) with (w s).
    change (block.h (struct_of s rg re)) with (h s).
    destruct ((gx <? 1) || (gy <? 1) || (w s <? gx) || (h s <? gy));
      [apply badmove_at; assumption|].
    rewrite (toggle_ball_at _ _ _ Hne _ _ _ _ Hat). unfold commit.
    destruct (toggle_ball s gx gy) as [s1| |]; settle; reflexivity. }
  destruct (ascii_dec c "F") as [->|HF].
  { destruct (sscanf_d p (-1)) as [rangeno| |]; settle; [|reflexivity..].
    rewrite (exits_get_at _ _ _ _ _ Hat).
    destruct (exits_get s rangeno) as [e| |]; settle; [|reflexivity..].
    destruct (negb (e =? LASER_EMPTY)); [apply badmove_at; assumption|].
    rewrite (range2grid_at _ _ _ _ _ Hat). settle.
    destruct (range2grid s rangeno) as [[[gx gy] d]|];
      [|apply badmove_at; assumption].
    rewrite (fire_laser_at _ _ _ Hne _ _ _ _ _ _ Hat). unfold commit.
    destruct (fire_laser fuel s gx gy d) as [s1| |]; settle; reflexivity. }
  destruct (ascii_dec c "R") as [->|HR].
  { rewrite (load_at _ _ _ _ _ Hat). settle.
    change (block.nguesses (struct_of s rg re)) with (nguesses s).
    change (block.minballs (struct_of s rg re)) with (minballs s).
    change (block.maxballs (struct_of s rg re)) with (maxballs s).
    destruct ((nguesses s <? minballs s) || (maxballs s <? nguesses s));
      [apply badmove_at; assumption|].
    rewrite (check_guesses_at fuel r rg re _ s Hat Hsz).
    destruct (check_guesses fuel s) as [[ret s1]| |]; settle;
      [|reflexivity..].
    rewrite (load_at r rg re _ s1) by (apply lies_at_inject, Hne). settle.
    change (block.with_reveal (struct_of s1 rg re) 1)
      with (struct_of (with_reveal s1 1) rg re).
    rewrite (store_at r rg re _ s1) by (apply lies_at_inject, Hne || reflexivity).
    settle. reflexivity. }
  destruct (ascii_dec c "L") as [->|HL].
  { apply lock_move_at; assumption. }
  destruct c as [[|] [|] [|] [|] [|] [|] [|] [|]];
    try (exfalso;
         solve [apply HT; reflexivity | apply HF; reflexivity
               | apply HR; reflexivity | apply HL; reflexivity]);
    apply badmove_at; assumption.
Qed.

(** ** Copy on write *)


